(* ===== verification/_CoqProject ===== *)
-Q . S2P
Prelude.v
GoStd.v
Filepath.v
Keys.v
Url.v
Packet.v
Fragment.v
Auth.v
Token.v
Endpoint.v
Relay.v
Path.v
Bind.v
Core.v
Direct.v
Capsule.v
H2.v
H2Server.v
H2Client.v
Lifecycle.v
RelayServer.v
Client.v
Files.v
Cli.v
Derp.v
Loco.v
Reach.v
AutoDirect.v
Process.v
MapCache.v
Keystore.v
Session.v
Console.v
Pipe.v
Remote.v
Command.v
BrowserWire.v
Browser.v
Web.v
