(* ===== verification/Prelude.v ===== *)
(** MasqueCat: a verification library for the program under src/.

    * The program

    MasqueCat connects two machines by a WireGuard tunnel that runs over MASQUE
    (CONNECT-UDP on HTTP/3, with HTTP/2 as a fallback, or WebTransport from a browser)
    or over Tailscale's DERP relays.  A server prints a token; a client that has the token
    dials the server directly or through a relay, proves possession of its node key, and
    exchanges WireGuard packets, on top of which a user-space TCP stack serves ports,
    files and forwarded connections.  This library models the Go code as executable
    definitions and proves what makes it correct.  Every definition that models code is
    preceded by the file, lines and name it translates.

    * Layers and files

    Shared notions.
    - Prelude: bytes, fixed-width integers, errors and results, times, tactics, lemmas.
    - GoStd: strings, hex, base64, host:port, ParseUint and http.Header of Go's library.
    - Url: net/url's parser and http.Request.
    - Filepath: path and filepath of Go's library, as far as keys and caches use them.
    - Process: a process that reads and writes a disk and may end, as a monad.
    - Keys: the interface of tailscale.com/types/key, with a toy instance for witnesses.

    What goes over the wire.
    - Packet (masquecat_transport.go): packet header, CONNECT-UDP targets, forwarders.
    - Fragment (masquecat_fragment.go): WireGuard packets cut into fragments and put
      together again within limits.
    - Auth (masquecat_auth.go): the challenge and the proof of a node key.
    - Token (masquecat_token.go): connection tokens and TLS certificate pins.
    - Endpoint (masquecat_transport.go, masquecat_h2.go, masquecat_h2_proxy_request.go,
      masquecat_webtransport.go): URL templates, request parsing, accepting a stream.
    - Capsule, H2, H2Server, H2Client (masquecat_h2.go, masquecat_h2_client.go): datagram
      capsules, frames, flow control, the dedicated server and client connection.

    Who carries packets.
    - Relay (masquecat_h3_server.go, masquecat_webtransport.go): the registry of a relay,
      the admission of native and browser peers, and its sessions, interleaved.
    - Path (masquecat_transport.go): a client's reconnecting path to a relay or server.
    - Direct (masquecat_direct.go): a server's own endpoint next to its relay path.

    WireGuard and the nodes.
    - Bind, Core (masquecat_core.go): WireGuard's bind and TUN; peers, allowlist, the TCP
      forwarding decision and address resolution.
    - Lifecycle, Client (masquecat.go): starting and closing a server and a client.
    - RelayServer (masquecat_webtransport.go, masquecat_h3_server.go, cmd/masquecat-relay):
      the stand-alone relay, its listeners and its certificate.
    - BrowserWire, Browser (masquecat_browser_js.go): the same for the js/wasm build.

    The DERP transport.
    - Derp (wire.go, pickregion.go, tailcat.go): blobs, the DERP map, region choice.
    - Loco (disco.go, tailcat.go): the backend, the server and client, the meow handshake.
    - Reach (tailcat.go): what they open and close, their histories, pings, dials and drains.

    What users see.
    - Files (tailcat_sftp.go, tailcat_files.go): the rooted SFTP service.
    - Session, Console (tailcat_ssh*.go): the SSH server's sessions, their commands and
      copying goroutines; terminals on Unix and pseudoconsoles on Windows.
    - Cli, AutoDirect (cmd/tailcat): flags of the two servers, the automatic direct endpoint.
    - MapCache, Keystore (cmd/tailcat): the DERP map on disk, key files and genkey.
    - Pipe (tailcat.go, cmd/tailcat): forwarded connections, and standard input and output
      as two processes' ends of a connection.
    - Remote, Command (cmd/tailcat): the client commands, with the command line they make for
      OpenSSH, and the frame around all commands.
    - Web (web/main_js.go): what a page can call.

    How they meet: Fragment is called by Bind and Direct; Bind by Core; Packet by every
    carrier; Auth by Relay, Direct and the HTTP/2 dial; Endpoint by Relay, Direct, H2Server
    and H2Client; Token by Client, Browser and AutoDirect.  Theorems that cross components
    are in the higher file: H2Client.h2_downstream_delivers joins Capsule, H2Server and
    H2Client; Direct.injected_payload_is_authentic joins Auth, Direct, Core and Bind;
    Browser.browser_is_admitted joins Browser, Relay and Auth; BrowserWire relates the
    browser's code to Fragment and Bind; AutoDirect.auto_direct_end_to_end joins
    AutoDirect and Token; Keystore.saved_key_loads joins Keystore, Process and Derp;
    Reach.derp_address_connects joins Derp, Loco and Reach; MapCache.disk_cache_refines_memory
    relates MapCache to Derp's cache in memory; Cli.servers_hand_out_alike relates the two
    servers.

    * How code becomes definitions

    - A [[]byte] or Go string is a list of bytes; an int is a Z, and a width matters where
      wrap-around can happen ([u16], [u32], [u64]).  Errors are values of [gerror]; a call
      that can fail is a [result].  Error texts keep their format string.
    - A struct is a Record, a map a [gmap].  A pointer that is compared or shared is a
      number (channel pairs in Bind, peers in Relay, paths, sessions, resources).
    - What the code asks of the outside is an argument: clocks, random bytes, the order in
      which Go ranges over a map, the results of system and library calls.  A theorem
      that quantifies over them holds for all their answers.
    - A function that blocks yields [None] while it does.  Goroutines that interleave are
      a step relation whose steps are the critical sections between two lock operations
      ([auth_step], [relay_step], [path_step], [bind_step], [direct_step],
      [client_op_step], [browser_step], [conpty_step], ...); properties of all executions are proved by
      induction over the relation's reachable states.
    - Third-party code is a class of operations and, where the program relies on
      documented behaviour, a class of laws: KeyOps/KeyLaws (node keys: raw and text
      forms are inverse, a sealed box opens), VarintOps/VarintLaws (QUIC integers),
      MasqueLib (URI templates and masque-go's request parser), TokenOps/TokenLaws (the
      token's codec and sha256), ControlCodec/BrowserCodec/JSONLaws (control messages of ASCII text),
      the codecs of Derp, the disco sealing of Loco, KeyFileOps/KeyFileLaws (JSON of a key
      file), ShellOps/ShellLaws (quoting for a shell).  Each class of laws has a concrete
      instance, on which the witnesses run.

    * What the theorems show

    - Packets arrive: fragments in any order give back the packet (Fragment, Bind), a
      relay delivers between registered peers of either kind (Relay), HTTP/2 flow control
      loses nothing (H2Client), browser and native peers interoperate (BrowserWire).
    - Packets are authentic: only the proved owner of a source key is relayed (Relay) or
      fed into WireGuard (Direct); an accepted proof answers a challenge that was issued
      for the same key, target and mode and was not used before (Auth).
    - Handshakes complete, for native peers (Auth), browsers (Browser) and the DERP
      transport, from the address a server gives out to the dial (Loco, Reach).
    - Limits hold under any traffic: challenges (Auth), assemblies (Fragment), capsules
      and receive loops, which also terminate (Capsule), DATA within the peer's flow-control
      credit (H2Server), one session per key (Relay).
    - Nothing leaks and nothing is used after it was closed: paths (Path), servers
      (Lifecycle, RelayServer; but for a listener whose accept loop failed), clients
      (Client, Browser, Reach), consoles (Console), with starts, failures, operations and
      Close interleaved.
    - Streams end well: a forwarded connection carries every byte and its half-closes
      (Pipe), a session's exit follows its output (Session), a pipe between two processes
      loses nothing unless one of them says so (Pipe).
    - What is on disk stays usable: a saved key loads (Keystore), genkey changes nothing
      else, a certificate bundle is never torn (AutoDirect), the cache on disk is the cache
      in memory (MapCache).
    - Tokens and blobs round-trip, pins pin (Token, Derp, AutoDirect), and a client never
      dials without verification unless told to (Client).
    - Access control: the device's peers are the admitted ones (Core, Loco); the ports,
      files and destinations that flags grant are the ones that are served (Cli, Files), and
      a command given to OpenSSH reaches the server that was named (Remote).
    Some theorems describe behaviour that the code's comments do not promise or rule out:
    Path.failed_send_can_kill_the_path, Fragment.fragment_id_collision,
    H2Server.failed_accept_leaks_listener, Files.drop_box_adopts_existing_files,
    Derp.resolve_loses_relays, Browser.abandoned_session_stays_open,
    Browser.operation_may_find_no_core, BrowserWire.wrong_length_costs_the_packet,
    Loco.only_first_ping_waits, Keystore.plain_key_crashes_legacy_server,
    Pipe.Netcat.masque_server_loses_silently, Pipe.Netcat.masque_client_hangs_without_input,
    Console.wide_window_is_empty, Console.drive_entries_collapse,
    Remote.bare_ipv6_port_is_a_pattern, Remote.local_path_as_option,
    Command.dns_name_taken_for_token, Web.automatic_region_is_not_fixed.

    * Fuel and bounds

    Recursion is structural wherever the code's is.  Where a loop is not, its fuel is
    computed from its input and is proved or plainly enough: cutting a packet advances by
    1000 bytes in each of at most [length payload] rounds (fragment_loop_spec); a receive
    loop of Capsule consumes at least one byte of its input per round, and
    receive_is_total_and_bounded proves that it ends with a result; writing a body in
    chunks takes at most one round per byte; decimal digits of a 64-bit integer are at
    most 20; an IPv6 address has 8 groups.

    * Not modelled

    - WireGuard, gVisor, QUIC, TLS, HTTP/3, HPACK, CBOR, JSON, WebTransport, the SFTP and
      SSH protocols and Tailscale's engine: third-party code, parameters here.
    - Operating systems: processes, terminals, pseudoconsoles, sockets and disks are the
      results of the calls on them; Process, Session and Console quantify over those.
    - Texts: help, prompts, progress, QR codes, log lines, and the listing ls prints.
    - ff's command line parser, OpenSSH itself and the resolver; which command a command
      line selects is ff's, what it does with its arguments is Remote's and Command's.
    - Status reports, which ask other components and keep nothing; the page's own
      JavaScript, the servers of static files, build tools and generators.
    - Timing other than deadlines compared with a clock; memory use; the Go memory model
      (a critical section is atomic, a field read without a lock is read at one moment). *)

From stdpp Require Export base gmap strings list numbers sorting.
From Stdlib Require Import Strings.Byte.
From Stdlib Require Export ZArith Lia.
Open Scope Z_scope.
#[export] Set Warnings "-register-all,-clear-no-such-hyp".

(** * Bytes

    A Go [byte] is Rocq's [Byte.byte]; a [[]byte] is a [list byte].  A Go [int]
    is a [Z]; the fixed-width unsigned types are [Z] with explicit wrap-around. *)

Abbreviation byte := Init.Byte.byte.

#[global] Instance byte_eq_dec : EqDecision byte := Byte.byte_eq_dec.

#[global] Program Instance byte_countable : Countable byte :=
  inj_countable Byte.to_N Byte.of_N _.
Next Obligation. intros b. apply Byte.of_to_N. Qed.

#[global] Instance byte_inhabited : Inhabited byte := populate x00.

Definition b2z (b : byte) : Z := Z.of_N (Byte.to_N b).

Definition z2b (z : Z) : byte :=
  default x00 (Byte.of_N (Z.to_N (z mod 256))).

Definition zlen {A} (l : list A) : Z := Z.of_nat (length l).

(** Widths of the unsigned machine integers the code uses. *)
Definition u8 (z : Z) : Z := z mod 2 ^ 8.
Definition u16 (z : Z) : Z := z mod 2 ^ 16.
Definition u32 (z : Z) : Z := z mod 2 ^ 32.
Definition u64 (z : Z) : Z := z mod 2 ^ 64.

(** The two's-complement value of a 64-bit signed integer. *)
Definition s64 (z : Z) : Z := (z + 2 ^ 63) mod 2 ^ 64 - 2 ^ 63.

(** [encoding/binary.BigEndian]: the [n]-byte big-endian form of [z] and back. *)
Fixpoint be_put (n : nat) (z : Z) : list byte :=
  match n with
  | O => []
  | S n' => z2b (Z.shiftr z (8 * Z.of_nat n')) :: be_put n' z
  end.

Definition be_get (l : list byte) : Z :=
  foldl (fun acc b => Z.lor (Z.shiftl acc 8) (b2z b)) 0 l.

(** [s[a:b]] of a Go slice, for [0 <= a <= b <= len s]. *)
Definition slice {A} (a b : Z) (l : list A) : list A :=
  take (Z.to_nat (b - a)) (drop (Z.to_nat a) l).

(** [bytes.HasPrefix]. *)
Fixpoint has_prefix {A} `{EqDecision A} (p s : list A) : bool :=
  match p, s with
  | [], _ => true
  | _ :: _, [] => false
  | x :: p', y :: s' => bool_decide (x = y) && has_prefix p' s'
  end.

(** * Errors and results

    A Go [error] value.  Formatted errors keep the format string (the arguments
    only fill in the text); [%w] wrapping and [errors.Join] keep the wrapped
    errors, because [errors.Is] looks through them.  Errors that come from code
    outside the program are [ErrExt] with an opaque identifier. *)
Inductive gerror : Type :=
  | ErrNew (msg : string)
  | ErrWrap (msg : string) (e : gerror)
  | ErrJoin (es : list gerror)
  | NetErrClosed
  | HTTPErrServerClosed
  | IOEOF
  | IOErrUnexpectedEOF
  | IOErrShortBuffer
  | OSErrClosed
  | OSErrNotExist
  | CtxCanceled
  | CtxDeadlineExceeded
  | ConnErrBindAlreadyOpen
  | ConnErrWrongEndpointType
  | ErrMasqueChallengeLimit
  | SFTPErrPermissionDenied
  | SFTPErrNoSuchFile
  | SFTPErrOpUnsupported
  | ErrExt (n : N).

(** [errors.Is target e] for a comparable sentinel, given by its test. *)
Fixpoint errors_is (test : gerror -> bool) (e : gerror) : bool :=
  test e ||
  match e with
  | ErrWrap _ e' => errors_is test e'
  | ErrJoin es => existsb (errors_is test) es
  | _ => false
  end.

Definition is_net_closed (e : gerror) : bool :=
  match e with NetErrClosed => true | _ => false end.
Definition is_server_closed (e : gerror) : bool :=
  match e with HTTPErrServerClosed => true | _ => false end.
Definition is_eof (e : gerror) : bool :=
  match e with IOEOF => true | _ => false end.
Definition is_not_exist (e : gerror) : bool :=
  match e with OSErrNotExist => true | _ => false end.
Definition is_canceled (e : gerror) : bool :=
  match e with CtxCanceled => true | _ => false end.
Definition is_challenge_limit (e : gerror) : bool :=
  match e with ErrMasqueChallengeLimit => true | _ => false end.

(** [errors.Join] of the non-nil errors of a list; [nil] when there is none. *)
Definition errors_join (es : list (option gerror)) : option gerror :=
  match omap id es with
  | [] => None
  | es' => Some (ErrJoin es')
  end.

Inductive result (A : Type) : Type :=
  | Ok (a : A)
  | Err (e : gerror).
Arguments Ok {A} _.
Arguments Err {A} _.

Definition is_ok {A} (r : result A) : bool :=
  match r with Ok _ => true | Err _ => false end.

Definition rbind {A B} (r : result A) (f : A -> result B) : result B :=
  match r with Ok a => f a | Err e => Err e end.

Declare Scope go_scope.
Delimit Scope go_scope with go.
Notation "'let?' x ':=' r 'in' k" := (rbind r (fun x => k))
  (at level 10, x pattern, r at level 100, k at level 200) : go_scope.
Notation "'guard!' b 'or' e 'in' k" := (if b then k else Err e)
  (at level 10, b at level 100, e at level 100, k at level 200) : go_scope.
Open Scope go_scope.

(** Time: [time.Time] as nanoseconds, [time.Duration] as nanoseconds. *)
Definition Nanosecond : Z := 1.
Definition Microsecond : Z := 1000.
Definition Millisecond : Z := 1000 * Microsecond.
Definition Second : Z := 1000 * Millisecond.

(** * Automation *)

Create HintDb masque discriminated.

(** Turn boolean tests of the code into propositions. *)
Ltac bool_to_prop :=
  repeat match goal with
  | H : _ && _ = true |- _ => apply andb_true_iff in H as [? ?]
  | H : _ || _ = false |- _ => apply orb_false_iff in H as [? ?]
  | H : negb _ = true |- _ => apply negb_true_iff in H
  | H : negb _ = false |- _ => apply negb_false_iff in H
  | H : bool_decide _ = true |- _ => apply bool_decide_eq_true in H
  | H : bool_decide _ = false |- _ => apply bool_decide_eq_false in H
  | H : (_ <? _) = true |- _ => apply Z.ltb_lt in H
  | H : (_ <? _) = false |- _ => apply Z.ltb_ge in H
  | H : (_ <=? _) = true |- _ => apply Z.leb_le in H
  | H : (_ <=? _) = false |- _ => apply Z.leb_gt in H
  | H : (_ =? _) = true |- _ => apply Z.eqb_eq in H
  | H : (_ =? _) = false |- _ => apply Z.eqb_neq in H
  end.

(** Case on every [if] and [match] of the goal, clearing absurd branches. *)
Ltac split_ifs :=
  repeat (case_match; simplify_eq/=; try done); bool_to_prop.

(** Case on the guards of a hypothesis that states the result of an operation. *)
Ltac inv_op H :=
  repeat match type of H with
  | context [ match ?x with _ => _ end ] =>
      let E := fresh "E" in destruct x eqn:E; simplify_eq/=; try done
  end; bool_to_prop.

(** Prove a closed equation by evaluating both sides in the virtual machine. *)
Ltac vm_reflexivity :=
  match goal with
  | |- _ = ?b => vm_cast_no_check (eq_refl b)
  | |- _ => vm_compute; reflexivity
  end.

(** Prove a closed decidable proposition by evaluation. *)
Ltac by_evaluation :=
  match goal with
  | |- ?P => refine (bool_decide_unpack P _); vm_compute; exact I
  end.

(** * Generic lemmas *)

Lemma b2z_range b : 0 <= b2z b < 256.
Proof. unfold b2z. pose proof (Byte.to_N_bounded b). lia. Qed.

Lemma b2z_inj b1 b2 : b2z b1 = b2z b2 -> b1 = b2.
Proof.
  unfold b2z. intros H%N2Z.inj.
  pose proof (Byte.of_to_N b1) as E1. pose proof (Byte.of_to_N b2) as E2.
  rewrite H in E1. congruence.
Qed.

Lemma b2z_z2b z : b2z (z2b z) = z mod 256.
Proof.
  unfold b2z, z2b. pose proof (Z.mod_pos_bound z 256 ltac:(lia)).
  destruct (Byte.of_N _) as [b|] eqn:E; simpl.
  - apply Byte.to_of_N in E. rewrite E. lia.
  - apply Byte.of_N_None_iff in E. lia.
Qed.

Lemma z2b_b2z b : z2b (b2z b) = b.
Proof.
  apply b2z_inj. rewrite b2z_z2b. apply Z.mod_small. pose proof (b2z_range b). lia.
Qed.

Lemma length_be_put n z : length (be_put n z) = n.
Proof. induction n; simpl; congruence. Qed.

Lemma be_get_app_byte l b :
  be_get (l ++ [b]) = Z.lor (Z.shiftl (be_get l) 8) (b2z b).
Proof. unfold be_get. by rewrite foldl_app. Qed.

Lemma shiftl_lor_byte a b : Z.lor (Z.shiftl a 8) (b2z b) = a * 256 + b2z b.
Proof.
  pose proof (b2z_range b) as Hb.
  rewrite Z.shiftl_mul_pow2 by lia. change (2 ^ 8) with 256.
  symmetry. rewrite <- Z.add_lor_land.
  replace (Z.land (a * 256) (b2z b)) with 0; [lia|].
  apply Z.bits_inj'. intros n Hn. rewrite Z.bits_0, Z.land_spec.
  destruct (Z.lt_ge_cases n 8).
  - change 256 with (2 ^ 8). rewrite Z.mul_pow2_bits_low by lia. done.
  - assert (2 ^ 8 <= 2 ^ n) by (apply Z.pow_le_mono_r; lia).
    replace (Z.testbit (b2z b) n) with false; [by rewrite andb_false_r|].
    symmetry. apply Z.testbit_false; [lia|]. rewrite Z.div_small by lia. done.
Qed.

Lemma be_get_acc l acc :
  foldl (fun acc b => Z.lor (Z.shiftl acc 8) (b2z b)) acc l
  = acc * 256 ^ zlen l + be_get l.
Proof.
  unfold be_get, zlen. revert acc. induction l as [|b l IH]; intros acc; simpl foldl.
  - simpl. lia.
  - rewrite IH, (IH (Z.lor _ _)), !shiftl_lor_byte.
    cbn [length]. rewrite Nat2Z.inj_succ, Z.pow_succ_r by lia. lia.
Qed.

Lemma be_get_cons b l : be_get (b :: l) = b2z b * 256 ^ zlen l + be_get l.
Proof. unfold be_get at 1. cbn [foldl]. rewrite be_get_acc, shiftl_lor_byte. lia. Qed.

Lemma be_get_put n z : be_get (be_put n z) = z mod 256 ^ Z.of_nat n.
Proof.
  induction n as [|n IH].
  - cbn. by rewrite Z.mod_1_r.
  - cbn [be_put]. rewrite be_get_cons, IH, b2z_z2b.
    unfold zlen. rewrite length_be_put, Nat2Z.inj_succ, Z.pow_succ_r by lia.
    rewrite Z.shiftr_div_pow2, Z.pow_mul_r by lia. change (2 ^ 8) with 256.
    rewrite (Z.mul_comm 256), Z.rem_mul_r by lia. lia.
Qed.

Lemma be_get_put_small n z :
  0 <= z < 256 ^ Z.of_nat n -> be_get (be_put n z) = z.
Proof. intros. rewrite be_get_put. by apply Z.mod_small. Qed.

Lemma be_get_range l : 0 <= be_get l < 256 ^ zlen l.
Proof.
  induction l as [|b l IH]; [done|].
  rewrite be_get_cons. pose proof (b2z_range b). unfold zlen in *. cbn [length].
  rewrite Nat2Z.inj_succ, Z.pow_succ_r by lia. nia.
Qed.

Lemma zlen_nonneg {A} (l : list A) : 0 <= zlen l.
Proof. unfold zlen. lia. Qed.

Lemma zlen_app {A} (l k : list A) : zlen (l ++ k) = zlen l + zlen k.
Proof. unfold zlen. rewrite length_app. lia. Qed.

Lemma zlen_cons {A} (x : A) l : zlen (x :: l) = 1 + zlen l.
Proof. unfold zlen. simpl. lia. Qed.

Lemma zlen_nil {A} : zlen (@nil A) = 0.
Proof. done. Qed.

Create Rewrite HintDb zlen.
#[export] Hint Rewrite @zlen_app @zlen_cons @zlen_nil : zlen.
#[export] Hint Resolve zlen_nonneg : masque.

Lemma slice_app_r {A} a b (l k : list A) :
  zlen l = a -> slice a b (l ++ k) = take (Z.to_nat (b - a)) k.
Proof.
  intros <-. unfold slice, zlen. rewrite Nat2Z.id. by rewrite drop_app_length.
Qed.

Lemma slice_app_mid {A} a b (l m r : list A) :
  zlen l = a -> zlen m = b - a -> slice a b (l ++ m ++ r) = m.
Proof.
  intros Hl Hm. rewrite slice_app_r by done. rewrite <- Hm. unfold zlen.
  rewrite Nat2Z.id. apply take_app_length.
Qed.

Lemma has_prefix_spec {A} `{EqDecision A} (p s : list A) :
  has_prefix p s = true <-> p `prefix_of` s.
Proof.
  revert s. induction p as [|x p IH]; intros s; simpl.
  { split; [intros _; apply prefix_nil | done]. }
  destruct s as [|y s].
  { split; [done|]. intros [k Hk]. done. }
  rewrite andb_true_iff, bool_decide_eq_true, IH. split.
  - intros [-> ?]. by apply prefix_cons.
  - intros [k Hk]. simplify_eq/=. split; [done|]. by exists k.
Qed.

Lemma has_prefix_app {A} `{EqDecision A} (p s : list A) : has_prefix p (p ++ s) = true.
Proof. apply has_prefix_spec. by exists s. Qed.

Lemma rbind_ok {A B} (r : result A) (f : A -> result B) b :
  rbind r f = Ok b -> exists a, r = Ok a /\ f a = Ok b.
Proof. destruct r; simpl; [eauto|done]. Qed.

Lemma submseteq_filter {A} (P : A -> Prop) `{!forall x, Decision (P x)} (l k : list A) :
  l ⊆+ k -> filter P l ⊆+ filter P k.
Proof.
  induction 1 as [|x l k _ IH|x y l|x l k _ IH|l k m _ IH1 _ IH2].
  - done.
  - rewrite !filter_cons. case_decide; [by constructor | done].
  - rewrite !filter_cons. repeat case_decide; try done. by constructor.
  - rewrite filter_cons. case_decide; [by constructor | done].
  - by etrans.
Qed.

Lemma filter_all {A} (P : A -> Prop) `{!forall x, Decision (P x)} (l : list A) :
  Forall P l -> filter P l = l.
Proof.
  induction 1 as [|x l Hx _ IH]; [done|]. rewrite filter_cons, decide_True by done. by f_equal.
Qed.

(** The number of entries of a map whose key and value satisfy a predicate. *)
Definition count_map `{Countable K} {V} (P : K * V -> Prop) `{!forall x, Decision (P x)}
    (m : gmap K V) : nat :=
  length (filter P (map_to_list m)).

Section count_map.
Context `{Countable K} {V : Type} (P : K * V -> Prop) `{!forall x, Decision (P x)}.
Implicit Types m : gmap K V.

Lemma count_map_perm m l :
  l ≡ₚ map_to_list m -> length (filter P l) = count_map P m.
Proof. intros Hl. unfold count_map. by rewrite Hl. Qed.

Lemma count_map_size m : (count_map P m <= size m)%nat.
Proof.
  unfold count_map. rewrite <- length_map_to_list. apply length_filter.
Qed.

Lemma count_map_insert_None m k v :
  m !! k = None ->
  count_map P (<[k:=v]> m) = ((if decide (P (k, v)) then 1 else 0) + count_map P m)%nat.
Proof.
  intros Hk. unfold count_map. rewrite map_to_list_insert by done.
  rewrite filter_cons. by case_decide.
Qed.

Lemma count_map_delete_le m k : (count_map P (delete k m) <= count_map P m)%nat.
Proof.
  destruct (m !! k) as [v|] eqn:Hk.
  - rewrite <- (insert_delete_id m k v) at 2 by done.
    rewrite count_map_insert_None by apply lookup_delete_eq. lia.
  - by rewrite delete_id.
Qed.

Lemma count_map_subseteq m1 m2 : m1 ⊆ m2 -> (count_map P m1 <= count_map P m2)%nat.
Proof.
  intros Hsub. unfold count_map. apply submseteq_length.
  apply submseteq_filter. by apply map_to_list_submseteq.
Qed.
End count_map.
