(* ===== verification/GoStd.v ===== *)
(** GoStd: the parts of the Go standard library the modelled code calls.

    Go strings are byte sequences, so a Go [string] and a [[]byte] are both a
    [list byte] here and the conversions between them are the identity.
    Literals are written [B "text"].  The file covers [strings], [encoding/hex],
    [encoding/base64] (RawURLEncoding), [net.SplitHostPort]/[JoinHostPort],
    [strconv.ParseUint] and [net/http.Header], with the round-trip lemmas the
    components use. *)

From S2P Require Import Prelude.
From Stdlib Require Import Strings.Byte.

Abbreviation gostring := (list byte).

Definition B (s : string) : gostring := String.list_byte_of_string s.
Arguments B _%_string : simpl never.

(** * strings *)

Module Strings.
Definition HasPrefix (s p : gostring) : bool := has_prefix p s.
Definition HasSuffix (s p : gostring) : bool := has_prefix (rev p) (rev s).

Definition CutPrefix (s p : gostring) : gostring * bool :=
  if HasPrefix s p then (drop (length p) s, true) else (s, false).
Definition TrimPrefix (s p : gostring) : gostring := fst (CutPrefix s p).
Definition CutSuffix (s p : gostring) : gostring * bool :=
  if HasSuffix s p then (take (length s - length p) s, true) else (s, false).
Definition TrimSuffix (s p : gostring) : gostring := fst (CutSuffix s p).

(** [strings.IndexByte] and [strings.LastIndexByte]; [None] for -1. *)
Definition IndexByte (s : gostring) (c : byte) : option nat :=
  fst <$> list_find (fun b => b = c) s.
Definition LastIndexByte (s : gostring) (c : byte) : option nat :=
  (fun i => (length s - 1 - i)%nat) <$> IndexByte (rev s) c.
Definition ContainsByte (s : gostring) (c : byte) : bool :=
  bool_decide (c ∈ s).
Definition ContainsAny (s cs : gostring) : bool :=
  existsb (fun b => bool_decide (b ∈ cs)) s.

(** [strings.LastIndex s p]: the greatest offset at which [p] occurs. *)
Fixpoint LastIndex_from (n : nat) (s p : gostring) : option nat :=
  if has_prefix p (drop n s) then Some n
  else match n with O => None | S n' => LastIndex_from n' s p end.
Definition LastIndex (s p : gostring) : option nat := LastIndex_from (length s) s p.

(** [strings.Split s sep] for a one-byte separator. *)
Fixpoint SplitByte (s : gostring) (c : byte) : list gostring :=
  match s with
  | [] => [[]]
  | b :: s' =>
      if bool_decide (b = c) then [] :: SplitByte s' c
      else match SplitByte s' c with
           | [] => [[b]]
           | w :: ws => (b :: w) :: ws
           end
  end.

(** [strings.Cut s sep] for a one-byte separator. *)
Definition CutByte (s : gostring) (c : byte) : gostring * gostring * bool :=
  match IndexByte s c with
  | Some i => (take i s, drop (S i) s, true)
  | None => (s, [], false)
  end.

Definition is_upper (b : byte) : bool := (65 <=? b2z b) && (b2z b <=? 90).
Definition is_lower (b : byte) : bool := (97 <=? b2z b) && (b2z b <=? 122).
Definition is_digit (b : byte) : bool := (48 <=? b2z b) && (b2z b <=? 57).
Definition lower (b : byte) : byte := if is_upper b then z2b (b2z b + 32) else b.
Definition upper (b : byte) : byte := if is_lower b then z2b (b2z b - 32) else b.

(** ASCII case mapping: the program applies it to header names, schemes, host
    names and flag values, which are ASCII. *)
Definition ToLower (s : gostring) : gostring := lower <$> s.
Definition EqualFold (a b : gostring) : bool := bool_decide (ToLower a = ToLower b).

Definition is_space (b : byte) : bool :=
  (b2z b =? 32) || ((9 <=? b2z b) && (b2z b <=? 13)).
Fixpoint trim_left (s : gostring) : gostring :=
  match s with
  | b :: s' => if is_space b then trim_left s' else s
  | [] => []
  end.
Definition TrimSpace (s : gostring) : gostring := rev (trim_left (rev (trim_left s))).

Definition join (sep : gostring) (l : list gostring) : gostring :=
  match l with
  | [] => []
  | w :: ws => w ++ concat ((fun x => sep ++ x) <$> ws)
  end.
End Strings.

(** Text that every codec keeps: encoding/json replaces what is not valid UTF-8. *)
Definition ascii (s : gostring) : bool := forallb (fun b => b2z b <? 128) s.

(** * encoding/hex *)

Module Hex.
Definition digit (n : Z) : byte :=
  if n <? 10 then z2b (48 + n) else z2b (87 + n).
Definition value (b : byte) : option Z :=
  let z := b2z b in
  if (48 <=? z) && (z <=? 57) then Some (z - 48)
  else if (97 <=? z) && (z <=? 102) then Some (z - 87)
  else if (65 <=? z) && (z <=? 70) then Some (z - 55)
  else None.

Definition EncodeToString (l : list byte) : gostring :=
  concat ((fun b => [digit (b2z b / 16); digit (b2z b mod 16)]) <$> l).

Fixpoint DecodeString (s : gostring) : option (list byte) :=
  match s with
  | [] => Some []
  | [_] => None
  | a :: b :: s' =>
      match value a, value b, DecodeString s' with
      | Some x, Some y, Some l => Some (z2b (x * 16 + y) :: l)
      | _, _, _ => None
      end
  end.
End Hex.

(** * encoding/base64, RawURLEncoding *)

Module Base64.
Definition alphabet : list byte :=
  B "ABCDEFGHIJKLMNOPQRSTUVWXYZabcdefghijklmnopqrstuvwxyz0123456789-_".

Definition char (n : Z) : byte := default x00 (alphabet !! Z.to_nat n).
Definition value (b : byte) : option Z :=
  let z := b2z b in
  if (65 <=? z) && (z <=? 90) then Some (z - 65)
  else if (97 <=? z) && (z <=? 122) then Some (z - 71)
  else if (48 <=? z) && (z <=? 57) then Some (z + 4)
  else if z =? 45 then Some 62
  else if z =? 95 then Some 63
  else None.

Fixpoint EncodeToString (l : list byte) : gostring :=
  match l with
  | [] => []
  | [a] => [char (b2z a / 4); char (b2z a mod 4 * 16)]
  | [a; b] =>
      [char (b2z a / 4); char (b2z a mod 4 * 16 + b2z b / 16);
       char (b2z b mod 16 * 4)]
  | a :: b :: c :: l' =>
      char (b2z a / 4) :: char (b2z a mod 4 * 16 + b2z b / 16) ::
      char (b2z b mod 16 * 4 + b2z c / 64) :: char (b2z c mod 64) ::
      EncodeToString l'
  end.

(** A quantum of four characters carries three bytes; without padding the last
    one has two or three characters, and its spare low bits are ignored. *)
Fixpoint decode_quanta (s : gostring) : option (list byte) :=
  match s with
  | [] => Some []
  | [_] => None
  | [a; b] =>
      match value a, value b with
      | Some x, Some y => Some [z2b (x * 4 + y / 16)]
      | _, _ => None
      end
  | [a; b; c] =>
      match value a, value b, value c with
      | Some x, Some y, Some z =>
          Some [z2b (x * 4 + y / 16); z2b (y mod 16 * 16 + z / 4)]
      | _, _, _ => None
      end
  | a :: b :: c :: d :: s' =>
      match value a, value b, value c, value d, decode_quanta s' with
      | Some x, Some y, Some z, Some w, Some l =>
          Some (z2b (x * 4 + y / 16) :: z2b (y mod 16 * 16 + z / 4) ::
                z2b (z mod 4 * 64 + w) :: l)
      | _, _, _, _, _ => None
      end
  end.

Definition is_newline (b : byte) : bool := (b2z b =? 10) || (b2z b =? 13).

(** The decoder skips carriage returns and line feeds. *)
Definition DecodeString (s : gostring) : result (list byte) :=
  match decode_quanta (List.filter (fun b => negb (is_newline b)) s) with
  | Some l => Ok l
  | None => Err (ErrNew "illegal base64 data at input byte %d")
  end.
End Base64.

(** * net *)

Module Net.
Import Strings.
Definition colon : byte := ":"%byte.
Definition lbrack : byte := "["%byte.
Definition rbrack : byte := "]"%byte.

Definition SplitHostPort (hostport : gostring) : result (gostring * gostring) :=
  match LastIndexByte hostport colon with
  | None => Err (ErrNew "missing port in address")
  | Some i =>
      let finish (host : gostring) (j k : nat) :=
        if ContainsByte (drop j hostport) lbrack
        then Err (ErrNew "unexpected '[' in address")
        else if ContainsByte (drop k hostport) rbrack
        then Err (ErrNew "unexpected ']' in address")
        else Ok (host, drop (S i) hostport) in
      if bool_decide (head hostport = Some lbrack) then
        match IndexByte hostport rbrack with
        | None => Err (ErrNew "missing ']' in address")
        | Some e =>
            if bool_decide (S e = length hostport)
            then Err (ErrNew "missing port in address")
            else if bool_decide (S e = i)
            then finish (slice 1 (Z.of_nat e) hostport) 1%nat (S e)
            else if bool_decide (hostport !! S e = Some colon)
            then Err (ErrNew "too many colons in address")
            else Err (ErrNew "missing port in address")
        end
      else
        let host := take i hostport in
        if ContainsByte host colon
        then Err (ErrNew "too many colons in address")
        else finish host 0%nat 0%nat
  end.

Definition JoinHostPort (host port : gostring) : gostring :=
  if ContainsByte host colon
  then lbrack :: host ++ rbrack :: colon :: port
  else host ++ colon :: port.
End Net.

(** * strconv *)

Module Strconv.
Import Strings.

Definition digits_value (s : gostring) : Z :=
  foldl (fun acc b => acc * 10 + (b2z b - 48)) 0 s.

(** [strconv.ParseUint s 10 16]. *)
Definition ParseUint16 (s : gostring) : result Z :=
  if bool_decide (s = []) || negb (forallb is_digit s)
  then Err (ErrNew "invalid syntax")
  else if 65535 <? digits_value s
  then Err (ErrNew "value out of range")
  else Ok (digits_value s).

(** [strconv.Atoi] *)
Definition Atoi (s : gostring) : result Z :=
  let '(neg, ds) :=
    match s with
    | c :: ds => if bool_decide (c = "-"%byte) then (true, ds)
                 else if bool_decide (c = "+"%byte) then (false, ds) else (false, s)
    | [] => (false, s)
    end in
  if bool_decide (ds = []) || negb (forallb is_digit ds) then Err (ErrNew "invalid syntax")
  else
    let v := if neg : bool then - digits_value ds else digits_value ds in
    guard! (- 2 ^ 63 <=? v) && (v <? 2 ^ 63) or ErrNew "value out of range" in Ok v.

(** [strconv.Itoa] *)
Fixpoint itoa_fuel (fuel : nat) (n : Z) (acc : gostring) : gostring :=
  match fuel with
  | O => acc
  | S f =>
      let acc' := z2b (48 + n mod 10) :: acc in
      if n <? 10 then acc' else itoa_fuel f (n / 10) acc'
  end.
Definition Itoa (n : Z) : gostring :=
  if n <? 0 then "-"%byte :: itoa_fuel 20 (- n) [] else itoa_fuel 20 n [].
End Strconv.

(** * net/http.Header

    A header maps canonical names to value lists.  [CanonicalHeaderKey] returns a
    name with a byte outside the token alphabet unchanged. *)

Module HTTP.
Import Strings.

Definition header : Type := gmap gostring (list gostring).

Definition is_token_byte (b : byte) : bool :=
  is_upper b || is_lower b || is_digit b ||
  bool_decide (b ∈ B "!#$%&'*+-.^_`|~").

Fixpoint canon_from (up : bool) (s : gostring) : gostring :=
  match s with
  | [] => []
  | b :: s' => (if up then upper b else lower b) :: canon_from (bool_decide (b = "-"%byte)) s'
  end.

Definition CanonicalHeaderKey (s : gostring) : gostring :=
  if forallb is_token_byte s then canon_from true s else s.

Definition Get (h : gmap gostring (list gostring)) (k : gostring) : gostring :=
  match h !! CanonicalHeaderKey k with
  | Some (v :: _) => v
  | _ => []
  end.
Definition Set_ (h : gmap gostring (list gostring)) (k v : gostring) : gmap gostring (list gostring) :=
  <[CanonicalHeaderKey k := [v]]> h.
Definition Add (h : gmap gostring (list gostring)) (k v : gostring) : gmap gostring (list gostring) :=
  let ck := CanonicalHeaderKey k in
  <[ck := default [] (h !! ck) ++ [v]]> h.

Definition Del (h : gmap gostring (list gostring)) (k : gostring) : gmap gostring (list gostring) :=
  delete (CanonicalHeaderKey k) h.

(** An [http.ResponseWriter]: the header map, the status of the first
    [WriteHeader] and the body written so far. *)
Record responseWriter : Type := ResponseWriter {
  w_header : gmap gostring (list gostring);
  w_status : option Z;
  w_body : list byte;
}.

Definition newResponse : responseWriter := ResponseWriter ∅ None [].

Definition setHeader (w : responseWriter) (k v : gostring) : responseWriter :=
  ResponseWriter (Set_ (w_header w) k v) (w_status w) (w_body w).

(** [w.WriteHeader]: only the first call counts. *)
Definition WriteHeader (w : responseWriter) (code : Z) : responseWriter :=
  ResponseWriter (w_header w)
    (match w_status w with None => Some code | Some c => Some c end) (w_body w).

(** [http.Error]. *)
Definition Error (w : responseWriter) (msg : gostring) (code : Z) : responseWriter :=
  let h := Del (w_header w) (B "Content-Length") in
  let h := Set_ h (B "Content-Type") (B "text/plain; charset=utf-8") in
  let h := Set_ h (B "X-Content-Type-Options") (B "nosniff") in
  let w := WriteHeader (ResponseWriter h (w_status w) (w_body w)) code in
  ResponseWriter (w_header w) (w_status w) (w_body w ++ msg ++ [x0a]).

Definition StatusOK : Z := 200.
Definition StatusBadRequest : Z := 400.
Definition StatusUnauthorized : Z := 401.
Definition StatusForbidden : Z := 403.
Definition StatusNotFound : Z := 404.
Definition StatusConflict : Z := 409.
Definition StatusTooManyRequests : Z := 429.
Definition StatusInternalServerError : Z := 500.
Definition StatusNotImplemented : Z := 501.

(** [http.StatusText] *)
Definition status_texts : list (Z * string) :=
  [(100, "Continue"); (101, "Switching Protocols"); (102, "Processing"); (103, "Early Hints");
   (200, "OK"); (201, "Created"); (202, "Accepted"); (203, "Non-Authoritative Information");
   (204, "No Content"); (205, "Reset Content"); (206, "Partial Content"); (207, "Multi-Status");
   (208, "Already Reported"); (226, "IM Used");
   (300, "Multiple Choices"); (301, "Moved Permanently"); (302, "Found"); (303, "See Other");
   (304, "Not Modified"); (305, "Use Proxy"); (307, "Temporary Redirect"); (308, "Permanent Redirect");
   (400, "Bad Request"); (401, "Unauthorized"); (402, "Payment Required"); (403, "Forbidden");
   (404, "Not Found"); (405, "Method Not Allowed"); (406, "Not Acceptable");
   (407, "Proxy Authentication Required"); (408, "Request Timeout"); (409, "Conflict"); (410, "Gone");
   (411, "Length Required"); (412, "Precondition Failed"); (413, "Request Entity Too Large");
   (414, "Request URI Too Long"); (415, "Unsupported Media Type"); (416, "Requested Range Not Satisfiable");
   (417, "Expectation Failed"); (418, "I'm a teapot"); (421, "Misdirected Request");
   (422, "Unprocessable Entity"); (423, "Locked"); (424, "Failed Dependency"); (425, "Too Early");
   (426, "Upgrade Required"); (428, "Precondition Required"); (429, "Too Many Requests");
   (431, "Request Header Fields Too Large"); (451, "Unavailable For Legal Reasons");
   (500, "Internal Server Error"); (501, "Not Implemented"); (502, "Bad Gateway");
   (503, "Service Unavailable"); (504, "Gateway Timeout"); (505, "HTTP Version Not Supported");
   (506, "Variant Also Negotiates"); (507, "Insufficient Storage"); (508, "Loop Detected");
   (510, "Not Extended"); (511, "Network Authentication Required")].
Definition StatusText (code : Z) : gostring :=
  match find (fun p => p.1 =? code) status_texts with Some (_, s) => B s | None => [] end.
End HTTP.

(** * Lemmas *)

Lemma cut_prefix_found s p r : Strings.CutPrefix s p = (r, true) -> s = p ++ r.
Proof.
  unfold Strings.CutPrefix, Strings.HasPrefix. destruct (has_prefix p s) eqn:E; [|done].
  apply has_prefix_spec in E as [k ->]. intros [= <-]. by rewrite drop_app_length.
Qed.

Lemma cut_prefix_app p s : Strings.CutPrefix (p ++ s) p = (s, true).
Proof.
  unfold Strings.CutPrefix, Strings.HasPrefix. rewrite has_prefix_app.
  by rewrite drop_app_length.
Qed.

Lemma cut_suffix_app s p : Strings.CutSuffix (s ++ p) p = (s, true).
Proof.
  unfold Strings.CutSuffix, Strings.HasSuffix. rewrite rev_app_distr, has_prefix_app.
  rewrite length_app. replace (length s + length p - length p)%nat with (length s) by lia.
  by rewrite take_app_length.
Qed.

(** A decidable fact about a small range of integers, checked by evaluation. *)
Lemma forall_range (P : Z -> bool) (n : nat) :
  forallb (fun i => P (Z.of_nat i)) (seq 0 n) = true ->
  forall i, 0 <= i < Z.of_nat n -> P i = true.
Proof.
  intros Hall i Hi. rewrite forallb_forall in Hall.
  specialize (Hall (Z.to_nat i)). rewrite Z2Nat.id in Hall by lia.
  apply Hall, in_seq. lia.
Qed.

Lemma hex_value_digit n : 0 <= n < 16 -> Hex.value (Hex.digit n) = Some n.
Proof.
  intros Hn.
  pose proof (forall_range (fun n => bool_decide (Hex.value (Hex.digit n) = Some n))
                16 eq_refl n Hn) as H.
  by apply bool_decide_eq_true in H.
Qed.

Lemma hex_decode_encode l : Hex.DecodeString (Hex.EncodeToString l) = Some l.
Proof.
  induction l as [|b l IH]; [done|].
  pose proof (b2z_range b).
  change (Hex.EncodeToString (b :: l)) with
    (Hex.digit (b2z b / 16) :: Hex.digit (b2z b mod 16) :: Hex.EncodeToString l).
  cbn [Hex.DecodeString]. rewrite !hex_value_digit, IH.
  - do 2 f_equal. apply b2z_inj. rewrite b2z_z2b.
    rewrite <- (Z.mod_small (b2z b) 256) at 3 by lia. f_equal.
    pose proof (Z.div_mod (b2z b) 16). lia.
  - apply Z.mod_pos_bound. lia.
  - split; [apply Z.div_pos; lia | apply Z.div_lt_upper_bound; lia].
Qed.

Lemma length_hex_encode l : length (Hex.EncodeToString l) = (2 * length l)%nat.
Proof.
  induction l as [|b l IH]; [done|].
  change (S (S (length (Hex.EncodeToString l))) = (2 * S (length l))%nat). lia.
Qed.

(** Hex text consists of lower-case hexadecimal digits. *)
Definition is_hex_digit (b : byte) : bool :=
  Strings.is_digit b || ((97 <=? b2z b) && (b2z b <=? 102)).

Lemma hex_digit_range n : 0 <= n < 16 -> is_hex_digit (Hex.digit n) = true.
Proof. by apply (forall_range (fun n => is_hex_digit (Hex.digit n)) 16). Qed.

Lemma hex_encode_digits l : Forall (fun b => is_hex_digit b = true) (Hex.EncodeToString l).
Proof.
  induction l as [|b l IH]; [constructor|].
  pose proof (b2z_range b). cbn. repeat constructor; [| |done].
  - apply hex_digit_range. split; [apply Z.div_pos; lia | apply Z.div_lt_upper_bound; lia].
  - apply hex_digit_range. apply Z.mod_pos_bound. lia.
Qed.

Lemma ascii_Forall s : Forall (fun b => b2z b < 128) s -> ascii s = true.
Proof.
  intros H. apply forallb_forall. intros b Hb%list_elem_of_In. rewrite Forall_forall in H. by apply Z.ltb_lt, H.
Qed.

Lemma ascii_app s s' : ascii (s ++ s') = ascii s && ascii s'.
Proof. apply forallb_app. Qed.

Lemma hex_ascii l : ascii (Hex.EncodeToString l) = true.
Proof.
  apply ascii_Forall. eapply Forall_impl; [apply hex_encode_digits|]. intros b. unfold is_hex_digit, Strings.is_digit.
  rewrite orb_true_iff, !andb_true_iff, !Z.leb_le. lia.
Qed.

Lemma base64_value_char n : 0 <= n < 64 -> Base64.value (Base64.char n) = Some n.
Proof.
  intros Hn.
  pose proof (forall_range (fun n => bool_decide (Base64.value (Base64.char n) = Some n))
                64 eq_refl n Hn) as H.
  by apply bool_decide_eq_true in H.
Qed.

Lemma base64_char_ascii n : 0 <= n < 64 -> (b2z (Base64.char n) <? 128) = true.
Proof. by apply (forall_range (fun n => b2z (Base64.char n) <? 128) 64). Qed.

Lemma base64_char_not_newline n : 0 <= n < 64 -> Base64.is_newline (Base64.char n) = false.
Proof.
  intros Hn. apply negb_true_iff.
  by apply (forall_range (fun n => negb (Base64.is_newline (Base64.char n))) 64).
Qed.

(** Induction three elements at a time. *)
Lemma list_ind3 {A} (P : list A -> Prop) :
  P [] -> (forall a, P [a]) -> (forall a b, P [a; b]) ->
  (forall a b c l, P l -> P (a :: b :: c :: l)) -> forall l, P l.
Proof.
  intros H0 H1 H2 H3 l.
  enough (P l /\ (forall a, P (a :: l)) /\ (forall a b, P (a :: b :: l))) by tauto.
  induction l as [|x l (IH1 & IH2 & IH3)]; eauto.
Qed.

Ltac sextet_bounds :=
  repeat match goal with
  | |- context [b2z ?b] =>
      lazymatch goal with
      | H : 0 <= b2z b < 256 |- _ => fail
      | _ => pose proof (b2z_range b)
      end
  end.

Ltac Zify.zify_post_hook ::= Z.div_mod_to_equations.

Lemma base64_quanta_encode l : Base64.decode_quanta (Base64.EncodeToString l) = Some l.
Proof.
  induction l as [|a|a b|a b c l IH] using list_ind3; [done|..];
    cbn [Base64.EncodeToString Base64.decode_quanta]; sextet_bounds;
    rewrite !base64_value_char by lia; [..|rewrite IH];
    repeat f_equal; apply b2z_inj; rewrite b2z_z2b; lia.
Qed.

Lemma base64_no_newline l :
  List.filter (fun b => negb (Base64.is_newline b)) (Base64.EncodeToString l)
  = Base64.EncodeToString l.
Proof.
  induction l as [|a|a b|a b c l IH] using list_ind3; [done|..];
    cbn [Base64.EncodeToString List.filter]; sextet_bounds;
    rewrite !base64_char_not_newline by lia; simpl; [done|done|].
  by rewrite IH.
Qed.

Lemma base64_ascii l : ascii (Base64.EncodeToString l) = true.
Proof.
  unfold ascii. induction l as [|a|a b|a b c l IH] using list_ind3; [done|..];
    cbn [Base64.EncodeToString forallb]; sextet_bounds; rewrite !base64_char_ascii by lia; simpl; done.
Qed.

Ltac Zify.zify_post_hook ::= idtac.

Lemma base64_decode_encode l : Base64.DecodeString (Base64.EncodeToString l) = Ok l.
Proof. unfold Base64.DecodeString. by rewrite base64_no_newline, base64_quanta_encode. Qed.

(** The first and the last occurrence of a byte. *)
Lemma index_byte_app x c y : c ∉ x -> Strings.IndexByte (x ++ c :: y) c = Some (length x).
Proof.
  intros Hx. unfold Strings.IndexByte.
  assert (list_find (fun b => b = c) (x ++ c :: y) = Some (length x, c)) as ->; [|done].
  apply list_find_Some. repeat split.
  - rewrite lookup_app_r by lia. by rewrite Nat.sub_diag.
  - intros j z Hj Hlt ->. rewrite lookup_app_l in Hj by lia. by apply list_elem_of_lookup_2 in Hj.
Qed.

Lemma index_byte_none x c : c ∉ x -> Strings.IndexByte x c = None.
Proof.
  intros Hx. unfold Strings.IndexByte. assert (list_find (fun b => b = c) x = None) as ->; [|done].
  apply list_find_None. apply Forall_forall. by intros b Hb ->.
Qed.

Lemma not_in_rev (c : byte) x : c ∉ x -> c ∉ rev x.
Proof. intros H. rewrite list_elem_of_In in *. by rewrite <- in_rev. Qed.

Lemma last_index_byte_app x c y : c ∉ y -> Strings.LastIndexByte (x ++ c :: y) c = Some (length x).
Proof.
  intros Hy. unfold Strings.LastIndexByte. rewrite rev_app_distr. simpl rev. rewrite <- app_assoc. simpl.
  rewrite (index_byte_app _ _ _ (not_in_rev _ _ Hy)). simpl. f_equal. rewrite length_app, length_rev. simpl. lia.
Qed.

Lemma last_index_byte_none x c : c ∉ x -> Strings.LastIndexByte x c = None.
Proof. intros Hx. unfold Strings.LastIndexByte. by rewrite (index_byte_none _ _ (not_in_rev _ _ Hx)). Qed.

Lemma cut_byte_app x c y : c ∉ x -> Strings.CutByte (x ++ c :: y) c = (x, y, true).
Proof.
  intros Hx. unfold Strings.CutByte. rewrite (index_byte_app x c y Hx), take_app_length.
  rewrite drop_app_ge by lia. by replace (S (length x) - length x)%nat with 1%nat by lia.
Qed.

Lemma cut_byte_none x c : c ∉ x -> Strings.CutByte x c = (x, [], false).
Proof. intros Hx. unfold Strings.CutByte. by rewrite (index_byte_none x c Hx). Qed.

(** [SplitHostPort] of a plain [host:port] with no bracket or extra colon. *)
Lemma split_host_port_plain host port :
  Net.colon ∉ host -> Net.colon ∉ port ->
  Net.lbrack ∉ host ++ port -> Net.rbrack ∉ host ++ port ->
  Net.SplitHostPort (host ++ Net.colon :: port) = Ok (host, port).
Proof.
  intros Hh Hp Hl Hr.
  pose proof (last_index_byte_app host Net.colon port Hp) as Hi.
  unfold Net.SplitHostPort. rewrite Hi.
  assert (Hhead : head (host ++ Net.colon :: port) <> Some Net.lbrack).
  { destruct host as [|b host]; simpl; [done|]. intros [= ->]. set_solver. }
  rewrite bool_decide_eq_false_2 by done.
  rewrite take_app_length. unfold Strings.ContainsByte.
  rewrite (bool_decide_eq_false_2 (Net.colon ∈ host)) by done.
  simpl drop at 1 2. rewrite !bool_decide_eq_false_2; [|set_solver..].
  do 2 f_equal. rewrite drop_app_ge by lia.
  by replace (S (length host) - length host)%nat with 1%nat by lia.
Qed.

(** * Responses *)

(** The request was answered with an HTTP error. *)
Definition error_status (w : HTTP.responseWriter) : Prop :=
  exists s, HTTP.w_status w = Some s /\ 400 <= s < 600.

Lemma error_response msg code : 400 <= code < 600 -> error_status (HTTP.Error HTTP.newResponse msg code).
Proof. intros. by exists code. Qed.

(** * Decimal numbers *)

Lemma digit_of (n : Z) : 0 <= n < 10 -> Strings.is_digit (z2b (48 + n)) = true /\ b2z (z2b (48 + n)) = 48 + n.
Proof.
  intros Hn. rewrite b2z_z2b, Z.mod_small by lia. unfold Strings.is_digit.
  rewrite b2z_z2b, Z.mod_small by lia. split; [|done]. apply andb_true_iff; lia.
Qed.

Lemma itoa_fuel_spec fuel n acc :
  0 <= n < 10 ^ Z.of_nat fuel -> forallb Strings.is_digit acc = true ->
  forallb Strings.is_digit (Strconv.itoa_fuel fuel n acc) = true /\
  Strconv.digits_value (Strconv.itoa_fuel fuel n acc) = n * 10 ^ zlen acc + Strconv.digits_value acc.
Proof.
  assert (forall l a, foldl (fun acc b => acc * 10 + (b2z b - 48)) a l =
            a * 10 ^ zlen l + Strconv.digits_value l) as Hfold.
  { unfold Strconv.digits_value. intros l. induction l as [|b l IH]; intros a.
    - rewrite zlen_nil. simpl. lia.
    - cbn [foldl]. rewrite IH, (IH (0 * 10 + (b2z b - 48))), zlen_cons.
      rewrite Z.pow_add_r by (pose proof (zlen_nonneg l); lia). lia. }
  revert n acc. induction fuel as [|fuel IH]; intros n acc Hn Hacc.
  { simpl in *. assert (n = 0) as -> by lia. split; [done|lia]. }
  assert (0 <= n mod 10 < 10) as Hd by (apply Z.mod_pos_bound; lia).
  destruct (digit_of _ Hd) as [Hdig Hval]. simpl.
  assert (forallb Strings.is_digit (z2b (48 + n mod 10) :: acc) = true) as Hacc' by (simpl; by rewrite Hdig).
  assert (Strconv.digits_value (z2b (48 + n mod 10) :: acc) = n mod 10 * 10 ^ zlen acc + Strconv.digits_value acc) as Hv.
  { unfold Strconv.digits_value at 1. simpl. rewrite Hfold, Hval. f_equal. f_equal. lia. }
  destruct (n <? 10) eqn:E; bool_to_prop.
  - split; [done|]. rewrite Hv. rewrite Z.mod_small by lia. done.
  - destruct (IH (n / 10) (z2b (48 + n mod 10) :: acc)) as [H1 H2]; [|done|].
    { split; [apply Z.div_pos; lia|]. apply Z.div_lt_upper_bound; [lia|].
      rewrite <- Z.pow_succ_r by lia. rewrite <- Nat2Z.inj_succ. lia. }
    split; [done|]. rewrite H2, Hv, zlen_cons, Z.pow_add_r by (pose proof (zlen_nonneg acc); lia).
    rewrite (Z.div_mod n 10) at 3 by lia. lia.
Qed.

Lemma itoa_nonempty fuel n acc : (0 < fuel)%nat -> Strconv.itoa_fuel fuel n acc <> [].
Proof.
  intros Hf. destruct fuel as [|fuel]; [lia|]. clear Hf. revert n acc.
  induction fuel as [|fuel IH]; intros n acc; simpl; destruct (n <? 10); try done. apply IH.
Qed.

(** A decimal number reads back. *)
Lemma atoi_itoa n : 0 <= n < 2 ^ 63 -> Strconv.Atoi (Strconv.Itoa n) = Ok n.
Proof.
  intros Hn. unfold Strconv.Itoa. rewrite (proj2 (Z.ltb_ge _ _)) by lia.
  destruct (itoa_fuel_spec 20 n []) as [Hd Hv]; [|done|].
  { split; [lia|]. transitivity (2 ^ 63); [lia|]. by vm_compute. }
  rewrite zlen_nil in Hv. change (Strconv.digits_value []) with 0 in Hv.
  unfold Strconv.Atoi. pose proof (itoa_nonempty 20 n [] ltac:(lia)) as Hne.
  destruct (Strconv.itoa_fuel 20 n []) as [|c ds] eqn:Hs; [done|].
  assert (Strings.is_digit c = true) as Hc by (simpl in Hd; by apply andb_true_iff in Hd as [? _]).
  destruct (bool_decide_reflect (c = "-"%byte)) as [->|_]; [done|].
  destruct (bool_decide_reflect (c = "+"%byte)) as [->|_]; [done|].
  rewrite bool_decide_eq_false_2 by done. rewrite Hd. simpl. unfold Strconv.digits_value in *. simpl in *.
  rewrite Hv. rewrite (proj2 (Z.leb_le _ _)), (proj2 (Z.ltb_lt _ _)) by lia. simpl. f_equal. lia.
Qed.
