(* ===== verification/Filepath.v ===== *)
(** Filepath: the path functions of Go's library.

    [path.Clean] and path/filepath's [Clean], [Join] and [Dir] where the separator is a
    slash, with what the program relies on: a name without a slash that is joined to a
    directory is directly inside that directory. *)

From S2P Require Import Prelude GoStd.
From Stdlib Require Import Strings.Byte.

Module Path.
Definition dot : gostring := B ".".
Definition dotdot : gostring := B "..".
Definition slash : byte := "/"%byte.

(** One element of the path against the elements kept so far, last first. *)
Definition clean_step (rooted : bool) (kept : list gostring) (elem : gostring) : list gostring :=
  if bool_decide (elem = []) || bool_decide (elem = dot) then kept
  else if bool_decide (elem = dotdot) then
    match kept with
    | top :: kept' => if bool_decide (top = dotdot) then dotdot :: kept else kept'
    | [] => if rooted then [] else [dotdot]
    end
  else elem :: kept.

Definition rooted (p : gostring) : bool := Strings.HasPrefix p [slash].

(** The elements that are left of a path. *)
Definition Elems (p : gostring) : list gostring :=
  rev (foldl (clean_step (rooted p)) [] (Strings.SplitByte p slash)).

(** [path.Clean], and [filepath.Clean] where the separator is a slash *)
Definition Clean (p : gostring) : gostring :=
  let body := Strings.join [slash] (Elems p) in
  if rooted p then slash :: body else if bool_decide (body = []) then dot else body.

(** [filepath.Join] *)
Fixpoint Join (elems : list gostring) : gostring :=
  match elems with
  | [] => []
  | e :: es => if bool_decide (e = []) then Join es else Clean (Strings.join [slash] elems)
  end.

(** [filepath.Dir] *)
Definition Dir (p : gostring) : gostring :=
  Clean (match Strings.LastIndexByte p slash with Some i => take (S i) p | None => [] end).
End Path.

(** * Elements *)

(** An element of a path below the root. *)
Definition good_elem (e : gostring) : Prop := e <> [] /\ e <> Path.dot /\ e <> Path.dotdot /\ Path.slash ∉ e.

Lemma split_no_sep s c : Forall (fun e => c ∉ e) (Strings.SplitByte s c).
Proof.
  induction s as [|b s IH]; simpl; [by repeat constructor; apply not_elem_of_nil|].
  case_bool_decide as Hb; [constructor; [apply not_elem_of_nil|done]|].
  destruct (Strings.SplitByte s c) as [|w ws]; [repeat constructor; set_solver|].
  apply Forall_cons in IH as [? ?]. constructor; [set_solver|done].
Qed.

Lemma split_join_one e c : c ∉ e -> Strings.SplitByte e c = [e].
Proof.
  induction e as [|b e IH]; intros He; simpl; [done|].
  rewrite bool_decide_eq_false_2 by set_solver. by rewrite IH by set_solver.
Qed.

Lemma split_app_sep e c rest : c ∉ e -> Strings.SplitByte (e ++ c :: rest) c = e :: Strings.SplitByte rest c.
Proof.
  induction e as [|b e IH]; intros He; simpl; [by rewrite bool_decide_eq_true_2|].
  rewrite bool_decide_eq_false_2 by set_solver. by rewrite IH by set_solver.
Qed.

Lemma split_join e es c : Forall (fun e => c ∉ e) (e :: es) -> Strings.SplitByte (Strings.join [c] (e :: es)) c = e :: es.
Proof.
  revert e. induction es as [|e2 es IH]; intros e [He Hes]%Forall_cons; simpl.
  { rewrite app_nil_r. by apply split_join_one. }
  rewrite split_app_sep by done. f_equal. apply (IH e2 Hes).
Qed.

Lemma clean_step_good kept elem :
  Forall good_elem kept -> Path.slash ∉ elem -> Forall good_elem (Path.clean_step true kept elem).
Proof.
  intros Hk He. unfold Path.clean_step. destruct (bool_decide (elem = []) || bool_decide (elem = Path.dot)) eqn:E; [done|].
  bool_to_prop. case_bool_decide as Hd.
  - destruct kept as [|top kept]; [done|]. apply Forall_cons in Hk as [(_ & _ & Ht & _) ?].
    by rewrite bool_decide_eq_false_2.
  - by constructor.
Qed.


Lemma elems_good p : Path.rooted p = true -> Forall good_elem (Path.Elems p).
Proof.
  intros Hr. unfold Path.Elems. rewrite Hr. apply Forall_rev. pose proof (split_no_sep p Path.slash) as Hs.
  assert (Forall good_elem []) as H0 by constructor. revert H0. generalize (@nil gostring).
  induction Hs as [|e es He _ IH]; intros kept Hk; simpl; [done|]. by apply IH, clean_step_good.
Qed.

Lemma split_app s c rest : Strings.SplitByte (s ++ c :: rest) c = Strings.SplitByte s c ++ Strings.SplitByte rest c.
Proof.
  induction s as [|b s IH]; simpl; [by rewrite bool_decide_eq_true_2|].
  rewrite IH. destruct (bool_decide (b = c)); [done|].
  pose proof (split_no_sep s c) as Hn. destruct (Strings.SplitByte s c) eqn:E; [|done].
  exfalso. destruct s as [|b' s]; simpl in E; [done|]. destruct (bool_decide _); [done|]. by destruct (Strings.SplitByte s c).
Qed.

Lemma join_snoc sep es e : es <> [] -> Strings.join sep (es ++ [e]) = Strings.join sep es ++ sep ++ e.
Proof.
  destruct es as [|e0 es]; [done|]. intros _. simpl. rewrite <- app_assoc. f_equal.
  rewrite fmap_app, concat_app. simpl. by rewrite app_nil_r.
Qed.

(** * A child of a directory *)

Lemma elems_child p e : p <> [] -> good_elem e -> Path.Elems (p ++ Path.slash :: e) = Path.Elems p ++ [e].
Proof.
  intros Hp (He1 & He2 & He3 & He4). unfold Path.Elems.
  assert (Path.rooted (p ++ Path.slash :: e) = Path.rooted p) as ->.
  { destruct p as [|b p]; [done|]. unfold Path.rooted, Strings.HasPrefix. simpl. by destruct p. }
  rewrite split_app, (split_join_one e), foldl_app by done. cbn [foldl]. unfold Path.clean_step at 1.
  by rewrite !bool_decide_eq_false_2.
Qed.

Lemma clean_child p e :
  p <> [] -> Path.Elems p <> [] -> good_elem e -> Path.Clean (p ++ Path.slash :: e) = Path.Clean p ++ Path.slash :: e.
Proof.
  intros Hp He Hg. unfold Path.Clean. rewrite elems_child, join_snoc by done.
  assert (Path.rooted (p ++ Path.slash :: e) = Path.rooted p) as ->.
  { destruct p as [|b p]; [done|]. unfold Path.rooted, Strings.HasPrefix. simpl. by destruct p. }
  destruct (Path.rooted p); [done|].
  rewrite bool_decide_eq_false_2 by (by destruct (Strings.join _ _)).
  case_bool_decide as Hj; [|done]. exfalso. destruct Hg as (Hg & _).
  destruct (Path.Elems p) as [|e0 es] eqn:E; [done|]. simpl in Hj. apply app_nil in Hj as [-> Hj].
  assert (Forall (fun x => x <> []) (Path.Elems p)) as Hne.
  { unfold Path.Elems. apply Forall_rev. generalize (Strings.SplitByte p Path.slash). intros l.
    assert (Forall (fun x : gostring => x <> []) []) as H0 by constructor. revert H0. generalize (@nil gostring).
    induction l as [|x l IH]; intros kept Hk; simpl; [done|]. apply IH. unfold Path.clean_step.
    destruct (bool_decide (x = []) || bool_decide (x = Path.dot)) eqn:Ex; [done|]. bool_to_prop.
    destruct (bool_decide (x = Path.dotdot)); [|by constructor].
    destruct kept as [|top kept]; [destruct (Path.rooted p); by repeat constructor|].
    apply Forall_cons in Hk as [? ?]. destruct (bool_decide (top = Path.dotdot)); [by repeat constructor|done]. }
  rewrite E in Hne. by apply Forall_cons in Hne as [? _].
Qed.

Lemma join_child l d e :
  good_elem d -> good_elem e -> Path.Join (l ++ [d; e]) = Path.Join (l ++ [d]) ++ Path.slash :: e.
Proof.
  intros Hd He. assert (d <> []) as Hd0 by (by destruct Hd).
  induction l as [|x l IH]; cbn [Path.Join app].
  - rewrite !(bool_decide_eq_false_2 (d = [])) by done.
    change (Strings.join [Path.slash] [d; e]) with (Strings.join [Path.slash] ([d] ++ [e])). rewrite join_snoc by done.
    change (?a ++ [Path.slash] ++ ?b) with (a ++ Path.slash :: b).
    assert (Strings.join [Path.slash] [d] = d) as -> by apply app_nil_r.
    apply clean_child; [done| |done]. unfold Path.Elems. destruct Hd as (? & ? & ? & ?).
    rewrite split_join_one by done. simpl. unfold Path.clean_step. by rewrite !bool_decide_eq_false_2.
  - destruct (bool_decide (x = [])) eqn:Ex; [done|]. bool_to_prop.
    change (x :: l ++ [d; e]) with ((x :: l) ++ [d] ++ [e]). rewrite app_assoc, join_snoc by done.
    change ((x :: l) ++ [d]) with (x :: (l ++ [d])). apply clean_child; [|clear IH|done].
    + destruct x; [done|]. done.
    + change (x :: l ++ [d]) with ((x :: l) ++ [d]). rewrite join_snoc by done.
      change (?a ++ [Path.slash] ++ ?b) with (a ++ Path.slash :: b). rewrite elems_child; [by destruct (Path.Elems _)| |done].
      destruct x; [done|]. done.
Qed.

(** * Cleaning what is clean *)

Lemma fold_good r es kept : Forall good_elem es -> foldl (Path.clean_step r) kept es = rev es ++ kept.
Proof.
  intros Hg. revert kept. induction Hg as [|e es (H1 & H2 & H3 & _) _ IH]; intros kept; simpl; [done|].
  rewrite IH. unfold Path.clean_step. rewrite !bool_decide_eq_false_2 by done. simpl. by rewrite <- app_assoc.
Qed.

Lemma rooted_clean p : Path.rooted p = true -> Path.rooted (Path.Clean p) = true.
Proof. intros Hr. unfold Path.Clean. rewrite Hr. done. Qed.

Lemma elems_clean p : Path.rooted p = true -> Path.Elems (Path.Clean p) = Path.Elems p.
Proof.
  intros Hr. pose proof (elems_good p Hr) as Hg. unfold Path.Elems at 1. rewrite rooted_clean by done.
  unfold Path.Clean. rewrite Hr. cbn [Strings.SplitByte]. rewrite bool_decide_eq_true_2 by done. cbn [foldl].
  change (Path.clean_step true [] []) with (@nil gostring).
  destruct (Path.Elems p) as [|e es]; [done|].
  rewrite split_join by (eapply Forall_impl; [exact Hg|]; by intros x (_ & _ & _ & ?)).
  rewrite fold_good by done. by rewrite app_nil_r, rev_involutive.
Qed.

Lemma elems_slash p : p <> [] -> Path.Elems (p ++ [Path.slash]) = Path.Elems p.
Proof.
  intros Hp. unfold Path.Elems. rewrite split_app, foldl_app.
  assert (Path.rooted (p ++ [Path.slash]) = Path.rooted p) as ->; [|done].
  destruct p as [|b p]; [done|]. unfold Path.rooted, Strings.HasPrefix. simpl. by destruct p.
Qed.

(** The directory of a name that was joined to a clean rooted path is that path. *)
Lemma dir_child p e :
  Path.rooted p = true -> Path.slash ∉ e -> Path.Dir (Path.Clean p ++ Path.slash :: e) = Path.Clean p.
Proof.
  intros Hr He. pose proof (rooted_clean p Hr) as Hrc. unfold Path.Dir. rewrite last_index_byte_app by done.
  assert (Path.Clean p <> []) as Hne by (intros Hn; by rewrite Hn in Hrc).
  replace (take (S (length (Path.Clean p))) (Path.Clean p ++ Path.slash :: e)) with (Path.Clean p ++ [Path.slash])
    by (change (Path.slash :: e) with ([Path.slash] ++ e); rewrite app_assoc, take_app_length';
        [done|rewrite length_app; simpl; lia]).
  assert (Path.rooted (Path.Clean p ++ [Path.slash]) = true) as Hr2.
  { destruct (Path.Clean p) as [|b q]; [done|]. unfold Path.rooted, Strings.HasPrefix in *. simpl in *. by destruct q. }
  unfold Path.Clean at 1. rewrite Hr2, elems_slash, elems_clean by done. unfold Path.Clean. by rewrite Hr.
Qed.
