(* ===== verification/Keys.v ===== *)
(** Keys: the interface of tailscale.com/types/key.

    The key package is not part of the repository, so node and disco keys are
    parameters of the model: [KeyOps] lists the operations the program calls and
    [KeyLaws] the documented behaviour it relies on.  Every component that
    handles keys is stated over these classes.  [ToyKeys] is a concrete instance
    (a 32-byte identity key, a box that prepends both identities) that shows the
    laws can hold; the witnesses of the other files run on it. *)

From S2P Require Import Prelude GoStd.
From Stdlib Require Import Strings.Byte.

Class KeyOps : Type := {
  NodePublic : Type;
  NodePublic_eq_dec :: EqDecision NodePublic;
  NodePublic_countable :: Countable NodePublic;
  NodePrivate : Type;
  NodePrivate_eq_dec :: EqDecision NodePrivate;
  (** the Go zero values [key.NodePublic{}] and [key.NodePrivate{}] *)
  NodePublicZero : NodePublic;
  NodePrivateZero : NodePrivate;
  (** [k.AppendTo(nil)]; [k.AppendTo(b)] appends these bytes to [b] *)
  Raw : NodePublic -> list byte;
  NodePublicFromRaw32 : list byte -> NodePublic;
  (** [k.String()] and [k.UnmarshalText] *)
  KeyString : NodePublic -> gostring;
  UnmarshalText : gostring -> result NodePublic;
  Public : NodePrivate -> NodePublic;
  (** [local.SealTo(peer, msg)]; the first argument is the nonce it draws *)
  SealTo : list byte -> NodePrivate -> NodePublic -> list byte -> list byte;
  OpenFrom : NodePrivate -> NodePublic -> list byte -> option (list byte);
  DiscoPublic : Type;
  DiscoPublic_eq_dec :: EqDecision DiscoPublic;
  DiscoPublicZero : DiscoPublic;
  DiscoRaw : DiscoPublic -> list byte;
  DiscoPublicFromRaw32 : list byte -> DiscoPublic;
  (** [disco.Magic], the prefix of path-discovery frames *)
  DiscoMagic : list byte;
}.

(** [key.NodePublicRawLen] and [key.DiscoPublicRawLen]. *)
Definition NodePublicRawLen : Z := 32.
Definition DiscoPublicRawLen : Z := 32.

Section ops.
Context `{K : KeyOps}.
Definition IsZero (k : NodePublic) : bool := bool_decide (k = NodePublicZero).
Definition PrivIsZero (k : NodePrivate) : bool := bool_decide (k = NodePrivateZero).
Definition DiscoIsZero (k : DiscoPublic) : bool := bool_decide (k = DiscoPublicZero).
End ops.

Class KeyLaws `{K : KeyOps} : Prop := {
  raw_length k : zlen (Raw k) = NodePublicRawLen;
  from_raw_raw k : NodePublicFromRaw32 (Raw k) = k;
  raw_from_raw b : zlen b = NodePublicRawLen -> Raw (NodePublicFromRaw32 b) = b;
  key_string k : KeyString k = B "nodekey:" ++ Hex.EncodeToString (Raw k);
  unmarshal_string k : UnmarshalText (KeyString k) = Ok k;
  open_seal nonce a b msg :
    Public a <> NodePublicZero -> Public b <> NodePublicZero ->
    OpenFrom b (Public a) (SealTo nonce a (Public b) msg) = Some msg;
  (** the ciphertext starts with a 24-byte nonce *)
  seal_length nonce a k msg : 24 <= zlen (SealTo nonce a k msg);
  disco_raw_length d : zlen (DiscoRaw d) = DiscoPublicRawLen;
  disco_from_raw_raw d : DiscoPublicFromRaw32 (DiscoRaw d) = d;
  disco_magic_head : head DiscoMagic = Some "T"%byte;
}.
Arguments KeyLaws : clear implicits.

Section lemmas.
Context `{K : KeyOps} {KL : KeyLaws K}.

Lemma raw_inj k1 k2 : Raw k1 = Raw k2 -> k1 = k2.
Proof. intros H. by rewrite <- (from_raw_raw k1), H, from_raw_raw. Qed.

Lemma length_raw k : length (Raw k) = 32%nat.
Proof. pose proof (raw_length k) as H. unfold zlen, NodePublicRawLen in H. lia. Qed.
End lemmas.

#[export] Hint Rewrite @raw_length @disco_raw_length using apply _ : zlen.

(** * A concrete instance *)

Module ToyKeys.
Definition wf (l : list byte) : bool := bool_decide (length l = 32%nat).

Record key32 : Type := Key32 { key_raw : list byte; key_wf : wf key_raw = true }.

Lemma key32_eq a b : key_raw a = key_raw b -> a = b.
Proof.
  destruct a as [la Ha], b as [lb Hb]; simpl. intros ->. f_equal.
  apply (Eqdep_dec.UIP_dec Bool.bool_dec).
Qed.

#[global] Instance key32_eq_dec : EqDecision key32.
Proof.
  intros a b. destruct (decide (key_raw a = key_raw b)) as [H|H].
  - left. by apply key32_eq.
  - right. congruence.
Defined.

Definition zero_raw : list byte := repeat x00 32.
Definition zero : key32 := Key32 zero_raw eq_refl.

(** The first 32 bytes of [l], zero-padded. *)
Definition fit (l : list byte) : list byte := take 32 (l ++ zero_raw).

Lemma fit_wf l : wf (fit l) = true.
Proof.
  unfold wf, fit. apply bool_decide_eq_true.
  rewrite length_take, length_app. change (length zero_raw) with 32%nat. lia.
Qed.

Definition of_raw (l : list byte) : key32 := Key32 (fit l) (fit_wf l).

Lemma fit_id l : length l = 32%nat -> fit l = l.
Proof. intros H. unfold fit. rewrite take_app_le by lia. by rewrite take_ge by lia. Qed.

Lemma raw_len a : length (key_raw a) = 32%nat.
Proof. destruct a as [l H]. simpl. by apply bool_decide_eq_true in H. Qed.

Lemma of_raw_raw a : of_raw (key_raw a) = a.
Proof. apply key32_eq. simpl. apply fit_id, raw_len. Qed.

#[global] Program Instance key32_countable : Countable key32 :=
  inj_countable key_raw (fun l => Some (of_raw l)) _.
Next Obligation. intros a. simpl. by rewrite of_raw_raw. Qed.

Definition text (k : key32) : gostring := B "nodekey:" ++ Hex.EncodeToString (key_raw k).
Definition untext (s : gostring) : result key32 :=
  match Strings.CutPrefix s (B "nodekey:") with
  | (h, true) =>
      match Hex.DecodeString h with
      | Some l => if wf l then Ok (of_raw l) else Err (ErrNew "key has the wrong size")
      | None => Err (ErrNew "key hex string is invalid")
      end
  | (_, false) => Err (ErrNew "key hex string doesn't have expected type prefix %s")
  end.

Definition seal (nonce : list byte) (a p : key32) (m : list byte) : list byte :=
  key_raw a ++ key_raw p ++ m.
Definition unseal (b p : key32) (c : list byte) : option (list byte) :=
  if has_prefix (key_raw p ++ key_raw b) c then Some (drop 64 c) else None.

#[global] Instance toy : KeyOps := {|
  NodePublic := key32;
  NodePrivate := key32;
  NodePublicZero := zero;
  NodePrivateZero := zero;
  Raw := key_raw;
  NodePublicFromRaw32 := of_raw;
  KeyString := text;
  UnmarshalText := untext;
  Public := id;
  SealTo := seal;
  OpenFrom := unseal;
  DiscoPublic := key32;
  DiscoPublicZero := zero;
  DiscoRaw := key_raw;
  DiscoPublicFromRaw32 := of_raw;
  DiscoMagic := B "TS" ++ [xf0; x9f; x92; xac];
|}.

#[global] Instance toy_laws : KeyLaws toy.
Proof.
  split; simpl.
  - intros k. unfold zlen. by rewrite raw_len.
  - apply of_raw_raw.
  - intros b Hb. apply fit_id. unfold zlen, NodePublicRawLen in Hb. lia.
  - done.
  - intros k. unfold untext, text. rewrite cut_prefix_app, hex_decode_encode.
    unfold wf. rewrite bool_decide_eq_true_2 by apply raw_len. by rewrite of_raw_raw.
  - intros nonce a b msg _ _. unfold unseal, seal, id.
    rewrite app_assoc, has_prefix_app, drop_app_ge; rewrite length_app, !raw_len; done.
  - intros nonce a k msg. unfold zlen, seal. rewrite !length_app, !raw_len. lia.
  - intros k. unfold zlen. by rewrite raw_len.
  - apply of_raw_raw.
  - done.
Qed.

(** Keys for the witnesses: the byte [n] repeated. *)
Definition nkey (n : Z) : key32 := of_raw (repeat (z2b n) 32).
End ToyKeys.
