(* ===== verification/Url.v ===== *)
(** Url: net/url as the program uses it.

    [URL] is Go's [url.URL]; [Parse], [EscapedPath], [Hostname] and [Port] follow
    the standard library's algorithms on byte strings: scheme, query, authority
    and fragment splitting, percent-decoding with the per-component rules of
    [shouldEscape], and the [RawPath] that is kept when the default encoding of
    the decoded path is not what was written.  Error texts are the library's. *)

From S2P Require Import Prelude GoStd.
From Stdlib Require Import Strings.Byte.

Module Url.
Import Strings.

(** The [encoding] of a component. *)
Inductive encoding : Type :=
  encodePath | encodeHost | encodeZone | encodeUserPassword | encodeFragment.

#[global] Instance encoding_eq_dec : EqDecision encoding.
Proof. solve_decision. Defined.

Record Userinfo : Type := MkUserinfo { ui_username : gostring; ui_password : option gostring }.

Record URL : Type := MkURL {
  Scheme : gostring;
  Opaque : gostring;
  User : option Userinfo;
  Host : gostring;
  Path : gostring;
  RawPath : gostring;
  OmitHost : bool;
  ForceQuery : bool;
  RawQuery : gostring;
  Fragment : gostring;
  RawFragment : gostring;
}.

Definition emptyURL : URL := MkURL [] [] None [] [] [] false false [] [] [].

Definition is_alnum (b : byte) : bool := is_upper b || is_lower b || is_digit b.

(** [shouldEscape]. *)
Definition shouldEscape (c : byte) (mode : encoding) : bool :=
  if is_alnum c then false
  else if (bool_decide (mode = encodeHost) || bool_decide (mode = encodeZone)) &&
          bool_decide (c ∈ B "!$&'()*+,;=:[]<>" ++ [x22]) then false
  else if bool_decide (c ∈ B "-_.~") then false
  else if bool_decide (c ∈ B "$&+,/:;=?@") then
    match mode with
    | encodePath => bool_decide (c = "?"%byte)
    | encodeUserPassword => bool_decide (c ∈ B "@/?:")
    | encodeFragment => false
    | _ => true
    end
  else if bool_decide (mode = encodeFragment) && bool_decide (c ∈ B "!()*") then false
  else true.

(** [unescape]. *)
Fixpoint unescape (s : gostring) (mode : encoding) : result gostring :=
  match s with
  | [] => Ok []
  | c :: s1 =>
      if bool_decide (c = "%"%byte) then
        match s1 with
        | a :: b :: rest =>
            match Hex.value a, Hex.value b with
            | Some ha, Some hb =>
                let v := z2b (ha * 16 + hb) in
                let is25 := bool_decide (a = "2"%byte) && bool_decide (b = "5"%byte) in
                if bool_decide (mode = encodeHost) && (ha <? 8) && negb is25 then
                  Err (ErrNew "invalid URL escape")
                else if bool_decide (mode = encodeZone) && negb is25 &&
                        negb (bool_decide (v = " "%byte)) && shouldEscape v encodeHost then
                  Err (ErrNew "invalid URL escape")
                else let? t := unescape rest mode in Ok (v :: t)
            | _, _ => Err (ErrNew "invalid URL escape")
            end
        | _ => Err (ErrNew "invalid URL escape")
        end
      else if (bool_decide (mode = encodeHost) || bool_decide (mode = encodeZone)) &&
              (b2z c <? 128) && shouldEscape c mode then
        Err (ErrNew "invalid character in host name")
      else let? t := unescape s1 mode in Ok (c :: t)
  end.

Definition upperhex (n : Z) : byte := if n <? 10 then z2b (48 + n) else z2b (55 + n).

(** [escape]; no component the program uses turns spaces into plus signs. *)
Definition escape (s : gostring) (mode : encoding) : gostring :=
  concat ((fun c => if shouldEscape c mode
                    then ["%"%byte; upperhex (Z.shiftr (b2z c) 4); upperhex (Z.land (b2z c) 15)]
                    else [c]) <$> s).

(** [getScheme]: the scheme before the first colon, if the text is one. *)
Fixpoint getScheme_from (i : nat) (s rest : gostring) : result (gostring * gostring) :=
  match rest with
  | [] => Ok ([], s)
  | c :: rest' =>
      if is_upper c || is_lower c then getScheme_from (S i) s rest'
      else if is_digit c || bool_decide (c ∈ B "+-.") then
        match i with O => Ok ([], s) | S _ => getScheme_from (S i) s rest' end
      else if bool_decide (c = ":"%byte) then
        match i with
        | O => Err (ErrNew "missing protocol scheme")
        | S _ => Ok (take i s, rest')
        end
      else Ok ([], s)
  end.

Definition validOptionalPort (port : gostring) : bool :=
  match port with
  | [] => true
  | c :: ds => bool_decide (c = ":"%byte) && forallb is_digit ds
  end.

Definition validUserinfo (s : gostring) : bool :=
  forallb (fun c => is_alnum c || bool_decide (c ∈ B "-._:~!$&'()*+,;=%@")) s.

(** The offset of the first occurrence of [p] in [s]. *)
Fixpoint Index (s p : gostring) : option nat :=
  if has_prefix p s then Some 0%nat
  else match s with
       | [] => None
       | _ :: s' => S <$> Index s' p
       end.

(** [parseHost]. *)
Definition parseHost (host : gostring) : result gostring :=
  if HasPrefix host (B "[") then
    match LastIndexByte host "]"%byte with
    | None => Err (ErrNew "missing ']' in host")
    | Some i =>
        guard! validOptionalPort (drop (S i) host) or ErrNew "invalid port after host" in
        match Index (take i host) (B "%25") with
        | Some zone =>
            let? host1 := unescape (take zone host) encodeHost in
            let? host2 := unescape (drop zone (take i host)) encodeZone in
            let? host3 := unescape (drop i host) encodeHost in
            Ok (host1 ++ host2 ++ host3)
        | None => unescape host encodeHost
        end
    end
  else
    match LastIndexByte host ":"%byte with
    | Some i =>
        guard! validOptionalPort (drop i host) or ErrNew "invalid port after host" in
        unescape host encodeHost
    | None => unescape host encodeHost
    end.

(** [parseAuthority]. *)
Definition parseAuthority (authority : gostring) : result (option Userinfo * gostring) :=
  match LastIndexByte authority "@"%byte with
  | None => let? host := parseHost authority in Ok (None, host)
  | Some i =>
      let? host := parseHost (drop (S i) authority) in
      let userinfo := take i authority in
      guard! validUserinfo userinfo or ErrNew "net/url: invalid userinfo" in
      match CutByte userinfo ":"%byte with
      | (_, _, false) =>
          let? user := unescape userinfo encodeUserPassword in
          Ok (Some (MkUserinfo user None), host)
      | (username, password, true) =>
          let? user := unescape username encodeUserPassword in
          let? pass := unescape password encodeUserPassword in
          Ok (Some (MkUserinfo user (Some pass)), host)
      end
  end.

(** [setPath] and [setFragment]: the decoded form, and the written form when the
    default encoding differs. *)
Definition setEscaped (p : gostring) (mode : encoding) : result (gostring * gostring) :=
  let? path := unescape p mode in
  Ok (path, if bool_decide (p = escape path mode) then [] else p).

(** The part of [parse] behind scheme and query: authority and path. *)
Definition parse_rest (scheme rest query : gostring) (force : bool) : result URL :=
  let mk user host rest omit :=
    let? (path, raw) := setEscaped rest encodePath in
    Ok (MkURL scheme [] user host path raw omit force query [] []) in
  if HasPrefix rest (B "//") && (negb (bool_decide (scheme = [])) || negb (HasPrefix rest (B "///"))) then
    let authority := drop 2 rest in
    let '(authority, rest) :=
      match IndexByte authority "/"%byte with
      | Some i => (take i authority, drop i authority)
      | None => (authority, [])
      end in
    let? (user, host) := parseAuthority authority in
    mk user host rest false
  else mk None [] rest (negb (bool_decide (scheme = [])) && HasPrefix rest (B "/")).

Definition is_ctl (b : byte) : bool := (b2z b <? 32) || (b2z b =? 127).

(** [parse rawURL false]. *)
Definition parse (rawURL : gostring) : result URL :=
  if existsb is_ctl rawURL then Err (ErrNew "net/url: invalid control character in URL")
  else if bool_decide (rawURL = B "*") then Ok (MkURL [] [] None [] (B "*") [] false false [] [] [])
  else
    let? (scheme, rest) := getScheme_from 0 rawURL rawURL in
    let scheme := ToLower scheme in
    let '(rest, query, force) :=
      match CutByte rest "?"%byte with
      | (before, after, true) => (before, after, bool_decide (after = []))
      | (before, _, false) => (before, [], false)
      end in
    if negb (HasPrefix rest (B "/")) then
      if negb (bool_decide (scheme = [])) then
        Ok (MkURL scheme rest None [] [] [] false force query [] [])
      else if ContainsByte (CutByte rest "/"%byte).1.1 ":"%byte then
        Err (ErrNew "first path segment in URL cannot contain colon")
      else parse_rest scheme rest query force
    else parse_rest scheme rest query force.

(** [url.Parse]. *)
Definition Parse (rawURL : gostring) : result URL :=
  let '(u, frag, _) := CutByte rawURL "#"%byte in
  let? url := parse u in
  if bool_decide (frag = []) then Ok url
  else
    let? (f, raw) := setEscaped frag encodeFragment in
    Ok (MkURL (Scheme url) (Opaque url) (User url) (Host url) (Path url) (RawPath url)
          (OmitHost url) (ForceQuery url) (RawQuery url) f raw).

(** [url.ParseRequestURI]: no fragment, and an absolute path or an absolute URL. *)
Definition ParseRequestURI (rawURL : gostring) : result URL :=
  if existsb is_ctl rawURL then Err (ErrNew "net/url: invalid control character in URL")
  else if bool_decide (rawURL = []) then Err (ErrNew "empty url")
  else if bool_decide (rawURL = B "*") then Ok (MkURL [] [] None [] (B "*") [] false false [] [] [])
  else
    let? (scheme, rest) := getScheme_from 0 rawURL rawURL in
    let scheme := ToLower scheme in
    let '(rest, query, force) :=
      match CutByte rest "?"%byte with
      | (before, after, true) => (before, after, bool_decide (after = []))
      | (before, _, false) => (before, [], false)
      end in
    if negb (HasPrefix rest (B "/")) then
      guard! negb (bool_decide (scheme = [])) or ErrNew "invalid URI for request" in
      Ok (MkURL scheme rest None [] [] [] false force query [] [])
    else if bool_decide (scheme = []) then
      let? (path, raw) := setEscaped rest encodePath in
      Ok (MkURL [] [] None [] path raw false force query [] [])
    else parse_rest scheme rest query force.

(** [validEncoded]. *)
Definition validEncoded (s : gostring) (mode : encoding) : bool :=
  forallb (fun c => bool_decide (c ∈ B "!$&'()*+,;=:@[]%") || negb (shouldEscape c mode)) s.

(** [u.EscapedPath()]. *)
Definition EscapedPath (u : URL) : gostring :=
  let default := if bool_decide (Path u = B "*") then B "*" else escape (Path u) encodePath in
  if negb (bool_decide (RawPath u = [])) && validEncoded (RawPath u) encodePath then
    match unescape (RawPath u) encodePath with
    | Ok p => if bool_decide (p = Path u) then RawPath u else default
    | Err _ => default
    end
  else default.

(** [splitHostPort], behind [u.Hostname()] and [u.Port()]. *)
Definition splitHostPort (hostPort : gostring) : gostring * gostring :=
  let '(host, port) :=
    match LastIndexByte hostPort ":"%byte with
    | Some i => if validOptionalPort (drop i hostPort) then (take i hostPort, drop (S i) hostPort)
                else (hostPort, [])
    | None => (hostPort, [])
    end in
  if HasPrefix host (B "[") && HasSuffix host (B "]")
  then (slice 1 (zlen host - 1) host, port) else (host, port).
Definition Hostname (u : URL) : gostring := (splitHostPort (Host u)).1.
Definition Port (u : URL) : gostring := (splitHostPort (Host u)).2.

Definition with_scheme (u : URL) (s : gostring) : URL :=
  MkURL s (Opaque u) (User u) (Host u) (Path u) (RawPath u) (OmitHost u) (ForceQuery u) (RawQuery u)
    (Fragment u) (RawFragment u).
End Url.

(** An [*http.Request] as the handlers use it; [rq_has_body] tells a non-nil body. *)
Record request : Type := Request {
  rq_method : gostring;
  rq_proto : gostring;
  rq_protoMajor : Z;
  rq_url : option Url.URL;
  rq_host : gostring;
  rq_header : gmap gostring (list gostring);
  rq_has_body : bool;
  rq_remote_addr : gostring;
}.

Example parse_sample :
  Url.Parse (B "HTTPS://[fe80::1%25en0]:443/a%2Fb/%7bx?q#f=1")
  = Ok (Url.MkURL (B "https") [] None (B "[fe80::1%en0]:443") (B "/a/b/{x") (B "/a%2Fb/%7bx")
          false false (B "q") (B "f=1") []).
Proof. vm_compute. reflexivity. Qed.
