(* ===== verification/Packet.v ===== *)
(** Packet: MasqueCat datagram framing and CONNECT-UDP target names.

    Models the codec part of src/masquecat_transport.go: the versioned packet
    header that carries the source and destination node keys, the virtual
    CONNECT-UDP target that names a peer, the [Masquecat-Source] header, and the
    forwarding adapters [streamForwarder] and [browserWebTransportForwarder].
    QUIC variable-length integers come from github.com/quic-go/quic-go, so they
    are the parameter [VarintOps]; [ToyVarint] is an instance that satisfies its
    laws. *)

From S2P Require Import Prelude GoStd Keys.
From Stdlib Require Import Strings.Byte.

(** * quicvarint *)

Class VarintOps : Type := {
  (** [quicvarint.Append(b, v)] appends [VarintEncode v] to [b]. *)
  VarintEncode : Z -> list byte;
  (** [quicvarint.Parse]: the value and the number of bytes consumed. *)
  VarintParse : list byte -> result (Z * Z);
}.

(** RFC 9000 section 16: the two high bits of the first byte give the length. *)
Definition varint_len_of_first (b : byte) : Z := Z.shiftl 1 (Z.shiftr (b2z b) 6).

Class VarintLaws (V : VarintOps) : Prop := {
  varint_encode_len v : 0 <= v < 2 ^ 62 ->
    exists b rest, VarintEncode v = b :: rest /\ zlen (b :: rest) = varint_len_of_first b;
  varint_parse_encode v rest : 0 <= v < 2 ^ 62 ->
    VarintParse (VarintEncode v ++ rest) = Ok (v, zlen (VarintEncode v));
}.

(** * Packets *)

Section packet.
Context `{K : KeyOps}.

Definition masquePacketVersion : byte := x01.
Definition masqueVirtualPort : gostring := B "1".
Definition masquePeerSuffix : gostring := B ".peer.masquecat.invalid".
Definition nodePublicTextPrefix : gostring := B "nodekey:".
Definition masqueSourceHeader : gostring := B "Masquecat-Source".
Definition masqueModeHeader : gostring := B "Masquecat-Mode".
Definition masqueModeDirect : gostring := B "direct".
Definition masqueModeRelay : gostring := B "relay".

(** src/masquecat_transport.go:65-69 [masquePacket] *)
Record masquePacket : Type := MasquePacket {
  pkt_src : NodePublic;
  pkt_dst : NodePublic;
  pkt_payload : list byte;
}.

(** src/masquecat_transport.go:71-78 [encodeMasquePacket] *)
Definition encodeMasquePacket (src dst : NodePublic) (payload : list byte) : list byte :=
  let b := [masquePacketVersion] in
  let b := b ++ Raw src in
  let b := b ++ Raw dst in
  b ++ payload.

Definition packetHeaderLen : Z := 1 + 2 * NodePublicRawLen.

(** src/masquecat_transport.go:80-93 [decodeMasquePacket] *)
Definition decodeMasquePacket (b : list byte) : result masquePacket :=
  guard! negb (zlen b <? packetHeaderLen) or ErrNew "short MasqueCat datagram: %d bytes" in
  guard! bool_decide (head b = Some masquePacketVersion)
    or ErrNew "unsupported MasqueCat datagram version %d" in
  Ok {| pkt_src := NodePublicFromRaw32 (slice 1 (1 + NodePublicRawLen) b);
        pkt_dst := NodePublicFromRaw32 (slice (1 + NodePublicRawLen) packetHeaderLen b);
        pkt_payload := drop (Z.to_nat packetHeaderLen) b |}.

(** src/masquecat_transport.go:95-98 [masqueTarget] *)
Definition masqueTarget (k : NodePublic) : gostring :=
  let keyText := Strings.TrimPrefix (KeyString k) nodePublicTextPrefix in
  keyText ++ masquePeerSuffix ++ B ":" ++ masqueVirtualPort.

(** src/masquecat_transport.go:100-117 [parseMasqueTarget] *)
Definition parseMasqueTarget (target : gostring) : result NodePublic :=
  match Net.SplitHostPort target with
  | Err e => Err (ErrWrap "parse MASQUE target %q: %w" e)
  | Ok (host, port) =>
      guard! bool_decide (port = masqueVirtualPort)
        or ErrNew "unexpected MASQUE virtual port %q" in
      match Strings.CutSuffix host masquePeerSuffix with
      | (_, false) => Err (ErrNew "unexpected MASQUE target host %q")
      | (hexKey, true) =>
          match UnmarshalText (nodePublicTextPrefix ++ hexKey) with
          | Err e => Err (ErrWrap "parse MASQUE peer key: %w" e)
          | Ok k => Ok k
          end
      end
  end.

(** src/masquecat_transport.go:119-129 [parseMasqueSource]; the argument is the
    request's header. *)
Definition parseMasqueSource (h : gmap gostring (list gostring)) : result NodePublic :=
  let s := HTTP.Get h masqueSourceHeader in
  guard! negb (bool_decide (s = [])) or ErrNew "missing Masquecat-Source header" in
  match UnmarshalText s with
  | Err e => Err (ErrWrap "invalid Masquecat-Source header: %w" e)
  | Ok k => Ok k
  end.

(** Whether a payload is a legacy path-discovery frame
    ([bytes.HasPrefix(payload, discoMagicBytes)]). *)
Definition is_disco (payload : list byte) : bool := has_prefix DiscoMagic payload.
End packet.

(** * Datagram streams and forwarders

    A forwarder turns a packet into what it hands to its carrier; [None] means
    the packet is dropped without touching the carrier. *)
Section forwarders.
Context `{K : KeyOps} `{V : VarintOps}.

(** src/masquecat_transport.go:54-57 [contextIDZero] *)
Definition contextIDZero : list byte := VarintEncode 0.

(** src/masquecat_transport.go:531-545 [streamForwarder.ForwardPacket]: the
    datagram given to [SendDatagram]. *)
Definition streamForwarder_ForwardPacket (src dst : NodePublic) (payload : list byte)
    : option (list byte) :=
  if is_disco payload then None
  else
    let packet := encodeMasquePacket src dst payload in
    Some (contextIDZero ++ packet).

(** src/masquecat_webtransport.go:86-94 [browserWebTransportForwarder.ForwardPacket] *)
Definition browserForwarder_ForwardPacket (src dst : NodePublic) (payload : list byte)
    : option (list byte) :=
  if is_disco payload then None
  else Some (encodeMasquePacket src dst payload).

(** src/masquecat_transport.go:549-564 [receiveStreamDatagram]: one call over
    the results the stream's [ReceiveDatagram] produces.  Datagrams of another
    context are skipped; [None] means that the call is still waiting after the
    listed results. *)
Fixpoint receiveStreamDatagram (incoming : list (result (list byte)))
    : option (result (list byte) * list (result (list byte))) :=
  match incoming with
  | [] => None
  | Err e :: rest => Some (Err e, rest)
  | Ok b :: rest =>
      match VarintParse b with
      | Err e => Some (Err (ErrWrap "malformed HTTP datagram: %w" e), rest)
      | Ok (contextID, n) =>
          if negb (contextID =? 0) then receiveStreamDatagram rest
          else Some (Ok (drop (Z.to_nat n) b), rest)
      end
  end.
End forwarders.

(** * Lemmas *)

Section facts.
Context `{K : KeyOps} {KL : KeyLaws K} `{V : VarintOps} {VL : VarintLaws V}.

Lemma zlen_encode src dst payload :
  zlen (encodeMasquePacket src dst payload) = packetHeaderLen + zlen payload.
Proof.
  unfold encodeMasquePacket, packetHeaderLen. autorewrite with zlen. lia.
Qed.

Lemma decode_encode src dst payload :
  decodeMasquePacket (encodeMasquePacket src dst payload)
  = Ok (MasquePacket src dst payload).
Proof.
  unfold decodeMasquePacket. rewrite zlen_encode.
  pose proof (zlen_nonneg payload).
  rewrite (proj2 (Z.ltb_ge _ _)) by lia. unfold encodeMasquePacket. simpl.
  rewrite <- !app_assoc. f_equal. f_equal.
  - change (masquePacketVersion :: ?l) with ([masquePacketVersion] ++ l).
    rewrite slice_app_mid; [by rewrite from_raw_raw|done|by rewrite raw_length].
  - change (masquePacketVersion :: Raw src ++ Raw dst ++ payload)
      with ((masquePacketVersion :: Raw src) ++ Raw dst ++ payload).
    rewrite slice_app_mid; [by rewrite from_raw_raw| |by rewrite raw_length].
    rewrite zlen_cons, raw_length. done.
  - rewrite app_assoc, drop_app_ge; rewrite length_app, !length_raw; [done|].
    done.
Qed.

(** Only canonical encodings decode: the packet determines the bytes. *)
Lemma encode_decode b p :
  decodeMasquePacket b = Ok p ->
  b = encodeMasquePacket (pkt_src p) (pkt_dst p) (pkt_payload p).
Proof.
  unfold decodeMasquePacket. intros H.
  destruct (zlen b <? packetHeaderLen) eqn:Hlen; [done|]. simpl in H.
  destruct (bool_decide _) eqn:Hv; [|done]. bool_to_prop. simplify_eq/=.
  destruct b as [|v b]; simplify_eq/=. unfold encodeMasquePacket.
  unfold packetHeaderLen, NodePublicRawLen, zlen in *. cbn [length] in Hlen.
  unfold slice. simpl Z.to_nat. simpl drop.
  rewrite !raw_from_raw.
  - simpl. f_equal. rewrite <- app_assoc.
    replace (drop 64 b) with (drop 32 (drop 32 b)) by (by rewrite drop_drop).
    change (Pos.to_nat 32) with 32%nat.
    by rewrite !take_drop.
  - unfold zlen. rewrite length_take, length_drop. unfold NodePublicRawLen. lia.
  - unfold zlen. rewrite length_take, length_drop. unfold NodePublicRawLen. lia.
Qed.

Lemma hex_text_not_in c (raw : list byte) :
  is_hex_digit c = false -> c ∉ Hex.EncodeToString raw.
Proof.
  intros Hc Hin. pose proof (hex_encode_digits raw) as Hall.
  rewrite Forall_forall in Hall. apply Hall in Hin. congruence.
Qed.

Lemma key_text k : Strings.TrimPrefix (KeyString k) nodePublicTextPrefix
  = Hex.EncodeToString (Raw k).
Proof.
  rewrite key_string. unfold Strings.TrimPrefix, nodePublicTextPrefix.
  by rewrite cut_prefix_app.
Qed.

Lemma masqueTarget_split k :
  Net.SplitHostPort (masqueTarget k)
  = Ok (Hex.EncodeToString (Raw k) ++ masquePeerSuffix, masqueVirtualPort).
Proof.
  unfold masqueTarget. rewrite key_text, app_assoc.
  assert (Hnot : forall c, is_hex_digit c = false -> c ∉ masquePeerSuffix ++ masqueVirtualPort ->
            c ∉ (Hex.EncodeToString (Raw k) ++ masquePeerSuffix) ++ masqueVirtualPort).
  { intros c Hc Hs. pose proof (hex_text_not_in c (Raw k) Hc).
    rewrite !not_elem_of_app in *. tauto. }
  apply split_host_port_plain.
  - pose proof (Hnot Net.colon eq_refl ltac:(by_evaluation)) as H.
    rewrite not_elem_of_app in H. tauto.
  - by_evaluation.
  - apply Hnot; [done|]. by_evaluation.
  - apply Hnot; [done|]. by_evaluation.
Qed.

(** The MasqueCat datagram codec is exact in both directions: a byte string
    decodes to a packet if and only if it is that packet's encoding, so nothing
    is lost, altered or accepted in two forms. *)
Theorem packet_codec_exact b src dst payload :
  decodeMasquePacket b = Ok (MasquePacket src dst payload)
  <-> b = encodeMasquePacket src dst payload.
Proof.
  split.
  - intros H. by apply encode_decode in H.
  - intros ->. apply decode_encode.
Qed.

(** The CONNECT-UDP target a client requests for a peer parses back, on the
    server, to exactly that peer's node key. *)
Theorem masque_target_roundtrip k : parseMasqueTarget (masqueTarget k) = Ok k.
Proof.
  unfold parseMasqueTarget. rewrite masqueTarget_split.
  rewrite bool_decide_eq_true_2 by done. rewrite cut_suffix_app.
  unfold nodePublicTextPrefix. by rewrite <- key_string, unmarshal_string.
Qed.

(** What the relay or a direct server forwards into a CONNECT-UDP stream is
    what the peer's receive loop takes out of it: stripping the HTTP datagram
    context and decoding gives back source, destination and payload, after any
    datagrams of other contexts; legacy disco frames are never sent. *)
Theorem stream_forward_delivers src dst payload noise rest :
  Forall (fun d => exists v n, VarintParse d = Ok (v, n) /\ v <> 0) noise ->
  match streamForwarder_ForwardPacket src dst payload with
  | None => is_disco payload = true
  | Some d =>
      is_disco payload = false /\
      exists b, receiveStreamDatagram ((Ok <$> noise) ++ Ok d :: rest) = Some (Ok b, rest) /\
        decodeMasquePacket b = Ok (MasquePacket src dst payload)
  end.
Proof.
  intros Hnoise. unfold streamForwarder_ForwardPacket.
  destruct (is_disco payload); [done|]. split; [done|].
  exists (encodeMasquePacket src dst payload). split; [|apply decode_encode].
  induction Hnoise as [|d noise (v & n & Hp & Hv) _ IH]; cbn [fmap list_fmap app].
  - cbn [receiveStreamDatagram]. unfold contextIDZero.
    rewrite varint_parse_encode by lia. simpl.
    unfold zlen. rewrite Nat2Z.id. by rewrite drop_app_length.
  - cbn [receiveStreamDatagram]. rewrite Hp.
    rewrite (proj2 (Z.eqb_neq v 0)) by done. apply IH.
Qed.
End facts.

(** * A concrete varint instance and witnesses *)

(** RFC 9000 variable-length integers, built from the big-endian bytes of the
    value with the length tag in the two high bits. *)
Module ToyVarint.
Definition size (v : Z) : nat :=
  if v <? 2 ^ 6 then 1 else if v <? 2 ^ 14 then 2 else if v <? 2 ^ 30 then 4 else 8.
Definition tag (n : nat) : Z :=
  match n with 1%nat => 0 | 2%nat => 1 | 4%nat => 2 | _ => 3 end.
Definition encode (v : Z) : list byte :=
  let n := size v in be_put n (tag n * 2 ^ (8 * Z.of_nat n - 2) + v).
Definition parse (l : list byte) : result (Z * Z) :=
  match l with
  | [] => Err IOEOF
  | b :: _ =>
      let n := varint_len_of_first b in
      if zlen l <? n then Err IOErrUnexpectedEOF
      else Ok (be_get (take (Z.to_nat n) l) mod 2 ^ (8 * n - 2), n)
  end.

#[global] Instance toy_varint : VarintOps := {| VarintEncode := encode; VarintParse := parse |}.

Lemma size_cases v : 0 <= v < 2 ^ 62 ->
  let n := Z.of_nat (size v) in
  0 <= v < 2 ^ (8 * n - 2) /\ 0 <= tag (size v) < 4 /\ Z.shiftl 1 (tag (size v)) = n /\
  exists m, size v = S m.
Proof.
  intros Hv. unfold size.
  destruct (v <? 2 ^ 6) eqn:E1, (v <? 2 ^ 14) eqn:E2, (v <? 2 ^ 30) eqn:E3; bool_to_prop;
    simpl; repeat split; eauto; lia.
Qed.

Lemma tagged_range v : 0 <= v < 2 ^ 62 ->
  let n := Z.of_nat (size v) in
  let x := tag (size v) * 2 ^ (8 * n - 2) + v in
  0 <= x < 256 ^ n /\ x / 2 ^ (8 * n - 2) = tag (size v) /\ x mod 2 ^ (8 * n - 2) = v.
Proof.
  intros Hv n x. destruct (size_cases v Hv) as (Hr & Ht & _ & m & Hm).
  fold n in Hr. assert (1 <= n) by (unfold n; lia).
  assert (Hp : 256 ^ n = 4 * 2 ^ (8 * n - 2)).
  { change 256 with (2 ^ 8). rewrite <- Z.pow_mul_r by lia.
    change 4 with (2 ^ 2). rewrite <- Z.pow_add_r by lia. f_equal. lia. }
  unfold x. repeat split.
  - nia.
  - rewrite Hp. nia.
  - rewrite Z.div_add_l by lia. rewrite Z.div_small by lia. lia.
  - rewrite Z.add_comm, Z.mod_add by lia. by apply Z.mod_small.
Qed.

Lemma encode_head v : 0 <= v < 2 ^ 62 ->
  exists b rest, encode v = b :: rest /\ varint_len_of_first b = Z.of_nat (size v).
Proof.
  intros Hv. destruct (size_cases v Hv) as (_ & Ht & Hs & m & Hm).
  destruct (tagged_range v Hv) as (Hx & Hd & _).
  unfold encode. rewrite Hm in *. cbn [be_put]. do 2 eexists. split; [done|].
  transitivity (Z.shiftl 1 (tag (S m))); [|done].
  unfold varint_len_of_first. f_equal. etransitivity; [|exact Hd].
  rewrite b2z_z2b, !Z.shiftr_div_pow2 by lia.
  rewrite (Z.mod_small (_ / _) 256).
  - rewrite Z.div_div by lia. f_equal.
    rewrite <- Z.pow_add_r by lia. f_equal. lia.
  - split; [apply Z.div_pos; lia|]. apply Z.div_lt_upper_bound; [lia|].
    rewrite Nat2Z.inj_succ, Z.pow_succ_r in Hx by lia.
    rewrite Z.pow_mul_r by lia. change (2 ^ 8) with 256.
    rewrite Nat2Z.inj_succ. lia.
Qed.

Lemma length_encode v : length (encode v) = size v.
Proof. apply length_be_put. Qed.

#[global] Instance toy_varint_laws : VarintLaws toy_varint.
Proof.
  split; simpl.
  - intros v Hv. destruct (encode_head v Hv) as (b & rest & He & Hb).
    exists b, rest. split; [done|]. rewrite Hb, <- He. unfold zlen. by rewrite length_encode.
  - intros v rest Hv. destruct (encode_head v Hv) as (b & rest' & He & Hb).
    destruct (tagged_range v Hv) as (Hx & _ & Hm).
    pose proof (length_encode v) as Hlen. unfold zlen. rewrite Hlen.
    unfold parse. rewrite He. cbn [app]. rewrite Hb.
    change (b :: rest' ++ rest) with ((b :: rest') ++ rest). rewrite <- He.
    rewrite (proj2 (Z.ltb_ge _ _)); [|rewrite zlen_app; unfold zlen; lia].
    rewrite Nat2Z.id, <- Hlen, take_app_length.
    do 2 f_equal. unfold encode at 1. rewrite be_get_put_small by done.
    rewrite Hlen. done.
Qed.

End ToyVarint.

Import ToyKeys.

Lemma packet_codec_exact_witness :
  decodeMasquePacket (encodeMasquePacket (nkey 1) (nkey 2) [x05])
  = Ok (MasquePacket (nkey 1) (nkey 2) [x05]).
Proof. apply (packet_codec_exact (KL := toy_laws)). reflexivity. Defined.

Lemma masque_target_roundtrip_witness :
  parseMasqueTarget (masqueTarget (nkey 7)) = Ok (nkey 7).
Proof. apply (masque_target_roundtrip (KL := toy_laws)). Defined.

Lemma stream_forward_delivers_witness :
  match streamForwarder_ForwardPacket (nkey 1) (nkey 2) [x05] with
  | None => is_disco [x05] = true
  | Some d =>
      is_disco [x05] = false /\
      exists b, receiveStreamDatagram ((Ok <$> [[x02; x09]]) ++ Ok d :: []) = Some (Ok b, []) /\
        decodeMasquePacket b = Ok (MasquePacket (nkey 1) (nkey 2) [x05])
  end.
Proof.
  apply (stream_forward_delivers (KL := toy_laws) (VL := ToyVarint.toy_varint_laws)).
  constructor; [|constructor]. exists 2, 1. split; [reflexivity | lia].
Defined.
