(* ===== verification/Fragment.v ===== *)
(** Fragment: WireGuard packet fragmentation and reassembly.

    Models src/masquecat_fragment.go: a WireGuard packet larger than one
    MasqueCat chunk is cut into numbered fragments that carry a 20-byte header,
    and [masqueWGReassembler] puts them back together per (source, id), bounded
    in number, in size and in time.  The map [sets] is a [gmap]; a nil Go map
    reads as the empty map, so [Reset] is the empty map.  The clock and the
    atomic sequence counter are arguments. *)

From S2P Require Import Prelude GoStd Keys.
From Stdlib Require Import Strings.Byte.

Definition masqueWGFragmentChunkSize : Z := 1000.
Definition masqueWGFragmentHeaderLen : Z := 20.
Definition masqueWGFragmentMaxSize : Z := Z.shiftl 64 10.
Definition masqueWGFragmentTTL : Z := 30 * Second.
Definition masqueWGMaxAssemblies : Z := 256.
Definition masqueWGMaxAssembliesPerSource : Z := 32.

(** src/masquecat_fragment.go:32-38 [masqueWGFragmentMagic] *)
Definition masqueWGFragmentMagic : list byte := B "MCF" ++ [x01].

(** src/masquecat_fragment.go:58-63 [nextMasqueWGFragmentID]: the identifier for
    wall-clock time [now] and sequence counter [seq], and the new counter. *)
Definition nextMasqueWGFragmentID (now seq : Z) : Z * Z :=
  let seq' := u64 (seq + 1) in
  (u64 (u64 now + seq'), seq').

(** The 20-byte header in front of a chunk. *)
Definition fragmentBytes (id i count total : Z) (chunk : list byte) : list byte :=
  masqueWGFragmentMagic ++ be_put 8 id ++ be_put 2 (u16 i) ++ be_put 2 (u16 count)
    ++ be_put 4 (u32 total) ++ chunk.

(** src/masquecat_fragment.go:79-92 [fragmentMasqueWireGuardPacket loop] *)
Fixpoint fragment_loop (fuel : nat) (payload : list byte) (id count i off : Z)
    : list (list byte) :=
  match fuel with
  | O => []
  | S fuel' =>
      if off <? zlen payload then
        let end_ := off + masqueWGFragmentChunkSize in
        let end_ := if zlen payload <? end_ then zlen payload else end_ in
        fragmentBytes id i count (zlen payload) (slice off end_ payload)
          :: fragment_loop fuel' payload id count (i + 1) (off + masqueWGFragmentChunkSize)
      else []
  end.

(** src/masquecat_fragment.go:65-94 [fragmentMasqueWireGuardPacket]; also returns
    the sequence counter.  Each round of the loop advances by a chunk, so
    [length payload] rounds are more than enough. *)
Definition fragmentMasqueWireGuardPacket (now seq : Z) (payload : list byte)
    : result (list (list byte)) * Z :=
  if zlen payload <=? masqueWGFragmentChunkSize then (Ok [], seq)
  else if masqueWGFragmentMaxSize <? zlen payload then
    (Err (ErrNew "masquecat: WireGuard packet too large to fragment: %d bytes"), seq)
  else
    let count := (zlen payload + masqueWGFragmentChunkSize - 1) / masqueWGFragmentChunkSize in
    if 65535 <? count then
      (Err (ErrNew "masquecat: WireGuard packet needs too many fragments: %d"), seq)
    else
      let '(id, seq') := nextMasqueWGFragmentID now seq in
      (Ok (fragment_loop (length payload) payload id count 0 0), seq').

Section reassembler.
Context `{K : KeyOps}.

(** src/masquecat_fragment.go:40-43 [masqueWGFragmentKey] *)
Definition masqueWGFragmentKey : Type := NodePublic * Z.

(** src/masquecat_fragment.go:45-51 [masqueWGFragmentAssembly] *)
Record masqueWGFragmentAssembly : Type := Assembly {
  fa_count : Z;
  fa_total : Z;
  fa_parts : list (option (list byte));
  fa_received : Z;
  fa_updated : Z;
}.

(** src/masquecat_fragment.go:53-56 [masqueWGReassembler] *)
Record masqueWGReassembler : Type := Reassembler {
  sets : gmap (NodePublic * Z) masqueWGFragmentAssembly;
}.

(** src/masquecat_fragment.go:96-100 [masqueWGReassembler.Reset] *)
Definition Reset (r : masqueWGReassembler) : masqueWGReassembler := Reassembler ∅.

(** src/masquecat_fragment.go:102-108 [masqueWGReassembler.cleanupLocked] *)
Definition cleanupLocked (now : Z) (m : gmap (NodePublic * Z) masqueWGFragmentAssembly)
    : gmap (NodePublic * Z) masqueWGFragmentAssembly :=
  filter (fun kv => ~ masqueWGFragmentTTL <= now - fa_updated (snd kv)) m.

(** src/masquecat_fragment.go:110-118 [masqueWGReassembler.sourceAssemblyCountLocked] *)
Definition sourceAssemblyCountLocked (m : gmap (NodePublic * Z) masqueWGFragmentAssembly)
    (src : NodePublic) : Z :=
  Z.of_nat (count_map (fun kv : NodePublic * Z * masqueWGFragmentAssembly => kv.1.1 = src) m).

Record fragmentHeader : Type := FragmentHeader {
  fh_id : Z;
  fh_index : Z;
  fh_count : Z;
  fh_total : Z;
  fh_chunk : list byte;
}.

(** The length fragment [index] of a [total]-byte packet must have. *)
Definition expectedChunkLen (total index : Z) : Z :=
  let expectedCount := (total + masqueWGFragmentChunkSize - 1) / masqueWGFragmentChunkSize in
  if index =? expectedCount - 1
  then total - (expectedCount - 1) * masqueWGFragmentChunkSize
  else masqueWGFragmentChunkSize.

(** src/masquecat_fragment.go:121-150 [masqueWGReassembler.Push], header
    validation; [Ok None] when the payload is not a fragment. *)
Definition parseFragment (payload : list byte) : result (option fragmentHeader) :=
  if negb (has_prefix masqueWGFragmentMagic payload) then Ok None
  else if zlen payload <? masqueWGFragmentHeaderLen then
    Err (ErrNew "masquecat: short WireGuard fragment header: %d bytes")
  else
    let id := be_get (slice 4 12 payload) in
    let index := be_get (slice 12 14 payload) in
    let count := be_get (slice 14 16 payload) in
    let total := be_get (slice 16 20 payload) in
    let chunk := drop (Z.to_nat masqueWGFragmentHeaderLen) payload in
    if (count <? 2) || (count <=? index) then
      Err (ErrNew "masquecat: invalid WireGuard fragment index %d/%d")
    else if (total <=? masqueWGFragmentChunkSize) || (masqueWGFragmentMaxSize <? total) then
      Err (ErrNew "masquecat: invalid WireGuard fragmented size %d")
    else
      let expectedCount := (total + masqueWGFragmentChunkSize - 1) / masqueWGFragmentChunkSize in
      if negb (count =? expectedCount) then
        Err (ErrNew "masquecat: WireGuard fragment count %d does not match size %d")
      else if negb (zlen chunk =? expectedChunkLen total index) then
        Err (ErrNew "masquecat: WireGuard fragment %d has %d bytes, want %d")
      else Ok (Some (FragmentHeader id index count total chunk)).

(** src/masquecat_fragment.go:198-204 [masqueWGReassembler.Push], the loop that
    joins the parts; [None] when one is missing. *)
Fixpoint joinParts (parts : list (option (list byte))) (out : list byte)
    : option (list byte) :=
  match parts with
  | [] => Some out
  | None :: _ => None
  | Some part :: rest => joinParts rest (out ++ part)
  end.

(** src/masquecat_fragment.go:181-210 [masqueWGReassembler.Push], storing one
    part in the assembly [set] found under [key] in [m]. *)
Definition storePart (m : gmap (NodePublic * Z) masqueWGFragmentAssembly)
    (key : NodePublic * Z) (set : masqueWGFragmentAssembly) (now index : Z) (chunk : list byte)
    : gmap (NodePublic * Z) masqueWGFragmentAssembly * result (option (list byte)) :=
  match fa_parts set !! Z.to_nat index with
  | Some (Some old) =>
      if bool_decide (old = chunk) then (m, Ok None)
      else (delete key m, Err (ErrNew "masquecat: conflicting duplicate WireGuard fragment %d"))
  | _ =>
      let set' := {| fa_count := fa_count set; fa_total := fa_total set;
                     fa_parts := <[Z.to_nat index := Some chunk]> (fa_parts set);
                     fa_received := fa_received set + 1;
                     fa_updated := now |} in
      let m' := <[key := set']> m in
      if negb (fa_received set' =? fa_count set') then (m', Ok None)
      else
        match joinParts (fa_parts set') [] with
        | None => (m', Ok None)
        | Some out =>
            if negb (zlen out =? fa_total set') then
              (delete key m',
               Err (ErrNew "masquecat: reassembled WireGuard packet has %d bytes, want %d"))
            else (delete key m', Ok (Some out))
        end
  end.

(** src/masquecat_fragment.go:120-210 [masqueWGReassembler.Push]: [Ok (Some out)]
    is Go's [(out, true, nil)], [Ok None] is [(nil, false, nil)]. *)
Definition Push (r : masqueWGReassembler) (now : Z) (src : NodePublic) (payload : list byte)
    : masqueWGReassembler * result (option (list byte)) :=
  match parseFragment payload with
  | Err e => (r, Err e)
  | Ok None => (r, Ok (Some payload))
  | Ok (Some h) =>
      let key := (src, fh_id h) in
      let m := cleanupLocked now (sets r) in
      match m !! key with
      | None =>
          if masqueWGMaxAssembliesPerSource <=? sourceAssemblyCountLocked m src then
            (Reassembler m, Err (ErrNew "masquecat: too many incomplete WireGuard fragment assemblies for source"))
          else if masqueWGMaxAssemblies <=? Z.of_nat (size m) then
            (Reassembler m, Err (ErrNew "masquecat: too many incomplete WireGuard fragment assemblies"))
          else
            let set := {| fa_count := fh_count h; fa_total := fh_total h;
                          fa_parts := replicate (Z.to_nat (fh_count h)) None;
                          fa_received := 0; fa_updated := now |} in
            let '(m', res) := storePart (<[key := set]> m) key set now (fh_index h) (fh_chunk h) in
            (Reassembler m', res)
      | Some set =>
          if negb (fa_count set =? fh_count h) || negb (fa_total set =? fh_total h) then
            (Reassembler (delete key m), Err (ErrNew "masquecat: inconsistent WireGuard fragment metadata"))
          else
            let '(m', res) := storePart m key set now (fh_index h) (fh_chunk h) in
            (Reassembler m', res)
      end
  end.
End reassembler.

(** * Fragmentation *)

Ltac frag_consts :=
  unfold masqueWGFragmentChunkSize, masqueWGFragmentHeaderLen, masqueWGFragmentMaxSize,
    masqueWGMaxAssemblies, masqueWGMaxAssembliesPerSource in *;
  change (Z.shiftl 64 10) with 65536 in *.

(** The number of chunks of a packet and its [i]-th chunk. *)
Definition chunk_count (total : Z) : Z :=
  (total + masqueWGFragmentChunkSize - 1) / masqueWGFragmentChunkSize.
Definition chunk_at (payload : list byte) (i : nat) : list byte :=
  take 1000 (drop (1000 * i) payload).

(** The fragments as the specification sees them. *)
Definition fragments_of (id : Z) (payload : list byte) : list (list byte) :=
  (fun i => fragmentBytes id (Z.of_nat i) (chunk_count (zlen payload)) (zlen payload)
              (chunk_at payload i))
    <$> seq 0 (Z.to_nat (chunk_count (zlen payload))).

Lemma chunk_count_bounds total :
  0 < total -> (chunk_count total - 1) * 1000 < total <= chunk_count total * 1000.
Proof.
  intros. unfold chunk_count. frag_consts.
  pose proof (Z.div_mod (total + 1000 - 1) 1000). pose proof (Z.mod_pos_bound (total + 1000 - 1) 1000).
  lia.
Qed.

Lemma slice_chunk payload (i : nat) :
  let off := 1000 * Z.of_nat i in
  let end_ := if zlen payload <? off + 1000 then zlen payload else off + 1000 in
  off < zlen payload -> slice off end_ payload = chunk_at payload i.
Proof.
  intros off end_ Hoff. unfold slice, chunk_at, end_.
  replace (Z.to_nat off) with (1000 * i)%nat by lia.
  destruct (zlen payload <? off + 1000) eqn:E; bool_to_prop.
  - rewrite (take_ge _ 1000); [|rewrite length_drop; unfold zlen in *; lia].
    apply take_ge. rewrite length_drop. unfold zlen in *. lia.
  - f_equal. lia.
Qed.

Lemma fragment_loop_spec fuel payload id count (i : nat) :
  0 < zlen payload -> (Z.to_nat (chunk_count (zlen payload)) <= fuel + i)%nat ->
  fragment_loop fuel payload id count (Z.of_nat i) (1000 * Z.of_nat i)
  = (fun j => fragmentBytes id (Z.of_nat j) count (zlen payload) (chunk_at payload j))
      <$> seq i (Z.to_nat (chunk_count (zlen payload)) - i).
Proof.
  intros Hpos. pose proof (chunk_count_bounds (zlen payload) Hpos) as Hc.
  revert i. induction fuel as [|fuel IH]; intros i Hf.
  { by replace (_ - i)%nat with 0%nat by lia. }
  cbn [fragment_loop]. destruct (_ <? _) eqn:E; bool_to_prop.
  - replace (Z.to_nat (chunk_count (zlen payload)) - i)%nat
      with (S (Z.to_nat (chunk_count (zlen payload)) - S i)) by lia.
    cbn [seq fmap list_fmap]. f_equal.
    + f_equal. by apply slice_chunk.
    + frag_consts. replace (Z.of_nat i + 1) with (Z.of_nat (S i)) by lia.
      replace (1000 * Z.of_nat i + 1000) with (1000 * Z.of_nat (S i)) by lia.
      apply IH. lia.
  - by replace (_ - i)%nat with 0%nat by lia.
Qed.

Lemma fragment_ok now seq payload :
  masqueWGFragmentChunkSize < zlen payload <= masqueWGFragmentMaxSize ->
  fragmentMasqueWireGuardPacket now seq payload
  = (Ok (fragments_of (nextMasqueWGFragmentID now seq).1 payload),
     (nextMasqueWGFragmentID now seq).2).
Proof.
  intros Hlen. unfold fragmentMasqueWireGuardPacket.
  pose proof (chunk_count_bounds (zlen payload)) as Hc. fold (chunk_count (zlen payload)).
  frag_consts. rewrite (proj2 (Z.leb_gt _ _)), (proj2 (Z.ltb_ge _ _)) by lia.
  rewrite (proj2 (Z.ltb_ge _ _)) by lia.
  destruct (nextMasqueWGFragmentID now seq) as [id seq'] eqn:E. simpl. do 2 f_equal.
  change 0 with (Z.of_nat 0) at 1. change 0 with (1000 * Z.of_nat 0) at 1.
  rewrite fragment_loop_spec; [|lia|unfold zlen in *; lia].
  by rewrite Nat.sub_0_r.
Qed.

Lemma zlen_fragment id i count total chunk :
  zlen (fragmentBytes id i count total chunk) = masqueWGFragmentHeaderLen + zlen chunk.
Proof.
  unfold fragmentBytes, zlen. rewrite !length_app, !length_be_put. frag_consts. simpl. lia.
Qed.

Lemma zlen_chunk_at payload i : zlen (chunk_at payload i) <= 1000.
Proof. unfold chunk_at, zlen. rewrite length_take. lia. Qed.

(** The expected length of a chunk is the length of the specification's chunk. *)
Lemma expected_chunk_len payload (i : nat) :
  0 < zlen payload -> Z.of_nat i < chunk_count (zlen payload) ->
  zlen (chunk_at payload i) = expectedChunkLen (zlen payload) (Z.of_nat i).
Proof.
  intros Hpos Hi. pose proof (chunk_count_bounds (zlen payload) Hpos) as Hc.
  unfold expectedChunkLen. fold (chunk_count (zlen payload)).
  unfold chunk_at, zlen in *. rewrite length_take, length_drop. frag_consts.
  destruct (_ =? _) eqn:E; bool_to_prop; lia.
Qed.

Lemma concat_chunks payload n :
  (length payload <= 1000 * n)%nat -> concat (chunk_at payload <$> seq 0 n) = payload.
Proof.
  intros H. enough (forall m k, (m + k = n)%nat ->
    concat (chunk_at payload <$> seq k m) = drop (1000 * k) payload) as Hd.
  { specialize (Hd n 0%nat). rewrite Hd by lia. done. }
  induction m as [|m IH]; intros k Hk; cbn [seq fmap list_fmap concat].
  - by rewrite drop_ge by lia.
  - rewrite IH by lia. unfold chunk_at.
    replace (1000 * S k)%nat with (1000 * k + 1000)%nat by lia.
    rewrite <- drop_drop. apply take_drop.
Qed.

Ltac be_range := change (256 ^ Z.of_nat 8) with (2 ^ 64); change (256 ^ Z.of_nat 2) with 65536;
  change (256 ^ Z.of_nat 4) with (2 ^ 32); try lia.

(** The five header fields and the chunk of a fragment. *)
Lemma fragment_fields id i count total chunk :
  let f := fragmentBytes id i count total chunk in
  slice 4 12 f = be_put 8 id /\ slice 12 14 f = be_put 2 (u16 i) /\
  slice 14 16 f = be_put 2 (u16 count) /\ slice 16 20 f = be_put 4 (u32 total) /\
  drop 20 f = chunk.
Proof.
  intros f. unfold f, fragmentBytes.
  assert (Hlen : forall n z, zlen (be_put n z) = Z.of_nat n).
  { intros. unfold zlen. by rewrite length_be_put. }
  split_and!.
  - by rewrite slice_app_mid by (done || apply Hlen).
  - rewrite (app_assoc masqueWGFragmentMagic).
    by rewrite slice_app_mid by (rewrite ?zlen_app, ?Hlen; done).
  - rewrite (app_assoc masqueWGFragmentMagic), (app_assoc (_ ++ _) (be_put 2 _)).
    by rewrite slice_app_mid by (rewrite ?zlen_app, ?Hlen; done).
  - rewrite (app_assoc masqueWGFragmentMagic), (app_assoc (_ ++ _) (be_put 2 _)),
      (app_assoc (_ ++ _) (be_put 2 _)).
    by rewrite slice_app_mid by (rewrite ?zlen_app, ?Hlen; done).
  - rewrite !app_assoc. apply drop_app_length'. rewrite !length_app, !length_be_put. done.
Qed.

Lemma parse_fragment `{K : KeyOps} id payload (i : nat) :
  0 <= id < 2 ^ 64 ->
  masqueWGFragmentChunkSize < zlen payload <= masqueWGFragmentMaxSize ->
  Z.of_nat i < chunk_count (zlen payload) ->
  parseFragment (fragmentBytes id (Z.of_nat i) (chunk_count (zlen payload)) (zlen payload)
                   (chunk_at payload i))
  = Ok (Some (FragmentHeader id (Z.of_nat i) (chunk_count (zlen payload)) (zlen payload)
                (chunk_at payload i))).
Proof.
  intros Hid Hlen Hi. pose proof (chunk_count_bounds (zlen payload)) as Hc.
  pose proof (zlen_nonneg (chunk_at payload i)).
  pose proof (expected_chunk_len payload i) as Hexp.
  destruct (fragment_fields id (Z.of_nat i) (chunk_count (zlen payload)) (zlen payload)
              (chunk_at payload i)) as (Hs1 & Hs2 & Hs3 & Hs4 & Hs5).
  unfold parseFragment. rewrite zlen_fragment. frag_consts.
  unfold fragmentBytes at 1. rewrite has_prefix_app. cbn [negb].
  rewrite (proj2 (Z.ltb_ge _ _)) by lia. change (Z.to_nat 20) with 20%nat.
  rewrite Hs1, Hs2, Hs3, Hs4, Hs5.
  rewrite !be_get_put_small; unfold u16, u32; rewrite ?Z.mod_small; be_range.
  rewrite (proj2 (Z.ltb_ge _ 2)), (proj2 (Z.leb_gt (chunk_count _) _)) by lia. cbn [orb].
  rewrite (proj2 (Z.leb_gt _ _)), (proj2 (Z.ltb_ge _ _)) by lia. cbn [orb].
  fold (chunk_count (zlen payload)) in *.
  unfold chunk_count at 1 3. frag_consts. rewrite Z.eqb_refl. cbn [negb].
  rewrite Hexp by lia. by rewrite Z.eqb_refl.
Qed.

(** * The reassembler's invariant *)

(** The chunks stored in the slots, in order. *)
Fixpoint stored (parts : list (option (list byte))) : list (list byte) :=
  match parts with
  | [] => []
  | Some c :: rest => c :: stored rest
  | None :: rest => stored rest
  end.

Lemma stored_app l k : stored (l ++ k) = stored l ++ stored k.
Proof. induction l as [|[c|] l IH]; simpl; congruence. Qed.

Lemma stored_fmap l : stored (Some <$> l) = l.
Proof. induction l as [|c l IH]; [done|]. cbn. f_equal. done. Qed.

Lemma stored_length_le l : (length (stored l) <= length l)%nat.
Proof. induction l as [|[c|] l IH]; simpl; lia. Qed.

Section invariant.
Context `{K : KeyOps}.
Implicit Types (r : masqueWGReassembler) (a : masqueWGFragmentAssembly).

(** An incomplete assembly: its slot count is the one its size requires, the
    stored chunks have exactly the expected lengths, [received] counts them,
    and at least one is missing. *)
Record wf_assembly a : Prop := {
  wfa_total : masqueWGFragmentChunkSize < fa_total a <= masqueWGFragmentMaxSize;
  wfa_count : fa_count a = chunk_count (fa_total a);
  wfa_slots : zlen (fa_parts a) = fa_count a;
  wfa_chunks : forall (i : nat) c, fa_parts a !! i = Some (Some c) ->
    zlen c = expectedChunkLen (fa_total a) (Z.of_nat i);
  wfa_received : fa_received a = zlen (stored (fa_parts a));
  wfa_missing : fa_received a < fa_count a;
}.

Record wf_reassembler r : Prop := {
  wfr_assemblies : map_Forall (fun _ a => wf_assembly a) (sets r);
  wfr_size : Z.of_nat (size (sets r)) <= masqueWGMaxAssemblies;
  wfr_source : forall src, sourceAssemblyCountLocked (sets r) src <= masqueWGMaxAssembliesPerSource;
}.

Lemma cleanup_subseteq now m : cleanupLocked now m ⊆ m.
Proof. apply map_filter_subseteq. Qed.

Lemma cleanup_lookup now m key a :
  m !! key = Some a -> now - fa_updated a < masqueWGFragmentTTL ->
  cleanupLocked now m !! key = Some a.
Proof. intros. apply map_lookup_filter_Some. split; [done|]. simpl. lia. Qed.

Lemma wf_sub r m : wf_reassembler r -> m ⊆ sets r -> wf_reassembler (Reassembler m).
Proof.
  intros [Ha Hs Hsrc] Hsub. split; simpl.
  - intros k a Hk. apply (Ha k). by eapply lookup_weaken.
  - pose proof (map_subseteq_size _ _ Hsub). lia.
  - intros src. pose proof (count_map_subseteq (fun kv : NodePublic * Z * masqueWGFragmentAssembly => kv.1.1 = src) _ _ Hsub).
    specialize (Hsrc src). unfold sourceAssemblyCountLocked in *. lia.
Qed.

Lemma wf_delete r k : wf_reassembler r -> wf_reassembler (Reassembler (delete k (sets r))).
Proof. intros H. apply (wf_sub r); [done|]. apply delete_subseteq. Qed.

(** Replacing an assembly by another well-formed one keeps the bounds. *)
Lemma wf_replace r k a a' :
  wf_reassembler r -> sets r !! k = Some a -> wf_assembly a' ->
  wf_reassembler (Reassembler (<[k := a']> (sets r))).
Proof.
  intros [Ha Hs Hsrc] Hk Hwf. split; simpl.
  - by apply map_Forall_insert_2.
  - by rewrite map_size_insert_Some by eauto.
  - intros src. specialize (Hsrc src). unfold sourceAssemblyCountLocked in *.
    rewrite <- insert_delete_eq, count_map_insert_None by apply lookup_delete_eq.
    rewrite <- (insert_delete_id (sets r) k a), count_map_insert_None in Hsrc
      by (done || apply lookup_delete_eq).
    simpl in *. done.
Qed.

Lemma stored_insert (parts : list (option (list byte))) i c :
  parts !! i = Some None ->
  length (stored (<[i := Some c]> parts)) = S (length (stored parts)).
Proof.
  revert i. induction parts as [|o parts IH]; intros i Hi; [done|].
  destruct i as [|i]; simpl in *.
  - simplify_eq. done.
  - destruct o; simpl; rewrite IH by done; done.
Qed.

Lemma stored_full (parts : list (option (list byte))) :
  length (stored parts) = length parts -> Forall is_Some parts.
Proof.
  intros H. induction parts as [|[c|] parts IH]; simpl in H; [constructor|..].
  - constructor; [eauto|]. apply IH. lia.
  - pose proof (stored_length_le parts). lia.
Qed.

Lemma joinParts_some parts out :
  Forall is_Some parts -> joinParts parts out = Some (out ++ concat (stored parts)).
Proof.
  intros H. revert out. induction H as [|o parts [c ->] _ IH]; intros out; simpl.
  - by rewrite app_nil_r.
  - by rewrite IH, app_assoc.
Qed.

(** The chunks of a complete assembly add up to its size. *)
Lemma complete_length parts total :
  Forall is_Some parts -> 0 < total -> zlen parts = chunk_count total ->
  (forall (i : nat) c, parts !! i = Some (Some c) -> zlen c = expectedChunkLen total (Z.of_nat i)) ->
  zlen (concat (stored parts)) = total.
Proof.
  intros Hall Hpos Hn Hc. pose proof (chunk_count_bounds total Hpos) as Hb.
  destruct parts as [|last front _] using rev_ind; [unfold zlen in Hn; simpl in Hn; lia|].
  apply Forall_app in Hall as [Hall Hl]. apply Forall_singleton in Hl as [c ->].
  rewrite zlen_app, zlen_cons, zlen_nil in Hn.
  rewrite stored_app, concat_app, zlen_app. simpl. rewrite app_nil_r.
  assert (Hlast : zlen c = total - (chunk_count total - 1) * 1000).
  { rewrite (Hc (length front)); [|by rewrite list_lookup_middle].
    unfold expectedChunkLen. fold (chunk_count total). frag_consts.
    by rewrite (proj2 (Z.eqb_eq _ _)) by (unfold zlen in Hn; lia). }
  rewrite Hlast. enough (zlen (concat (stored front)) = 1000 * zlen front) by lia.
  assert (Hf : forall (i : nat) d, front !! i = Some (Some d) -> zlen d = 1000).
  { intros i d Hi. rewrite (Hc i) by (by apply lookup_app_l_Some).
    unfold expectedChunkLen. fold (chunk_count total). frag_consts.
    apply lookup_lt_Some in Hi. rewrite (proj2 (Z.eqb_neq _ _)); [done|]. unfold zlen in Hn. lia. }
  clear -Hall Hf. induction Hall as [|o front [d ->] _ IH]; [done|].
  cbn [stored concat]. rewrite zlen_app, zlen_cons, IH by (intros i; apply (Hf (S i))).
  rewrite (Hf 0%nat d) by done. lia.
Qed.

Lemma wf_new now h :
  masqueWGFragmentChunkSize < fh_total h <= masqueWGFragmentMaxSize ->
  fh_count h = chunk_count (fh_total h) ->
  wf_assembly (Assembly (fh_count h) (fh_total h)
                 (replicate (Z.to_nat (fh_count h)) None) 0 now).
Proof.
  intros Ht Hc. pose proof (chunk_count_bounds (fh_total h)) as Hb. frag_consts.
  split; simpl; try done.
  - unfold zlen. rewrite length_replicate. lia.
  - intros i c Hi. apply lookup_replicate in Hi as [? _]. done.
  - by induction (Z.to_nat (fh_count h)).
  - lia.
Qed.

(** What the header checks of [Push] establish. *)
Lemma parseFragment_inv payload h :
  parseFragment payload = Ok (Some h) ->
  0 <= fh_index h < fh_count h /\
  masqueWGFragmentChunkSize < fh_total h <= masqueWGFragmentMaxSize /\
  fh_count h = chunk_count (fh_total h) /\
  zlen (fh_chunk h) = expectedChunkLen (fh_total h) (fh_index h).
Proof.
  unfold parseFragment. intros H.
  destruct (negb (has_prefix _ _)); [done|]. destruct (zlen payload <? _); [done|].
  destruct ((_ <? 2) || _) eqn:E1; [done|]. destruct ((_ <=? _) || _) eqn:E2; [done|].
  destruct (negb (_ =? _ / _)) eqn:E3; [done|]. destruct (negb (zlen _ =? _)) eqn:E4; [done|].
  bool_to_prop. simplify_eq/=. pose proof (be_get_range (slice 12 14 payload)).
  unfold chunk_count. repeat split; (done || lia).
Qed.

(** Storing a valid chunk keeps the reassembler well formed; a completed
    assembly yields exactly its announced number of bytes, so the final length
    check of [Push] never fires. *)
Lemma store_wf m key set now index chunk m' res :
  wf_reassembler (Reassembler m) -> m !! key = Some set ->
  0 <= index < fa_count set -> zlen chunk = expectedChunkLen (fa_total set) index ->
  storePart m key set now index chunk = (m', res) ->
  wf_reassembler (Reassembler m') /\
  (forall out, res = Ok (Some out) -> zlen out = fa_total set) /\
  (forall e, res = Err e ->
     e = ErrNew "masquecat: conflicting duplicate WireGuard fragment %d").
Proof.
  intros Hwf Hk Hi Hlen H. pose proof (wfr_assemblies _ Hwf _ _ Hk) as Hset. simpl in *.
  unfold storePart in H.
  assert (Hlt : (Z.to_nat index < length (fa_parts set))%nat).
  { pose proof (wfa_slots _ Hset). unfold zlen in *. lia. }
  destruct (lookup_lt_is_Some_2 _ _ Hlt) as [o Ho]. rewrite Ho in H.
  destruct o as [old|].
  { destruct (bool_decide (old = chunk)); simplify_eq; split; [done|naive_solver| |naive_solver].
    by apply (wf_delete (Reassembler m)). }
  pose proof (stored_insert _ _ chunk Ho) as Hst.
  pose proof (wfa_received _ Hset) as Hrec. pose proof (wfa_missing _ Hset) as Hmiss.
  assert (Hchunks : forall (i : nat) c, <[Z.to_nat index := Some chunk]> (fa_parts set) !! i = Some (Some c) ->
     zlen c = expectedChunkLen (fa_total set) (Z.of_nat i)).
  { intros i c Hic. destruct (decide (Z.to_nat index = i)) as [<-|Hne].
    - rewrite list_lookup_insert_eq in Hic by done. simplify_eq. rewrite Z2Nat.id by lia. done.
    - rewrite list_lookup_insert_ne in Hic by done. by apply (wfa_chunks _ Hset). }
  destruct (negb (_ =? _)) eqn:E; bool_to_prop; simpl in E.
  - simplify_eq. split; [|naive_solver]. apply (wf_replace (Reassembler m) _ set); [done..|].
    destruct Hset; split; simpl; try done.
    + unfold zlen in *. by rewrite length_insert.
    + unfold zlen in *. lia.
    + lia.
  - assert (Hall : Forall is_Some (<[Z.to_nat index := Some chunk]> (fa_parts set))).
    { apply stored_full. rewrite Hst, length_insert. pose proof (wfa_slots _ Hset).
      unfold zlen in *. lia. }
    simpl in H. rewrite joinParts_some in H by done. simpl in H.
    pose proof (wfa_total _ Hset) as Ht. frag_consts.
    assert (Hout : zlen (concat (stored (<[Z.to_nat index := Some chunk]> (fa_parts set)))) = fa_total set).
    { apply complete_length; [done|lia| |done].
      unfold zlen. rewrite length_insert. rewrite <- (wfa_count _ Hset). apply (wfa_slots _ Hset). }
    rewrite Hout, Z.eqb_refl in H. simpl in H. simplify_eq. split; [|naive_solver].
    rewrite delete_insert_eq. by apply (wf_delete (Reassembler m)).
Qed.

(** A fresh assembly may be opened when both capacity checks pass. *)
Lemma wf_open m k a :
  wf_reassembler (Reassembler m) -> m !! k = None -> wf_assembly a ->
  sourceAssemblyCountLocked m k.1 < masqueWGMaxAssembliesPerSource ->
  Z.of_nat (size m) < masqueWGMaxAssemblies ->
  wf_reassembler (Reassembler (<[k := a]> m)).
Proof.
  intros [Ha Hs Hsrc] Hk Hwf Hc1 Hc2. split; simpl in *.
  - by apply map_Forall_insert_2.
  - rewrite map_size_insert_None by done. lia.
  - intros src. specialize (Hsrc src). unfold sourceAssemblyCountLocked in *.
    rewrite count_map_insert_None by done. simpl. case_decide; subst; lia.
Qed.

Lemma push_wf r now src payload :
  wf_reassembler r ->
  let '(r', res) := Push r now src payload in
  wf_reassembler r' /\
  (forall h, parseFragment payload = Ok (Some h) ->
     match res with
     | Ok (Some out) => zlen out = fh_total h
     | Ok None => True
     | Err e => e <> ErrNew "masquecat: reassembled WireGuard packet has %d bytes, want %d"
     end).
Proof.
  intros Hwf. unfold Push.
  destruct (parseFragment payload) as [[h|]|e] eqn:Hp; [|by split..].
  pose proof (parseFragment_inv _ _ Hp) as (Hi & Ht & Hc & Hl).
  set (m := cleanupLocked now (sets r)).
  assert (Hm : wf_reassembler (Reassembler m)) by (apply (wf_sub r), cleanup_subseteq; done).
  destruct (m !! (src, fh_id h)) as [a|] eqn:Hk.
  - destruct (negb _ || negb _) eqn:E.
    { by split; [apply (wf_delete (Reassembler m))|]. }
    bool_to_prop. destruct (storePart _ _ _ _ _ _) as [m' res] eqn:Es.
    eapply store_wf in Es as (Hr & Ho & He); [|done..|congruence|congruence].
    split; [done|]. intros h' [= <-]. destruct res as [[out|]|e]; [|done|].
    + by rewrite (Ho out).
    + intros ->. by specialize (He _ eq_refl).
  - destruct (_ <=? _) eqn:E1; [by split|]. destruct (masqueWGMaxAssemblies <=? _) eqn:E2; [by split|].
    bool_to_prop. destruct (storePart _ _ _ _ _ _) as [m' res] eqn:Es.
    eapply store_wf in Es as (Hr & Ho & He); [| |by rewrite lookup_insert_eq|done|done].
    + split; [done|]. intros h' [= <-]. destruct res as [[out|]|e]; [|done|].
      * by rewrite (Ho out).
      * intros ->. by specialize (He _ eq_refl).
    + apply wf_open; [done|done|by apply wf_new|done|done].
Qed.
End invariant.

(** * Delivery *)

Section delivery.
Context `{K : KeyOps}.

Record push_event : Type := PushEvent {
  ev_time : Z;
  ev_src : NodePublic;
  ev_bytes : list byte;
}.

(** The assembly a pushed datagram belongs to, if it is a valid fragment. *)
Definition key_of (ev : push_event) : option (NodePublic * Z) :=
  match parseFragment (ev_bytes ev) with
  | Ok (Some h) => Some (ev_src ev, fh_id h)
  | _ => None
  end.

Fixpoint push_all (r : masqueWGReassembler) (evs : list push_event)
    : list (push_event * result (option (list byte))) :=
  match evs with
  | [] => []
  | ev :: rest =>
      let '(r', res) := Push r (ev_time ev) (ev_src ev) (ev_bytes ev) in
      (ev, res) :: push_all r' rest
  end.

(** The results of the pushes that belong to one assembly. *)
Definition results_for (key : NodePublic * Z)
    (l : list (push_event * result (option (list byte)))) : list (result (option (list byte))) :=
  snd <$> filter (fun p => key_of p.1 = Some key) l.

Lemma results_for_none key r evs :
  filter (fun ev => key_of ev = Some key) evs = [] -> results_for key (push_all r evs) = [].
Proof.
  revert r. induction evs as [|ev evs IH]; intros r H; [done|].
  rewrite filter_cons in H. case_decide; [done|].
  simpl. destruct (Push _ _ _ _) as [r' res]. unfold results_for.
  rewrite filter_cons. simpl. rewrite decide_False by done. by apply IH.
Qed.

(** Another datagram leaves a live assembly alone. *)
(** Storing a part touches one key only. *)
Lemma store_other m key key' a now i c :
  key' <> key -> (storePart m key' a now i c).1 !! key = m !! key.
Proof.
  intros Hne. unfold storePart.
  repeat case_match; simpl; by rewrite ?lookup_delete_ne, ?lookup_insert_ne by done.
Qed.

(** A valid fragment of another assembly only ages this one. *)
Lemma push_other r now src payload h key :
  parseFragment payload = Ok (Some h) -> key <> (src, fh_id h) ->
  sets (Push r now src payload).1 !! key = cleanupLocked now (sets r) !! key.
Proof.
  intros Hp Hne. unfold Push. rewrite Hp. set (m := cleanupLocked now (sets r)).
  pose proof (fun m0 a => store_other m0 key (src, fh_id h) a now (fh_index h) (fh_chunk h)
                ltac:(done)) as Hs.
  destruct (m !! (src, fh_id h)) as [a|].
  - case_match; simpl; [by rewrite lookup_delete_ne|].
    specialize (Hs m a). by destruct (storePart _ _ _ _ _ _).
  - do 2 (case_match; [done|]). rewrite <- (lookup_insert_ne m (src, fh_id h) key
      (Assembly (fh_count h) (fh_total h) (replicate (Z.to_nat (fh_count h)) None) 0 now)) by done.
    match goal with |- context [storePart ?m0 _ ?a _ _ _] => rewrite <- (Hs m0 a) end.
    by destruct (storePart _ _ _ _ _ _).
Qed.

Lemma push_frame r ev key a :
  key_of ev <> Some key -> sets r !! key = Some a ->
  ev_time ev - fa_updated a < masqueWGFragmentTTL ->
  sets (Push r (ev_time ev) (ev_src ev) (ev_bytes ev)).1 !! key = Some a.
Proof.
  intros Hne Hk Ht. unfold key_of in Hne.
  destruct (parseFragment _) as [[h|]|e] eqn:Hp; [|unfold Push; by rewrite Hp..].
  rewrite (push_other _ _ _ _ h) by (done || congruence). by apply cleanup_lookup.
Qed.

Section one_packet.
Context (payload : list byte) (id : Z) (src : NodePublic).
Hypothesis Hid : 0 <= id < 2 ^ 64.
Hypothesis Hlen : masqueWGFragmentChunkSize < zlen payload <= masqueWGFragmentMaxSize.

Let n : nat := Z.to_nat (chunk_count (zlen payload)).
Let frag (i : nat) : list byte :=
  fragmentBytes id (Z.of_nat i) (chunk_count (zlen payload)) (zlen payload) (chunk_at payload i).

(** The assembly after the fragments [done] have arrived, the last at [t]. *)
Let partial_parts (done : list nat) : list (option (list byte)) :=
  (fun j => if decide (j ∈ done) then Some (chunk_at payload j) else None) <$> seq 0 n.
Let partial (done : list nat) (t : Z) : masqueWGFragmentAssembly :=
  Assembly (chunk_count (zlen payload)) (zlen payload) (partial_parts done) (zlen done) t.

Lemma parts_lookup done i :
  (i < n)%nat -> partial_parts done !! i
  = Some (if decide (i ∈ done) then Some (chunk_at payload i) else None).
Proof.
  intros Hi. unfold partial_parts. rewrite list_lookup_fmap, lookup_seq_lt by done. done.
Qed.

Lemma parts_insert done i :
  (i < n)%nat -> <[i := Some (chunk_at payload i)]> (partial_parts done) = partial_parts (i :: done).
Proof.
  intros Hi. apply list_eq. intros j.
  assert (Hl : length (partial_parts done) = n) by (unfold partial_parts; by rewrite length_fmap, length_seq).
  destruct (decide (j < n)%nat) as [Hj|Hj].
  - rewrite parts_lookup by done. destruct (decide (i = j)) as [->|Hne].
    + rewrite list_lookup_insert_eq by lia. by rewrite decide_True by set_solver.
    + rewrite list_lookup_insert_ne, parts_lookup by done.
      repeat case_decide; set_solver.
  - rewrite !lookup_ge_None_2; [done|..]; rewrite ?length_insert; unfold partial_parts in *;
      rewrite ?length_fmap, ?length_seq in *; lia.
Qed.

Lemma parts_complete done :
  (forall i, (i < n)%nat -> i ∈ done) ->
  joinParts (partial_parts done) [] = Some payload.
Proof.
  intros Hall. pose proof (chunk_count_bounds (zlen payload)) as Hb. frag_consts.
  replace (partial_parts done) with (Some <$> (chunk_at payload <$> seq 0 n)).
  - rewrite joinParts_some by (apply Forall_fmap, Forall_true; naive_solver).
    rewrite stored_fmap, concat_chunks; [done|]. unfold n, zlen in *. lia.
  - unfold partial_parts. rewrite <- list_fmap_compose. apply list_fmap_ext.
    intros i j [Hj ?]%lookup_seq. simpl. by rewrite decide_True by (apply Hall; lia).
Qed.

Lemma total_pos : 0 < zlen payload /\ Z.of_nat n = chunk_count (zlen payload) /\ (2 <= n)%nat.
Proof.
  pose proof (chunk_count_bounds (zlen payload)) as Hb. frag_consts. unfold n. lia.
Qed.

(** Storing one more fragment of a partial assembly. *)
Lemma store_more m done i t now :
  (i < n)%nat -> i ∉ done -> S (length done) <> n ->
  storePart m (src, id) (partial done t) now (Z.of_nat i) (chunk_at payload i)
  = (<[(src, id) := partial (i :: done) now]> m, Ok None).
Proof.
  intros Hi Hni Hne. unfold storePart. simpl. rewrite Nat2Z.id, parts_lookup by done.
  rewrite decide_False, parts_insert by done. pose proof total_pos.
  rewrite (proj2 (Z.eqb_neq _ _)) by (unfold zlen at 1; lia). simpl.
  unfold partial. rewrite zlen_cons. by rewrite Z.add_comm.
Qed.

Lemma store_last m done i t now :
  (i < n)%nat -> i ∉ done -> S (length done) = n ->
  (forall j, (j < n)%nat -> j ∈ (i :: done)) ->
  storePart m (src, id) (partial done t) now (Z.of_nat i) (chunk_at payload i)
  = (delete (src, id) m, Ok (Some payload)).
Proof.
  intros Hi Hni Heq Hall. unfold storePart. simpl. rewrite Nat2Z.id, parts_lookup by done.
  rewrite decide_False, parts_insert by done. pose proof total_pos.
  rewrite (proj2 (Z.eqb_eq _ _)) by (unfold zlen at 1; lia). simpl.
  rewrite parts_complete by done. rewrite Z.eqb_refl. simpl. by rewrite delete_insert_eq.
Qed.

Lemma next_index done i todo :
  (done ++ i :: todo) ≡ₚ seq 0 n ->
  (i < n)%nat /\ (i ∉ done) /\ (length done + S (length todo) = n)%nat.
Proof.
  intros Hperm. pose proof (Permutation_length Hperm) as Hl.
  rewrite length_app, length_seq in Hl. simpl in Hl.
  assert (Hnd : NoDup (done ++ i :: todo)) by (rewrite Hperm; apply NoDup_seq).
  assert (Hin : i ∈ seq 0 n) by (rewrite <- Hperm; set_solver).
  apply elem_of_seq in Hin. apply NoDup_app in Hnd as (_ & Hd & _).
  split_and!; [lia| |lia]. intros Hd'. apply (Hd i Hd'). set_solver.
Qed.

(** The fragments of the packet, in any order and among any other traffic, from
    a partial assembly on. *)
Lemma deliver_rest t0 evs r done t todo :
  sets r !! (src, id) = Some (partial done t) -> t0 <= t ->
  Forall (fun ev => ev_time ev < t0 + masqueWGFragmentTTL /\ t0 <= ev_time ev) evs ->
  ev_bytes <$> filter (fun ev => key_of ev = Some (src, id)) evs = frag <$> todo ->
  todo <> [] -> (done ++ todo) ≡ₚ seq 0 n ->
  results_for (src, id) (push_all r evs)
  = replicate (length todo - 1) (Ok None) ++ [Ok (Some payload)].
Proof.
  revert r done t todo. induction evs as [|ev evs IH]; intros r done t todo Hk Ht Htimes Hevs Hne Hperm.
  { by destruct todo. }
  inversion_clear Htimes as [|? ? [Hev1 Hev2] Htimes'].
  simpl push_all. destruct (Push _ _ _ _) as [r' res] eqn:Hp. unfold results_for.
  rewrite filter_cons in Hevs. rewrite filter_cons. simpl.
  destruct (decide (key_of ev = Some (src, id))) as [Hours|Hours].
  2: { apply (IH r' done t todo); try done. pose proof (push_frame r ev _ _ Hours Hk) as Hf.
       rewrite Hp in Hf. apply Hf. simpl. lia. }
  destruct todo as [|i todo]; [done|]. simpl in Hevs. injection Hevs as Hb Hevs.
  destruct (next_index _ _ _ Hperm) as (Hi & Hni & Hcount).
  assert (Hsrc : ev_src ev = src).
  { unfold key_of in Hours. destruct (parseFragment _) as [[]|]; congruence. }
  unfold Push in Hp. rewrite Hb in Hp. unfold frag in Hp. pose proof total_pos as (Hpos & Hnn & _).
  rewrite parse_fragment in Hp by (done || lia). rewrite Hsrc in Hp. simpl in Hp.
  rewrite (cleanup_lookup _ _ _ _ Hk) in Hp by (simpl; lia). simpl in Hp.
  rewrite !Z.eqb_refl in Hp. simpl in Hp.
  destruct todo as [|j todo]; simpl in Hcount.
  - rewrite store_last in Hp; [|done|done|lia|].
    + injection Hp as <- <-. cbn. f_equal.
      apply (results_for_none (src, id)). by apply fmap_nil_inv in Hevs.
    + intros j Hj. assert (Hin : j ∈ seq 0 n) by (apply elem_of_seq; lia).
      rewrite <- Hperm in Hin. set_solver.
  - rewrite store_more in Hp by (done || lia). injection Hp as <- <-.
    cbn [replicate length app Nat.sub fmap list_fmap].
    f_equal. etransitivity; [apply (IH _ (i :: done) (ev_time ev) (j :: todo))|].
    7: { simpl. by rewrite Nat.sub_0_r. }
    + simpl. by rewrite lookup_insert_eq.
    + done.
    + done.
    + done.
    + done.
    + rewrite <- Hperm. simpl. apply Permutation_middle.
Qed.

Lemma parts_nil : replicate n None = partial_parts [].
Proof.
  unfold partial_parts. generalize 0%nat. induction n as [|k IH]; intros j; [done|].
  cbn. f_equal. apply IH.
Qed.

(** The first fragment opens the assembly. *)
Lemma push_first r now i :
  (i < n)%nat -> sets r !! (src, id) = None ->
  sourceAssemblyCountLocked (sets r) src < masqueWGMaxAssembliesPerSource ->
  Z.of_nat (size (sets r)) < masqueWGMaxAssemblies ->
  exists r', Push r now src (frag i) = (r', Ok None) /\
    sets r' !! (src, id) = Some (partial [i] now).
Proof.
  intros Hi Hnone Hsrcn Hsize. pose proof total_pos as (Hpos & Hn & Hn2).
  pose proof (cleanup_subseteq now (sets r)) as Hsub.
  pose proof (count_map_subseteq (fun kv : NodePublic * Z * masqueWGFragmentAssembly => kv.1.1 = src) _ _ Hsub).
  pose proof (map_subseteq_size _ _ Hsub).
  unfold Push, frag. rewrite parse_fragment by (done || lia). simpl.
  rewrite (lookup_weaken_None _ _ _ Hnone Hsub).
  rewrite (proj2 (Z.leb_gt _ _)) by (unfold sourceAssemblyCountLocked in *; lia).
  rewrite (proj2 (Z.leb_gt _ _)) by lia. fold n. rewrite parts_nil.
  change (Assembly _ _ (partial_parts []) 0 now) with (partial [] now).
  rewrite store_more by (simpl; set_solver || lia).
  eexists. split; [done|]. apply lookup_insert_eq.
Qed.

Lemma deliver_all t0 first rest r todo :
  sets r !! (src, id) = None ->
  sourceAssemblyCountLocked (sets r) src < masqueWGMaxAssembliesPerSource ->
  Z.of_nat (size (sets r)) < masqueWGMaxAssemblies ->
  key_of first = Some (src, id) ->
  Forall (fun ev => ev_time ev < t0 + masqueWGFragmentTTL /\ t0 <= ev_time ev) (first :: rest) ->
  ev_bytes <$> filter (fun ev => key_of ev = Some (src, id)) (first :: rest) = frag <$> todo ->
  todo ≡ₚ seq 0 n ->
  results_for (src, id) (push_all r (first :: rest))
  = replicate (n - 1) (Ok None) ++ [Ok (Some payload)].
Proof.
  intros Hnone Hsrcn Hsize Hfirst Htimes Hevs Hperm. pose proof total_pos as (Hpos & Hn & Hn2).
  rewrite filter_cons, decide_True in Hevs by done.
  destruct todo as [|i todo]; [done|]. injection Hevs as Hb Hevs.
  destruct (next_index [] i todo Hperm) as (Hi & _ & Hcount). simpl in Hcount.
  inversion_clear Htimes as [|? ? [Ht1 Ht2] Htimes'].
  assert (Hsrc : ev_src first = src).
  { unfold key_of in Hfirst. destruct (parseFragment _) as [[]|]; congruence. }
  destruct (push_first r (ev_time first) i) as (r' & Hp & Hr'); [done..|].
  cbn [push_all]. rewrite Hb, Hsrc, Hp. unfold results_for. rewrite filter_cons. simpl.
  rewrite decide_True by done. cbn [fmap list_fmap snd].
  etransitivity; [apply f_equal, (deliver_rest t0 rest r' [i] (ev_time first) todo); try done|].
  - destruct todo; simpl in Hcount; [lia|done].
  - replace (n - 1)%nat with (S (length todo - 1)) by (destruct todo; simpl in *; lia). done.
Qed.
End one_packet.
End delivery.

(** * Properties *)

Section properties.
Context `{K : KeyOps}.

(** C1: Fragmentation round trip.  Cut any packet of more than one chunk and at
    most 64 KiB; let its fragments reach a reassembler in any order, interleaved
    with any other datagrams (from the same or other sources), all within the
    30-second lifetime of an assembly and starting below the capacity limits.
    Then every fragment but the last one reports "incomplete" and the last one
    yields exactly the original packet. *)
Theorem fragments_reassemble r now sq payload frags sq' src t0 first rest :
  masqueWGFragmentChunkSize < zlen payload <= masqueWGFragmentMaxSize ->
  fragmentMasqueWireGuardPacket now sq payload = (Ok frags, sq') ->
  let key := (src, (nextMasqueWGFragmentID now sq).1) in
  (ev_bytes <$> filter (fun ev => key_of ev = Some key) (first :: rest)) ≡ₚ frags ->
  key_of first = Some key ->
  Forall (fun ev => ev_time ev < t0 + masqueWGFragmentTTL /\ t0 <= ev_time ev) (first :: rest) ->
  sets r !! key = None ->
  sourceAssemblyCountLocked (sets r) src < masqueWGMaxAssembliesPerSource ->
  Z.of_nat (size (sets r)) < masqueWGMaxAssemblies ->
  results_for key (push_all r (first :: rest))
  = replicate (length frags - 1) (Ok None) ++ [Ok (Some payload)].
Proof.
  intros Hlen Hfrag key Hperm Hfirst Htimes Hnone Hsrcn Hsize.
  rewrite fragment_ok in Hfrag by done. injection Hfrag as <- <-.
  assert (Hid : 0 <= (nextMasqueWGFragmentID now sq).1 < 2 ^ 64) by (apply Z.mod_pos_bound; lia).
  apply Permutation_map_inv in Hperm as (todo & Hevs & Hperm).
  unfold fragments_of. rewrite length_fmap, length_seq.
  by apply (deliver_all payload _ src Hid Hlen t0 first rest r todo).
Qed.

Inductive reassembler_op : Type :=
  | OpPush (now : Z) (src : NodePublic) (payload : list byte)
  | OpReset.

Definition reassembler_step (r : masqueWGReassembler) (op : reassembler_op) : masqueWGReassembler :=
  match op with
  | OpPush now src payload => (Push r now src payload).1
  | OpReset => Reset r
  end.

Lemma wf_empty : wf_reassembler (Reassembler ∅).
Proof.
  split; simpl; [apply map_Forall_empty|by rewrite map_size_empty|].
  intros src. unfold sourceAssemblyCountLocked, count_map. by rewrite map_to_list_empty.
Qed.

Lemma reachable_wf ops : wf_reassembler (foldl reassembler_step (Reassembler ∅) ops).
Proof.
  induction ops as [|op ops IH] using rev_ind; [apply wf_empty|].
  rewrite foldl_app. simpl. destruct op as [now src payload|]; simpl; [|apply wf_empty].
  pose proof (push_wf _ now src payload IH) as H. destruct (Push _ _ _ _). apply H.
Qed.

(** C4: Whatever is pushed, in whatever order and at whatever times, the
    reassembler stays within its limits (at most 256 incomplete assemblies, at
    most 32 per source) and every incomplete assembly is consistent: its slots
    match its announced size, stored chunks have the expected lengths, the
    received counter is exact and some slot is still empty. *)
Theorem reassembler_invariant ops :
  let r := foldl reassembler_step (Reassembler ∅) ops in
  Z.of_nat (size (sets r)) <= 256 /\
  (forall src, sourceAssemblyCountLocked (sets r) src <= 32) /\
  map_Forall (fun _ a => wf_assembly a) (sets r).
Proof. destruct (reachable_wf ops) as [Ha Hs Hsrc]. by split_and!. Qed.

(** Whenever a fragment completes an assembly in a reachable reassembler,
    the packet handed up has exactly the size announced in the fragment header,
    between 1001 and 65536 bytes; the code's final length check never fails. *)
Theorem completed_packet_has_announced_size ops now src payload h :
  parseFragment payload = Ok (Some h) ->
  let r := foldl reassembler_step (Reassembler ∅) ops in
  match (Push r now src payload).2 with
  | Ok (Some out) => zlen out = fh_total h /\ 1000 < zlen out <= 65536
  | Ok None => True
  | Err e => e <> ErrNew "masquecat: reassembled WireGuard packet has %d bytes, want %d"
  end.
Proof.
  intros Hp r. pose proof (reachable_wf ops) as Hwf. fold r in Hwf.
  pose proof (parseFragment_inv _ _ Hp) as (Hi & Ht & Hc & Hl).
  pose proof (push_wf r now src payload Hwf) as H.
  destruct (Push r now src payload) as [r' res]. simpl.
  destruct H as [_ Ho]. specialize (Ho h Hp). destruct res as [[out|]|e]; [|done..].
  rewrite Ho. done.
Qed.

(** A replayed fragment is not progress: pushing a chunk that is already
    stored reports "incomplete" and leaves the assembly, its expiry time
    included, exactly as it was, so replays cannot keep it alive. *)
Theorem duplicate_does_not_extend_lifetime r now src payload h a :
  parseFragment payload = Ok (Some h) ->
  sets r !! (src, fh_id h) = Some a ->
  now - fa_updated a < masqueWGFragmentTTL ->
  fa_count a = fh_count h -> fa_total a = fh_total h ->
  fa_parts a !! Z.to_nat (fh_index h) = Some (Some (fh_chunk h)) ->
  (Push r now src payload).2 = Ok None /\
  sets (Push r now src payload).1 !! (src, fh_id h) = Some a.
Proof.
  intros Hp Hk Ht Hc Htot Hpart. unfold Push. rewrite Hp.
  rewrite (cleanup_lookup _ _ _ _ Hk Ht), Hc, Htot, !Z.eqb_refl. simpl.
  unfold storePart. rewrite Hpart, bool_decide_eq_true_2 by done. simpl.
  split; [done|]. by apply cleanup_lookup.
Qed.

(** What is left under a key after one push when the key was unused. *)
Lemma store_fresh m key now h :
  (Z.to_nat (fh_index h) < Z.to_nat (fh_count h))%nat -> m !! key = None ->
  let a := Assembly (fh_count h) (fh_total h) (replicate (Z.to_nat (fh_count h)) None) 0 now in
  match (storePart (<[key := a]> m) key a now (fh_index h) (fh_chunk h)).1 !! key with
  | None => True
  | Some a' => fa_updated a' = now /\ fa_received a' = 1
  end.
Proof.
  intros Hi Hk a. unfold storePart. simpl. rewrite lookup_replicate_2 by lia.
  repeat case_match; simplify_eq; simpl in *;
    rewrite ?lookup_delete_eq, ?lookup_insert_eq in *; by simplify_eq.
Qed.

(** An assembly that made no progress for 30 seconds is gone after the next
    valid fragment: only an assembly opened by that very fragment can be found
    under its key. *)
Theorem stale_assembly_is_dropped r now src payload h key a :
  parseFragment payload = Ok (Some h) ->
  sets r !! key = Some a -> masqueWGFragmentTTL <= now - fa_updated a ->
  match sets (Push r now src payload).1 !! key with
  | None => True
  | Some a' => key = (src, fh_id h) /\ fa_updated a' = now /\ fa_received a' = 1
  end.
Proof.
  intros Hp Hk Ht. pose proof (parseFragment_inv _ _ Hp) as (Hi & Htot & Hc & Hl).
  assert (Hm : cleanupLocked now (sets r) !! key = None).
  { apply map_lookup_filter_None. right. intros a' Ha'. simplify_eq. simpl. lia. }
  destruct (decide (key = (src, fh_id h))) as [->|Hne].
  - pose proof (store_fresh _ (src, fh_id h) now h ltac:(lia) Hm) as Hf.
    unfold Push. rewrite Hp, Hm. do 2 (destruct (_ <=? _); [by simpl; rewrite Hm|]).
    destruct (storePart _ _ _ _ _ _) as [m' res] eqn:Es. cbv zeta in Hf. rewrite Es in Hf.
    simpl in *. by destruct (m' !! _).
  - rewrite (push_other r now src payload h key Hp) by done. by rewrite Hm.
Qed.
End properties.

(** * Fragment identifiers *)

(** The identifiers handed out by successive calls whose clock reads are [times]. *)
Fixpoint fragment_ids (seq : Z) (times : list Z) : list Z :=
  match times with
  | [] => []
  | t :: rest =>
      let '(id, seq') := nextMasqueWGFragmentID t seq in id :: fragment_ids seq' rest
  end.

Lemma fragment_ids_spec seq times :
  0 <= seq -> seq + zlen times < 2 ^ 64 ->
  fragment_ids seq times = imap (fun i t => u64 (t + seq + Z.of_nat i + 1)) times.
Proof.
  revert seq. induction times as [|t rest IH]; intros seq Hs Hn; [done|].
  autorewrite with zlen in Hn. pose proof (zlen_nonneg rest). cbn [fragment_ids nextMasqueWGFragmentID].
  assert (Hu : u64 (seq + 1) = seq + 1) by (apply Z.mod_small; lia).
  unfold nextMasqueWGFragmentID. rewrite Hu. simpl. f_equal.
  - unfold u64. rewrite Zplus_mod_idemp_l. f_equal. lia.
  - rewrite IH by lia. apply imap_ext. intros i t' _. simpl. f_equal. lia.
Qed.

Lemma sorted_lookup_le (l : list Z) i j a b :
  Sorted Z.le l -> (i < j)%nat -> l !! i = Some a -> l !! j = Some b -> a <= b.
Proof.
  intros Hs%(Sorted_StronglySorted _) Hij Ha Hb.
  rewrite <- (take_drop_middle _ _ _ Ha) in Hb, Hs.
  apply StronglySorted_app in Hs as (_ & _ & [Hf _]%StronglySorted_cons).
  pose proof (lookup_lt_Some _ _ _ Ha).
  rewrite lookup_app_r in Hb; rewrite length_take in *; [|lia].
  replace (j - _)%nat with (S (j - S i)) in Hb by lia.
  rewrite Forall_lookup in Hf. by apply (Hf _ _ Hb).
Qed.

(** Fragment identifiers of packets sent in counter order under a clock that
    does not run backwards are pairwise different, for as long as the clock plus
    the counter stay below 2^64 (the year 2554 for the nanosecond clock). *)
Theorem fragment_ids_distinct seq times :
  0 <= seq -> Sorted Z.le times ->
  Forall (fun t => 0 <= t /\ t + seq + zlen times < 2 ^ 64) times ->
  NoDup (fragment_ids seq times).
Proof.
  intros Hseq Hs Ht. destruct (decide (times = [])) as [->|Hne]; [constructor|].
  assert (Hn : seq + zlen times < 2 ^ 64).
  { destruct times as [|t0 rest]; [done|]. apply Forall_cons in Ht as [? _]. lia. }
  rewrite fragment_ids_spec by done. apply NoDup_alt. intros i j x Hi Hj.
  rewrite list_lookup_imap in Hi, Hj.
  destruct (times !! i) as [a|] eqn:Ea; [|done]. destruct (times !! j) as [b|] eqn:Eb; [|done].
  simpl in Hi, Hj. assert (Hab : u64 (a + seq + Z.of_nat i + 1) = u64 (b + seq + Z.of_nat j + 1)) by congruence.
  pose proof (lookup_lt_Some _ _ _ Ea). pose proof (lookup_lt_Some _ _ _ Eb).
  rewrite Forall_lookup in Ht. pose proof (Ht _ _ Ea). pose proof (Ht _ _ Eb). unfold zlen in *.
  unfold u64 in Hab. rewrite !Z.mod_small in Hab by lia.
  destruct (Nat.lt_trichotomy i j) as [Hij|[Hij|Hij]]; [|done|].
  - pose proof (sorted_lookup_le _ _ _ _ _ Hs Hij Ea Eb). lia.
  - pose proof (sorted_lookup_le _ _ _ _ _ Hs Hij Eb Ea). lia.
Qed.

(** The counter alone does not make identifiers unique.  Two concurrent sends
    read the clock before they increment the counter; when the one that read the
    earlier time increments last, both obtain the same identifier. *)
Theorem fragment_id_collision t seq :
  (nextMasqueWGFragmentID (t + 1) seq).1
  = (nextMasqueWGFragmentID t (nextMasqueWGFragmentID (t + 1) seq).2).1.
Proof.
  unfold nextMasqueWGFragmentID, u64. simpl.
  repeat first [rewrite Zplus_mod_idemp_l | rewrite Zplus_mod_idemp_r]. f_equal. lia.
Qed.

(** Every fragment fits the path.  A packet that is fragmented yields between
    2 and 66 fragments of at most 1020 bytes, so that the 65-byte packet header
    and the one-byte context identifier keep each HTTP datagram within 1086
    bytes. *)
Theorem fragments_fit now seq payload frags seq' :
  masqueWGFragmentChunkSize < zlen payload ->
  fragmentMasqueWireGuardPacket now seq payload = (Ok frags, seq') ->
  2 <= zlen frags <= 66 /\
  Forall (fun f => masqueWGFragmentHeaderLen < zlen f <= 1020 /\ 1 + 65 + zlen f <= 1086) frags.
Proof.
  intros Hlo H. destruct (Z.le_gt_cases (zlen payload) masqueWGFragmentMaxSize) as [Hhi|Hhi].
  2: { unfold fragmentMasqueWireGuardPacket in H.
       rewrite (proj2 (Z.leb_gt _ _)), (proj2 (Z.ltb_lt _ _)) in H by lia. done. }
  rewrite fragment_ok in H by done. injection H as <- <-.
  pose proof (chunk_count_bounds (zlen payload)) as Hc. frag_consts. split.
  - assert (zlen (fragments_of (u64 (u64 now + u64 (seq + 1))) payload)
            = Z.of_nat (Z.to_nat (chunk_count (zlen payload)))) as ->; [|lia].
    unfold fragments_of, zlen at 1. by rewrite length_fmap, length_seq.
  - apply Forall_fmap, Forall_forall. intros i Hi%elem_of_seq. simpl.
    rewrite zlen_fragment, expected_chunk_len by lia.
    unfold expectedChunkLen. fold (chunk_count (zlen payload)). frag_consts.
    destruct (_ =? _) eqn:E; bool_to_prop; lia.
Qed.

Import ToyKeys.

(** * Witnesses *)

(** A 2500-byte packet, its three fragments delivered out of order with a foreign
    datagram in between. *)
Definition sample_packet : list byte := replicate 2500 x07.
Definition sample_fragment (i : nat) : list byte :=
  nth i (fragments_of (nextMasqueWGFragmentID 100 7).1 sample_packet) [].
Definition sample_trace : list (push_event (K := toy)) :=
  [PushEvent 5 (nkey 1) (sample_fragment 2); PushEvent 6 (nkey 2) (sample_fragment 0);
   PushEvent 7 (nkey 1) (sample_fragment 0); PushEvent 8 (nkey 1) (sample_fragment 1)].

Lemma fragments_reassemble_witness :
  results_for (nkey 1, (nextMasqueWGFragmentID 100 7).1)
    (push_all (Reassembler ∅) sample_trace)
  = [Ok None; Ok None; Ok (Some sample_packet)].
Proof.
  refine (fragments_reassemble (K := toy) (Reassembler ∅) 100 7 sample_packet
    (fragments_of (nextMasqueWGFragmentID 100 7).1 sample_packet) 8 (nkey 1) 5
    (PushEvent 5 (nkey 1) (sample_fragment 2)) _ _ _ _ _ _ _ _ _).
  - by_evaluation.
  - apply fragment_ok. by_evaluation.
  - by_evaluation.
  - by_evaluation.
  - by_evaluation.
  - by_evaluation.
  - by_evaluation.
  - by_evaluation.
Defined.

(** The header of the sample packet's fragment [i] as [Push] reads it. *)
Definition sample_header (i : nat) : fragmentHeader :=
  FragmentHeader 108 (Z.of_nat i) 3 2500 (chunk_at sample_packet i).

Lemma completed_packet_has_announced_size_witness :
  match (Push (foldl reassembler_step (Reassembler ∅)
           [OpPush 5 (nkey 1) (sample_fragment 2); OpPush 6 (nkey 1) (sample_fragment 0)])
           7 (nkey 1) (sample_fragment 1)).2 with
  | Ok (Some out) => zlen out = 2500 /\ 1000 < zlen out <= 65536
  | Ok None => True
  | Err e => e <> ErrNew "masquecat: reassembled WireGuard packet has %d bytes, want %d"
  end.
Proof.
  apply (completed_packet_has_announced_size (K := toy) _ _ _ _ (sample_header 1)).
  vm_reflexivity.
Defined.

Lemma duplicate_does_not_extend_lifetime_witness :
  let r := (Push (K := toy) (Reassembler ∅) 5 (nkey 1) (sample_fragment 1)).1 in
  (Push r 9 (nkey 1) (sample_fragment 1)).2 = Ok None /\
  sets (Push r 9 (nkey 1) (sample_fragment 1)).1 !! (nkey 1, 108)
  = Some (Assembly 3 2500 [None; Some (chunk_at sample_packet 1); None] 1 5).
Proof.
  apply (duplicate_does_not_extend_lifetime (K := toy) _ _ _ _ (sample_header 1));
    vm_reflexivity.
Defined.

Lemma stale_assembly_is_dropped_witness :
  let r := (Push (K := toy) (Reassembler ∅) 5 (nkey 1) (sample_fragment 1)).1 in
  match sets (Push r (5 + masqueWGFragmentTTL) (nkey 2) (sample_fragment 0)).1 !! (nkey 1, 108) with
  | None => True
  | Some a' => (nkey 1, 108) = (nkey 2, 108) /\ fa_updated a' = 5 + masqueWGFragmentTTL /\
                 fa_received a' = 1
  end.
Proof.
  apply (stale_assembly_is_dropped (K := toy) _ _ _ _ (sample_header 0) _
    (Assembly 3 2500 [None; Some (chunk_at sample_packet 1); None] 1 5)).
  - vm_reflexivity.
  - vm_reflexivity.
  - by_evaluation.
Defined.

Lemma fragment_ids_distinct_witness : NoDup (fragment_ids 0 [10; 10; 11]).
Proof.
  apply fragment_ids_distinct; [lia | repeat constructor; lia |].
  repeat (apply Forall_cons; split; [by_evaluation|]). constructor.
Defined.

Lemma fragments_fit_witness :
  2 <= zlen (fragments_of (nextMasqueWGFragmentID 100 7).1 sample_packet) <= 66 /\
  Forall (fun f => masqueWGFragmentHeaderLen < zlen f <= 1020 /\ 1 + 65 + zlen f <= 1086)
    (fragments_of (nextMasqueWGFragmentID 100 7).1 sample_packet).
Proof.
  apply (fragments_fit 100 7 sample_packet _ 8); [by_evaluation|].
  apply fragment_ok. by_evaluation.
Defined.
