(* ===== verification/Auth.v ===== *)
(** Auth: node-key proof of possession.

    Models src/masquecat_auth.go (the server side, [masqueAuthenticator]) and
    [masqueProofForChallenge] of src/masquecat_transport.go (the client side).
    The server hands out a random one-time token bound to the identities, the
    mode and the client address; the client returns the token sealed from its
    node key to the server's.  [pending] is a [gmap] from token to challenge.

    The clock, the 32 random bytes and Go's unspecified map iteration order are
    arguments: [order] lists the entries of [pending] in the order the [range]
    loop visits them.  The mutex makes [issue] and the lookup of [verify] atomic,
    so an execution is a sequence of [auth_step]s. *)

From S2P Require Import Prelude GoStd Keys Packet.
From Stdlib Require Import Strings.Byte.

Definition masqueChallengeHeader : gostring := B "Masquecat-Challenge".
Definition masqueVerifierHeader : gostring := B "Masquecat-Verifier".
Definition masqueProofHeader : gostring := B "Masquecat-Proof".
Definition masqueChallengeTTL : Z := 30 * Second.
Definition masqueMaxPendingChallenges : Z := 1024.
Definition masqueMaxPendingPerSource : Z := 4.
Definition masqueMaxPendingPerRemoteAddr : Z := 64.

Section auth.
Context `{K : KeyOps}.

(** src/masquecat_auth.go:30-36 [masqueChallenge] *)
Record masqueChallenge : Type := Challenge {
  ch_src : NodePublic;
  ch_target : NodePublic;
  ch_mode : gostring;
  ch_clientID : gostring;
  ch_expires : Z;
}.

#[global] Instance masqueChallenge_eq_dec : EqDecision masqueChallenge.
Proof. solve_decision. Defined.

(** src/masquecat_auth.go:38-43 [masqueAuthenticator] *)
Record masqueAuthenticator : Type := Authenticator {
  auth_priv : NodePrivate;
  pending : gmap gostring masqueChallenge;
}.

(** src/masquecat_auth.go:45-53 [newMasqueAuthenticator]; [fresh] is the key
    [key.NewNode()] returns. *)
Definition newMasqueAuthenticator (fresh priv : NodePrivate) : masqueAuthenticator :=
  let priv := if PrivIsZero priv then fresh else priv in
  Authenticator priv ∅.

(** src/masquecat_auth.go:82-91 [masqueChallengeClientID], for a non-nil request
    with this [RemoteAddr]. *)
Definition masqueChallengeClientID (remoteAddr : gostring) : gostring :=
  if bool_decide (remoteAddr = []) then B "<unknown>"
  else
    match Net.SplitHostPort remoteAddr with
    | Ok (host, _) => if bool_decide (host = []) then remoteAddr else host
    | Err _ => remoteAddr
    end.

Definition same_request (src target : NodePublic) (mode clientID : gostring)
    (c : masqueChallenge) : bool :=
  bool_decide (ch_src c = src) && bool_decide (ch_target c = target) &&
  bool_decide (ch_mode c = mode) && bool_decide (ch_clientID c = clientID).

(** src/masquecat_auth.go:99-116 [masqueAuthenticator.issue], the loop over the
    pending challenges: a reusable token, or the counts of live challenges of
    this source and of this address. *)
Fixpoint issue_scan (now : Z) (src target : NodePublic) (mode clientID : gostring)
    (order : list (gostring * masqueChallenge)) (m : gmap gostring masqueChallenge)
    (sourcePending addressPending : Z)
    : gmap gostring masqueChallenge * (gostring + Z * Z) :=
  match order with
  | [] => (m, inr (sourcePending, addressPending))
  | (token, c) :: rest =>
      if negb (now <? ch_expires c) then
        issue_scan now src target mode clientID rest (delete token m) sourcePending addressPending
      else if same_request src target mode clientID c then (m, inl token)
      else
        issue_scan now src target mode clientID rest m
          (if bool_decide (ch_src c = src) then sourcePending + 1 else sourcePending)
          (if bool_decide (ch_clientID c = clientID) then addressPending + 1 else addressPending)
  end.

(** src/masquecat_auth.go:93-143 [masqueAuthenticator.issue]; [rand] is what
    [crand.Read] yields. *)
Definition issue (a : masqueAuthenticator) (now : Z) (order : list (gostring * masqueChallenge))
    (rand : result (list byte)) (src target : NodePublic) (mode clientID : gostring)
    : masqueAuthenticator * result gostring :=
  let '(m, r) := issue_scan now src target mode clientID order (pending a) 0 0 in
  let a := Authenticator (auth_priv a) m in
  match r with
  | inl token => (a, Ok token)
  | inr (sourcePending, addressPending) =>
      if (masqueMaxPendingPerSource <=? sourcePending) ||
         (masqueMaxPendingPerRemoteAddr <=? addressPending) ||
         (masqueMaxPendingChallenges <=? Z.of_nat (size m)) then
        (a, Err ErrMasqueChallengeLimit)
      else
        match rand with
        | Err e => (a, Err (ErrWrap "generate MasqueCat challenge: %w" e))
        | Ok nonce =>
            let token := Base64.EncodeToString nonce in
            if bool_decide (is_Some (m !! token)) then
              (a, Err (ErrNew "generated duplicate MasqueCat challenge"))
            else
              (Authenticator (auth_priv a)
                 (<[token := Challenge src target mode clientID (now + masqueChallengeTTL)]> m),
               Ok token)
        end
  end.

(** src/masquecat_auth.go:145-157 [masqueAuthenticator.verify]: the token a proof
    from [src] contains. *)
Definition proof_token (a : masqueAuthenticator) (encodedProof : gostring) (src target : NodePublic)
    : option gostring :=
  if IsZero src || IsZero target then None
  else
    match Base64.DecodeString encodedProof with
    | Err _ => None
    | Ok proof => OpenFrom (auth_priv a) src proof
    end.

(** src/masquecat_auth.go:145-170 [masqueAuthenticator.verify] *)
Definition verify (a : masqueAuthenticator) (now : Z) (encodedProof : gostring)
    (src target : NodePublic) (mode : gostring) : masqueAuthenticator * bool :=
  match proof_token a encodedProof src target with
  | None => (a, false)
  | Some token =>
      let a' := Authenticator (auth_priv a) (delete token (pending a)) in
      match pending a !! token with
      | None => (a, false)
      | Some c =>
          if negb (now <? ch_expires c) then (a', false)
          else (a', bool_decide (ch_src c = src) && bool_decide (ch_target c = target) &&
                    bool_decide (ch_mode c = mode))
      end
  end.

(** src/masquecat_auth.go:55-80 [masqueAuthenticator.authorize]; [now1] is the
    clock read by [verify] and [now2] the one read by [issue], whose [order]
    depends on the state it sees. *)
Definition authorize (a : masqueAuthenticator) (now1 now2 : Z)
    (order : masqueAuthenticator -> list (gostring * masqueChallenge))
    (rand : result (list byte)) (w : HTTP.responseWriter)
    (header : gmap gostring (list gostring)) (remoteAddr : gostring)
    (src target : NodePublic) (mode : gostring)
    : masqueAuthenticator * HTTP.responseWriter * bool :=
  if IsZero src || IsZero target then
    (a, HTTP.Error w (B "invalid MasqueCat node identity") HTTP.StatusUnauthorized, false)
  else
    let proof := HTTP.Get header masqueProofHeader in
    let '(a, ok) :=
      if bool_decide (proof = []) then (a, false) else verify a now1 proof src target mode in
    if ok then (a, w, true)
    else
      let '(a, r) := issue a now2 (order a) rand src target mode (masqueChallengeClientID remoteAddr) in
      match r with
      | Err e =>
          if errors_is is_challenge_limit e then
            (a, HTTP.Error (HTTP.setHeader w (B "Retry-After") (B "1"))
                  (B "too many pending MasqueCat authentication challenges")
                  HTTP.StatusTooManyRequests, false)
          else
            (a, HTTP.Error w (B "failed to create MasqueCat authentication challenge")
                  HTTP.StatusInternalServerError, false)
      | Ok challenge =>
          let w := HTTP.setHeader w masqueChallengeHeader challenge in
          let w := HTTP.setHeader w masqueVerifierHeader (KeyString (Public (auth_priv a))) in
          (a, HTTP.Error w (B "MasqueCat node-key proof required") HTTP.StatusUnauthorized, false)
      end.

(** src/masquecat_transport.go:201-216 [masqueProofForChallenge]; [nonce] is the
    randomness of the seal. *)
Definition masqueProofForChallenge (nonce : list byte) (local : NodePrivate)
    (challenge verifierText : gostring) (requestTarget : NodePublic) (mode : gostring)
    : result gostring :=
  guard! negb (bool_decide (challenge = []) || bool_decide (verifierText = []))
    or ErrNew "MASQUE endpoint requested authentication without a challenge" in
  match UnmarshalText verifierText with
  | Err e => Err (ErrWrap "parse MASQUE authentication verifier: %w" e)
  | Ok verifier =>
      guard! negb (IsZero verifier) or ErrNew "MASQUE authentication verifier is zero" in
      guard! negb (bool_decide (mode = masqueModeDirect) && negb (bool_decide (verifier = requestTarget)))
        or ErrNew "direct MASQUE authentication verifier does not match target node key" in
      Ok (Base64.EncodeToString (SealTo nonce local verifier challenge))
  end.

(** * Executions *)

Inductive auth_event : Type :=
  | EvIssue (now : Z) (src target : NodePublic) (mode clientID : gostring) (r : result gostring)
  | EvVerify (now : Z) (proof : gostring) (src target : NodePublic) (mode : gostring) (ok : bool).

Inductive auth_step (a : masqueAuthenticator) : auth_event -> masqueAuthenticator -> Prop :=
  | step_issue now order rand src target mode clientID a' r :
      order ≡ₚ map_to_list (pending a) ->
      (forall nonce, rand = Ok nonce -> zlen nonce = 32) ->
      issue a now order rand src target mode clientID = (a', r) ->
      auth_step a (EvIssue now src target mode clientID r) a'
  | step_verify now proof src target mode a' ok :
      verify a now proof src target mode = (a', ok) ->
      auth_step a (EvVerify now proof src target mode ok) a'.

Inductive auth_trace : masqueAuthenticator -> list auth_event -> masqueAuthenticator -> Prop :=
  | trace_nil a : auth_trace a [] a
  | trace_snoc a evs a' ev a'' :
      auth_trace a evs a' -> auth_step a' ev a'' -> auth_trace a (evs ++ [ev]) a''.

(** The token an event tries to consume, with [priv] the server's key. *)
Definition consumes (priv : NodePrivate) (ev : auth_event) : option gostring :=
  match ev with
  | EvIssue _ _ _ _ _ _ => None
  | EvVerify _ proof src target _ _ => proof_token (Authenticator priv ∅) proof src target
  end.
End auth.

(** * The scan *)

Section scan.
Context `{K : KeyOps}.
Context (now : Z) (src target : NodePublic) (mode clientID : gostring).
Implicit Types (m : gmap gostring masqueChallenge) (order : list (gostring * masqueChallenge)).

#[local] Abbreviation scan := (issue_scan now src target mode clientID).

Definition live_entry (p : gostring * masqueChallenge) : Prop := now < ch_expires p.2.

#[global] Instance live_entry_dec p : Decision (live_entry p) := Z_lt_dec _ _.

(** Live challenges survive the scan. *)
Lemma scan_keeps_live order m sp ap t c :
  m !! t = Some c -> now < ch_expires c -> (forall c', (t, c') ∈ order -> c' = c) ->
  (scan order m sp ap).1 !! t = Some c.
Proof.
  intros Hm Hlive. revert m sp ap Hm.
  induction order as [|[t' c'] rest IH]; intros m sp ap Hm Hc; [done|]. simpl.
  destruct (now <? ch_expires c') eqn:E; bool_to_prop; simpl.
  - destruct (same_request src target mode clientID c'); [done|]. apply IH; [done|]. intros. apply Hc. set_solver.
  - assert (t <> t') by (intros ->; specialize (Hc c' ltac:(set_solver)); subst; lia).
    apply IH; [by rewrite lookup_delete_ne|]. intros. apply Hc. set_solver.
Qed.

Lemma scan_subseteq order m sp ap : (scan order m sp ap).1 ⊆ m.
Proof.
  revert m sp ap. induction order as [|[t c] rest IH]; intros m sp ap; [done|]. simpl.
  destruct (negb _); [|destruct (same_request src target mode clientID c); [done|apply IH]].
  etrans; [apply IH|apply delete_subseteq].
Qed.

(** A reused token belongs to a live challenge for the identical request. *)
Lemma scan_found order m sp ap m' t :
  scan order m sp ap = (m', inl t) ->
  exists c, (t, c) ∈ order /\ now < ch_expires c /\ same_request src target mode clientID c = true.
Proof.
  revert m sp ap. induction order as [|[t' c'] rest IH]; intros m sp ap H; [done|].
  simpl in H. destruct (now <? ch_expires c') eqn:E; bool_to_prop; simpl in H.
  - destruct (same_request src target mode clientID c') eqn:Es.
    + injection H as _ <-. exists c'. split_and!; [set_solver|done|done].
    + apply IH in H as (c & ? & ? & ?). exists c. split_and!; [set_solver|done|done].
  - apply IH in H as (c & ? & ? & ?). exists c. split_and!; [set_solver|done|done].
Qed.

Lemma delete_middle (kept rest : list (gostring * masqueChallenge)) t c :
  NoDup (kept ++ (t, c) :: rest).*1 ->
  delete t (list_to_map (kept ++ (t, c) :: rest) : gmap gostring masqueChallenge)
  = list_to_map (kept ++ rest).
Proof.
  intros Hnd. rewrite (list_to_map_proper _ ((t, c) :: kept ++ rest)); [|done|].
  - simpl. rewrite delete_insert_id; [done|]. apply not_elem_of_list_to_map_1.
    rewrite fmap_app in *. apply NoDup_app in Hnd as (_ & Hd & Hr).
    simpl in *. apply NoDup_cons in Hr as [Hr _]. intros [Hin|Hin]%elem_of_app; [|done].
    apply (Hd t Hin). set_solver.
  - symmetry. apply Permutation_middle.
Qed.

(** A complete scan drops exactly the expired challenges and counts the rest. *)
Lemma scan_counts kept order m sp ap m' s n :
  NoDup (kept ++ order).*1 -> m = list_to_map (kept ++ order) ->
  scan order m sp ap = (m', inr (s, n)) ->
  m' = list_to_map (kept ++ filter live_entry order) /\
  s = sp + zlen (filter (fun p => ch_src p.2 = src) (filter live_entry order)) /\
  n = ap + zlen (filter (fun p => ch_clientID p.2 = clientID) (filter live_entry order)).
Proof.
  revert kept m sp ap. induction order as [|[t c] rest IH]; intros kept m sp ap Hnd Hm H.
  { simpl in H. injection H as <- <- <-. split_and!; [done|symmetry; apply Z.add_0_r..]. }
  simpl in H. rewrite filter_cons.
  destruct (now <? ch_expires c) eqn:E; bool_to_prop; simpl in H.
  - destruct (same_request src target mode clientID c) eqn:Es; [done|]. rewrite !(decide_True (P := live_entry (t, c))) by done.
    apply (IH (kept ++ [(t, c)])) in H as (-> & -> & ->); [|by rewrite <- app_assoc..].
    rewrite <- app_assoc, !filter_cons. simpl. split; [done|].
    repeat case_decide; repeat case_bool_decide; try done; rewrite ?zlen_cons; split; lia.
  - rewrite !(decide_False (P := live_entry (t, c))) by (unfold live_entry; simpl; lia).
    apply (IH kept) in H; [done| |].
    + rewrite <- Permutation_middle in Hnd. by apply NoDup_cons in Hnd as [_ ?].
    + subst m. by apply delete_middle.
Qed.
End scan.

(** * Invariant *)

Section invariant.
Context `{K : KeyOps}.
Implicit Types (a : masqueAuthenticator) (m : gmap gostring masqueChallenge).

Definition source_pending m (src : NodePublic) : Z :=
  Z.of_nat (count_map (fun p : gostring * masqueChallenge => ch_src p.2 = src) m).
Definition address_pending m (clientID : gostring) : Z :=
  Z.of_nat (count_map (fun p : gostring * masqueChallenge => ch_clientID p.2 = clientID) m).

(** The capacity limits. *)
Record wf_auth a : Prop := {
  wf_total : Z.of_nat (size (pending a)) <= masqueMaxPendingChallenges;
  wf_source src : source_pending (pending a) src <= masqueMaxPendingPerSource;
  wf_address cid : address_pending (pending a) cid <= masqueMaxPendingPerRemoteAddr;
}.

Lemma wf_auth_sub priv a m : wf_auth a -> m ⊆ pending a -> wf_auth (Authenticator priv m).
Proof.
  intros [Ht Hs Ha] Hm. split; simpl.
  - pose proof (map_subseteq_size _ _ Hm). lia.
  - intros src. specialize (Hs src). unfold source_pending in *.
    pose proof (count_map_subseteq (fun p : gostring * masqueChallenge => ch_src p.2 = src) _ _ Hm). lia.
  - intros cid. specialize (Ha cid). unfold address_pending in *.
    pose proof (count_map_subseteq (fun p : gostring * masqueChallenge => ch_clientID p.2 = cid) _ _ Hm). lia.
Qed.

(** The counts [issue] compares with its limits are those of the remaining map. *)
Lemma scan_counts_map now src target mode cid order m m' s n :
  order ≡ₚ map_to_list m ->
  issue_scan now src target mode cid order m 0 0 = (m', inr (s, n)) ->
  s = source_pending m' src /\ n = address_pending m' cid.
Proof.
  intros Hord H. assert (Hnd : NoDup order.*1) by (rewrite Hord; apply NoDup_fst_map_to_list).
  eapply (scan_counts now src target mode cid []) in H as (-> & -> & ->); [|done|].
  2: { simpl. rewrite <- (list_to_map_to_list m). symmetry. by apply list_to_map_proper. }
  simpl. unfold source_pending, address_pending, zlen.
  assert (Hnd' : NoDup (filter (live_entry now) order).*1).
  { eapply sublist_NoDup; [exact Hnd|]. apply fmap_sublist, sublist_filter. }
  rewrite !Z.add_0_l. split; f_equal; apply count_map_perm; symmetry; by apply map_to_list_to_map.
Qed.

Lemma issue_wf a now order rand src target mode cid a' r :
  wf_auth a -> order ≡ₚ map_to_list (pending a) ->
  issue a now order rand src target mode cid = (a', r) -> wf_auth a'.
Proof.
  intros Hwf Hord H. unfold issue in H.
  pose proof (scan_subseteq now src target mode cid order (pending a) 0 0) as Hsub.
  destruct (issue_scan _ _ _ _ _ _ _ _ _) as [m res] eqn:Es. simpl in Hsub.
  pose proof (wf_auth_sub (auth_priv a) a m Hwf Hsub) as Hm.
  destruct res as [t|[s n]]; [by injection H as <- _|].
  destruct (scan_counts_map _ _ _ _ _ _ _ _ _ _ Hord Es) as [-> ->].
  destruct (_ || _) eqn:E; [by injection H as <- _|].
  destruct rand as [nonce|e]; [|by injection H as <- _].
  destruct (bool_decide _) eqn:Ed; injection H as <- _; [done|]. bool_to_prop.
  apply eq_None_not_Some in Ed. destruct Hm as [Ht Hs Ha]. split; simpl in *.
  - rewrite map_size_insert_None by done. lia.
  - intros src'. specialize (Hs src'). unfold source_pending in *.
    rewrite count_map_insert_None by done. simpl. case_decide; subst; lia.
  - intros cid'. specialize (Ha cid'). unfold address_pending in *.
    rewrite count_map_insert_None by done. simpl. case_decide; subst; lia.
Qed.

Lemma verify_sub a now proof src target mode :
  pending (verify a now proof src target mode).1 ⊆ pending a.
Proof.
  unfold verify. repeat case_match; simpl; try done; apply delete_subseteq.
Qed.
End invariant.

(** * Executions: where pending challenges come from *)

Section traces.
Context `{K : KeyOps}.
Implicit Types (a : masqueAuthenticator) (evs : list auth_event).

Lemma issue_pending a now order rand src target mode cid a' r :
  issue a now order rand src target mode cid = (a', r) ->
  auth_priv a' = auth_priv a /\
  forall t c, pending a' !! t = Some c -> pending a !! t = Some c \/
    r = Ok t /\ c = Challenge src target mode cid (now + masqueChallengeTTL) /\
    exists nonce, rand = Ok nonce /\ t = Base64.EncodeToString nonce.
Proof.
  intros H. unfold issue in H.
  pose proof (scan_subseteq now src target mode cid order (pending a) 0 0) as Hsub.
  destruct (issue_scan _ _ _ _ _ _ _ _ _) as [m res]. simpl in Hsub.
  assert (Hw : forall t c, m !! t = Some c -> pending a !! t = Some c)
    by (intros; by eapply lookup_weaken).
  destruct res as [t|[s n]]; [injection H as <- <-; eauto|].
  destruct (_ || _); [injection H as <- <-; eauto|].
  destruct rand as [nonce|e]; [|injection H as <- <-; eauto].
  destruct (bool_decide _); [injection H as <- <-; eauto|]. injection H as <- <-.
  split; [done|]. simpl. intros t c [[<- <-]|[? ?]]%lookup_insert_Some; eauto 10.
Qed.

Lemma verify_priv a now proof src target mode :
  auth_priv (verify a now proof src target mode).1 = auth_priv a.
Proof. unfold verify. by repeat case_match. Qed.

Lemma step_priv a ev a' : auth_step a ev a' -> auth_priv a' = auth_priv a.
Proof.
  intros [now order rand src target mode cid a1 r _ _ H|now proof src target mode a1 ok H].
  - by apply issue_pending in H as [? _].
  - pose proof (verify_priv a now proof src target mode) as Hp. by rewrite H in Hp.
Qed.

Lemma trace_priv a evs a' : auth_trace a evs a' -> auth_priv a' = auth_priv a.
Proof. induction 1 as [|a evs a1 ev a2 _ IH Hs]; [done|]. by rewrite (step_priv _ _ _ Hs). Qed.

Lemma trace_snoc_inv a evs ev a' :
  auth_trace a (evs ++ [ev]) a' -> exists a1, auth_trace a evs a1 /\ auth_step a1 ev a'.
Proof.
  intros H. inversion H as [? Ha Hnil|? ? a1 ? ? Htr Hs Ha Heq]; [by destruct evs|].
  apply app_inj_tail in Heq as [-> ->]. eauto.
Qed.

(** The code tries each token once: an attempt removes it. *)
Lemma verify_consumes a now proof src target mode t :
  proof_token a proof src target = Some t ->
  pending (verify a now proof src target mode).1 !! t = None.
Proof.
  intros Ht. unfold verify. rewrite Ht. destruct (pending a !! t) eqn:E; [|done].
  case_match; simpl; apply lookup_delete_eq.
Qed.

Lemma consumes_spec a now proof src target mode ok :
  consumes (auth_priv a) (EvVerify now proof src target mode ok) = proof_token a proof src target.
Proof. done. Qed.

(** Where a pending challenge comes from: an [issue] of the trace, after which no
    proof containing its token was tried. *)
Definition minted (priv : NodePrivate) evs (t : gostring) (c : masqueChallenge) : Prop :=
  exists pre post t0,
    evs = pre ++ EvIssue t0 (ch_src c) (ch_target c) (ch_mode c) (ch_clientID c) (Ok t) :: post /\
    ch_expires c = t0 + masqueChallengeTTL /\
    Forall (fun ev => consumes priv ev <> Some t) post.

Lemma minted_snoc priv evs t c ev :
  minted priv evs t c -> consumes priv ev <> Some t -> minted priv (evs ++ [ev]) t c.
Proof.
  intros (pre & post & t0 & -> & He & Hf) Hev. exists pre, (post ++ [ev]), t0.
  split_and!; [by rewrite <- app_assoc|done|]. apply Forall_app. by repeat constructor.
Qed.

Lemma trace_minted priv evs a :
  auth_trace (Authenticator priv ∅) evs a ->
  forall t c, pending a !! t = Some c ->
  minted priv evs t c /\ (exists nonce, zlen nonce = 32 /\ t = Base64.EncodeToString nonce).
Proof.
  remember (Authenticator priv ∅) as a0 eqn:Ha0.
  induction 1 as [a|a evs a1 ev a2 Htr IH Hs]; intros t c Hc; subst.
  { simpl in Hc. by rewrite lookup_empty in Hc. }
  specialize (IH eq_refl). pose proof (trace_priv _ _ _ Htr) as Hpriv. simpl in Hpriv.
  destruct Hs as [now order rand src target mode cid a2 r Hord Hrand H|now proof src target mode a2 ok H].
  - apply issue_pending in H as [_ H].
    destruct (H t c Hc) as [Hold|(-> & -> & nonce & -> & ->)].
    + destruct (IH t c Hold). split; [by apply minted_snoc|done].
    + split; [|eauto]. by exists evs, [], now.
  - pose proof (verify_sub a1 now proof src target mode) as Hsub. rewrite H in Hsub. simpl in Hsub.
    destruct (IH t c) as [Hm Hn]; [by eapply lookup_weaken|]. split; [|done].
    apply minted_snoc; [done|]. rewrite <- Hpriv. intros Ht.
    pose proof (verify_consumes a1 now proof src target mode t Ht) as Hnone.
    rewrite H in Hnone. simpl in Hnone. congruence.
Qed.

(** Tokens are base64 text. *)
Lemma trace_token_ascii priv evs a t c :
  auth_trace (Authenticator priv ∅) evs a -> pending a !! t = Some c -> ascii t = true.
Proof. intros Htr Hc. destruct (trace_minted _ _ _ Htr _ _ Hc) as [_ (nonce & _ & ->)]. apply base64_ascii. Qed.

Lemma issued_token_ascii priv evs a now order rand src target mode cid a' r t c :
  auth_trace (Authenticator priv ∅) evs a ->
  issue a now order rand src target mode cid = (a', r) -> pending a' !! t = Some c -> ascii t = true.
Proof.
  intros Htr Hi%issue_pending Hc. destruct Hi as [_ Hi].
  destruct (Hi _ _ Hc) as [?|(_ & _ & nonce & _ & ->)]; [by eapply trace_token_ascii|apply base64_ascii].
Qed.

Lemma verify_true a now proof src target mode a' :
  verify a now proof src target mode = (a', true) ->
  exists t c, proof_token a proof src target = Some t /\ pending a !! t = Some c /\
    now < ch_expires c /\ ch_src c = src /\ ch_target c = target /\ ch_mode c = mode.
Proof.
  unfold verify. intros H. destruct (proof_token _ _ _ _) as [t|]; [|done].
  destruct (pending a !! t) as [c|] eqn:Hc; [|done].
  destruct (now <? _) eqn:E; [|done]. simpl in H. injection H as _ H. bool_to_prop. eauto 10.
Qed.

Lemma trace_wf priv evs a : auth_trace (Authenticator priv ∅) evs a -> wf_auth a.
Proof.
  remember (Authenticator priv ∅) as a0 eqn:Ha0.
  induction 1 as [a|a evs a1 ev a2 Htr IH Hs]; subst.
  { split; simpl; [by rewrite map_size_empty|..]; intros x; unfold source_pending, address_pending, count_map;
      by rewrite map_to_list_empty. }
  specialize (IH eq_refl). destruct Hs as [now order rand src target mode cid a2 r Hord _ H|now proof src target mode a2 ok H].
  - by eapply issue_wf.
  - pose proof (verify_sub a1 now proof src target mode) as Hsub. rewrite H in Hsub.
    destruct a2 as [p m]. by apply (wf_auth_sub _ a1).
Qed.

(** A live challenge whose token is not tried survives any other traffic. *)
Lemma step_keeps_live a ev a' t c :
  auth_step a ev a' -> pending a !! t = Some c ->
  consumes (auth_priv a) ev <> Some t ->
  (forall now src target mode cid r, ev = EvIssue now src target mode cid r -> now < ch_expires c) ->
  pending a' !! t = Some c.
Proof.
  intros [now order rand src target mode cid a1 r Hord _ H|now proof src target mode a1 ok H] Hc Hno Hlive.
  - pose proof (scan_keeps_live now src target mode cid order (pending a) 0 0 t c Hc
      ltac:(by eapply Hlive)) as Hk. unfold issue in H.
    destruct (issue_scan _ _ _ _ _ _ _ _ _) as [m res]. simpl in Hk.
    assert (Hm : m !! t = Some c).
    { apply Hk. intros c' Hin. rewrite Hord in Hin. apply elem_of_map_to_list in Hin. congruence. }
    repeat case_match; injection H as <- <-; try done. simpl. bool_to_prop.
    rewrite lookup_insert_ne; [done|]. intros <-. naive_solver.
  - rewrite consumes_spec in Hno. unfold verify in H.
    destruct (proof_token _ _ _ _) as [t'|]; [|by injection H as <- _].
    assert (t' <> t) by congruence.
    repeat case_match; injection H as <- _; try done; simpl; by rewrite lookup_delete_ne.
Qed.
End traces.

(** * Properties *)

Lemma header_get_set h k v : HTTP.Get (HTTP.Set_ h k v) k = v.
Proof. unfold HTTP.Get, HTTP.Set_. by rewrite lookup_insert_eq. Qed.

Lemma header_get_set_ne h k k' v :
  HTTP.CanonicalHeaderKey k' <> HTTP.CanonicalHeaderKey k ->
  HTTP.Get (HTTP.Set_ h k' v) k = HTTP.Get h k.
Proof. intros. unfold HTTP.Get, HTTP.Set_. by rewrite lookup_insert_ne. Qed.

Lemma header_get_del_ne h k k' :
  HTTP.CanonicalHeaderKey k' <> HTTP.CanonicalHeaderKey k ->
  HTTP.Get (HTTP.Del h k') k = HTTP.Get h k.
Proof. intros. unfold HTTP.Get, HTTP.Del. by rewrite lookup_delete_ne. Qed.

Section properties.
Context `{K : KeyOps}.

(** C5: Whatever requests arrive, from whatever sources and addresses and at
    whatever times, the authenticator keeps at most 1024 outstanding challenges,
    at most 4 per claimed source and at most 64 per remote address. *)
Theorem auth_limits fresh priv evs a :
  auth_trace (newMasqueAuthenticator fresh priv) evs a ->
  Z.of_nat (size (pending a)) <= 1024 /\
  (forall src, source_pending (pending a) src <= 4) /\
  (forall cid, address_pending (pending a) cid <= 64).
Proof. intros [Ht Hs Ha]%trace_wf. by split_and!. Qed.

(** C2: A proof is accepted only for a challenge this server issued for exactly
    the same source, target and mode less than 30 seconds before, that was sealed
    from the claimed source key to the server key, and whose token has not been
    tried since it was issued: no proof is accepted twice. *)
Theorem accepted_proof_was_issued fresh priv pre now proof src target mode a :
  let server := if PrivIsZero priv then fresh else priv in
  auth_trace (newMasqueAuthenticator fresh priv)
    (pre ++ [EvVerify now proof src target mode true]) a ->
  exists token box pre1 pre2 t0 cid,
    Base64.DecodeString proof = Ok box /\ OpenFrom server src box = Some token /\
    src <> NodePublicZero /\ target <> NodePublicZero /\
    pre = pre1 ++ EvIssue t0 src target mode cid (Ok token) :: pre2 /\
    now < t0 + masqueChallengeTTL /\
    Forall (fun ev => consumes server ev <> Some token) pre2.
Proof.
  intros server (a1 & Htr & Hs)%trace_snoc_inv. inversion Hs as [|? ? ? ? ? ? ? Hv]; subst.
  unfold newMasqueAuthenticator in Htr. fold server in Htr.
  apply verify_true in Hv as (t & c & Ht & Hc & Hlive & <- & <- & <-).
  destruct (trace_minted _ _ _ Htr _ _ Hc) as [(pre1 & post & t0 & -> & He & Hf) _].
  pose proof (trace_priv _ _ _ Htr) as Hp. simpl in Hp.
  unfold proof_token in Ht. destruct (IsZero _ || IsZero _) eqn:Ez; [done|]. unfold IsZero in Ez.
  destruct (Base64.DecodeString proof) as [box|]; [|done]. rewrite Hp in Ht. bool_to_prop.
  exists t, box, pre1, post, t0, (ch_clientID c). split_and!; try done. lia.
Qed.

(** An unauthenticated request never evicts a live challenge: whatever other
    traffic is served, a challenge stays available until it expires or a proof
    containing its token is tried. *)
Theorem live_challenge_survives a evs a' t c :
  auth_trace a evs a' -> pending a !! t = Some c ->
  Forall (fun ev => consumes (auth_priv a) ev <> Some t /\
    match ev with
    | EvIssue now _ _ _ _ _ => now < ch_expires c
    | EvVerify _ _ _ _ _ _ => True
    end) evs ->
  pending a' !! t = Some c.
Proof.
  induction 1 as [|a evs a1 ev a2 Htr IH Hs]; intros Hc Hf; [done|].
  apply Forall_app in Hf as [Hf [[Hno Hlive] _]%Forall_cons].
  eapply step_keeps_live; [exact Hs|by apply IH| |].
  - by rewrite (trace_priv _ _ _ Htr).
  - by intros * ->.
Qed.

(** Retrying an identical unauthenticated request costs no capacity: while a
    challenge for the same source, target, mode and address is live, [issue]
    returns a live token for that request, even when a limit is reached, and adds
    nothing to the table. *)
Theorem retry_reuses_challenge a now order rand src target mode cid t c :
  order ≡ₚ map_to_list (pending a) -> pending a !! t = Some c ->
  now < ch_expires c -> same_request src target mode cid c = true ->
  exists t' c' a', issue a now order rand src target mode cid = (a', Ok t') /\
    pending a' !! t' = Some c' /\ now < ch_expires c' /\
    same_request src target mode cid c' = true /\ pending a' ⊆ pending a.
Proof.
  intros Hord Hc Hlive Hsame.
  assert (Hfound : forall o m sp ap, (t, c) ∈ o ->
    exists m' t', issue_scan now src target mode cid o m sp ap = (m', inl t')).
  { induction o as [|[t1 c1] rest IH]; intros m sp ap Hin; [by apply not_elem_of_nil in Hin|]. simpl.
    apply elem_of_cons in Hin as [[= <- <-]|Hin].
    - rewrite (proj2 (Z.ltb_lt _ _)) by done. simpl. rewrite Hsame. eauto.
    - case_match; [by apply IH|]. case_match; [eauto|by apply IH]. }
  destruct (Hfound order (pending a) 0 0) as (m' & t' & Es).
  { rewrite Hord. by apply elem_of_map_to_list. }
  destruct (scan_found _ _ _ _ _ _ _ _ _ _ _ Es) as (c' & Hin & Hl & Hs).
  pose proof (scan_subseteq now src target mode cid order (pending a) 0 0) as Hsub.
  pose proof (scan_keeps_live now src target mode cid order (pending a) 0 0 t' c') as Hk.
  rewrite Es in Hsub, Hk. exists t', c', (Authenticator (auth_priv a) m').
  unfold issue. rewrite Es. split_and!; try done. simpl in *.
  rewrite Hord in Hin. apply elem_of_map_to_list in Hin. apply Hk; [done|done|].
  intros c2 Hc2. rewrite Hord in Hc2. apply elem_of_map_to_list in Hc2. congruence.
Qed.
End properties.

(** * The handshake *)

Section handshake.
Context `{K : KeyOps} {KL : KeyLaws K}.

Lemma http_error_get w msg code k :
  HTTP.CanonicalHeaderKey (B "Content-Length") <> HTTP.CanonicalHeaderKey k ->
  HTTP.CanonicalHeaderKey (B "Content-Type") <> HTTP.CanonicalHeaderKey k ->
  HTTP.CanonicalHeaderKey (B "X-Content-Type-Options") <> HTTP.CanonicalHeaderKey k ->
  HTTP.Get (HTTP.w_header (HTTP.Error w msg code)) k = HTTP.Get (HTTP.w_header w) k.
Proof.
  intros. unfold HTTP.Error. simpl. by rewrite !header_get_set_ne, header_get_del_ne.
Qed.

Lemma issue_ok a now order rand src target mode cid a' t :
  order ≡ₚ map_to_list (pending a) ->
  issue a now order rand src target mode cid = (a', Ok t) ->
  exists c, pending a' !! t = Some c /\ now < ch_expires c /\
    ch_src c = src /\ ch_target c = target /\ ch_mode c = mode.
Proof.
  intros Hord H. unfold issue in H.
  destruct (issue_scan _ _ _ _ _ _ _ _ _) as [m res] eqn:Es. destruct res as [t'|[s n]].
  - injection H as <- ->. destruct (scan_found _ _ _ _ _ _ _ _ _ _ _ Es) as (c & Hin & Hl & Hs).
    pose proof (scan_keeps_live now src target mode cid order (pending a) 0 0 t c) as Hk.
    rewrite Es in Hk. rewrite Hord in Hin. apply elem_of_map_to_list in Hin.
    unfold same_request in Hs. bool_to_prop. exists c. split_and!; try done. simpl. apply Hk; [done|done|].
    intros c2 Hc2. rewrite Hord in Hc2. apply elem_of_map_to_list in Hc2. congruence.
  - repeat case_match; simplify_eq. eexists. split; [apply lookup_insert_eq|]. simpl.
    unfold masqueChallengeTTL, Second, Millisecond, Microsecond. split_and!; (done || lia).
Qed.

(** What a challenge response carries. *)
Lemma authorize_challenge a now1 now2 order rand header remote src target mode a1 w1 :
  (forall a, order a ≡ₚ map_to_list (pending a)) ->
  HTTP.Get header masqueProofHeader = [] ->
  authorize a now1 now2 order rand HTTP.newResponse header remote src target mode = (a1, w1, false) ->
  HTTP.Get (HTTP.w_header w1) masqueChallengeHeader <> [] ->
  let token := HTTP.Get (HTTP.w_header w1) masqueChallengeHeader in
  HTTP.Get (HTTP.w_header w1) masqueVerifierHeader = KeyString (Public (auth_priv a)) /\
  src <> NodePublicZero /\ target <> NodePublicZero /\ auth_priv a1 = auth_priv a /\
  exists c, pending a1 !! token = Some c /\ now2 < ch_expires c /\
    ch_src c = src /\ ch_target c = target /\ ch_mode c = mode.
Proof.
  intros Hord Hproof H Htok. unfold authorize in H.
  destruct (IsZero src || IsZero target) eqn:Ez.
  { injection H as <- <-. exfalso. apply Htok. reflexivity. }
  unfold IsZero in Ez. bool_to_prop. rewrite Hproof in H. simpl in H.
  destruct (issue _ _ _ _ _ _ _ _) as [a' r] eqn:Ei.
  destruct (issue_pending _ _ _ _ _ _ _ _ _ _ Ei) as [Hpriv _].
  destruct r as [t|e]; [|destruct (errors_is _ _); injection H as <- <-; exfalso; apply Htok; reflexivity].
  apply issue_ok in Ei as (c & Hc & Hl & Hrest); [|apply Hord]. injection H as <- <-.
  rewrite !http_error_get in * by (vm_compute; discriminate). simpl in *.
  rewrite (header_get_set_ne _ masqueChallengeHeader) in * by (vm_compute; discriminate).
  rewrite !header_get_set in *. rewrite Hpriv. split_and!; try done. by exists c.
Qed.

(** A live challenge survives what does not try its token. *)
Lemma trace_keeps_live a evs a2 t c :
  auth_trace a evs a2 -> pending a !! t = Some c ->
  Forall (fun ev => consumes (auth_priv a) ev <> Some t /\
    match ev with
    | EvIssue now _ _ _ _ _ => now < ch_expires c
    | EvVerify _ _ _ _ _ _ => True
    end) evs ->
  pending a2 !! t = Some c.
Proof.
  intros Htr Hc Hf. induction Htr as [|a evs a1 ev a2 Htr IH Hs]; [done|].
  apply Forall_app in Hf as [Hf [[Hno Hl] _]%Forall_cons].
  eapply step_keeps_live; [exact Hs|by apply IH|by rewrite (trace_priv _ _ _ Htr)|by intros * ->].
Qed.

(** The key holder's answer to a live challenge is accepted. *)
Lemma verify_sealed a now nonce local target mode t c :
  Public local <> NodePublicZero -> target <> NodePublicZero -> Public (auth_priv a) <> NodePublicZero ->
  pending a !! t = Some c -> now < ch_expires c ->
  ch_src c = Public local -> ch_target c = target -> ch_mode c = mode ->
  exists a', verify a now (Base64.EncodeToString (SealTo nonce local (Public (auth_priv a)) t)) (Public local) target mode
    = (a', true).
Proof.
  intros Hs Ht Hz Hc Hnow Hcs Hct Hcm. unfold verify, proof_token, IsZero. rewrite !bool_decide_eq_false_2 by done. simpl.
  rewrite base64_decode_encode, open_seal by done. rewrite Hc, (proj2 (Z.ltb_lt _ _)) by done. simpl.
  rewrite !bool_decide_eq_true_2 by done. simpl. eauto.
Qed.

(** C6: The handshake completes.  A client that holds the key it claims, and that
    answers the challenge response of its first request with the proof
    [masqueProofForChallenge] builds from the response's headers, is authorized by
    its second request, whatever other traffic the server handles in between, as
    long as the challenge has not expired and nobody else tries its token. *)
Theorem handshake_completes a now1 now2 order rand header remote local target mode a1 w1
    nonce proof evs a2 now3 now4 order' rand' header' remote' c :
  (forall a, order a ≡ₚ map_to_list (pending a)) ->
  HTTP.Get header masqueProofHeader = [] ->
  Public (auth_priv a) <> NodePublicZero ->
  authorize a now1 now2 order rand HTTP.newResponse header remote (Public local) target mode
    = (a1, w1, false) ->
  let token := HTTP.Get (HTTP.w_header w1) masqueChallengeHeader in
  masqueProofForChallenge nonce local token
    (HTTP.Get (HTTP.w_header w1) masqueVerifierHeader) target mode = Ok proof ->
  pending a1 !! token = Some c ->
  auth_trace a1 evs a2 ->
  Forall (fun ev => consumes (auth_priv a) ev <> Some token /\
    match ev with
    | EvIssue now _ _ _ _ _ => now < ch_expires c
    | EvVerify _ _ _ _ _ _ => True
    end) evs ->
  now3 < ch_expires c ->
  HTTP.Get header' masqueProofHeader = proof ->
  exists a3, authorize a2 now3 now4 order' rand' HTTP.newResponse header' remote'
    (Public local) target mode = (a3, HTTP.newResponse, true).
Proof.
  intros Hord Hno Hzero H1 token Hp Hc Htr Hf Hnow Hh.
  unfold masqueProofForChallenge in Hp. destruct (negb (bool_decide _ || _)) eqn:Et; [|done].
  apply negb_true_iff, orb_false_iff in Et as [Htok _]. bool_to_prop.
  destruct (authorize_challenge _ _ _ _ _ _ _ _ _ _ _ _ Hord Hno H1 Htok)
    as (Hver & Hsrc & Htgt & Hpriv & c' & Hc' & _ & Hcs & Hct & Hcm).
  fold token in Hc'. assert (c' = c) as -> by congruence. clear Hc'.
  rewrite Hver, unmarshal_string in Hp. do 2 (destruct (negb _); [|done]). injection Hp as Hp.
  rewrite <- Hpriv in Hf. pose proof (trace_keeps_live _ _ _ _ _ Htr Hc Hf) as Hlive.
  unfold authorize. rewrite Hh. unfold IsZero. rewrite !bool_decide_eq_false_2 by done. simpl.
  set (box := SealTo nonce local (Public (auth_priv a)) token) in *.
  rewrite bool_decide_eq_false_2.
  2: { subst proof. pose proof (seal_length nonce local (Public (auth_priv a)) token) as Hlen.
       fold box in Hlen. destruct box as [|? [|? [|? ?]]]; done. }
  rewrite <- Hp. unfold box. rewrite <- Hpriv, <- (trace_priv _ _ _ Htr) in Hzero |- *.
  destruct (verify_sealed a2 now3 nonce local target mode token c) as [a3 ->]; [done..|]. simpl. eauto.
Qed.
End handshake.

Import ToyKeys.

(** * Authorization outcomes *)

Section outcomes.
Context `{K : KeyOps}.

Lemma authorize_inv a now1 now2 order rand header remote src target mode a' w ok :
  authorize a now1 now2 order rand HTTP.newResponse header remote src target mode = (a', w, ok) ->
  if ok then
    w = HTTP.newResponse /\ src <> NodePublicZero /\ target <> NodePublicZero /\
    verify a now1 (HTTP.Get header masqueProofHeader) src target mode = (a', true)
  else error_status w.
Proof.
  intros H. unfold authorize in H. destruct (IsZero src || IsZero target) eqn:Ez.
  { injection H as <- <- <-. by apply error_response. }
  unfold IsZero in Ez. bool_to_prop.
  destruct (if bool_decide (HTTP.Get header masqueProofHeader = []) then _ else _) as [a1 ok1] eqn:Ev.
  destruct ok1.
  - injection H as <- <- <-. destruct (bool_decide _); [done|]. done.
  - destruct (issue _ _ _ _ _ _ _ _) as [a2 [t|e]]; [|destruct (errors_is _ _)];
      injection H as <- <- <-; eexists; (split; [reflexivity|done]).
Qed.
End outcomes.

(** * Witnesses *)

Definition sample_auth : masqueAuthenticator (K := toy) := newMasqueAuthenticator (nkey 9) (nkey 9).
Definition sample_nonce : list byte := replicate 32 x05.
Definition sample_token : gostring := Base64.EncodeToString sample_nonce.
Definition sample_challenge : masqueChallenge (K := toy) :=
  Challenge (nkey 1) (nkey 2) (B "relay") (B "1.2.3.4") (7 + masqueChallengeTTL).
Definition sample_auth1 : masqueAuthenticator (K := toy) :=
  (issue sample_auth 7 [] (Ok sample_nonce) (nkey 1) (nkey 2) (B "relay") (B "1.2.3.4")).1.
Definition sample_proof : gostring :=
  Base64.EncodeToString (SealTo (KeyOps := toy) [] (nkey 1) (nkey 9) sample_token).
Definition sample_issue : auth_event (K := toy) :=
  EvIssue 7 (nkey 1) (nkey 2) (B "relay") (B "1.2.3.4") (Ok sample_token).
Definition sample_verify : auth_event (K := toy) :=
  EvVerify 8 sample_proof (nkey 1) (nkey 2) (B "relay") true.

Lemma sample_trace1 : auth_trace sample_auth ([] ++ [sample_issue]) sample_auth1.
Proof.
  eapply trace_snoc; [constructor|]. apply (step_issue _ 7 [] (Ok sample_nonce)).
  - reflexivity.
  - by intros ? [= <-].
  - apply injective_projections; [reflexivity|]. vm_reflexivity.
Qed.

(** A step from its outcome alone. *)
Lemma verify_step a now proof src target mode ok :
  (verify (K := toy) a now proof src target mode).2 = ok ->
  auth_step a (EvVerify now proof src target mode ok) (verify a now proof src target mode).1.
Proof. intros <-. constructor. apply surjective_pairing. Qed.

Lemma auth_limits_witness :
  Z.of_nat (size (pending sample_auth1)) <= 1024 /\
  (forall src, source_pending (pending sample_auth1) src <= 4) /\
  (forall cid, address_pending (pending sample_auth1) cid <= 64).
Proof. apply (auth_limits (K := toy) (nkey 9) (nkey 9) _ _ sample_trace1). Defined.

Lemma accepted_proof_was_issued_witness :
  exists token box pre1 pre2 t0 cid,
    Base64.DecodeString sample_proof = Ok box /\ OpenFrom (KeyOps := toy) (nkey 9) (nkey 1) box = Some token /\
    nkey 1 <> NodePublicZero (KeyOps := toy) /\ nkey 2 <> NodePublicZero (KeyOps := toy) /\
    [sample_issue] = pre1 ++ EvIssue t0 (nkey 1) (nkey 2) (B "relay") cid (Ok token) :: pre2 /\
    8 < t0 + masqueChallengeTTL /\
    Forall (fun ev : auth_event (K := toy) => consumes (nkey 9 : NodePrivate (KeyOps := toy)) ev <> Some token) pre2.
Proof.
  apply (accepted_proof_was_issued (K := toy) (nkey 9) (nkey 9) [sample_issue] 8 sample_proof
    (nkey 1) (nkey 2) (B "relay") (verify sample_auth1 8 sample_proof (nkey 1) (nkey 2) (B "relay")).1).
  eapply trace_snoc; [apply sample_trace1|]. apply verify_step. vm_reflexivity.
Defined.

Lemma live_challenge_survives_witness :
  pending sample_auth1 !! sample_token = Some sample_challenge.
Proof.
  apply (live_challenge_survives (K := toy) sample_auth1 [EvVerify (K := toy) 9 [] (nkey 1) (nkey 2) [] false]).
  - eapply (trace_snoc _ []); [constructor|]. constructor. reflexivity.
  - by_evaluation.
  - repeat constructor. by_evaluation.
Defined.

Lemma retry_reuses_challenge_witness :
  exists t' c' a',
    issue sample_auth1 9 (map_to_list (pending sample_auth1)) (Err (ErrExt 0)) (nkey 1) (nkey 2)
      (B "relay") (B "1.2.3.4") = (a', Ok t') /\
    pending a' !! t' = Some c' /\ 9 < ch_expires c' /\
    same_request (nkey 1) (nkey 2) (B "relay") (B "1.2.3.4") c' = true /\
    pending a' ⊆ pending sample_auth1.
Proof.
  apply (retry_reuses_challenge (K := toy) sample_auth1 9 _ _ _ _ _ _ sample_token sample_challenge).
  - reflexivity.
  - by_evaluation.
  - by_evaluation.
  - by_evaluation.
Defined.

(** The first request of a client and its answer. *)
Definition sample_first : masqueAuthenticator (K := toy) * HTTP.responseWriter * bool :=
  authorize sample_auth 0 7 (fun a => map_to_list (pending a)) (Ok sample_nonce)
    HTTP.newResponse ∅ (B "1.2.3.4:5") (nkey 1) (nkey 2) (B "relay").

Lemma handshake_completes_witness :
  exists a3, authorize sample_first.1.1 8 8 (fun a => map_to_list (pending a)) (Err (ErrExt 0))
    HTTP.newResponse {[ masqueProofHeader := [sample_proof] ]} (B "1.2.3.4:5")
    (nkey 1) (nkey 2) (B "relay") = (a3, HTTP.newResponse, true).
Proof.
  eapply (handshake_completes (KL := toy_laws) sample_auth 0 7 (fun a => map_to_list (pending a))
    (Ok sample_nonce) ∅ (B "1.2.3.4:5") (nkey 1) (nkey 2) (B "relay") sample_first.1.1
    sample_first.1.2 [] sample_proof [] sample_first.1.1 8 8 _ _ _ _ sample_challenge).
  - reflexivity.
  - reflexivity.
  - by_evaluation.
  - rewrite <- !surjective_pairing. apply injective_projections; [reflexivity|].
    vm_reflexivity.
  - vm_reflexivity.
  - by_evaluation.
  - constructor.
  - constructor.
  - by_evaluation.
  - vm_reflexivity.
Defined.
