(* ===== verification/Token.v ===== *)
(** Token: connection tokens and certificate pins.

    Models src/masquecat_token.go: [MasqueConnInfo], its validation, the
    mc-prefixed base64url token and the SHA-256 pin in the fragment of a direct
    URL; and [masqueTLSClientConfig] of src/masquecat_transport.go, which turns a
    URL into TLS verification rules.  encoding/json's codec for the wire struct
    and sha256 are parameters ([TokenOps]) with the laws [TokenLaws]. *)

From S2P Require Import Prelude GoStd Keys Url.
From Stdlib Require Import Strings.Byte.

Definition masqueConnBlobPrefix : gostring := B "mc".
Definition maxMasqueConnBlobLen : Z := Z.shiftl 8 10.
Definition masqueTLSCertPinFragmentPrefix : gostring := B "sha256=".
Definition sha256_Size : Z := 32.

Section info.
Context `{K : KeyOps}.

(** src/masquecat_token.go:35-47 [MasqueConnInfo] *)
Record MasqueConnInfo : Type := ConnInfo {
  ci_Version : Z;
  ci_ServerPublic : NodePublic;
  ci_ServerDiscoPublic : DiscoPublic;
  ci_DirectURL : gostring;
  ci_RelayURL : gostring;
  ci_AutomaticDirect : bool;
}.

(** src/masquecat_token.go:49-56 [masqueWireConnInfo] *)
Record masqueWireConnInfo : Type := WireConnInfo {
  w_v : Z;
  w_k : NodePublic;
  w_d : DiscoPublic;
  w_p : gostring;
  w_r : gostring;
  w_a : bool;
}.

(** The struct conversions [masqueWireConnInfo(ci)] and [MasqueConnInfo(w)]. *)
Definition toWire (ci : MasqueConnInfo) : masqueWireConnInfo :=
  WireConnInfo (ci_Version ci) (ci_ServerPublic ci) (ci_ServerDiscoPublic ci)
    (ci_DirectURL ci) (ci_RelayURL ci) (ci_AutomaticDirect ci).
Definition ofWire (w : masqueWireConnInfo) : MasqueConnInfo :=
  ConnInfo (w_v w) (w_k w) (w_d w) (w_p w) (w_r w) (w_a w).
End info.

Class TokenOps {K : KeyOps} : Type := {
  (** [json.Marshal] and [json.Unmarshal] at the wire struct *)
  MarshalWire : masqueWireConnInfo -> result (list byte);
  UnmarshalWire : list byte -> result masqueWireConnInfo;
  (** [sha256.Sum256] *)
  Sum256 : list byte -> list byte;
}.
Arguments TokenOps : clear implicits.

Class TokenLaws {K : KeyOps} (O : TokenOps K) : Prop := {
  (** JSON keeps ASCII strings and key texts. *)
  json_roundtrip w b :
    ascii (w_p w) = true -> ascii (w_r w) = true -> 0 <= w_v w < 256 ->
    MarshalWire w = Ok b -> UnmarshalWire b = Ok w;
}.

Section token.
Context {K : KeyOps} {O : TokenOps K}.

(** src/masquecat_token.go:21-25 [masqueTLSCertPin.matchesCertificate] *)
Definition matchesCertificate (pin raw : list byte) : bool := bool_decide (Sum256 raw = pin).

(** src/masquecat_token.go:174-195 [masqueTLSCertPinFromURL]: [Ok None] is Go's
    [(pin, false, nil)]. *)
Definition masqueTLSCertPinFromURL (raw : gostring) : result (option (list byte)) :=
  let? u := Url.Parse raw in
  if bool_decide (Url.Fragment u = []) then Ok None
  else
    let '(encoded, found) := Strings.CutPrefix (Url.Fragment u) masqueTLSCertPinFragmentPrefix in
    guard! found && negb (bool_decide (encoded = []))
      or ErrNew "fragment must be %s<base64url-sha256>" in
    match Base64.DecodeString encoded with
    | Err e => Err (ErrWrap "decode SHA-256 certificate pin: %w" e)
    | Ok decoded =>
        guard! zlen decoded =? sha256_Size
          or ErrNew "SHA-256 certificate pin is %d bytes, want %d" in
        Ok (Some decoded)
    end.

(** The [kind] argument of [validateMasqueURL]. *)
Inductive url_kind : Type := direct | relay.
#[global] Instance url_kind_eq_dec : EqDecision url_kind.
Proof. solve_decision. Defined.

(** src/masquecat_token.go:144-172 [validateMasqueURL]; [None] is a nil error. *)
Definition validateMasqueURL (kind : url_kind) (raw : gostring) : option gerror :=
  match Url.Parse raw with
  | Err e => Some (ErrWrap "invalid %s MASQUE URL: %w" e)
  | Ok u =>
      if negb (bool_decide (Url.Scheme u = B "https")) then
        Some (ErrNew "%s MASQUE URL must use https")
      else if bool_decide (Url.Host u = []) || bool_decide (Url.Hostname u = []) then
        Some (ErrNew "%s MASQUE URL has no hostname")
      else if bool_decide (is_Some (Url.User u)) then
        Some (ErrNew "%s MASQUE URL must not contain userinfo")
      else if negb (bool_decide (Url.RawQuery u = [])) then
        Some (ErrNew "%s MASQUE URL must not contain query")
      else if negb (bool_decide (Url.Fragment u = [])) then
        if negb (bool_decide (kind = direct)) then
          Some (ErrNew "%s MASQUE URL must not contain fragment")
        else
          match masqueTLSCertPinFromURL raw with
          | Err e => Some (ErrWrap "direct MASQUE URL has invalid TLS certificate pin: %w" e)
          | Ok None => Some (ErrNew "direct MASQUE URL fragment must contain a SHA-256 TLS certificate pin")
          | Ok (Some _) => None
          end
      else None
  end.

(** src/masquecat_token.go:106-142 [MasqueConnInfo.validate] *)
Definition validate (ci : MasqueConnInfo) : option gerror :=
  let direct_err := if negb (bool_decide (ci_DirectURL ci = []))
                    then validateMasqueURL direct (ci_DirectURL ci) else None in
  let relay_err := if negb (bool_decide (ci_RelayURL ci = []))
                   then validateMasqueURL relay (ci_RelayURL ci) else None in
  if negb (ci_Version ci =? 1) then Some (ErrNew "unsupported MasqueCat token version %d")
  else if IsZero (ci_ServerPublic ci) then Some (ErrNew "MasqueCat token has no server node key")
  else if DiscoIsZero (ci_ServerDiscoPublic ci) then
    Some (ErrNew "MasqueCat token has no server disco key")
  else if bool_decide (ci_DirectURL ci = []) && bool_decide (ci_RelayURL ci = []) then
    Some (ErrNew "MasqueCat token has neither a direct nor relay endpoint")
  else if ci_AutomaticDirect ci &&
          (bool_decide (ci_DirectURL ci = []) || negb (bool_decide (ci_RelayURL ci = []))) then
    Some (ErrNew "MasqueCat automatic-direct marker requires a direct-only endpoint")
  else
    match direct_err with
    | Some e => Some e
    | None =>
        match relay_err with
        | Some e => Some e
        | None =>
            if ci_AutomaticDirect ci then
              match masqueTLSCertPinFromURL (ci_DirectURL ci) with
              | Err e => Some (ErrWrap "MasqueCat automatic-direct TLS pin: %w" e)
              | Ok None => Some (ErrNew "MasqueCat automatic-direct endpoint requires a SHA-256 TLS certificate pin")
              | Ok (Some _) => None
              end
            else None
        end
    end.

(** The receiver copy with the defaulted version. *)
Definition with_version (ci : MasqueConnInfo) : MasqueConnInfo :=
  if ci_Version ci =? 0
  then ConnInfo 1 (ci_ServerPublic ci) (ci_ServerDiscoPublic ci) (ci_DirectURL ci)
         (ci_RelayURL ci) (ci_AutomaticDirect ci)
  else ci.

(** src/masquecat_token.go:58-76 [MasqueConnInfo.ConnBlob] *)
Definition ConnBlob (ci : MasqueConnInfo) : result gostring :=
  let ci := with_version ci in
  match validate ci with
  | Some e => Err e
  | None =>
      match MarshalWire (toWire ci) with
      | Err e => Err (ErrWrap "marshal MasqueCat connection info: %w" e)
      | Ok b =>
          let blob := masqueConnBlobPrefix ++ Base64.EncodeToString b in
          guard! negb (maxMasqueConnBlobLen <? zlen blob)
            or ErrNew "MasqueCat token exceeds %d-byte limit" in
          Ok blob
      end
  end.

(** src/masquecat_token.go:78-104 [ParseMasqueConnBlob] *)
Definition ParseMasqueConnBlob (blob : gostring) : result MasqueConnInfo :=
  guard! negb (maxMasqueConnBlobLen <? zlen blob)
    or ErrNew "MasqueCat token exceeds %d-byte limit" in
  match Strings.CutPrefix blob masqueConnBlobPrefix with
  | (_, false) =>
      Err (if Strings.HasPrefix blob (B "tc")
           then ErrNew "this is a Tailcat token, not a MasqueCat token"
           else ErrNew "server address doesn't start with mc")
  | (rest, true) =>
      match Base64.DecodeString rest with
      | Err e => Err (ErrWrap "decode MasqueCat token: %w" e)
      | Ok b =>
          match UnmarshalWire b with
          | Err e => Err (ErrWrap "decode MasqueCat connection info: %w" e)
          | Ok w =>
              let ci := ofWire w in
              match validate ci with
              | Some e => Err e
              | None => Ok ci
              end
          end
      end
  end.

(** The fields of the client's [tls.Config] that decide what is accepted.
    [tls_pin] is the pin the [VerifyConnection] closure captures. *)
Record tlsConfig : Type := TLSConfig {
  tls_MinVersion : Z;
  tls_ServerName : gostring;
  tls_NextProtos : list gostring;
  tls_InsecureSkipVerify : bool;
  tls_pin : option (list byte);
}.

Definition VersionTLS13 : Z := 0x0304.

(** src/masquecat_transport.go:155-191 [masqueTLSClientConfig] *)
Definition masqueTLSClientConfig (rawURL : gostring) (insecureSkipVerify : bool) : result tlsConfig :=
  match Url.Parse rawURL with
  | Err e => Err (ErrWrap "parse MASQUE endpoint URL: %w" e)
  | Ok u =>
      guard! bool_decide (Url.Scheme u = B "https") && negb (bool_decide (Url.Hostname u = []))
        or ErrNew "MASQUE endpoint must be an https URL with a hostname" in
      match masqueTLSCertPinFromURL rawURL with
      | Err e => Err (ErrWrap "parse MASQUE TLS certificate pin: %w" e)
      | Ok (Some pin) =>
          Ok (TLSConfig VersionTLS13 (Url.Hostname u) [B "h3"] true (Some pin))
      | Ok None =>
          Ok (TLSConfig VersionTLS13 (Url.Hostname u) [B "h3"] insecureSkipVerify None)
      end
  end.

(** src/masquecat_transport.go:178-186 [masqueTLSClientConfig, VerifyConnection];
    [chain] holds the raw peer certificates, leaf first. *)
Definition VerifyConnection (cfg : tlsConfig) (chain : list (list byte)) : option gerror :=
  match tls_pin cfg with
  | None => None
  | Some pin =>
      match chain with
      | [] => Some (ErrNew "MASQUE TLS peer presented no certificate")
      | leaf :: _ =>
          if negb (matchesCertificate pin leaf)
          then Some (ErrNew "MASQUE TLS certificate pin mismatch") else None
      end
  end.

(** What crypto/tls does with the configuration: [pki] tells whether the chain
    passes the ambient PKI and host-name check for [ServerName]. *)
Definition tls_accepts (pki : gostring -> list (list byte) -> bool) (cfg : tlsConfig)
    (chain : list (list byte)) : bool :=
  (tls_InsecureSkipVerify cfg || pki (tls_ServerName cfg) chain) &&
  match VerifyConnection cfg chain with None => true | Some _ => false end.
End token.

(** * Lemmas *)

Section facts.
Context {K : KeyOps} {O : TokenOps K}.

(** What an accepted endpoint URL looks like. *)
Record good_url (kind : url_kind) (raw : gostring) (u : Url.URL) : Prop := {
  gu_parse : Url.Parse raw = Ok u;
  gu_scheme : Url.Scheme u = B "https";
  gu_host : Url.Hostname u <> [];
  gu_user : Url.User u = None;
  gu_query : Url.RawQuery u = [];
  gu_fragment : Url.Fragment u = [] \/
    kind = direct /\ exists pin, masqueTLSCertPinFromURL raw = Ok (Some pin) /\ zlen pin = 32;
}.

Lemma pin_length raw pin : masqueTLSCertPinFromURL raw = Ok (Some pin) -> zlen pin = 32.
Proof.
  unfold masqueTLSCertPinFromURL. intros (u & _ & H)%rbind_ok.
  destruct (bool_decide _); [done|]. destruct (Strings.CutPrefix _ _) as [encoded found].
  destruct (found && _); [|done]. destruct (Base64.DecodeString encoded) as [decoded|]; [|done].
  destruct (zlen decoded =? sha256_Size) eqn:E; [|done]. injection H as <-. by bool_to_prop.
Qed.

Lemma pin_is_in_fragment raw pin :
  masqueTLSCertPinFromURL raw = Ok (Some pin) ->
  exists u encoded, Url.Parse raw = Ok u /\ Url.Fragment u = masqueTLSCertPinFragmentPrefix ++ encoded /\
    Base64.DecodeString encoded = Ok pin.
Proof.
  unfold masqueTLSCertPinFromURL. intros (u & Hu & H)%rbind_ok. exists u.
  destruct (bool_decide _); [done|]. destruct (Strings.CutPrefix _ _) as [encoded []] eqn:Hc; [|done].
  destruct (_ && _); [|done]. destruct (Base64.DecodeString encoded) as [decoded|] eqn:Hd; [|done].
  destruct (zlen decoded =? sha256_Size); [|done]. injection H as <-.
  exists encoded. split_and!; [done| |done]. by apply cut_prefix_found.
Qed.

Lemma validateMasqueURL_ok kind raw :
  validateMasqueURL kind raw = None -> exists u, good_url kind raw u.
Proof.
  unfold validateMasqueURL. destruct (Url.Parse raw) as [u|] eqn:Hu; [|done]. intros H.
  destruct (negb _) eqn:E1 in H; [done|]. destruct (_ || _) eqn:E2 in H; [done|].
  destruct (bool_decide _) eqn:E3 in H; [done|]. destruct (negb _) eqn:E4 in H; [done|].
  bool_to_prop. exists u. split; try done.
  - by destruct (Url.User u); [exfalso; eauto|].
  - destruct (negb _) eqn:E5 in H; bool_to_prop; [right|by left].
    destruct (negb _) eqn:E6 in H; [done|]. bool_to_prop. split; [done|].
    destruct (masqueTLSCertPinFromURL raw) as [[pin|]|] eqn:Ep; try done.
    exists pin. eauto using pin_length.
Qed.

(** What [validate] establishes. *)
Record valid_info (ci : MasqueConnInfo) : Prop := {
  vi_version : ci_Version ci = 1;
  vi_key : ci_ServerPublic ci <> NodePublicZero;
  vi_disco : ci_ServerDiscoPublic ci <> DiscoPublicZero;
  vi_some : ci_DirectURL ci <> [] \/ ci_RelayURL ci <> [];
  vi_direct : ci_DirectURL ci <> [] -> exists u, good_url direct (ci_DirectURL ci) u;
  vi_relay : ci_RelayURL ci <> [] -> exists u, good_url relay (ci_RelayURL ci) u;
  vi_automatic : ci_AutomaticDirect ci = true ->
    ci_RelayURL ci = [] /\ ci_DirectURL ci <> [] /\
    exists pin, masqueTLSCertPinFromURL (ci_DirectURL ci) = Ok (Some pin) /\ zlen pin = 32;
}.

Lemma validate_ok ci : validate ci = None -> valid_info ci.
Proof.
  unfold validate, IsZero, DiscoIsZero. intros H.
  destruct (negb (ci_Version ci =? 1)) eqn:E1; [done|].
  destruct (bool_decide (ci_ServerPublic ci = _)) eqn:E2; [done|].
  destruct (bool_decide (ci_ServerDiscoPublic ci = _)) eqn:E3; [done|].
  destruct (bool_decide _ && _) eqn:E4; [done|]. destruct (ci_AutomaticDirect ci && _) eqn:E5; [done|].
  destruct (if negb (bool_decide (ci_DirectURL ci = [])) then _ else _) eqn:E6; [done|].
  destruct (if negb (bool_decide (ci_RelayURL ci = [])) then _ else _) eqn:E7; [done|].
  bool_to_prop. split; try done.
  - destruct (decide (ci_DirectURL ci = [])); [right|by left].
    by destruct (decide (ci_RelayURL ci = [])); [repeat case_bool_decide|].
  - intros Hd. rewrite bool_decide_eq_false_2 in E6 by done. by apply validateMasqueURL_ok.
  - intros Hr. rewrite bool_decide_eq_false_2 in E7 by done. by apply validateMasqueURL_ok.
  - intros Ha. rewrite Ha in *. simpl in E5. bool_to_prop. split_and!; [done|done|].
    destruct (masqueTLSCertPinFromURL _) as [[pin|]|] eqn:Ep; try done. eauto using pin_length.
Qed.

Lemma version_validated ci : validate ci = None -> ci_Version ci = 1.
Proof. intros H%validate_ok. apply H. Qed.
End facts.

(** * Properties *)

Section properties.
Context {K : KeyOps} {O : TokenOps K}.

(** A token parses back. *)
Lemma blob_parses {TL : TokenLaws O} ci blob :
  ascii (ci_DirectURL ci) = true -> ascii (ci_RelayURL ci) = true ->
  ConnBlob ci = Ok blob -> ParseMasqueConnBlob blob = Ok (with_version ci).
Proof.
  intros Hd Hr H. unfold ConnBlob in H. set (ci' := with_version ci) in *.
  destruct (validate ci') eqn:Hv; [done|].
  destruct (MarshalWire (toWire ci')) as [b|] eqn:Hm; [|done].
  destruct (negb _) eqn:Hlen; [|done].
  assert (blob = masqueConnBlobPrefix ++ Base64.EncodeToString b) as -> by congruence. unfold ParseMasqueConnBlob.
  rewrite Hlen, cut_prefix_app, base64_decode_encode.
  assert (Hf : ci_DirectURL ci' = ci_DirectURL ci /\ ci_RelayURL ci' = ci_RelayURL ci)
    by (unfold ci', with_version; by destruct (_ =? _)).
  destruct Hf as [Hf1 Hf2]. apply json_roundtrip in Hm as ->; simpl.
  - assert (ofWire (toWire ci') = ci') as -> by (by destruct ci'). by rewrite Hv.
  - by rewrite Hf1.
  - by rewrite Hf2.
  - rewrite (version_validated _ Hv). lia.
Qed.

(** C10: Token round trip.  Whatever connection info [ConnBlob] accepts, the token
    it returns parses back to exactly that info, with an unset version defaulted
    to 1. *)
Theorem token_roundtrip {TL : TokenLaws O} ci blob :
  ascii (ci_DirectURL ci) = true -> ascii (ci_RelayURL ci) = true ->
  ConnBlob ci = Ok blob -> ParseMasqueConnBlob blob = Ok (with_version ci).
Proof. apply blob_parses. Qed.

(** Everything a parsed token says has been validated: version 1, non-zero
    server keys, at least one endpoint, every endpoint an https URL with a host and
    without userinfo or query, no fragment on a relay URL, only a SHA-256 pin in
    the fragment of a direct URL, and the automatic-direct marker only on a pinned
    direct-only token. *)
Theorem parsed_token_is_valid blob ci : ParseMasqueConnBlob blob = Ok ci -> valid_info ci.
Proof.
  unfold ParseMasqueConnBlob. intros H. destruct (negb _); [|done].
  destruct (Strings.CutPrefix _ _) as [rest []]; [|done].
  destruct (Base64.DecodeString rest) as [b|]; [|done].
  destruct (UnmarshalWire b) as [w|]; [|done].
  destruct (validate (ofWire w)) eqn:Hv; [done|]. injection H as <-. by apply validate_ok.
Qed.

(** C11: The automatic-direct marker never becomes a generic verification bypass.
    The direct URL of a parsed token that carries the marker names in its fragment,
    behind the pin's prefix and in base64, a digest of 32 bytes; and whatever the caller's
    insecure flag, the TLS configuration for that URL asks for TLS 1.3 under the URL's host
    name and accepts a server exactly when its leaf certificate has that digest. *)
Theorem automatic_direct_is_pinned blob ci insecure pki :
  ParseMasqueConnBlob blob = Ok ci -> ci_AutomaticDirect ci = true ->
  exists u encoded pin cfg,
    Url.Parse (ci_DirectURL ci) = Ok u /\
    Url.Fragment u = masqueTLSCertPinFragmentPrefix ++ encoded /\
    Base64.DecodeString encoded = Ok pin /\ zlen pin = 32 /\
    masqueTLSClientConfig (ci_DirectURL ci) insecure = Ok cfg /\
    tls_MinVersion cfg = VersionTLS13 /\ tls_ServerName cfg = Url.Hostname u /\
    forall chain, tls_accepts pki cfg chain = true <->
      exists leaf rest, chain = leaf :: rest /\ Sum256 leaf = pin.
Proof.
  intros H%parsed_token_is_valid Ha. destruct (vi_automatic _ H Ha) as (_ & Hd & pin & Hp & Hl).
  destruct (vi_direct _ H Hd) as [u Hu]. destruct (pin_is_in_fragment _ _ Hp) as (u' & encoded & Hu' & Hf & He).
  rewrite (gu_parse _ _ _ Hu) in Hu'. injection Hu' as <-.
  exists u, encoded, pin. unfold masqueTLSClientConfig.
  rewrite (gu_parse _ _ _ Hu), (gu_scheme _ _ _ Hu), Hp.
  rewrite (bool_decide_eq_false_2 (Url.Hostname u = [])) by apply Hu. simpl.
  eexists. split_and!; [done..|]. intros [|leaf rest]; unfold tls_accepts, VerifyConnection, matchesCertificate; simpl.
  - split; [done|]. by intros (? & ? & ? & _).
  - split.
    + intros Hacc. destruct (decide (Sum256 leaf = pin)) as [<-|Hne]; [eauto|].
      by rewrite bool_decide_eq_false_2 in Hacc.
    + intros (? & ? & [= <- <-] & ->). by rewrite bool_decide_eq_true_2.
Qed.

(** Outside the pinned case the ambient PKI decides, unless the caller opted
    into insecure mode: a URL without a fragment never disables verification by
    itself, and every configuration requires TLS 1.3. *)
Theorem unpinned_uses_pki rawURL insecure pki cfg u :
  masqueTLSClientConfig rawURL insecure = Ok cfg -> Url.Parse rawURL = Ok u ->
  tls_MinVersion cfg = VersionTLS13 /\ tls_ServerName cfg = Url.Hostname u /\
  (Url.Fragment u = [] ->
   forall chain, tls_accepts pki cfg chain = insecure || pki (Url.Hostname u) chain).
Proof.
  intros H Hu. unfold masqueTLSClientConfig, masqueTLSCertPinFromURL in H. rewrite Hu in H. simpl in H.
  destruct (_ && _); [|done].
  destruct (bool_decide (Url.Fragment u = [])) eqn:Ef; bool_to_prop.
  - injection H as <-. split_and!; [done..|]. intros _ chain. unfold tls_accepts. simpl. apply andb_true_r.
  - destruct (Strings.CutPrefix _ _) as [encoded found]. destruct (found && _); [|done].
    destruct (Base64.DecodeString encoded) as [pin|]; [|done].
    destruct (zlen pin =? sha256_Size); [|done]. by injection H as <-.
Qed.
End properties.

(** * A concrete instance and witnesses *)

Module ToyToken.
Import ToyKeys.

(** Length-prefixed fields stand for JSON; the digest is the zero-padded input. *)
Definition field (s : list byte) : list byte := be_put 4 (zlen s) ++ s.
Definition unfield (s : list byte) : list byte * list byte :=
  let n := Z.to_nat (be_get (take 4 s)) in (take n (drop 4 s), drop n (drop 4 s)).

Definition marshal (w : masqueWireConnInfo (K := toy)) : result (list byte) :=
  if (2 ^ 32 <=? zlen (w_p w)) || (2 ^ 32 <=? zlen (w_r w)) then Err (ErrNew "too long")
  else Ok (z2b (w_v w) :: z2b (if w_a w then 1 else 0) :: key_raw (w_k w) ++ key_raw (w_d w)
             ++ field (w_p w) ++ field (w_r w)).
Definition unmarshal (l : list byte) : result (masqueWireConnInfo (K := toy)) :=
  match l with
  | v :: a :: rest =>
      let '(p, rest') := unfield (drop 64 rest) in
      let '(r, _) := unfield rest' in
      Ok (WireConnInfo (K := toy) (b2z v) (of_raw (take 32 rest)) (of_raw (take 32 (drop 32 rest)))
            p r (b2z a =? 1))
  | _ => Err (ErrNew "short")
  end.

Definition toy_token : TokenOps toy :=
  {| MarshalWire := marshal; UnmarshalWire := unmarshal; Sum256 := fit |}.

Lemma unfield_field s rest : zlen s < 2 ^ 32 -> unfield (field s ++ rest) = (s, rest).
Proof.
  intros Hs. unfold unfield, field. rewrite <- app_assoc.
  rewrite take_app_length', drop_app_length' by (symmetry; apply length_be_put).
  rewrite be_get_put_small by (pose proof (zlen_nonneg s); change (256 ^ Z.of_nat 4) with (2 ^ 32); lia).
  unfold zlen. rewrite Nat2Z.id. by rewrite take_app_length, drop_app_length.
Qed.

#[global] Instance toy_token_laws : TokenLaws toy_token.
Proof.
  split. simpl. intros [v k d p r a] b _ _ Hv H. unfold marshal in H. cbn [w_v w_k w_d w_p w_r w_a] in *.
  destruct (_ || _) eqn:E; [done|]. bool_to_prop.
  match type of H with Ok ?x = _ => assert (b = x) as -> by congruence end. clear H.
  unfold unmarshal. rewrite (app_assoc (key_raw k)), drop_app_length' by (by rewrite length_app, !raw_len).
  rewrite unfield_field by done. rewrite <- (app_nil_r (field r)), unfield_field by done.
  rewrite <- !app_assoc, take_app_length', drop_app_length' by (by rewrite raw_len).
  rewrite take_app_length' by (by rewrite raw_len). rewrite !of_raw_raw, !b2z_z2b.
  rewrite (Z.mod_small v) by lia. by destruct a.
Qed.
End ToyToken.

Import ToyKeys ToyToken.

Definition sample_cert : list byte := replicate 32 x07.
Definition sample_direct : gostring :=
  B "https://127.0.0.1:4433/p#sha256=" ++ Base64.EncodeToString sample_cert.
Definition sample_info : MasqueConnInfo (K := toy) :=
  ConnInfo (K := toy) 0 (nkey 1) (nkey 2) sample_direct [] true.
Definition sample_blob : gostring :=
  match ConnBlob (O := toy_token) sample_info with Ok b => b | Err _ => [] end.

Lemma sample_blob_ok : ConnBlob (O := toy_token) sample_info = Ok sample_blob.
Proof. vm_reflexivity. Qed.

Lemma sample_blob_parses :
  ParseMasqueConnBlob (O := toy_token) sample_blob = Ok (with_version sample_info).
Proof. vm_reflexivity. Qed.

Lemma token_roundtrip_witness :
  ParseMasqueConnBlob (O := toy_token) sample_blob = Ok (with_version sample_info).
Proof.
  apply (token_roundtrip (TL := toy_token_laws)).
  - vm_reflexivity.
  - vm_reflexivity.
  - exact sample_blob_ok.
Defined.

Lemma parsed_token_is_valid_witness : valid_info (K := toy) (with_version sample_info).
Proof. apply (parsed_token_is_valid (O := toy_token) sample_blob), sample_blob_parses. Defined.

(** The sample's direct URL pins the digest that its fragment spells. *)
Lemma automatic_direct_is_pinned_witness :
  exists u encoded pin cfg,
    Url.Parse sample_direct = Ok u /\ Url.Fragment u = masqueTLSCertPinFragmentPrefix ++ encoded /\
    Base64.DecodeString encoded = Ok pin /\ zlen pin = 32 /\
    masqueTLSClientConfig sample_direct false = Ok cfg /\
    tls_MinVersion cfg = VersionTLS13 /\ tls_ServerName cfg = Url.Hostname u /\
    forall chain, tls_accepts (O := toy_token) (fun _ _ => false) cfg chain = true <->
      exists leaf rest, chain = leaf :: rest /\ Sum256 (TokenOps := toy_token) leaf = pin.
Proof.
  apply (automatic_direct_is_pinned (O := toy_token) sample_blob (with_version sample_info)).
  - exact sample_blob_parses.
  - reflexivity.
Defined.

Lemma unpinned_uses_pki_witness :
  exists cfg, masqueTLSClientConfig (B "https://relay.example/x") false = Ok cfg /\
  tls_MinVersion cfg = VersionTLS13 /\ tls_ServerName cfg = B "relay.example" /\
  (B "" = [] -> forall chain, tls_accepts (O := toy_token) (fun _ _ => true) cfg chain = false || true).
Proof.
  eexists. split; [vm_compute; reflexivity|].
  apply (unpinned_uses_pki (O := toy_token) (B "https://relay.example/x") false (fun _ _ => true) _
    (Url.MkURL (B "https") [] None (B "relay.example") (B "/x") [] false false [] [] []));
    vm_reflexivity.
Defined.
