(* ===== verification/Endpoint.v ===== *)
(** Endpoint: CONNECT-UDP endpoints, from URL to accepted request.

    Models the URI-template and request-parsing parts of
    src/masquecat_transport.go and src/masquecat_h2.go,
    src/masquecat_h2_proxy_request.go, and the origin and path checks of
    src/masquecat_webtransport.go.  The URI-template engine and masque-go's
    request parser are third-party code: the parameters of [MasqueLib]. *)

From S2P Require Import Prelude GoStd Keys Packet Url.
From Stdlib Require Import Strings.Byte.

Definition masquePathTemplate : gostring := B "/.well-known/masque/udp/{target_host}/{target_port}/".
Definition masqueConnectUDPProtocol : gostring := B "connect-udp".
Definition CapsuleProtocolHeader : gostring := B "Capsule-Protocol".
Definition fixedPrefix : gostring := B "/.well-known/masque/udp/".

Class MasqueLib : Type := {
  template : Type;
  (** [uritemplate.New] and [tmpl.Expand] at target_host and target_port *)
  TemplateNew : gostring -> result template;
  TemplateExpand : template -> gostring -> gostring -> result gostring;
  (** [masque.ParseProxyRequest]: the target, or the error's text and, for a
      [ProxyRequestParseError], its HTTP status *)
  ParseProxyRequest : request -> template -> gostring + (gostring * option Z);
  (** [err.Error()] *)
  ErrorText : gerror -> gostring;
}.

(** src/masquecat_transport.go:131-145 [masqueTemplateURL] *)
Definition masqueTemplateURL (rawBaseURL : gostring) : result gostring :=
  let? u := Url.Parse rawBaseURL in
  guard! bool_decide (Url.Scheme u = B "https") && negb (bool_decide (Url.Host u = []))
    or ErrNew "MASQUE endpoint must be an https URL with a host" in
  let basePath := Strings.TrimSuffix (Url.EscapedPath u) (B "/") in
  Ok (Url.Scheme u ++ B "://" ++ Url.Host u ++ basePath ++ masquePathTemplate).

Section endpoint.
Context `{ML : MasqueLib}.

(** src/masquecat_transport.go:147-153 [masqueTemplateFor] *)
Definition masqueTemplateFor (rawBaseURL : gostring) : result template :=
  let? templateURL := masqueTemplateURL rawBaseURL in
  TemplateNew templateURL.

(** src/masquecat_transport.go:594-606 [masqueTemplateForRequest] *)
Definition masqueTemplateForRequest (r : request) : result template :=
  match rq_url r with
  | Some u =>
      guard! negb (bool_decide (rq_host r = [])) or ErrNew "invalid MASQUE request URL" in
      let escapedPath := Url.EscapedPath u in
      match Strings.LastIndex escapedPath fixedPrefix with
      | None => Err (ErrNew "MASQUE request path %q has no CONNECT-UDP template")
      | Some idx =>
          masqueTemplateFor (B "https://" ++ rq_host r ++
            Strings.TrimSuffix (take idx escapedPath) (B "/"))
      end
  | None => Err (ErrNew "invalid MASQUE request URL")
  end.

(** src/masquecat_transport.go:608-630 [parseConnectUDPRequest]: the target of the
    request, or the response with the error written. *)
Definition parseConnectUDPRequest (w : HTTP.responseWriter) (r : request) (tmpl : template)
    : HTTP.responseWriter + gostring :=
  let res :=
    match ParseProxyRequest r tmpl with
    | inl target => inl target
    | inr e =>
        match masqueTemplateForRequest r with
        | Ok requestTmpl => ParseProxyRequest r requestTmpl
        | Err _ => inr e
        end
    end in
  match res with
  | inl target => inr target
  | inr (text, Some status) => inl (HTTP.Error w text status)
  | inr (text, None) => inl (HTTP.Error w text HTTP.StatusBadRequest)
  end.

Definition with_proto (r : request) (p : gostring) : request :=
  Request (rq_method r) p (rq_protoMajor r) (rq_url r) (rq_host r) (rq_header r)
    (rq_has_body r) (rq_remote_addr r).

(** src/masquecat_h2.go:258-269 [parseConnectUDPRequestAny] *)
Definition parseConnectUDPRequestAny (w : HTTP.responseWriter) (r : request) (tmpl : template)
    : HTTP.responseWriter + gostring :=
  if negb (rq_protoMajor r =? 2) then parseConnectUDPRequest w r tmpl
  else if negb (bool_decide (rq_method r = B "CONNECT")) ||
          negb (bool_decide (HTTP.Get (rq_header r) (B ":protocol") = masqueConnectUDPProtocol)) then
    inl (HTTP.Error w (B "expected HTTP/2 extended CONNECT-UDP") HTTP.StatusNotImplemented)
  else parseConnectUDPRequest w (with_proto r masqueConnectUDPProtocol) tmpl.

(** src/masquecat_h2_proxy_request.go:13-22 [masqueProxyRequestForParser] *)
Definition masqueProxyRequestForParser (r : request) : request :=
  match rq_url r with
  | None => r
  | Some u =>
      if negb (rq_protoMajor r =? 2) || bool_decide (rq_host r = []) ||
         negb (bool_decide (Url.Host u = [])) then r
      else
        let u' := Url.MkURL (Url.Scheme u) (Url.Opaque u) (Url.User u) (rq_host r) (Url.Path u)
                    (Url.RawPath u) (Url.OmitHost u) (Url.ForceQuery u) (Url.RawQuery u)
                    (Url.Fragment u) (Url.RawFragment u) in
        Request (rq_method r) (rq_proto r) (rq_protoMajor r) (Some u') (rq_host r) (rq_header r)
          (rq_has_body r) (rq_remote_addr r)
  end.

(** src/masquecat_h2.go:239-252 [expandMasqueTargetURL] *)
Definition expandMasqueTargetURL (tmpl : template) (target : gostring) : result gostring :=
  match Net.SplitHostPort target with
  | Err e => Err (ErrWrap "masquecat: parse CONNECT-UDP target: %w" e)
  | Ok (host, port) =>
      match TemplateExpand tmpl host port with
      | Err e => Err (ErrWrap "masquecat: expand CONNECT-UDP template: %w" e)
      | Ok u => Ok u
      end
  end.
End endpoint.

(** The optional interfaces of a response writer.  [wc_settings] is [None] when it
    has no HTTP/3 settings, [Some None] when they have not arrived and
    [Some (Some d)] when they say whether datagrams are enabled. *)
Record writerCaps : Type := WriterCaps {
  wc_flusher : bool;
  wc_settings : option (option bool);
  wc_streamer : bool;
}.

(** src/masquecat_transport.go:566-592 [acceptMasqueStream]: the response so far
    and whether a stream came out. *)
Definition acceptMasqueStream (caps : writerCaps) (w : HTTP.responseWriter)
    : HTTP.responseWriter * result unit :=
  match wc_settings caps with
  | None => (w, Err (ErrNew "HTTP/3 response writer has no settings"))
  | Some (Some false) => (w, Err (ErrNew "peer did not enable HTTP/3 datagrams"))
  | Some _ =>
      let w := HTTP.setHeader w CapsuleProtocolHeader (B "?1") in
      let w := HTTP.WriteHeader w HTTP.StatusOK in
      if negb (wc_streamer caps) then (w, Err (ErrNew "HTTP/3 response writer has no stream"))
      else (w, Ok tt)
  end.

(** src/masquecat_h2.go:278-297 [acceptMasqueH2Stream] *)
Definition acceptMasqueH2Stream (caps : writerCaps) (w : HTTP.responseWriter) (r : request)
    : HTTP.responseWriter * result unit :=
  if negb (rq_protoMajor r =? 2) ||
     negb (bool_decide (HTTP.Get (rq_header r) (B ":protocol") = masqueConnectUDPProtocol)) then
    (w, Err (ErrNew "masquecat: request is not HTTP/2 CONNECT-UDP"))
  else if negb (rq_has_body r) then
    (w, Err (ErrNew "masquecat: HTTP/2 CONNECT-UDP request has no stream body"))
  else if negb (wc_flusher caps) then
    (w, Err (ErrNew "masquecat: HTTP/2 response writer does not support flushing"))
  else
    let w := HTTP.setHeader w CapsuleProtocolHeader (B "?1") in
    (HTTP.WriteHeader w HTTP.StatusOK, Ok tt).

(** src/masquecat_h2.go:271-276 [acceptMasqueAnyStream] *)
Definition acceptMasqueAnyStream (caps : writerCaps) (w : HTTP.responseWriter) (r : request)
    : HTTP.responseWriter * result unit :=
  if rq_protoMajor r =? 2 then acceptMasqueH2Stream caps w r else acceptMasqueStream caps w.

(** src/masquecat_webtransport.go:195-202 [sameOriginBrowserRequest] *)
Definition sameOriginBrowserRequest (req : request) : bool :=
  let origin := HTTP.Get (rq_header req) (B "Origin") in
  if bool_decide (origin = []) then true
  else
    match Url.Parse origin with
    | Err _ => false
    | Ok u => Strings.EqualFold (Url.Scheme u) (B "https") && Strings.EqualFold (Url.Host u) (rq_host req)
    end.

(** src/masquecat_webtransport.go:204-215 [browserOriginChecker] *)
Definition browserOriginChecker (allowedOrigin : gostring) (req : request) : bool :=
  let allowedOrigin := Strings.TrimSuffix (Strings.TrimSpace allowedOrigin) (B "/") in
  if bool_decide (allowedOrigin = []) then sameOriginBrowserRequest req
  else if bool_decide (allowedOrigin = B "*") then true
  else bool_decide (Strings.TrimSuffix (HTTP.Get (rq_header req) (B "Origin")) (B "/") = allowedOrigin).

(** src/masquecat_webtransport.go:217-219 [isMasqueBrowserWebTransportPath] *)
Definition isMasqueBrowserWebTransportPath (path : gostring) : bool :=
  Strings.HasSuffix (Strings.TrimSuffix path (B "/")) (B "/.well-known/masquecat/webtransport").

(** src/masquecat_h2.go:975-988 [masqueHTTP2CompanionAddr] *)
Definition masqueHTTP2CompanionAddr (configured udpAddr : gostring) : result gostring :=
  let? (host, port) := Net.SplitHostPort configured in
  if negb (bool_decide (port = B "0")) then Ok configured
  else
    let? (_, actualPort) := Net.SplitHostPort udpAddr in
    Ok (Net.JoinHostPort host actualPort).

(** * Properties *)

Definition lbrace : byte := "{"%byte.

Lemma fmt_not_brace (c : byte) : bool_decide (c = lbrace) = false -> c <> lbrace.
Proof. apply bool_decide_eq_false. Qed.

Lemma upperhex_not_brace n : 0 <= n < 16 -> Url.upperhex n <> lbrace.
Proof.
  intros Hn. assert (forallb (fun n => negb (bool_decide (Url.upperhex n = lbrace)))
    (Z.of_nat <$> seq 0 16) = true) as Hall by reflexivity.
  rewrite forallb_forall in Hall. specialize (Hall n). rewrite negb_true_iff in Hall.
  apply fmt_not_brace, Hall, list_elem_of_In, list_elem_of_fmap.
  exists (Z.to_nat n). split; [lia|]. apply elem_of_seq. lia.
Qed.

Lemma escape_no_brace s : lbrace ∉ Url.escape s Url.encodePath.
Proof.
  unfold Url.escape. induction s as [|c s IH]; cbn [fmap list_fmap concat]; [apply not_elem_of_nil|].
  rewrite elem_of_app. intros [H|H]; [|done].
  destruct (Url.shouldEscape c Url.encodePath) eqn:E.
  - pose proof (b2z_range c). rewrite !elem_of_cons, elem_of_nil in H.
    destruct H as [H|[H|[H|[]]]]; [done|symmetry in H..]; revert H; apply upperhex_not_brace.
    + rewrite Z.shiftr_div_pow2 by lia. split; [apply Z.div_pos; lia|]. apply Z.div_lt_upper_bound; lia.
    + change 15 with (Z.ones 4). rewrite Z.land_ones by lia. by apply Z.mod_pos_bound.
  - apply list_elem_of_singleton in H as <-. vm_compute in E. done.
Qed.

(** [unescape] of a host yields no brace: braces are rejected, encoded or not. *)
Lemma unescape_host_no_brace mode s t :
  mode = Url.encodeHost \/ mode = Url.encodeZone ->
  Url.unescape s mode = Ok t -> lbrace ∉ t.
Proof.
  intros Hm. revert t. assert (Hlen : (length s <= length s)%nat) by done.
  revert Hlen. generalize (length s) at 2. intros n. revert s.
  induction n as [|n IH]; intros s Hlen t H.
  { destruct s; simpl in *; [|lia]. injection H as <-. apply not_elem_of_nil. }
  destruct s as [|c s1]; simpl in H; [injection H as <-; apply not_elem_of_nil|].
  destruct (bool_decide (c = "%"%byte)) eqn:Ec.
  - destruct s1 as [|a [|b rest]]; [done|done|].
    destruct (Hex.value a) as [ha|] eqn:Ha; [|done]. destruct (Hex.value b) as [hb|] eqn:Hb; [|done].
    destruct (bool_decide (mode = _) && _ && _) eqn:E1 in H; [done|].
    destruct (bool_decide (mode = _) && _ && _ && _) eqn:E2 in H; [done|].
    apply rbind_ok in H as (t' & Ht & [= <-]). apply IH in Ht; [|simpl in *; lia].
    rewrite not_elem_of_cons. split; [|done]. intros Hv.
    assert (Hab : ha = 7 /\ hb = 11).
    { assert (0 <= ha < 16 /\ 0 <= hb < 16) as [??].
      { clear - Ha Hb. unfold Hex.value in *. pose proof (b2z_range a). pose proof (b2z_range b).
        repeat case_match; simplify_eq; bool_to_prop; lia. }
      apply (f_equal b2z) in Hv. rewrite b2z_z2b, Z.mod_small in Hv by lia. 
      change (b2z lbrace) with 123 in Hv. lia. }
    destruct Hab as [-> ->].
    assert (H25 : bool_decide (a = "2"%byte) && bool_decide (b = "5"%byte) = false).
    { destruct (bool_decide (a = _)) eqn:E; [|done]. bool_to_prop. subst. done. }
    rewrite H25 in *. destruct Hm as [-> | ->]; simpl in E1, E2; [done|].
    by vm_compute in E2.
  - destruct (_ && _ && _) eqn:E1; [done|]. apply rbind_ok in H as (t' & Ht & [= <-]).
    apply IH in Ht; [|simpl in *; lia]. rewrite not_elem_of_cons. split; [|done].
    intros <-. destruct Hm as [-> | ->]; vm_compute in E1; done.
Qed.

Lemma parseHost_no_brace host h : Url.parseHost host = Ok h -> lbrace ∉ h.
Proof.
  unfold Url.parseHost. intros H. destruct (Strings.HasPrefix host _).
  - destruct (Strings.LastIndexByte _ _) as [i|]; [|done].
    destruct (Url.validOptionalPort _); [|done]. destruct (Url.Index _ _) as [zone|].
    + apply rbind_ok in H as (h1 & H1 & H). apply rbind_ok in H as (h2 & H2 & H).
      apply rbind_ok in H as (h3 & H3 & [= <-]).
      apply unescape_host_no_brace in H1, H2, H3; [|by auto..].
      rewrite !not_elem_of_app. done.
    + eapply unescape_host_no_brace; [|done]. by left.
  - destruct (Strings.LastIndexByte _ _) as [i|]; [destruct (Url.validOptionalPort _); [|done]|];
      (eapply unescape_host_no_brace; [|done]; by left).
Qed.

Lemma parseAuthority_no_brace a u h : Url.parseAuthority a = Ok (u, h) -> lbrace ∉ h.
Proof.
  unfold Url.parseAuthority. intros H. destruct (Strings.LastIndexByte _ _) as [i|].
  - apply rbind_ok in H as (h' & Hh & H). apply parseHost_no_brace in Hh.
    destruct (Url.validUserinfo _); [|done]. destruct (Strings.CutByte _ _) as [[un pw] []].
    + apply rbind_ok in H as (x & _ & H). apply rbind_ok in H as (y & _ & H). congruence.
    + apply rbind_ok in H as (x & _ & H). congruence.
  - apply rbind_ok in H as (h' & Hh & H). apply parseHost_no_brace in Hh. congruence.
Qed.

Lemma parse_rest_no_brace scheme rest query force u :
  Url.parse_rest scheme rest query force = Ok u -> lbrace ∉ Url.Host u.
Proof.
  unfold Url.parse_rest. intros H. destruct (_ && _).
  - destruct (match Strings.IndexByte _ _ with Some _ => _ | None => _ end) as [au re].
    apply rbind_ok in H as ([us ho] & Hau & H). apply parseAuthority_no_brace in Hau.
    apply rbind_ok in H as ([p raw] & _ & H). by injection H as <-.
  - apply rbind_ok in H as ([p raw] & _ & H). injection H as <-. apply not_elem_of_nil.
Qed.

Lemma parse_no_brace raw u : Url.Parse raw = Ok u -> lbrace ∉ Url.Host u.
Proof.
  unfold Url.Parse. intros H. destruct (Strings.CutByte raw _) as [[pre frag] found].
  apply rbind_ok in H as (u0 & H0 & H).
  assert (Hh : Url.Host u = Url.Host u0).
  { destruct (bool_decide _); [by injection H as <-|].
    apply rbind_ok in H as ([f rf] & _ & H). by injection H as <-. }
  rewrite Hh. clear H Hh. unfold Url.parse in H0.
  destruct (existsb _ _); [done|]. destruct (bool_decide _); [injection H0 as <-; apply not_elem_of_nil|].
  apply rbind_ok in H0 as ([sch rest] & _ & H0).
  destruct (match Strings.CutByte rest _ with (_, _, true) => _ | (_, _, false) => _ end) as [[r q] f].
  destruct (negb _); [|by apply parse_rest_no_brace in H0].
  destruct (negb _); [injection H0 as <-; apply not_elem_of_nil|].
  destruct (Strings.ContainsByte _ _); [done|]. by apply parse_rest_no_brace in H0.
Qed.

Lemma EscapedPath_no_brace u : lbrace ∉ Url.EscapedPath u.
Proof.
  assert (Hd : lbrace ∉ (if bool_decide (Url.Path u = B "*") then B "*"
                         else Url.escape (Url.Path u) Url.encodePath)).
  { case_bool_decide; [|apply escape_no_brace]. by_evaluation. }
  unfold Url.EscapedPath. destruct (_ && _) eqn:E; [|done].
  destruct (Url.unescape _ _) as [p|]; [|done]. destruct (bool_decide (p = _)); [|done].
  bool_to_prop. match goal with H : Url.validEncoded _ _ = true |- _ => unfold Url.validEncoded in H end.
  rewrite forallb_forall in *. intros Hin%list_elem_of_In.
  match goal with H : forall x, _ |- _ => specialize (H _ Hin) end. by vm_compute in H0.
Qed.

(** No template injection.  Whatever base URL the template is built from (a
    configured endpoint, or the Host header and path of a request), the only
    variables of the CONNECT-UDP template are the two the program appends: the
    base part contains no opening brace. *)
Theorem template_has_only_its_variables raw t :
  masqueTemplateURL raw = Ok t ->
  exists base, t = base ++ masquePathTemplate /\ lbrace ∉ base.
Proof.
  unfold masqueTemplateURL. intros (u & Hu & H)%rbind_ok. destruct (_ && _) eqn:E; [|done].
  bool_to_prop. assert (Ht : t = (Url.Scheme u ++ B "://" ++ Url.Host u
    ++ Strings.TrimSuffix (Url.EscapedPath u) (B "/")) ++ masquePathTemplate).
  { rewrite <- !app_assoc. congruence. }
  exists (Url.Scheme u ++ B "://" ++ Url.Host u ++ Strings.TrimSuffix (Url.EscapedPath u) (B "/")).
  split; [exact Ht|]. rewrite !not_elem_of_app. split_and!.
  - match goal with H : Url.Scheme u = _ |- _ => rewrite H end. by_evaluation.
  - by_evaluation.
  - by apply parse_no_brace in Hu.
  - pose proof (EscapedPath_no_brace u) as Hp. unfold Strings.TrimSuffix, Strings.CutSuffix.
    destruct (Strings.HasSuffix _ _); [|done]. simpl. intros Hin. apply Hp.
    rewrite <- (take_drop (length (Url.EscapedPath u) - 1)). apply elem_of_app. by left.
Qed.

Lemma template_has_only_its_variables_witness :
  exists base, B "https://h:1/a%7Bb/.well-known/masque/udp/{target_host}/{target_port}/"
               = base ++ masquePathTemplate /\ lbrace ∉ base.
Proof. apply (template_has_only_its_variables (B "https://h:1/a{b/")). vm_reflexivity. Defined.

Section request_facts.
Context `{ML : MasqueLib}.

(** A request the parser refuses is answered with an error, when the library's own
    statuses are errors. *)
Lemma parse_request_error req tmpl w :
  (forall r t text s, ParseProxyRequest r t = inr (text, Some s) -> 400 <= s < 600) ->
  parseConnectUDPRequestAny HTTP.newResponse req tmpl = inl w -> error_status w.
Proof.
  intros Hlib Hp. unfold parseConnectUDPRequestAny, parseConnectUDPRequest in Hp.
  repeat (case_match; simplify_eq/=); try (by apply error_response); eexists; (split; [reflexivity|]); eauto.
Qed.
End request_facts.

(** A library instance: the target travels in the URL's opaque part. *)
Definition toy_lib : MasqueLib :=
  {| template := gostring; TemplateNew := Ok; TemplateExpand _ h p := Ok (Net.JoinHostPort h p);
     ParseProxyRequest r _ := match rq_url r with
                              | Some u => inl (Url.Opaque u)
                              | None => inr ([], Some 400)
                              end;
     ErrorText _ := [] |}.
