(* ===== verification/Relay.v ===== *)
(** Relay: the paired relay, its registry and its sessions.

    Models src/masquecat_h3_server.go ([MasqueRelay]) and the browser carrier of
    src/masquecat_webtransport.go.  Registered peers are shared objects that the
    code compares by address: [objs] is the heap of [relayPeer] objects (an
    address is an index) and [peers] maps a node key to an address.  Every
    registry operation runs under the relay's mutex and is one function; a
    session goroutine is a sequence of such operations, and [relay_step]
    interleaves any number of native and browser sessions. *)

From S2P Require Import Prelude GoStd Keys Packet Auth Url Endpoint.
From Stdlib Require Import Strings.Byte.

Section registry.
Context `{K : KeyOps}.

(** A peer's outbound side: the carrier of session [sid]. *)
Inductive relayPacketForwarder : Type :=
  | StreamFwd (sid : nat)
  | BrowserFwd (sid : nat).

#[global] Instance forwarder_eq_dec : EqDecision relayPacketForwarder.
Proof. solve_decision. Defined.

(** src/masquecat_h3_server.go:40-43 [relayPeer] *)
Record relayPeer : Type := RelayPeer {
  rp_key : NodePublic;
  rp_fwd : option relayPacketForwarder;
}.

#[global] Instance relayPeer_eq_dec : EqDecision relayPeer.
Proof. solve_decision. Defined.

(** src/masquecat_h3_server.go:30-38 [MasqueRelay], the registry *)
Record MasqueRelay : Type := Relay {
  objs : list relayPeer;
  peers : gmap NodePublic nat;
}.

(** src/masquecat_h3_server.go:148-160 [MasqueRelay.reserve] *)
Definition reserve (r : MasqueRelay) (k : NodePublic) : MasqueRelay * option nat :=
  match peers r !! k with
  | Some _ => (r, None)
  | None =>
      let p := length (objs r) in
      (Relay (objs r ++ [RelayPeer k None]) (<[k := p]> (peers r)), Some p)
  end.

(** src/masquecat_h3_server.go:164-172 [MasqueRelay.activate], for a non-nil
    forwarder *)
Definition activate (r : MasqueRelay) (p : nat) (fwd : relayPacketForwarder) : MasqueRelay * bool :=
  match objs r !! p with
  | Some (RelayPeer k None) =>
      if bool_decide (peers r !! k = Some p)
      then (Relay (<[p := RelayPeer k (Some fwd)]> (objs r)) (peers r), true)
      else (r, false)
  | _ => (r, false)
  end.

(** src/masquecat_h3_server.go:177-191 [MasqueRelay.register] *)
Definition register (r : MasqueRelay) (p : nat) : MasqueRelay * bool :=
  match objs r !! p with
  | Some (RelayPeer k (Some _)) =>
      match peers r !! k with
      | Some old =>
          if negb (bool_decide (old = p)) then (r, false)
          else (Relay (objs r) (<[k := p]> (peers r)), true)
      | None => (Relay (objs r) (<[k := p]> (peers r)), true)
      end
  | _ => (r, false)
  end.

(** src/masquecat_h3_server.go:193-202 [MasqueRelay.unregister] *)
Definition unregister (r : MasqueRelay) (p : nat) : MasqueRelay :=
  match objs r !! p with
  | Some o =>
      if bool_decide (peers r !! rp_key o = Some p)
      then Relay (objs r) (delete (rp_key o) (peers r)) else r
  | None => r
  end.

(** src/masquecat_h3_server.go:204-212 [MasqueRelay.lookup] *)
Definition lookup_peer (r : MasqueRelay) (k : NodePublic) : option relayPeer :=
  match peers r !! k with
  | None => None
  | Some p =>
      match objs r !! p with
      | Some (RelayPeer k' (Some f)) => Some (RelayPeer k' (Some f))
      | _ => None
      end
  end.

Context `{V : VarintOps}.

(** What a forwarder puts on its carrier. *)
Definition forward (f : relayPacketForwarder) (src dst : NodePublic) (payload : list byte)
    : option (list byte) :=
  match f with
  | StreamFwd _ => streamForwarder_ForwardPacket src dst payload
  | BrowserFwd _ => browserForwarder_ForwardPacket src dst payload
  end.

(** src/masquecat_h3_server.go:122-141 [MasqueRelay.Handler], one round of the
    datagram loop of the session registered as [key]: the forwarder and the
    datagram sent on it. *)
Definition relayDatagram (r : MasqueRelay) (key : NodePublic) (b : list byte)
    : option (relayPacketForwarder * list byte) :=
  match decodeMasquePacket b with
  | Err _ => None
  | Ok pkt =>
      if negb (bool_decide (pkt_src pkt = key)) then None
      else if is_disco (pkt_payload pkt) then None
      else
        match lookup_peer r (pkt_dst pkt) with
        | Some (RelayPeer _ (Some f)) =>
            match forward f (pkt_src pkt) (pkt_dst pkt) (pkt_payload pkt) with
            | Some d => Some (f, d)
            | None => None
            end
        | _ => None
        end
  end.

(** src/masquecat_webtransport.go:172-191 [MasqueRelay.serveBrowserWebTransport],
    one round of the datagram loop *)
Definition browserDatagram (r : MasqueRelay) (src : NodePublic) (b : list byte)
    : option (relayPacketForwarder * list byte) :=
  match decodeMasquePacket b with
  | Err _ => None
  | Ok pkt =>
      if negb (bool_decide (pkt_src pkt = src)) then None
      else if is_disco (pkt_payload pkt) then None
      else
        match lookup_peer r (pkt_dst pkt) with
        | Some (RelayPeer _ (Some f)) =>
            match forward f (pkt_src pkt) (pkt_dst pkt) (pkt_payload pkt) with
            | Some d => Some (f, d)
            | None => None
            end
        | _ => None
        end
  end.
End registry.

(** * Admission of a native peer *)

Section admission.
Context `{K : KeyOps} `{V : VarintOps} `{ML : MasqueLib}.

(** src/masquecat_h3_server.go:62-89 [MasqueRelay.Handler], up to the
    authorization: the response that rejects the request, or the key of the peer
    to register. *)
Definition relayAdmit (a : masqueAuthenticator) (now1 now2 : Z)
    (order : masqueAuthenticator -> list (gostring * masqueChallenge)) (rand : result (list byte))
    (req : request) : masqueAuthenticator * (HTTP.responseWriter + HTTP.responseWriter * NodePublic) :=
  let w := HTTP.newResponse in
  match masqueTemplateFor (B "https://" ++ rq_host req) with
  | Err e => (a, inl (HTTP.Error w (ErrorText e) HTTP.StatusBadRequest))
  | Ok tmpl =>
      match parseConnectUDPRequestAny w (masqueProxyRequestForParser req) tmpl with
      | inl w => (a, inl w)
      | inr target =>
          if negb (bool_decide (HTTP.Get (rq_header req) masqueModeHeader = masqueModeRelay)) then
            (a, inl (HTTP.Error w (B "expected relay MasqueCat path") HTTP.StatusBadRequest))
          else
            match parseMasqueTarget target with
            | Err e => (a, inl (HTTP.Error w (ErrorText e) HTTP.StatusBadRequest))
            | Ok registeredKey =>
                let mismatch := HTTP.Error w
                  (B "MasqueCat source does not match registered target") HTTP.StatusUnauthorized in
                match parseMasqueSource (rq_header req) with
                | Err _ => (a, inl mismatch)
                | Ok src =>
                    if negb (bool_decide (src = registeredKey)) then (a, inl mismatch)
                    else
                      match authorize a now1 now2 order rand w (rq_header req) (rq_remote_addr req)
                              src registeredKey masqueModeRelay with
                      | (a, w, false) => (a, inl w)
                      | (a, w, true) => (a, inr (w, registeredKey))
                      end
                end
            end
      end
  end.
End admission.

(** * Admission of a browser peer *)

(** src/masquecat_webtransport.go:36-44 [masqueBrowserControl] *)
Record masqueBrowserControl : Type := BrowserControl {
  bc_type : gostring;
  bc_version : Z;
  bc_source : gostring;
  bc_challenge : gostring;
  bc_verifier : gostring;
  bc_proof : gostring;
  bc_error : gostring;
}.

Definition masqueBrowserControlMax : Z := Z.shiftl 8 10.
Definition masqueBrowserProtocolVersion : Z := 1.

(** encoding/json at [masqueBrowserControl]. *)
Class ControlCodec : Type := {
  MarshalControl : masqueBrowserControl -> result (list byte);
  UnmarshalControl : list byte -> result masqueBrowserControl;
}.

Section browser.
Context `{K : KeyOps} `{CC : ControlCodec}.

(** src/masquecat_webtransport.go:46-62 [readMasqueBrowserControl]: over the bytes
    the stream still delivers and the error that follows them; also the bytes left
    over.  The reader's buffer holds [masqueBrowserControlMax] bytes. *)
Definition readMasqueBrowserControl (input : list byte) (end_ : gerror)
    : result masqueBrowserControl * list byte :=
  match Strings.IndexByte input x0a with
  | Some i =>
      let line := take (S i) input in
      if masqueBrowserControlMax <? zlen line then
        (Err (ErrNew "masquecat: browser control message too large"), input)
      else
        (match UnmarshalControl (Strings.TrimSpace line) with
         | Err e => Err (ErrWrap "masquecat: decode browser control message: %w" e)
         | Ok msg => Ok msg
         end, drop (S i) input)
  | None =>
      if masqueBrowserControlMax <=? zlen input
      then (Err (ErrNew "masquecat: browser control message too large"), input)
      else (Err end_, [])
  end.

(** src/masquecat_webtransport.go:64-79 [writeMasqueBrowserControl]: the bytes
    flushed to the stream. *)
Definition writeMasqueBrowserControl (msg : masqueBrowserControl) : result (list byte) :=
  let? b := MarshalControl msg in
  guard! negb (masqueBrowserControlMax <? zlen b + 1)
    or ErrNew "masquecat: browser control message too large" in
  Ok (b ++ [x0a]).

Definition control_error (text : gostring) : masqueBrowserControl :=
  BrowserControl (B "error") 0 [] [] [] [] text.

(** src/masquecat_webtransport.go:118-141 [MasqueRelay.serveBrowserWebTransport],
    hello and challenge: the message written, and the claimed key when it is a
    challenge. *)
Definition browserHello (a : masqueAuthenticator) (now : Z)
    (order : list (gostring * masqueChallenge)) (rand : result (list byte))
    (remoteAddr : gostring) (hello : result masqueBrowserControl)
    : masqueAuthenticator * masqueBrowserControl * option NodePublic :=
  let invalid := (a, control_error (B "invalid MasqueCat browser hello"), None) in
  match hello with
  | Err _ => invalid
  | Ok hello =>
      if negb (bool_decide (bc_type hello = B "hello")) ||
         negb (bc_version hello =? masqueBrowserProtocolVersion) then invalid
      else
        let bad_id := (a, control_error (B "invalid MasqueCat node identity"), None) in
        match UnmarshalText (bc_source hello) with
        | Err _ => bad_id
        | Ok src =>
            if IsZero src then bad_id
            else
              let '(a, r) := issue a now order rand src src masqueModeRelay remoteAddr in
              match r with
              | Err _ =>
                  (a, control_error (B "failed to issue MasqueCat authentication challenge"), None)
              | Ok challenge =>
                  (a, BrowserControl (B "challenge") 0 [] challenge
                        (KeyString (Public (auth_priv a))) [] [], Some src)
              end
        end
  end.

(** src/masquecat_webtransport.go:143-147 [MasqueRelay.serveBrowserWebTransport],
    proof: the error message, or [None] when the proof is accepted. *)
Definition browserProof (a : masqueAuthenticator) (now : Z) (src : NodePublic)
    (proof : result masqueBrowserControl) : masqueAuthenticator * option masqueBrowserControl :=
  let rejected := Some (control_error (B "MasqueCat node-key proof rejected")) in
  match proof with
  | Err _ => (a, rejected)
  | Ok proof =>
      if negb (bool_decide (bc_type proof = B "proof")) then (a, rejected)
      else
        let '(a, ok) := verify a now (bc_proof proof) src src masqueModeRelay in
        (a, if ok then None else rejected)
  end.
End browser.

(** * The relay with its sessions *)

Section world.
Context `{K : KeyOps} `{V : VarintOps}.

Inductive carrier : Type := Native | Browser.
#[global] Instance carrier_eq_dec : EqDecision carrier.
Proof. solve_decision. Defined.

(** Where a session goroutine is: authorized for a key, holding a reservation, or
    publishing its forwarder and relaying. *)
Inductive session : Type :=
  | SAuthorized (c : carrier) (key : NodePublic)
  | SReserved (c : carrier) (key : NodePublic) (p : nat)
  | SActive (c : carrier) (key : NodePublic) (p : nat).

#[global] Instance session_eq_dec : EqDecision session.
Proof. solve_decision. Defined.

Definition session_key (s : session) : NodePublic :=
  match s with SAuthorized _ k | SReserved _ k _ | SActive _ k _ => k end.
Definition session_ptr (s : session) : option nat :=
  match s with SAuthorized _ _ => None | SReserved _ _ p | SActive _ _ p => Some p end.

Definition session_fwd (c : carrier) (sid : nat) : relayPacketForwarder :=
  match c with Native => StreamFwd sid | Browser => BrowserFwd sid end.

Definition session_datagram (c : carrier) :=
  match c with Native => relayDatagram | Browser => browserDatagram end.

Record world : Type := World {
  w_auth : masqueAuthenticator;
  w_relay : MasqueRelay;
  w_sessions : gmap nat session;
}.

Definition world0 (priv : NodePrivate) : world :=
  World (Authenticator priv ∅) (Relay [] ∅) ∅.

(** What a step does that others can see. *)
Inductive relay_label : Type :=
  | LAuth (ev : auth_event)
  | LConflict (sid : nat)
  | LQuiet
  | LReceive (sid : nat) (b : list byte) (sent : option (relayPacketForwarder * list byte)).

(** src/masquecat_h3_server.go:91-142 [MasqueRelay.Handler], and [serveBrowserWebTransport]
    from its verified proof on: one step of one goroutine.  [step_authorized]: a proof for the relay mode was
    accepted ([authorize] of a native session, [browserProof] of a browser) and the
    session goes on to register; [step_conflict] is the 409 (or error message) of a
    failed reservation; [step_accept_failed] the early return when no stream comes
    out; [step_end] the deferred [unregister] of a session that returns. *)
Inductive relay_step : world -> relay_label -> world -> Prop :=
  | step_auth a r ss ev a' :
      auth_step a ev a' -> relay_step (World a r ss) (LAuth ev) (World a' r ss)
  | step_authorized a r ss now proof src a' sid c :
      ss !! sid = None ->
      verify a now proof src src masqueModeRelay = (a', true) ->
      relay_step (World a r ss) (LAuth (EvVerify now proof src src masqueModeRelay true))
        (World a' r (<[sid := SAuthorized c src]> ss))
  | step_reserve a r ss sid c k r' p :
      ss !! sid = Some (SAuthorized c k) -> reserve r k = (r', Some p) ->
      relay_step (World a r ss) LQuiet (World a r' (<[sid := SReserved c k p]> ss))
  | step_conflict a r ss sid c k r' :
      ss !! sid = Some (SAuthorized c k) -> reserve r k = (r', None) ->
      relay_step (World a r ss) (LConflict sid) (World a r' (delete sid ss))
  | step_accept_failed a r ss sid c k p :
      ss !! sid = Some (SReserved c k p) ->
      relay_step (World a r ss) LQuiet (World a (unregister r p) (delete sid ss))
  | step_activate a r ss sid c k p r' :
      ss !! sid = Some (SReserved c k p) -> activate r p (session_fwd c sid) = (r', true) ->
      relay_step (World a r ss) LQuiet (World a r' (<[sid := SActive c k p]> ss))
  | step_not_activated a r ss sid c k p r' :
      ss !! sid = Some (SReserved c k p) -> activate r p (session_fwd c sid) = (r', false) ->
      relay_step (World a r ss) LQuiet (World a (unregister r' p) (delete sid ss))
  | step_receive a r ss sid c k p b :
      ss !! sid = Some (SActive c k p) ->
      relay_step (World a r ss) (LReceive sid b (session_datagram c r k b)) (World a r ss)
  | step_end a r ss sid c k p :
      ss !! sid = Some (SActive c k p) ->
      relay_step (World a r ss) LQuiet (World a (unregister r p) (delete sid ss)).

Inductive relay_trace : world -> list relay_label -> world -> Prop :=
  | rtrace_nil w : relay_trace w [] w
  | rtrace_snoc w ls w' l w'' :
      relay_trace w ls w' -> relay_step w' l w'' -> relay_trace w (ls ++ [l]) w''.

(** * Invariant *)

(** The object of a session that holds a registration. *)
Definition session_obj (sid : nat) (s : session) : option relayPeer :=
  match s with
  | SAuthorized _ _ => None
  | SReserved _ k _ => Some (RelayPeer k None)
  | SActive c k _ => Some (RelayPeer k (Some (session_fwd c sid)))
  end.

Record wf_world (w : world) : Prop := {
  (** a session's registration stands, with the session's object *)
  ww_held sid s p : w_sessions w !! sid = Some s -> session_ptr s = Some p ->
    peers (w_relay w) !! session_key s = Some p /\ objs (w_relay w) !! p = session_obj sid s;
  (** every registration is held by a session *)
  ww_owned k p : peers (w_relay w) !! k = Some p ->
    exists sid s, w_sessions w !! sid = Some s /\ session_ptr s = Some p /\ session_key s = k;
  (** no two sessions hold the same object *)
  ww_unique sid1 sid2 s1 s2 p :
    w_sessions w !! sid1 = Some s1 -> w_sessions w !! sid2 = Some s2 ->
    session_ptr s1 = Some p -> session_ptr s2 = Some p -> sid1 = sid2;
}.

Lemma wf_world0 priv : wf_world (world0 priv).
Proof. split; simpl; intros; by rewrite lookup_empty in *. Qed.

(** Two sessions that hold registrations hold them under different keys. *)
Lemma held_keys w sid1 sid2 s1 s2 p1 p2 :
  wf_world w -> w_sessions w !! sid1 = Some s1 -> w_sessions w !! sid2 = Some s2 ->
  session_ptr s1 = Some p1 -> session_ptr s2 = Some p2 ->
  session_key s1 = session_key s2 -> sid1 = sid2.
Proof.
  intros Hwf H1 H2 Hp1 Hp2 Hk.
  destruct (ww_held _ Hwf _ _ _ H1 Hp1) as [Hr1 _]. destruct (ww_held _ Hwf _ _ _ H2 Hp2) as [Hr2 _].
  rewrite Hk in Hr1. assert (p1 = p2) as -> by congruence. by eapply (ww_unique _ Hwf).
Qed.

(** Adding or dropping a session without a registration changes nothing. *)
Lemma wf_plain_insert a a' r ss sid c k :
  wf_world (World a r ss) -> ss !! sid = None -> wf_world (World a' r (<[sid := SAuthorized c k]> ss)).
Proof.
  intros [Hh Ho Hu] Hs. split; simpl in *.
  - intros sid' s p [[<- <-]|[? ?]]%lookup_insert_Some Hp; [done|eauto].
  - intros k' p Hp. destruct (Ho k' p Hp) as (sid' & s & Hs' & ?). exists sid', s.
    rewrite lookup_insert_ne by congruence. done.
  - intros s1 s2 x1 x2 p [[<- <-]|[? ?]]%lookup_insert_Some [[<- <-]|[? ?]]%lookup_insert_Some; simpl;
      try done. eauto.
Qed.

Lemma wf_plain_delete a r ss sid c k :
  wf_world (World a r ss) -> ss !! sid = Some (SAuthorized c k) -> wf_world (World a r (delete sid ss)).
Proof.
  intros [Hh Ho Hu] Hs. split; simpl in *.
  - intros sid' s p [? ?]%lookup_delete_Some. eauto.
  - intros k' p Hp. destruct (Ho k' p Hp) as (sid' & s & Hs' & Hptr & ?). exists sid', s.
    rewrite lookup_delete_ne; [done|]. intros <-. rewrite Hs in Hs'. by injection Hs' as <-.
  - intros s1 s2 x1 x2 p [? ?]%lookup_delete_Some [? ?]%lookup_delete_Some. eauto.
Qed.

Lemma wf_auth_change a a' r ss : wf_world (World a r ss) -> wf_world (World a' r ss).
Proof. intros [Hh Ho Hu]. by split. Qed.

Lemma wf_reserve a r ss sid c k r' p :
  wf_world (World a r ss) -> ss !! sid = Some (SAuthorized c k) -> reserve r k = (r', Some p) ->
  wf_world (World a r' (<[sid := SReserved c k p]> ss)).
Proof.
  intros [Hh Ho Hu] Hs Hr. unfold reserve in Hr. destruct (peers r !! k) eqn:Hk; [done|].
  injection Hr as <- <-. simpl in *.
  assert (Hnew : forall sid' s q, ss !! sid' = Some s -> session_ptr s = Some q ->
            (q < length (objs r))%nat /\ session_key s <> k).
  { intros sid' s q Hs' Hq. destruct (Hh _ _ _ Hs' Hq) as [Hp1 Hp2]. split; [|congruence].
    destruct s; simplify_eq/=; eauto using lookup_lt_Some. }
  split; simpl.
  - intros sid' s q [[<- <-]|[Hne Hs']]%lookup_insert_Some Hq; simpl in *.
    + injection Hq as <-. rewrite lookup_insert_eq. split; [done|].
      by rewrite lookup_app_r, Nat.sub_diag.
    + destruct (Hh _ _ _ Hs' Hq) as [Hp1 Hp2]. destruct (Hnew _ _ _ Hs' Hq) as [Hlt Hk'].
      rewrite lookup_insert_ne by done. split; [done|]. by rewrite lookup_app_l.
  - intros k' q [[<- <-]|[Hne Hq]]%lookup_insert_Some.
    + exists sid, (SReserved c k (length (objs r))). by rewrite lookup_insert_eq.
    + destruct (Ho _ _ Hq) as (sid' & s & Hs' & ?). exists sid', s.
      rewrite lookup_insert_ne; [done|]. intros <-. rewrite Hs in Hs'. injection Hs' as <-. naive_solver.
  - intros s1 s2 x1 x2 q [[<- <-]|[? H1]]%lookup_insert_Some [[<- <-]|[? H2]]%lookup_insert_Some Hq1 Hq2;
      simpl in *; simplify_eq; try done;
      [destruct (Hnew _ _ _ H2 Hq2); lia|destruct (Hnew _ _ _ H1 Hq1); lia|eauto].
Qed.

Lemma wf_unregister a r ss sid s p :
  wf_world (World a r ss) -> ss !! sid = Some s -> session_ptr s = Some p ->
  wf_world (World a (unregister r p) (delete sid ss)).
Proof.
  intros Hwf Hs Hp. pose proof (ww_held _ Hwf _ _ _ Hs Hp) as [Hreg Hobj]. simpl in *.
  assert (Hun : unregister r p = Relay (objs r) (delete (session_key s) (peers r))).
  { unfold unregister. rewrite Hobj. destruct s; simplify_eq/=; by rewrite bool_decide_eq_true_2. }
  rewrite Hun. split; simpl.
  - intros sid' s' q [Hne Hs']%lookup_delete_Some Hq.
    destruct (ww_held _ Hwf _ _ _ Hs' Hq) as [Hr' Ho']. split; [|done]. simpl in *.
    rewrite lookup_delete_ne; [done|]. intros Heq.
    apply Hne. by eapply (held_keys _ sid sid').
  - intros k q [Hne Hq]%lookup_delete_Some.
    destruct (ww_owned _ Hwf _ _ Hq) as (sid' & s' & Hs' & ?). exists sid', s'. simpl in Hs'.
    rewrite lookup_delete_ne; [done|]. intros <-. naive_solver.
  - intros s1 s2 x1 x2 q [? ?]%lookup_delete_Some [? ?]%lookup_delete_Some. by eapply (ww_unique _ Hwf).
Qed.

Lemma activate_held a r ss sid c k p :
  wf_world (World a r ss) -> ss !! sid = Some (SReserved c k p) ->
  activate r p (session_fwd c sid)
  = (Relay (<[p := RelayPeer k (Some (session_fwd c sid))]> (objs r)) (peers r), true).
Proof.
  intros Hwf Hs. destruct (ww_held _ Hwf _ _ p Hs eq_refl) as [Hreg Hobj]. simpl in *.
  unfold activate. by rewrite Hobj, bool_decide_eq_true_2.
Qed.

Lemma wf_activate a r ss sid c k p r' :
  wf_world (World a r ss) -> ss !! sid = Some (SReserved c k p) ->
  activate r p (session_fwd c sid) = (r', true) ->
  wf_world (World a r' (<[sid := SActive c k p]> ss)).
Proof.
  intros Hwf Hs Ha. rewrite (activate_held _ _ _ _ _ _ _ Hwf Hs) in Ha. injection Ha as <-.
  destruct (ww_held _ Hwf _ _ p Hs eq_refl) as [Hreg Hobj]. simpl in *.
  split; simpl.
  - intros sid' s q [[<- <-]|[Hne Hs']]%lookup_insert_Some Hq.
    + injection Hq as <-. split; [done|]. apply list_lookup_insert_eq. by eapply lookup_lt_Some.
    + destruct (ww_held _ Hwf _ _ _ Hs' Hq) as [Hr' Ho']. split; [done|].
      rewrite list_lookup_insert_ne; [done|]. intros ->. apply Hne.
      by eapply (ww_unique _ Hwf sid sid').
  - intros k' q Hq. destruct (ww_owned _ Hwf _ _ Hq) as (sid' & s & Hs' & Hptr & Hkey). simpl in Hs'.
    destruct (decide (sid' = sid)) as [->|Hne].
    + exists sid, (SActive c k p). rewrite lookup_insert_eq. rewrite Hs in Hs'. by injection Hs' as <-.
    + exists sid', s. by rewrite lookup_insert_ne.
  - intros s1 s2 x1 x2 q [[<- <-]|[? H1]]%lookup_insert_Some [[<- <-]|[? H2]]%lookup_insert_Some Hq1 Hq2;
      simpl in *; try done; [by eapply (ww_unique _ Hwf sid s2)|by eapply (ww_unique _ Hwf s1 sid)
                            |by eapply (ww_unique _ Hwf s1 s2)].
Qed.

Lemma step_wf w l w' : wf_world w -> relay_step w l w' -> wf_world w'.
Proof.
  intros Hwf Hs. destruct Hs.
  - by apply (wf_auth_change a).
  - by apply (wf_plain_insert a).
  - by eapply wf_reserve.
  - match goal with H : reserve _ _ = (_, None) |- _ => unfold reserve in H; destruct (peers r !! k); simplify_eq end.
    by eapply wf_plain_delete.
  - by eapply wf_unregister.
  - by eapply wf_activate.
  - match goal with H : activate _ _ _ = _ |- _ => rewrite (activate_held a r ss sid c k p) in H by done end. done.
  - done.
  - by eapply wf_unregister.
Qed.

Lemma trace_wf_world priv ls w : relay_trace (world0 priv) ls w -> wf_world w.
Proof.
  remember (world0 priv) as w0. induction 1; subst; [apply wf_world0|].
  eapply step_wf; [|done]. by apply IHrelay_trace.
Qed.
End world.

(** * Properties *)

Section properties.
Context `{K : KeyOps} {KL : KeyLaws K} `{V : VarintOps} {VL : VarintLaws V}.

(** A registered key routes to the active session that holds it, and only to it. *)
Lemma lookup_active w sid c k p :
  wf_world w -> w_sessions w !! sid = Some (SActive c k p) ->
  lookup_peer (w_relay w) k = Some (RelayPeer k (Some (session_fwd c sid))).
Proof.
  intros Hwf Hs. destruct (ww_held _ Hwf _ _ p Hs eq_refl) as [Hr Ho]. simpl in *.
  unfold lookup_peer. by rewrite Hr, Ho.
Qed.

Lemma lookup_inv w k o :
  wf_world w -> lookup_peer (w_relay w) k = Some o ->
  exists sid c p, w_sessions w !! sid = Some (SActive c k p) /\
    o = RelayPeer k (Some (session_fwd c sid)).
Proof.
  intros Hwf H. unfold lookup_peer in H. destruct (peers _ !! k) as [p|] eqn:Hp; [|done].
  destruct (ww_owned _ Hwf _ _ Hp) as (sid & s & Hs & Hptr & <-).
  destruct (ww_held _ Hwf _ _ _ Hs Hptr) as [_ Ho]. rewrite Ho in H.
  destruct s; simplify_eq/=. eauto.
Qed.

(** C7: One live session per node key, whatever interleaving of sessions: two
    sessions that hold a reservation or registration never share a key; an active
    session is what its key routes to; and a key routes to nothing but the active
    session that holds it, so a reservation whose stream is not accepted yet is
    invisible. *)
Theorem relay_registry_exclusive priv ls w :
  relay_trace (world0 priv) ls w ->
  (forall sid1 sid2 s1 s2 p1 p2,
     w_sessions w !! sid1 = Some s1 -> w_sessions w !! sid2 = Some s2 ->
     session_ptr s1 = Some p1 -> session_ptr s2 = Some p2 ->
     session_key s1 = session_key s2 -> sid1 = sid2) /\
  (forall sid c k p, w_sessions w !! sid = Some (SActive c k p) ->
     lookup_peer (w_relay w) k = Some (RelayPeer k (Some (session_fwd c sid)))) /\
  (forall k o, lookup_peer (w_relay w) k = Some o ->
     exists sid c p, w_sessions w !! sid = Some (SActive c k p) /\
       o = RelayPeer k (Some (session_fwd c sid))).
Proof.
  intros Hwf%trace_wf_world. split_and!; intros.
  - by eapply (held_keys w sid1 sid2).
  - by eapply lookup_active.
  - by apply lookup_inv.
Qed.

(** A live registration cannot be taken over or evicted.  Across any step, an
    active session either keeps its registration and its place in the routing
    table, or it is the session that ended. *)
Theorem registration_is_stable priv ls w l w' sid c k p :
  relay_trace (world0 priv) ls w -> relay_step w l w' ->
  w_sessions w !! sid = Some (SActive c k p) ->
  (w_sessions w' !! sid = Some (SActive c k p) /\
   lookup_peer (w_relay w') k = Some (RelayPeer k (Some (session_fwd c sid)))) \/
  (w_sessions w' !! sid = None /\ lookup_peer (w_relay w') k = None /\ l = LQuiet).
Proof.
  intros Hwf%trace_wf_world Hst Hs. pose proof (step_wf _ _ _ Hwf Hst) as Hwf'.
  assert (Hcase : w_sessions w' !! sid = Some (SActive c k p) \/
                  w_sessions w' !! sid = None /\ l = LQuiet /\ w_relay w' = unregister (w_relay w) p).
  { destruct Hst; simpl in *;
      match goal with
      | |- context [<[?x := _]> _ !! _] => destruct (decide (x = sid)) as [->|]
      | |- context [delete ?x _ !! _] => destruct (decide (x = sid)) as [->|]
      | _ => idtac
      end; rewrite ?lookup_insert_ne, ?lookup_delete_ne by done; simplify_eq; auto.
    right. by rewrite lookup_delete_eq. }
  destruct Hcase as [Hs'|(Hnone & -> & Hr)]; [left; split; [done|by eapply lookup_active]|].
  right. split_and!; [done| |done]. rewrite Hr.
  destruct (ww_held _ Hwf _ _ p Hs eq_refl) as [Hreg Hobj]. simpl in *.
  unfold unregister. rewrite Hobj. simpl. rewrite bool_decide_eq_true_2 by done.
  unfold lookup_peer. simpl. by rewrite lookup_delete_eq.
Qed.

(** Every session's key was proved. *)
Lemma session_proved priv ls w :
  relay_trace (world0 priv) ls w -> forall sid s, w_sessions w !! sid = Some s ->
  exists now proof, LAuth (EvVerify now proof (session_key s) (session_key s) masqueModeRelay true) ∈ ls.
Proof.
  remember (world0 priv) as w0. induction 1 as [|w ls w1 l w2 Htr IH Hst]; intros sid s Hs.
  { subst. simpl in Hs. by rewrite lookup_empty in Hs. }
  specialize (IH Heqw0).
  enough (Hold : (exists s0, w_sessions w1 !! sid = Some s0 /\ session_key s0 = session_key s) \/
            exists now proof, l = LAuth (EvVerify now proof (session_key s) (session_key s) masqueModeRelay true)).
  { destruct Hold as [(s0 & Hs0 & <-)|(now & proof & ->)].
    - destruct (IH _ _ Hs0) as (now & proof & Hin). exists now, proof. apply elem_of_app. by left.
    - exists now, proof. apply elem_of_app. right. by apply list_elem_of_singleton. }
  destruct Hst; simpl in *; try (left; by exists s);
    first [apply lookup_insert_Some in Hs as [[<- <-]|[? ?]]|apply lookup_delete_Some in Hs as [? ?]];
    simpl; eauto.
Qed.

(** A received datagram that is sent on goes out byte for byte. *)
Lemma datagram_sent c r k b f d :
  session_datagram c r k b = Some (f, d) ->
  exists pkt, decodeMasquePacket b = Ok pkt /\ pkt_src pkt = k /\ is_disco (pkt_payload pkt) = false /\
    (exists k', lookup_peer r (pkt_dst pkt) = Some (RelayPeer k' (Some f))) /\
    d = match f with StreamFwd _ => contextIDZero ++ b | BrowserFwd _ => b end.
Proof.
  intros H. assert (H' : relayDatagram r k b = Some (f, d)) by (by destruct c). clear H.
  unfold relayDatagram in H'. destruct (decodeMasquePacket b) as [pkt|] eqn:Hd; [|done].
  destruct (negb _) eqn:E1; [done|]. destruct (is_disco _) eqn:E2; [done|]. bool_to_prop.
  destruct (lookup_peer _ _) as [[k' [f'|]]|] eqn:El; try done.
  apply encode_decode in Hd as Hb. exists pkt.
  destruct f'; simpl in H'; unfold streamForwarder_ForwardPacket, browserForwarder_ForwardPacket in H';
    rewrite E2, <- Hb in H'; injection H' as <- <-; split_and!; eauto.
Qed.

Lemma receive_inv w sid b o w' :
  relay_step w (LReceive sid b o) w' ->
  exists c k p, w' = w /\ w_sessions w !! sid = Some (SActive c k p) /\
    session_datagram c (w_relay w) k b = o.
Proof. intros H. inversion H; subst. simpl. eauto 10. Qed.

Lemma rtrace_snoc_inv w ls l w' :
  relay_trace w (ls ++ [l]) w' -> exists w1, relay_trace w ls w1 /\ relay_step w1 l w'.
Proof.
  intros H. inversion H as [? Ha Hnil|? ? w1 ? ? Htr Hs Ha Heq]; [by destruct ls|].
  apply app_inj_tail in Heq as [-> ->]. eauto.
Qed.

(** C3: No spoofing and no tampering.  Whatever sessions do, a datagram the relay
    sends out was received from an active session; its source is that session's
    key, for which a proof of possession was accepted before; it leaves on the
    carrier of the active session registered under its destination key; and its
    bytes are exactly the received ones (behind the datagram context of a stream
    carrier).  Path-discovery frames are never relayed. *)
Theorem relay_forwards_authentic priv ls sid b f d w :
  relay_trace (world0 priv) (ls ++ [LReceive sid b (Some (f, d))]) w ->
  exists pkt now proof sid' c c' p p',
    decodeMasquePacket b = Ok pkt /\ is_disco (pkt_payload pkt) = false /\
    w_sessions w !! sid = Some (SActive c (pkt_src pkt) p) /\
    LAuth (EvVerify now proof (pkt_src pkt) (pkt_src pkt) masqueModeRelay true) ∈ ls /\
    w_sessions w !! sid' = Some (SActive c' (pkt_dst pkt) p') /\ f = session_fwd c' sid' /\
    d = match c' with Native => contextIDZero ++ b | Browser => b end.
Proof.
  intros (w1 & Htr & (c & k & p & -> & Hsid & Hd)%receive_inv)%rtrace_snoc_inv.
  apply datagram_sent in Hd as (pkt & Hb & <- & Hdisco & (k' & Hl) & Hd).
  destruct (session_proved _ _ _ Htr _ _ Hsid) as (now & proof & Hproof).
  apply trace_wf_world in Htr as Hwf.
  destruct (lookup_inv _ _ _ Hwf Hl) as (sid' & c' & p' & Hs' & Ho). injection Ho as -> ->.
  exists pkt, now, proof, sid', c, c', p, p'. split_and!; try done. by destruct c'.
Qed.

(** A packet between two active sessions goes out on the carrier of the destination. *)
Lemma relay_step_forwards w sid sid' c c' k k' p p' payload :
  wf_world w ->
  w_sessions w !! sid = Some (SActive c k p) -> w_sessions w !! sid' = Some (SActive c' k' p') ->
  is_disco payload = false ->
  let b := encodeMasquePacket k k' payload in
  relay_step w (LReceive sid b (Some (session_fwd c' sid',
    match c' with Native => contextIDZero ++ b | Browser => b end))) w.
Proof.
  intros Hwf Hs Hs' Hd b.
  assert (Hb : decodeMasquePacket b = Ok (MasquePacket k k' payload)) by apply decode_encode.
  assert (Hsent : session_datagram c (w_relay w) k b =
    Some (session_fwd c' sid', match c' with Native => contextIDZero ++ b | Browser => b end)).
  { transitivity (relayDatagram (w_relay w) k b); [by destruct c|]. unfold relayDatagram.
    rewrite Hb. simpl. rewrite bool_decide_eq_true_2 by done. simpl. rewrite Hd.
    rewrite (lookup_active _ _ _ _ _ Hwf Hs').
    destruct c'; simpl; unfold streamForwarder_ForwardPacket, browserForwarder_ForwardPacket; by rewrite Hd. }
  rewrite <- Hsent. destruct w as [a r ss]. simpl in *. by eapply step_receive.
Qed.

(** C8: Delivery.  When two peers are registered, a data packet one sends to the
    other is forwarded to exactly that peer's carrier, which decodes to the same
    packet. *)
Theorem relay_delivers priv ls w sid sid' c c' k k' p p' payload :
  relay_trace (world0 priv) ls w ->
  w_sessions w !! sid = Some (SActive c k p) -> w_sessions w !! sid' = Some (SActive c' k' p') ->
  is_disco payload = false ->
  let b := encodeMasquePacket k k' payload in
  let wire := match c' with Native => contextIDZero ++ b | Browser => b end in
  relay_step w (LReceive sid b (Some (session_fwd c' sid', wire))) w /\
  match c' with
  | Native => receiveStreamDatagram [Ok wire] = Some (Ok b, [])
  | Browser => True
  end /\
  decodeMasquePacket b = Ok (MasquePacket k k' payload).
Proof.
  intros Hwf%trace_wf_world Hs Hs' Hd b wire.
  assert (Hb : decodeMasquePacket b = Ok (MasquePacket k k' payload)) by apply decode_encode.
  split_and!; [|destruct c'; [|done]|done].
  - by eapply relay_step_forwards.
  - unfold wire, contextIDZero. simpl. rewrite varint_parse_encode by lia. simpl.
    unfold zlen. by rewrite Nat2Z.id, drop_app_length.
Qed.
End properties.

(** * Admission *)

Section admission_facts.
Context `{K : KeyOps} `{ML : MasqueLib}.

(** Admission of a native peer.  The relay goes on to register a key only for
    a relay-mode request whose CONNECT-UDP target and source header both name that
    non-zero key and whose proof for it was accepted, and has not answered the
    request yet; every other request is answered with an HTTP error. *)
Theorem relay_admits_only_proved_keys a now1 now2 order rand req a' res :
  (forall r t text s, ParseProxyRequest r t = inr (text, Some s) -> 400 <= s < 600) ->
  relayAdmit a now1 now2 order rand req = (a', res) ->
  match res with
  | inl w => error_status w
  | inr (w, k) =>
      w = HTTP.newResponse /\ k <> NodePublicZero /\
      HTTP.Get (rq_header req) masqueModeHeader = masqueModeRelay /\
      parseMasqueSource (rq_header req) = Ok k /\
      (exists target, parseMasqueTarget target = Ok k) /\
      verify a now1 (HTTP.Get (rq_header req) masqueProofHeader) k k masqueModeRelay = (a', true)
  end.
Proof.
  intros Hlib H. unfold relayAdmit in H.
  destruct (masqueTemplateFor _) as [tmpl|e]; [|injection H as <- <-; by apply error_response].
  destruct (parseConnectUDPRequestAny _ _ _) as [w|target] eqn:Hp.
  { injection H as <- <-. eauto using parse_request_error. }
  destruct (negb _) eqn:Hm; [injection H as <- <-; by apply error_response|].
  destruct (parseMasqueTarget target) as [k|e] eqn:Ht; [|injection H as <- <-; by apply error_response].
  destruct (parseMasqueSource _) as [src|e] eqn:Hs; [|injection H as <- <-; by apply error_response].
  destruct (negb _) eqn:He in H; [injection H as <- <-; by apply error_response|]. bool_to_prop. subst k.
  destruct (authorize _ _ _ _ _ _ _ _ _ _ _) as [[a1 w1] ok] eqn:Ha.
  apply authorize_inv in Ha. destruct ok; injection H as <- <-; [|done].
  destruct Ha as (-> & Hz & _ & Hv). split_and!; eauto.
Qed.
End admission_facts.

(** * Witnesses *)

Import ToyKeys ToyVarint.

Definition proof_of (n : Z) (token : gostring) : gostring :=
  Base64.EncodeToString (SealTo (KeyOps := toy) [] (nkey n) (nkey 9) token).
Definition nonce_of (n : Z) : list byte := replicate 32 (z2b n).
Definition token_of (n : Z) : gostring := Base64.EncodeToString (nonce_of n).

(** Issue a challenge to key [n] and accept its proof. *)
Definition auth_issue (a : masqueAuthenticator (K := toy)) (n : Z) : masqueAuthenticator (K := toy) :=
  (issue a 7 (map_to_list (pending a)) (Ok (nonce_of n)) (nkey n) (nkey n) masqueModeRelay []).1.
Definition auth_accept (a : masqueAuthenticator (K := toy)) (n : Z) : masqueAuthenticator (K := toy) :=
  (verify a 8 (proof_of n (token_of n)) (nkey n) (nkey n) masqueModeRelay).1.

Definition accept_event (n : Z) : relay_label (K := toy) :=
  LAuth (EvVerify (K := toy) 8 (proof_of n (token_of n)) (nkey n) (nkey n) masqueModeRelay true).
Definition issue_event (n : Z) : relay_label (K := toy) :=
  LAuth (EvIssue (K := toy) 7 (nkey n) (nkey n) masqueModeRelay [] (Ok (token_of n))).

Lemma issue_step a r ss n :
  (issue a 7 (map_to_list (pending a)) (Ok (nonce_of n)) (nkey n) (nkey n) masqueModeRelay []).2
    = Ok (token_of n) ->
  relay_step (V := toy_varint) (World a r ss) (issue_event n) (World (auth_issue a n) r ss).
Proof.
  intros Hi. apply step_auth. eapply (step_issue _ 7 _ (Ok (nonce_of n))); [reflexivity|by intros ? [= <-]|].
  rewrite <- Hi. apply surjective_pairing.
Qed.

Lemma accept_step a r ss sid c n :
  (verify a 8 (proof_of n (token_of n)) (nkey n) (nkey n) masqueModeRelay).2 = true ->
  ss !! sid = None ->
  relay_step (V := toy_varint) (World a r ss) (accept_event n)
    (World (auth_accept a n) r (<[sid := SAuthorized (K := toy) c (nkey n)]> ss)).
Proof.
  intros Hv Hs. apply step_authorized; [done|]. rewrite <- Hv. apply surjective_pairing.
Qed.

Lemma join_session a r ss sid c n p ls w0 :
  relay_trace (K := toy) (V := toy_varint) w0 ls (World a r ss) ->
  (issue a 7 (map_to_list (pending a)) (Ok (nonce_of n)) (nkey n) (nkey n) masqueModeRelay []).2
    = Ok (token_of n) ->
  (verify (auth_issue a n) 8 (proof_of n (token_of n)) (nkey n) (nkey n) masqueModeRelay).2 = true ->
  ss !! sid = None -> (reserve r (nkey n)).2 = Some p ->
  (activate (reserve r (nkey n)).1 p (session_fwd c sid)).2 = true ->
  relay_trace w0 ((((ls ++ [issue_event n]) ++ [accept_event n]) ++ [LQuiet]) ++ [LQuiet])
    (World (auth_accept (auth_issue a n) n)
       (activate (reserve r (nkey n)).1 p (session_fwd c sid)).1
       (<[sid := SActive c (nkey n) p]> (<[sid := SReserved c (nkey n) p]>
          (<[sid := SAuthorized c (nkey n)]> ss)))).
Proof.
  intros Htr Hi Hv Hs Hr Ha.
  eapply rtrace_snoc; [eapply rtrace_snoc; [eapply rtrace_snoc; [eapply rtrace_snoc; [exact Htr|]|]|]|].
  - by apply issue_step.
  - by apply accept_step.
  - eapply step_reserve; [apply lookup_insert_eq|].
    rewrite <- Hr. apply surjective_pairing.
  - eapply step_activate; [apply lookup_insert_eq|].
    rewrite <- Ha. apply surjective_pairing.
Qed.

(** A native peer 1 and a browser peer 2, both registered. *)
Definition sample_labels : list (relay_label (K := toy)) :=
  (((((((([] ++ [issue_event 1]) ++ [accept_event 1]) ++ [LQuiet]) ++ [LQuiet])
    ++ [issue_event 2]) ++ [accept_event 2]) ++ [LQuiet]) ++ [LQuiet]).

Definition sample_relay1 : MasqueRelay (K := toy) :=
  (activate (K := toy) (reserve (K := toy) (Relay (K := toy) [] ∅) (nkey 1)).1 0 (StreamFwd 0)).1.
Definition sample_relay2 : MasqueRelay (K := toy) :=
  (activate (K := toy) (reserve (K := toy) sample_relay1 (nkey 2)).1 1 (BrowserFwd 1)).1.
Definition sample_sessions1 : gmap nat (session (K := toy)) :=
  <[0%nat := SActive (K := toy) Native (nkey 1) 0]> (<[0%nat := SReserved (K := toy) Native (nkey 1) 0]>
    (<[0%nat := SAuthorized (K := toy) Native (nkey 1)]> ∅)).
Definition sample_sessions2 : gmap nat (session (K := toy)) :=
  <[1%nat := SActive (K := toy) Browser (nkey 2) 1]> (<[1%nat := SReserved (K := toy) Browser (nkey 2) 1]>
    (<[1%nat := SAuthorized (K := toy) Browser (nkey 2)]> sample_sessions1)).
Definition sample_auth_state : masqueAuthenticator (K := toy) :=
  auth_accept (auth_issue (auth_accept (auth_issue (Authenticator (K := toy) (nkey 9) ∅) 1) 1) 2) 2.
Definition sample_world : world (K := toy) :=
  World (K := toy) sample_auth_state sample_relay2 sample_sessions2.

Lemma sample_world_reachable :
  relay_trace (V := toy_varint) (world0 (K := toy) (nkey 9)) sample_labels sample_world.
Proof.
  apply (join_session _ _ _ 1 Browser 2 1); [apply (join_session _ _ _ 0 Native 1 0)|..];
    [constructor|vm_reflexivity..].
Qed.

Lemma relay_registry_exclusive_witness :
  lookup_peer sample_relay2 (nkey 1) = Some (RelayPeer (K := toy) (nkey 1) (Some (StreamFwd 0))).
Proof.
  apply (relay_registry_exclusive (V := toy_varint) (nkey 9 : NodePrivate (KeyOps := toy)) _ _
    sample_world_reachable) with (sid := 0%nat) (c := Native) (p := 0%nat).
  vm_reflexivity.
Defined.

Lemma registration_is_stable_witness :
  (sample_sessions2 !! 0%nat = Some (SActive (K := toy) Native (nkey 1) 0) /\
   lookup_peer sample_relay2 (nkey 1) = Some (RelayPeer (K := toy) (nkey 1) (Some (StreamFwd 0)))) \/
  (sample_sessions2 !! 0%nat = None /\ lookup_peer sample_relay2 (nkey 1) = None /\
   LReceive (K := toy) 1 [] None = LQuiet).
Proof.
  apply (registration_is_stable (V := toy_varint) (nkey 9 : NodePrivate (KeyOps := toy)) _ _
    (LReceive (K := toy) 1 [] None) sample_world 0 Native (nkey 1) 0 sample_world_reachable).
  - apply (step_receive (V := toy_varint) sample_auth_state sample_relay2 sample_sessions2 1 Browser (nkey 2) 1).
    vm_reflexivity.
  - vm_reflexivity.
Defined.

Definition sample_datagram : list byte := encodeMasquePacket (K := toy) (nkey 2) (nkey 1) [x05].

Lemma relay_forwards_authentic_witness :
  exists pkt now proof sid' c c' p p',
    decodeMasquePacket sample_datagram = Ok pkt /\ is_disco (pkt_payload pkt) = false /\
    sample_sessions2 !! 1%nat = Some (SActive (K := toy) c (pkt_src pkt) p) /\
    LAuth (EvVerify now proof (pkt_src pkt) (pkt_src pkt) masqueModeRelay true) ∈ sample_labels /\
    sample_sessions2 !! sid' = Some (SActive (K := toy) c' (pkt_dst pkt) p') /\
    StreamFwd 0 = session_fwd c' sid' /\
    contextIDZero (V := toy_varint) ++ sample_datagram
    = match c' with Native => contextIDZero (V := toy_varint) ++ sample_datagram | Browser => sample_datagram end.
Proof.
  apply (relay_forwards_authentic (KL := toy_laws) (V := toy_varint) (nkey 9 : NodePrivate (KeyOps := toy))
    sample_labels 1 sample_datagram (StreamFwd 0) _ sample_world).
  eapply rtrace_snoc; [apply sample_world_reachable|].
  assert (Hd : session_datagram (V := toy_varint) Browser sample_relay2 (nkey 2) sample_datagram
               = Some (StreamFwd 0, contextIDZero (V := toy_varint) ++ sample_datagram))
    by vm_reflexivity.
  rewrite <- Hd.
  apply (step_receive (V := toy_varint) sample_auth_state sample_relay2 sample_sessions2 1 Browser (nkey 2) 1).
  vm_reflexivity.
Defined.

Lemma relay_delivers_witness :
  relay_step (V := toy_varint) sample_world
    (LReceive 1 sample_datagram (Some (StreamFwd 0, contextIDZero (V := toy_varint) ++ sample_datagram)))
    sample_world /\
  receiveStreamDatagram (V := toy_varint) [Ok (contextIDZero (V := toy_varint) ++ sample_datagram)]
    = Some (Ok sample_datagram, []) /\
  decodeMasquePacket sample_datagram = Ok (MasquePacket (K := toy) (nkey 2) (nkey 1) [x05]).
Proof.
  apply (relay_delivers (KL := toy_laws) (VL := toy_varint_laws) (nkey 9 : NodePrivate (KeyOps := toy))
    sample_labels sample_world 1 0 Browser Native (nkey 2) (nkey 1) 1 0 [x05] sample_world_reachable);
    vm_reflexivity.
Defined.

(** A relay request of key 1 with a proof. *)
Definition sample_request : request :=
  Request (B "CONNECT") (B "connect-udp") 3
    (Some (Url.MkURL [] (masqueTarget (K := toy) (nkey 1)) None [] [] [] false false [] [] []))
    (B "relay.example")
    {[ masqueModeHeader := [masqueModeRelay];
       masqueSourceHeader := [KeyString (KeyOps := toy) (nkey 1)];
       masqueProofHeader := [proof_of 1 (token_of 1)] ]} true (B "1.2.3.4:5").
Definition sample_admission :=
  relayAdmit (ML := toy_lib) (auth_issue (Authenticator (K := toy) (nkey 9) ∅) 1) 8 8
    (fun a => map_to_list (pending a)) (Err (ErrExt 0)) sample_request.

Lemma relay_admits_only_proved_keys_witness :
  HTTP.newResponse = HTTP.newResponse /\ nkey 1 <> NodePublicZero (KeyOps := toy) /\
  HTTP.Get (rq_header sample_request) masqueModeHeader = masqueModeRelay /\
  parseMasqueSource (K := toy) (rq_header sample_request) = Ok (nkey 1) /\
  (exists target, parseMasqueTarget (K := toy) target = Ok (nkey 1)) /\
  verify (auth_issue (Authenticator (K := toy) (nkey 9) ∅) 1) 8
    (HTTP.Get (rq_header sample_request) masqueProofHeader) (nkey 1) (nkey 1) masqueModeRelay
  = (sample_admission.1, true).
Proof.
  apply (relay_admits_only_proved_keys (ML := toy_lib) _ 8 8 (fun a => map_to_list (pending a)) (Err (ErrExt 0))
    sample_request sample_admission.1 (inr (HTTP.newResponse, nkey 1))).
  - intros r t text s. simpl. destruct (rq_url r); [done|]. intros [= <- <-]. lia.
  - apply injective_projections; [reflexivity|]. vm_reflexivity.
Defined.
