(* ===== verification/Path.v ===== *)
(** Path: the client transport.

    Models [masquePath] of src/masquecat_transport.go: dialling with the
    authentication retry, the H3-to-H2 fallback of src/masquecat_h2.go, the
    reconnect backoff, and the object shared by the receive loop [run], any
    number of [ForwardPacket] senders and [Close].  Connections are numbered;
    [p_open] is the set of connections that were dialled and not closed yet, and
    [p_used] all that were ever dialled.

    The state operations run under [stateMu] and are single steps; the [Close]
    of a connection that follows an unlock touches only that connection, so it is
    part of the same step.  Between its steps the receive loop is in one of the
    phases of [run_state] and a sender in one of [send_state]. *)

From S2P Require Import Prelude GoStd Keys Packet Auth.
From Stdlib Require Import Strings.Byte.

Definition masqueReconnectInitialBackoff : Z := 250 * Millisecond.
Definition masqueReconnectMaxBackoff : Z := 10 * Second.

(** src/masquecat_transport.go:338-343 [masqueReconnectBackoff], the loop *)
Fixpoint backoff_loop (fuel : nat) (i attempt d : Z) : Z :=
  match fuel with
  | O => d
  | S fuel' =>
      if (i <? attempt) && (d <? masqueReconnectMaxBackoff) then
        let d := d * 2 in
        if masqueReconnectMaxBackoff <=? d then masqueReconnectMaxBackoff
        else backoff_loop fuel' (i + 1) attempt d
      else d
  end.

(** src/masquecat_transport.go:333-345 [masqueReconnectBackoff]; the delay doubles
    in each round, so six rounds reach the maximum. *)
Definition masqueReconnectBackoff (attempt : Z) : Z :=
  if attempt <=? 0 then 0 else backoff_loop 6 1 attempt masqueReconnectInitialBackoff.

(** * Dialling *)

Section dial.
Context `{K : KeyOps}.

(** What the transport's [Dial] returns: connection, response status and headers,
    error. *)
Record dialOutcome : Type := DialOutcome {
  do_conn : option nat;
  do_resp : option (Z * gmap gostring (list gostring));
  do_err : option gerror;
}.

(** src/masquecat_transport.go:269-280 [dialMasquePacketConn, newRequest]: the
    request headers. *)
Definition connectHeaders (local : NodePublic) (mode proof : gostring)
    : gmap gostring (list gostring) :=
  let h := HTTP.Set_ ∅ masqueSourceHeader (KeyString local) in
  let h := HTTP.Set_ h masqueModeHeader mode in
  if bool_decide (proof = []) then h else HTTP.Set_ h masqueProofHeader proof.

Definition close_conn (c : option nat) : list nat := match c with Some c => [c] | None => [] end.

(** The end of [dialMasquePacketConn], on the outcome of the last [Dial]. *)
Definition dial_finish (closed : list nat) (o : dialOutcome) : result (option nat) * list nat :=
  match do_err o with
  | Some e => (Err (ErrWrap "dial MASQUE endpoint %s: %w" e), closed ++ close_conn (do_conn o))
  | None =>
      match do_resp o with
      | None => (Err (ErrNew "MASQUE endpoint returned no HTTP response"), closed ++ close_conn (do_conn o))
      | Some (status, _) =>
          if negb (status =? HTTP.StatusOK)
          then (Err (ErrNew "MASQUE endpoint returned %s"), closed ++ close_conn (do_conn o))
          else (Ok (do_conn o), closed)
      end
  end.

(** src/masquecat_transport.go:267-331 [dialMasquePacketConn]: the connection and
    the connections closed on the way.  [newRequest] is masque-go's check of the
    template and target, [dial1] and [dial2] the two calls of [tr.Dial] on their
    request headers, [nonce] the randomness of the seal. *)
Definition dialMasquePacketConn (newRequest : gostring -> result unit)
    (dial1 dial2 : gmap gostring (list gostring) -> dialOutcome) (nonce : list byte)
    (requestTarget : NodePublic) (local : NodePrivate) (mode : gostring)
    : result (option nat) * list nat :=
  let localPublic := Public local in
  match newRequest (masqueTarget requestTarget) with
  | Err e => (Err (ErrWrap "create CONNECT-UDP request: %w" e), [])
  | Ok _ =>
      let o := dial1 (connectHeaders localPublic mode []) in
      match do_resp o with
      | Some (status, header) =>
          if status =? HTTP.StatusUnauthorized then
            let closed := close_conn (do_conn o) in
            match masqueProofForChallenge nonce local (HTTP.Get header masqueChallengeHeader)
                    (HTTP.Get header masqueVerifierHeader) requestTarget mode with
            | Err e => (Err e, closed)
            | Ok proof => dial_finish closed (dial2 (connectHeaders localPublic mode proof))
            end
          else dial_finish [] o
      | None => dial_finish [] o
      end
  end.

(** src/masquecat_h2.go:212-231 [newMasquePathWithFallback, dial]: HTTP/3 first,
    then HTTP/2; [h2] is only evaluated when HTTP/3 failed. *)
Definition dialWithFallback {C} (h3 : result C) (h2 : unit -> result C) : result C :=
  match h3 with
  | Ok c => Ok c
  | Err h3Err =>
      match h2 tt with
      | Ok c => Ok c
      | Err h2Err =>
          Err (ErrJoin [ErrWrap "HTTP/3 CONNECT-UDP: %w" h3Err; ErrWrap "HTTP/2 CONNECT-UDP: %w" h2Err])
      end
  end.
End dial.

(** * The shared object *)

(** src/masquecat_transport.go:224-238 [masquePath], with the connections that are
    open and those that were ever dialled *)
Record masquePath : Type := MasquePath {
  p_pc : option nat;
  p_closed : bool;
  p_open : gset nat;
  p_used : gset nat;
}.

(** [conn.Close()] of connection [c]. *)
Definition closeConn (p : masquePath) (c : nat) : masquePath :=
  MasquePath (p_pc p) (p_closed p) (p_open p ∖ {[c]}) (p_used p).

Definition with_pc (p : masquePath) (pc : option nat) (closed : bool) : masquePath :=
  MasquePath pc closed (p_open p) (p_used p).

(** A successful dial of the new connection [c]. *)
Definition dialed (p : masquePath) (c : nat) : masquePath :=
  MasquePath (p_pc p) (p_closed p) (p_open p ∪ {[c]}) (p_used p ∪ {[c]}).

(** src/masquecat_transport.go:354-361 [masquePath.packetConn] *)
Definition packetConn (p : masquePath) : result nat :=
  if p_closed p then Err NetErrClosed
  else match p_pc p with None => Err NetErrClosed | Some c => Ok c end.

(** src/masquecat_transport.go:363-377 [masquePath.replacePacketConn] *)
Definition replacePacketConn (p : masquePath) (conn : nat) : masquePath * option gerror :=
  if p_closed p then (closeConn p conn, Some NetErrClosed)
  else
    let old := p_pc p in
    let p := with_pc p (Some conn) (p_closed p) in
    match old with
    | Some o => if negb (bool_decide (o = conn)) then (closeConn p o, None) else (p, None)
    | None => (p, None)
    end.

(** src/masquecat_transport.go:379-389 [masquePath.retirePacketConn] *)
Definition retirePacketConn (p : masquePath) (failed : nat) : masquePath :=
  let p := if bool_decide (p_pc p = Some failed) then with_pc p None (p_closed p) else p in
  closeConn p failed.

(** src/masquecat_transport.go:461-475 [masquePath.Close] *)
Definition Close (p : masquePath) : masquePath :=
  if p_closed p then p
  else
    let pc := p_pc p in
    let p := with_pc p None true in
    match pc with
    | Some c => closeConn p c
    | None => p
    end.

(** The outcome of a datagram write: sent, larger than the carrier's datagrams, or
    failed. *)
Inductive write_outcome : Type :=
  | WriteOk
  | WriteTooLarge (e : gerror)
  | WriteFailed (e : gerror).

Section forward.
Context `{K : KeyOps}.

(** src/masquecat_transport.go:444-456 [masquePath.ForwardPacket], after the write
    on [pc]. *)
Definition forward_finish (p : masquePath) (pc : nat) (o : write_outcome) : masquePath * option gerror :=
  match o with
  | WriteOk => (p, None)
  | WriteTooLarge e =>
      (p, Some (ErrWrap "MASQUE datagram exceeds QUIC DATAGRAM payload limit %d: %w" e))
  | WriteFailed e => (retirePacketConn p pc, Some e)
  end.

(** src/masquecat_transport.go:430-457 [masquePath.ForwardPacket], run without
    interruption; [write] is [pc.WriteTo].  Also the datagram written. *)
Definition ForwardPacket (p : masquePath) (write : nat -> list byte -> write_outcome)
    (src dst : NodePublic) (payload : list byte) : masquePath * option gerror * option (nat * list byte) :=
  if is_disco payload then (p, None, None)
  else
    let b := encodeMasquePacket src dst payload in
    match packetConn p with
    | Err e => (p, Some e, None)
    | Ok pc => let '(p, r) := forward_finish p pc (write pc b) in (p, r, Some (pc, b))
    end.

(** src/masquecat_transport.go:506-520 [masquePath.run], one received datagram:
    the packet handed to [onPacket]. *)
Definition run_datagram (local : NodePublic) (b : list byte) : option (NodePublic * list byte) :=
  match decodeMasquePacket b with
  | Err _ => None
  | Ok pkt =>
      if negb (bool_decide (pkt_dst pkt = local)) then None
      else if is_disco (pkt_payload pkt) then None
      else Some (pkt_src pkt, pkt_payload pkt)
  end.
End forward.

(** * Goroutines *)

(** Where the receive loop is. *)
Inductive run_state : Type :=
  | RTop                          (* about to read the current connection *)
  | RReading (pc : nat)           (* in [pc.ReadFrom] *)
  | RFailed (pc : nat)            (* the read failed *)
  | RReconnect (attempt : Z)      (* in the reconnect loop *)
  | RDialed (c : nat)             (* a dial succeeded, not installed yet *)
  | RDone (e : gerror).           (* [run] returned *)

(** Where a sender is: holding [writeMu] with the connection it writes to. *)
Inductive send_state : Type :=
  | SIdle
  | SWriting (pc : nat).

Record path_state : Type := PathState {
  ps_path : masquePath;
  ps_run : run_state;
  ps_send : send_state;
}.

(** src/masquecat_transport.go:391-522 [masquePath.reconnect] and [masquePath.run], one
    step of the receive loop; [ctx] is the context's error.  [run_dialed] draws a connection
    number that was never used. *)
Inductive run_step (ctx : option gerror) : masquePath -> run_state -> masquePath -> run_state -> Prop :=
  | run_top_ok p pc : packetConn p = Ok pc -> run_step ctx p RTop p (RReading pc)
  | run_top_err p e :
      packetConn p = Err e -> run_step ctx p RTop p (RDone (default e ctx))
  | run_packet p pc : run_step ctx p (RReading pc) p RTop
  | run_packet_err p pc e : run_step ctx p (RReading pc) p (RDone e)
  | run_read_err p pc : run_step ctx p (RReading pc) p (RFailed pc)
  | run_failed_ctx p pc e : ctx = Some e -> run_step ctx p (RFailed pc) p (RDone e)
  | run_failed_closed p pc :
      ctx = None -> p_closed p = true -> run_step ctx p (RFailed pc) p (RDone NetErrClosed)
  | run_failed_retire p pc :
      ctx = None -> p_closed p = false ->
      run_step ctx p (RFailed pc) (retirePacketConn p pc) (RReconnect 0)
  | run_reconnect_ctx p n e : ctx = Some e -> run_step ctx p (RReconnect n) p (RDone e)
  | run_reconnect_closed p n :
      p_closed p = true -> run_step ctx p (RReconnect n) p (RDone NetErrClosed)
  | run_dial_failed p n : run_step ctx p (RReconnect n) p (RReconnect (n + 1))
  | run_dialed p n c :
      c ∉ p_used p -> run_step ctx p (RReconnect n) (dialed p c) (RDialed c)
  | run_replaced p c p' :
      replacePacketConn p c = (p', None) -> run_step ctx p (RDialed c) p' RTop
  | run_replace_err p c p' e :
      replacePacketConn p c = (p', Some e) -> run_step ctx p (RDialed c) p' (RDone e).

(** One step of the system: the receive loop, a sender (which holds the write lock
    from its [packetConn] to the end of the write), or [Close]. *)
Inductive path_step : path_state -> path_state -> Prop :=
  | step_run ctx p r s p' r' :
      run_step ctx p r p' r' -> path_step (PathState p r s) (PathState p' r' s)
  | step_send p r pc :
      packetConn p = Ok pc -> path_step (PathState p r SIdle) (PathState p r (SWriting pc))
  | step_sent p r pc o p' e :
      forward_finish p pc o = (p', e) ->
      path_step (PathState p r (SWriting pc)) (PathState p' r SIdle)
  | step_close p r s : path_step (PathState p r s) (PathState (Close p) r s).

(** A path fresh out of [newMasquePathWithTLS] or [newMasquePathWithFallback]. *)
Definition path_init (c : nat) : path_state := PathState (MasquePath (Some c) false {[c]} {[c]}) RTop SIdle.

Definition path_reachable (c : nat) (s : path_state) : Prop := rtc path_step (path_init c) s.

(** * Lemmas *)

(** The connections the goroutines hold on to. *)
Definition run_conn (r : run_state) : option nat :=
  match r with RReading c | RFailed c => Some c | _ => None end.
Definition send_conn (s : send_state) : option nat :=
  match s with SWriting c => Some c | SIdle => None end.

Record wf_path (s : path_state) : Prop := {
  (** every open connection is current or about to become current *)
  wp_open c : c ∈ p_open (ps_path s) ->
    p_pc (ps_path s) = Some c \/ ps_run s = RDialed c;
  (** the current connection and the one just dialled are open and distinct *)
  wp_pc c : p_pc (ps_path s) = Some c -> c ∈ p_open (ps_path s) /\ ps_run s <> RDialed c;
  wp_dialed c : ps_run s = RDialed c -> c ∈ p_open (ps_path s) /\ send_conn (ps_send s) <> Some c;
  wp_closed : p_closed (ps_path s) = true -> p_pc (ps_path s) = None;
  (** numbers in use were dialled *)
  wp_used : p_open (ps_path s) ⊆ p_used (ps_path s);
  wp_run_used c : run_conn (ps_run s) = Some c -> c ∈ p_used (ps_path s);
  wp_send_used c : send_conn (ps_send s) = Some c -> c ∈ p_used (ps_path s);
}.

Lemma packetConn_ok p c : packetConn p = Ok c -> p_closed p = false /\ p_pc p = Some c.
Proof. unfold packetConn. intros H. destruct (p_closed p); [done|]. destruct (p_pc p); by simplify_eq. Qed.

Lemma wf_path_init c : wf_path (path_init c).
Proof. split; simpl; try done; set_solver. Qed.

Lemma wf_retire p r s c :
  wf_path (PathState p r s) -> r <> RDialed c -> wf_path (PathState (retirePacketConn p c) r s).
Proof.
  intros [Ho Hp Hd Hc Hu Hru Hsu] Hne. simpl in *. unfold retirePacketConn.
  case_bool_decide as Hpc; split; simpl; intros; try done; try set_solver.
  all: try (destruct (Hd c0) as [? ?]; [done|]).
  all: try (destruct (Hp c0) as [? ?]; [done|]).
  all: try (split; [|done]; assert (c0 <> c) by congruence; set_solver).
Qed.

(** Changing phases without touching the object. *)
Lemma wf_phase p r s r' s' :
  wf_path (PathState p r s) ->
  (forall c, r = RDialed c <-> r' = RDialed c) ->
  (forall c, run_conn r' = Some c -> run_conn r = Some c \/ p_pc p = Some c) ->
  (forall c, send_conn s' = Some c -> send_conn s = Some c \/ p_pc p = Some c) ->
  wf_path (PathState p r' s').
Proof.
  intros [Ho Hp Hd Hc Hu Hru Hsu] Hr Hrc Hsc. split; simpl in *; try done.
  - intros c Hin. rewrite <- Hr. auto.
  - intros c Hpc. rewrite <- Hr. auto.
  - intros c Hc'%Hr. destruct (Hd c Hc') as [? Hno]. split; [done|]. intros Hs.
    destruct (Hsc c Hs) as [?|Hpc]; [done|]. by destruct (Hp c Hpc).
  - intros c Hc'. destruct (Hrc c Hc') as [?|Hpc]; [auto|]. destruct (Hp c Hpc). set_solver.
  - intros c Hc'. destruct (Hsc c Hc') as [?|Hpc]; [auto|]. destruct (Hp c Hpc). set_solver.
Qed.

Lemma wf_close p r s : wf_path (PathState p r s) -> wf_path (PathState (Close p) r s).
Proof.
  intros Hwf. unfold Close. destruct (p_closed p); [done|].
  destruct Hwf as [Ho Hp Hd Hc Hu Hru Hsu]. simpl in *.
  destruct (p_pc p) as [c|] eqn:Hpc; split; simpl; intros; try done; try set_solver.
  all: destruct (Hp c eq_refl) as [? ?]; destruct (Hd c0) as [? ?]; [done|].
  all: split; [|done]; assert (c0 <> c) by congruence; set_solver.
Qed.

Lemma wf_path_replace p c s p' e r' :
  wf_path (PathState p (RDialed c) s) -> replacePacketConn p c = (p', e) ->
  match e with None => r' = RTop | Some e => r' = RDone e end ->
  wf_path (PathState p' r' s).
Proof.
  intros [Ho Hp Hd Hc Hu Hru Hsu] H Hr. simpl in *. unfold replacePacketConn in H.
  destruct (Hd c eq_refl) as [Hin Hsend].
  destruct (p_closed p) eqn:Hcl.
  - injection H as <- <-. subst r'. rewrite (Hc eq_refl) in *.
    split; simpl; intros; try done; try set_solver.
  - destruct (p_pc p) as [o|] eqn:Ho'.
    + assert (o <> c) by (intros ->; by destruct (Hp c eq_refl)).
      rewrite bool_decide_eq_false_2 in H by done. injection H as <- <-. subst r'.
      split; simpl; intros; try done; try set_solver.
    + injection H as <- <-. subst r'. split; simpl; intros; try done; try set_solver.
Qed.

Lemma wf_run_step ctx p r s p' r' :
  wf_path (PathState p r s) -> run_step ctx p r p' r' -> wf_path (PathState p' r' s).
Proof.
  intros Hwf Hs. destruct Hs.
  all: try match goal with H : packetConn _ = Ok _ |- _ => apply packetConn_ok in H as [_ H] end.
  all: try (eapply wf_phase; [exact Hwf|by intros|simpl; naive_solver|simpl; naive_solver]).
  - apply (wf_retire p (RReconnect 0)); [|done].
    eapply wf_phase; [exact Hwf|by intros|simpl; naive_solver|simpl; naive_solver].
  - destruct Hwf as [Ho Hp Hd Hc Hu Hru Hsu]. simpl in *. split; simpl; intros; try done.
    + destruct (decide (c0 = c)) as [->|]; [by right|]. destruct (Ho c0); [set_solver|by left|done].
    + destruct (Hp c0) as [? _]; [done|]. split; [set_solver|]. intros [= ->]. set_solver.
    + simplify_eq. split; [set_solver|]. intros Hsc. apply Hsu in Hsc. done.
    + set_solver.
    + set_solver.
    + set_solver.
  - by eapply wf_path_replace.
  - by eapply wf_path_replace.
Qed.

Lemma wf_path_step s s' : wf_path s -> path_step s s' -> wf_path s'.
Proof.
  intros Hwf Hs. destruct Hs as [ctx p r s p' r' H|p r pc H|p r pc o p' e H|p r s].
  - by eapply wf_run_step.
  - apply packetConn_ok in H as [_ H]. eapply wf_phase; [exact Hwf|by intros|by left|simpl; naive_solver].
  - assert (Hidle : wf_path (PathState p r SIdle))
      by (eapply wf_phase; [exact Hwf|by intros|by left|done]).
    destruct o; simpl in H; injection H as <- <-; [done|done|].
    apply wf_retire; [done|]. intros ->. by destruct (wp_dialed _ Hwf pc).
  - by apply wf_close.
Qed.

Lemma reachable_wf_path c s : path_reachable c s -> wf_path s.
Proof.
  intros H. unfold path_reachable in H. remember (path_init c) as s0 eqn:Hs0.
  assert (Hwf : wf_path s0) by (subst; apply wf_path_init). clear Hs0.
  induction H; [done|]. eauto using wf_path_step.
Qed.

(** * Properties *)

(** C15: No connection leaks.  However the receive loop, senders, failing writes,
    reconnects and [Close] interleave, at most two connections are ever open, the
    current one and one just dialled; and once the path is closed and the receive
    loop has returned, every connection that was ever dialled is closed. *)
Theorem path_never_leaks c s :
  path_reachable c s ->
  (size (p_open (ps_path s)) <= 2)%nat /\
  (forall e, p_closed (ps_path s) = true -> ps_run s = RDone e -> p_open (ps_path s) = ∅).
Proof.
  intros Hwf%reachable_wf_path. destruct Hwf as [Ho Hp Hd Hc _ _ _]. split.
  - set (cur := match p_pc (ps_path s) with Some x => {[x]} | None => ∅ end : gset nat).
    set (new := match ps_run s with RDialed x => {[x]} | _ => ∅ end : gset nat).
    assert (Hsub : p_open (ps_path s) ⊆ cur ∪ new).
    { intros x Hx. unfold cur, new. destruct (Ho x Hx) as [-> | ->]; set_solver. }
    apply subseteq_size in Hsub. rewrite size_union_alt in Hsub.
    assert (size cur <= 1)%nat by (unfold cur; case_match; [by rewrite size_singleton|by rewrite size_empty; lia]).
    assert (Hn : (size (new ∖ cur) <= size new)%nat) by (apply subseteq_size; set_solver).
    assert (size new <= 1)%nat
      by (unfold new; destruct (ps_run s); rewrite ?size_singleton, ?size_empty; lia).
    lia.
  - intros e Hcl Hrun. apply elem_of_equiv_empty_L. intros x Hx.
    destruct (Ho x Hx) as [H|H]; [rewrite (Hc Hcl) in H|rewrite Hrun in H]; done.
Qed.

(** After [run] has returned, only [Close] and failing senders act: a path without
    a connection stays without one. *)
Lemma dead_path_stays_dead s s' e :
  ps_run s = RDone e -> p_pc (ps_path s) = None -> rtc path_step s s' ->
  ps_run s' = RDone e /\ p_pc (ps_path s') = None.
Proof.
  intros Hr Hp H. induction H as [|s s1 s2 Hs _ IH]; [done|]. apply IH.
  - destruct Hs as [ctx p r se p' r' Hrs| | |]; simpl in *; try done. subst. inversion Hrs.
  - destruct Hs as [ctx p r se p' r' Hrs|p r pc Hpc|p r pc o p' e' Hf|p r se]; simpl in *; subst.
    + inversion Hrs.
    + done.
    + destruct o; simpl in Hf; injection Hf as <- <-; [done|done|].
      unfold retirePacketConn. simpl. by rewrite Hp.
    + unfold Close. by destruct (p_closed p); [|rewrite Hp].
Qed.

(** C16: The receive loop can stop for good although the path was not closed.  When
    a sender's write fails and retires the connection while the loop is between
    two datagrams, the loop finds no connection, returns [net.ErrClosed] instead of
    reconnecting, and nothing ever installs a connection again: every later send
    fails. *)
Theorem failed_send_can_kill_the_path c :
  exists s, path_reachable c s /\ p_closed (ps_path s) = false /\ ps_run s = RDone NetErrClosed /\
    forall s', rtc path_step s s' -> packetConn (ps_path s') = Err NetErrClosed.
Proof.
  set (p0 := MasquePath (Some c) false {[c]} {[c]}).
  set (p1 := retirePacketConn p0 c).
  assert (Hp1 : p_pc p1 = None) by (unfold p1, retirePacketConn; simpl; by rewrite bool_decide_eq_true_2).
  assert (Hc1 : p_closed p1 = false) by (unfold p1, retirePacketConn; simpl; by case_bool_decide).
  exists (PathState p1 (RDone NetErrClosed) SIdle). split_and!; [|done|done|].
  - unfold path_reachable, path_init. fold p0.
    eapply rtc_l; [by apply (step_send p0 RTop c)|].
    eapply rtc_l; [by apply (step_sent p0 RTop c (WriteFailed (ErrExt 0)) p1 (Some (ErrExt 0)))|].
    eapply rtc_l; [|apply rtc_refl]. apply (step_run None).
    apply (run_top_err None p1 NetErrClosed). unfold packetConn. by rewrite Hc1, Hp1.
  - intros s' Hs. destruct (dead_path_stays_dead (PathState p1 (RDone NetErrClosed) SIdle) s' NetErrClosed) as [_ Hp]; [done..|].
    unfold packetConn. rewrite Hp. by destruct (p_closed (ps_path s')).
Qed.

(** The reconnect delay is 0 for the first attempt and then doubles from 250 ms
    up to 10 s: it is the smaller of 250 ms times 2^(n-1) and 10 s, for every
    attempt number. *)
Theorem backoff_closed_form attempt :
  masqueReconnectBackoff attempt =
  if attempt <=? 0 then 0
  else Z.min (masqueReconnectInitialBackoff * 2 ^ (attempt - 1)) masqueReconnectMaxBackoff.
Proof.
  unfold masqueReconnectBackoff. destruct (attempt <=? 0) eqn:E; [done|]. bool_to_prop.
  destruct (Z.le_gt_cases attempt 7) as [H|H].
  - assert (attempt = 1 \/ attempt = 2 \/ attempt = 3 \/ attempt = 4 \/ attempt = 5 \/ attempt = 6 \/ attempt = 7)
      as Hcases by lia.
    by repeat destruct Hcases as [-> | Hcases]; [..|subst].
  - assert (2 ^ 6 <= 2 ^ (attempt - 1)) by (apply Z.pow_le_mono_r; lia).
    rewrite Z.min_r.
    + cbn [backoff_loop]. rewrite !(proj2 (Z.ltb_lt _ attempt)) by lia. done.
    + unfold masqueReconnectInitialBackoff, masqueReconnectMaxBackoff, Second, Millisecond, Microsecond. lia.
Qed.

Section properties.
Context `{K : KeyOps} {KL : KeyLaws K}.

(** What [ForwardPacket] does, on every branch.  Path-discovery frames never
    reach the network; without a connection nothing is written and the caller gets
    [net.ErrClosed]; otherwise exactly the encoded packet is written on the current
    connection.  An oversized datagram leaves the carrier alone; any other write
    error closes the connection and takes it out of service. *)
Theorem forward_packet_outcomes p write src dst payload p' e sent :
  ForwardPacket p write src dst payload = (p', e, sent) ->
  if is_disco payload then p' = p /\ e = None /\ sent = None
  else
    match packetConn p with
    | Err _ => p' = p /\ e = Some NetErrClosed /\ sent = None
    | Ok pc =>
        sent = Some (pc, encodeMasquePacket src dst payload) /\
        match write pc (encodeMasquePacket src dst payload) with
        | WriteOk => p' = p /\ e = None
        | WriteTooLarge _ => p' = p /\ is_Some e
        | WriteFailed e' => e = Some e' /\ packetConn p' = Err NetErrClosed /\ pc ∉ p_open p'
        end
    end.
Proof.
  unfold ForwardPacket. intros H. destruct (is_disco payload); [by injection H as <- <- <-|].
  destruct (packetConn p) as [pc|err] eqn:Hpc.
  - apply packetConn_ok in Hpc as [Hcl Hpc].
    destruct (write pc _); simpl in H; injection H as <- <- <-; (split; [done|]); [done|by eauto|].
    unfold retirePacketConn. rewrite bool_decide_eq_true_2 by done. split_and!; [done| |simpl; set_solver].
    unfold packetConn. simpl. by rewrite Hcl.
  - injection H as <- <- <-. unfold packetConn in Hpc.
    destruct (p_closed p); [by injection Hpc as <-|]. destruct (p_pc p); [done|]. by injection Hpc as <-.
Qed.

(** Dialling leaks nothing.  Whatever the two calls of [Dial] return, a
    connection they yield is either the result or has been closed. *)
Theorem dial_never_leaks newRequest dial1 dial2 nonce target local mode res closed :
  dialMasquePacketConn newRequest dial1 dial2 nonce target local mode = (res, closed) ->
  let o1 := dial1 (connectHeaders (Public local) mode []) in
  (newRequest (masqueTarget target) = Ok tt ->
   forall c, do_conn o1 = Some c -> res = Ok (Some c) \/ c ∈ closed) /\
  (forall header proof, newRequest (masqueTarget target) = Ok tt ->
     do_resp o1 = Some (HTTP.StatusUnauthorized, header) ->
     masqueProofForChallenge nonce local (HTTP.Get header masqueChallengeHeader)
       (HTTP.Get header masqueVerifierHeader) target mode = Ok proof ->
     forall c, do_conn (dial2 (connectHeaders (Public local) mode proof)) = Some c ->
       res = Ok (Some c) \/ c ∈ closed).
Proof.
  assert (Hfin : forall cl o r cl', dial_finish cl o = (r, cl') ->
            cl ⊆ cl' /\ forall c, do_conn o = Some c -> r = Ok (Some c) \/ c ∈ cl').
  { intros cl o r cl' H. unfold dial_finish in H.
    destruct (do_err o); [|destruct (do_resp o) as [[status ?]|]; [destruct (negb _)|]];
      injection H as <- <-; (split; [set_solver|]); intros c ->; simpl; set_solver. }
  intros H o1. unfold dialMasquePacketConn in H. fold o1 in H.
  destruct (newRequest _) as [[]|e] eqn:Hreq; [|by split; intros].
  destruct (do_resp o1) as [[status header]|] eqn:Hresp.
  2: { apply Hfin in H as [_ H]. split; [by intros _|done]. }
  destruct (status =? _) eqn:Est.
  - bool_to_prop. subst status. destruct (masqueProofForChallenge _ _ _ _ _ _) as [proof|e] eqn:Hp.
    + apply Hfin in H as [Hsub H]. split.
      * intros _ c Hc. right. apply Hsub. rewrite Hc. set_solver.
      * intros h' p' _ [= <-] Hp' c Hc. rewrite Hp in Hp'. injection Hp' as <-. by apply H.
    + injection H as <- <-. split; [intros _ c ->; right; set_solver|].
      intros h' p' _ [= <-] Hp'. congruence.
  - apply Hfin in H as [_ H]. split; [by intros _|]. intros h' p' _ [= -> _]. done.
Qed.

(** Two packets exchanged end to end: what the receive loop hands up is exactly
    what was sent to this node, and frames for another node, discovery frames and
    malformed datagrams are dropped. *)
Theorem run_receives_what_was_sent local src dst payload :
  run_datagram local (encodeMasquePacket src dst payload) =
  if bool_decide (dst = local) && negb (is_disco payload) then Some (src, payload) else None.
Proof.
  unfold run_datagram. rewrite decode_encode. simpl.
  destruct (bool_decide (dst = local)); [|done]. by destruct (is_disco payload).
Qed.

Lemma connect_headers_no_proof local mode :
  HTTP.Get (connectHeaders local mode []) masqueProofHeader = [].
Proof.
  unfold connectHeaders. rewrite bool_decide_eq_true_2 by done.
  rewrite !header_get_set_ne by (vm_compute; discriminate). reflexivity.
Qed.

Lemma connect_headers_proof local mode proof :
  proof <> [] -> HTTP.Get (connectHeaders local mode proof) masqueProofHeader = proof.
Proof. intros. unfold connectHeaders. rewrite bool_decide_eq_false_2 by done. apply header_get_set. Qed.

(** The client's dial completes the server's handshake.  When the server
    answers the first request with a challenge and then serves any other traffic
    that neither tries the token nor outlives the challenge, the second request of
    [dialMasquePacketConn] is authorized, and the connection the transport then
    returns is the dial's result. *)
Theorem dial_completes_handshake newRequest dial1 dial2 nonce target local mode conn
    a now1 now2 order rand remote a1 w1 evs a2 now3 now4 order' rand' remote' c :
  let h1 := connectHeaders (Public local) mode [] in
  let token := HTTP.Get (HTTP.w_header w1) masqueChallengeHeader in
  newRequest (masqueTarget target) = Ok tt ->
  (forall a, order a ≡ₚ map_to_list (pending a)) ->
  Public (auth_priv a) <> NodePublicZero ->
  (mode = masqueModeDirect -> target = Public (auth_priv a)) ->
  authorize a now1 now2 order rand HTTP.newResponse h1 remote (Public local) target mode = (a1, w1, false) ->
  do_resp (dial1 h1) = Some (HTTP.StatusUnauthorized, HTTP.w_header w1) ->
  token <> [] -> pending a1 !! token = Some c -> auth_trace a1 evs a2 ->
  Forall (fun ev => consumes (auth_priv a) ev <> Some token /\
    match ev with
    | EvIssue now _ _ _ _ _ => now < ch_expires c
    | EvVerify _ _ _ _ _ _ => True
    end) evs ->
  now3 < ch_expires c ->
  (forall h, (authorize a2 now3 now4 order' rand' HTTP.newResponse h remote' (Public local) target mode).2 = true ->
     dial2 h = DialOutcome (Some conn) (Some (HTTP.StatusOK, ∅)) None) ->
  dialMasquePacketConn newRequest dial1 dial2 nonce target local mode
  = (Ok (Some conn), close_conn (do_conn (dial1 h1))).
Proof.
  intros h1 token Hreq Hord Hzero Hmode Ha Hresp Htok Hc Htr Hf Hnow Hserver.
  destruct (authorize_challenge _ _ _ _ _ _ _ _ _ _ _ _ Hord (connect_headers_no_proof _ _) Ha Htok)
    as (Hver & _ & _ & Hpriv & _).
  set (proof := Base64.EncodeToString (SealTo nonce local (Public (auth_priv a)) token)).
  assert (Hproof : masqueProofForChallenge nonce local token
            (HTTP.Get (HTTP.w_header w1) masqueVerifierHeader) target mode = Ok proof).
  { unfold masqueProofForChallenge. rewrite Hver, unmarshal_string. unfold IsZero.
    rewrite (bool_decide_eq_false_2 (token = [])), (bool_decide_eq_false_2 (KeyString _ = [])),
      (bool_decide_eq_false_2 (Public _ = _)) by (done || (rewrite key_string; done)). simpl.
    destruct (bool_decide (mode = masqueModeDirect)) eqn:Em; [|done]. bool_to_prop.
    by rewrite bool_decide_eq_true_2 by (by rewrite Hmode). }
  assert (Hne : proof <> []).
  { unfold proof. pose proof (seal_length nonce local (Public (auth_priv a)) token) as Hl.
    by destruct (SealTo _ _ _ _) as [|? [|? [|? ?]]]. }
  unfold dialMasquePacketConn. fold h1. rewrite Hreq, Hresp. simpl.
  fold token. rewrite Hproof. rewrite Hserver; [done|].
  edestruct (handshake_completes a now1 now2 order rand h1 remote local target mode a1 w1 nonce proof evs a2
    now3 now4 order' rand' (connectHeaders (Public local) mode proof) remote' c) as [a3 H3];
    [done|apply connect_headers_no_proof|done..|by apply connect_headers_proof|by rewrite H3].
Qed.
End properties.

(** * Witnesses *)

Import ToyKeys.

(** A failed read, a reconnect to connection 1, then [Close] while a sender is
    idle; the receive loop returns. *)
Definition sample_path1 : masquePath := dialed (retirePacketConn (MasquePath (Some 0%nat) false {[0%nat]} {[0%nat]}) 0) 1.
Definition sample_path2 : masquePath := (replacePacketConn sample_path1 1).1.

Lemma sample_path_reachable :
  path_reachable 0 (PathState (Close sample_path2) (RDone NetErrClosed) SIdle).
Proof.
  unfold path_reachable, path_init.
  eapply rtc_l; [apply (step_run None), (run_top_ok None _ 0); reflexivity|].
  eapply rtc_l; [apply (step_run None), run_read_err|].
  eapply rtc_l; [apply (step_run None), run_failed_retire; reflexivity|].
  eapply rtc_l; [apply (step_run None), (run_dialed None _ _ 1); by_evaluation|].
  eapply rtc_l; [apply (step_run None), (run_replaced None _ 1 sample_path2); vm_reflexivity|].
  eapply rtc_l; [apply step_close|].
  eapply rtc_l; [|apply rtc_refl]. apply (step_run None), (run_top_err None _ NetErrClosed). vm_reflexivity.
Qed.

Lemma path_never_leaks_witness :
  (size (p_open (Close sample_path2)) <= 2)%nat /\
  (forall e, p_closed (Close sample_path2) = true -> RDone NetErrClosed = RDone e ->
     p_open (Close sample_path2) = ∅).
Proof. apply (path_never_leaks 0 _ sample_path_reachable). Defined.

Lemma forward_packet_outcomes_witness :
  Some (0%nat, encodeMasquePacket (K := toy) (nkey 1) (nkey 2) [x05])
    = Some (0%nat, encodeMasquePacket (K := toy) (nkey 1) (nkey 2) [x05]) /\
  Some (ErrExt 3) = Some (ErrExt 3) /\
  packetConn (retirePacketConn (MasquePath (Some 0%nat) false {[0%nat]} {[0%nat]}) 0) = Err NetErrClosed /\
  0%nat ∉ p_open (retirePacketConn (MasquePath (Some 0%nat) false {[0%nat]} {[0%nat]}) 0).
Proof.
  apply (forward_packet_outcomes (K := toy) (MasquePath (Some 0%nat) false {[0%nat]} {[0%nat]})
    (fun _ _ => WriteFailed (ErrExt 3)) (nkey 1) (nkey 2) [x05]).
  reflexivity.
Defined.

(** A dial that is challenged on connection 4 and succeeds on connection 5. *)
Definition sample_w1 : HTTP.responseWriter :=
  (authorize sample_auth 0 7 (fun a => map_to_list (pending a)) (Ok sample_nonce) HTTP.newResponse
     (connectHeaders (K := toy) (nkey 1) masqueModeRelay []) (B "1.2.3.4:5") (nkey 1) (nkey 2) masqueModeRelay).1.2.
Definition sample_a1 : masqueAuthenticator (K := toy) :=
  (authorize sample_auth 0 7 (fun a => map_to_list (pending a)) (Ok sample_nonce) HTTP.newResponse
     (connectHeaders (K := toy) (nkey 1) masqueModeRelay []) (B "1.2.3.4:5") (nkey 1) (nkey 2) masqueModeRelay).1.1.
Definition sample_dial1 (h : gmap gostring (list gostring)) : dialOutcome :=
  DialOutcome (Some 4%nat) (Some (401, HTTP.w_header sample_w1)) None.
Definition sample_dial2 (h : gmap gostring (list gostring)) : dialOutcome :=
  DialOutcome (Some 5%nat) (Some (200, ∅)) None.
Definition sample_dial :=
  dialMasquePacketConn (K := toy) (fun _ => Ok tt) sample_dial1 sample_dial2 [] (nkey 2) (nkey 1) masqueModeRelay.

Lemma sample_dial_ok : sample_dial = (Ok (Some 5%nat), [4%nat]).
Proof. vm_reflexivity. Qed.

Lemma dial_never_leaks_witness :
  forall c, do_conn (sample_dial1 ∅) = Some c -> Ok (Some 5%nat) = Ok (Some c) \/ c ∈ [4%nat].
Proof.
  apply (proj1 (dial_never_leaks (K := toy) (fun _ => Ok tt) sample_dial1 sample_dial2 [] (nkey 2) (nkey 1)
    masqueModeRelay _ _ sample_dial_ok)). reflexivity.
Defined.

Lemma dial_completes_handshake_witness : sample_dial = (Ok (Some 5%nat), [4%nat]).
Proof.
  eapply (dial_completes_handshake (KL := toy_laws) (fun _ => Ok tt) sample_dial1 sample_dial2 []
    (nkey 2) (nkey 1) masqueModeRelay 5 sample_auth 0 7 (fun a => map_to_list (pending a)) (Ok sample_nonce)
    (B "1.2.3.4:5") sample_a1 sample_w1 [] sample_a1 8 8 (fun a => map_to_list (pending a)) (Err (ErrExt 0))
    (B "1.2.3.4:5") (Challenge (K := toy) (nkey 1) (nkey 2) masqueModeRelay (B "1.2.3.4") (7 + masqueChallengeTTL))).
  - reflexivity.
  - reflexivity.
  - by_evaluation.
  - by_evaluation.
  - apply injective_projections; [apply surjective_pairing|]. vm_reflexivity.
  - reflexivity.
  - by_evaluation.
  - vm_reflexivity.
  - constructor.
  - constructor.
  - by_evaluation.
  - reflexivity.
Defined.
