(* ===== verification/Bind.v ===== *)
(** Bind: WireGuard's network bind over explicit MASQUE paths.

    Models [masqueBind] and [masqueTun] of src/masquecat_core.go.  A channel pair
    created by [Open] is an object with an address ([b_chans] is the heap): the
    receive function and a delayed [Inject] keep using the pair they captured, even
    after [Close] or a later [Open].  A nil [recv]/[closed] field is [None].
    Forwarders are compared by address too: a path is a number. *)

From S2P Require Import Prelude GoStd Keys Packet Fragment.
From Stdlib Require Import Strings.Byte.

Definition masqueCoreQueueSize : Z := 512.

Section bind.
Context `{K : KeyOps}.

(** src/masquecat_core.go:55-58 [masqueInboundPacket] *)
Record masqueInboundPacket : Type := Inbound { in_src : NodePublic; in_payload : list byte }.

(** src/masquecat_core.go:63-65 [masqueEndpoint] *)
Record masqueEndpoint : Type := Endpoint { ep_peer : NodePublic }.

(** src/masquecat_core.go:69-71 [masqueEndpoint.DstToString] *)
Definition DstToString (e : masqueEndpoint) : gostring :=
  Strings.TrimPrefix (KeyString (ep_peer e)) nodePublicTextPrefix.

(** src/masquecat_core.go:72-72 [masqueEndpoint.DstToBytes] *)
Definition DstToBytes (e : masqueEndpoint) : list byte := Raw (ep_peer e).

(** A conn.Endpoint given to [Send]: one of ours (possibly a nil pointer) or not. *)
Inductive connEndpoint : Type :=
  | MasqueEP (e : option masqueEndpoint)
  | OtherEP.

(** A channel pair: the buffered [recv] and whether [closed] is closed. *)
Record chanPair : Type := ChanPair {
  ch_queue : list masqueInboundPacket;
  ch_closed : bool;
}.

(** src/masquecat_core.go:79-88 [masqueBind] *)
Record masqueBind : Type := Bind {
  b_local : NodePublic;
  b_open : bool;
  b_recv : option nat;
  b_closed : option nat;
  b_paths : gmap NodePublic nat;
  b_fragments : masqueWGReassembler;
  b_chans : list chanPair;
}.

(** src/masquecat_core.go:90-95 [newMasqueBind] *)
Definition newMasqueBind (local : NodePublic) : masqueBind :=
  Bind local false None None ∅ (Reassembler ∅) [].

Definition with_chans (b : masqueBind) (cs : list chanPair) : masqueBind :=
  Bind (b_local b) (b_open b) (b_recv b) (b_closed b) (b_paths b) (b_fragments b) cs.
Definition with_fragments (b : masqueBind) (f : masqueWGReassembler) : masqueBind :=
  Bind (b_local b) (b_open b) (b_recv b) (b_closed b) (b_paths b) f (b_chans b).
Definition with_paths (b : masqueBind) (m : gmap NodePublic nat) : masqueBind :=
  Bind (b_local b) (b_open b) (b_recv b) (b_closed b) m (b_fragments b) (b_chans b).

(** src/masquecat_core.go:97-127 [masqueBind.Open]: the channel pair its receive
    function captures. *)
Definition Open (b : masqueBind) : masqueBind * result nat :=
  if b_open b then (b, Err ConnErrBindAlreadyOpen)
  else
    let ch := length (b_chans b) in
    (Bind (b_local b) true (Some ch) (Some ch) (b_paths b) (Reset (b_fragments b))
       (b_chans b ++ [ChanPair [] false]), Ok ch).

(** The choice of Go's [select] among ready cases: closed first, or data first. *)
Inductive select_choice : Type := PreferClosed | PreferData.

(** src/masquecat_core.go:109-125 [masqueBind.Open], one call of the receive
    function on channel pair [ch]; [buflens] are the lengths of the caller's
    buffers ([packets]) and [nsizes], [neps] the numbers of [sizes] and [eps]
    entries.  [None] while it blocks. *)
Definition receive (b : masqueBind) (ch : nat) (choice : select_choice) (buflens : list Z)
    (nsizes neps : nat) : option (masqueBind * result masqueInboundPacket) :=
  match b_chans b !! ch with
  | None => None
  | Some c =>
      let take_data :=
        match ch_queue c with
        | [] => None
        | p :: q =>
            let b := with_chans b (<[ch := ChanPair q (ch_closed c)]> (b_chans b)) in
            Some (b,
              match buflens, nsizes, neps with
              | l0 :: _, S _, S _ =>
                  guard! negb (l0 <? zlen (in_payload p))
                    or ErrNew "masquecat: WireGuard receive buffer too small: have %d, need %d" in
                  Ok p
              | _, _, _ => Err (ErrNew "masquecat: WireGuard receive batch has no buffers")
              end)
        end in
      if ch_closed c then
        match choice, take_data with
        | PreferData, Some r => Some r
        | _, _ => Some (b, Err NetErrClosed)
        end
      else take_data
  end.

(** src/masquecat_core.go:129-141 [masqueBind.Close] *)
Definition bind_Close (b : masqueBind) : masqueBind :=
  if negb (b_open b) then b
  else
    let chans :=
      match b_closed b with
      | Some ch => match b_chans b !! ch with
                   | Some c => <[ch := ChanPair (ch_queue c) true]> (b_chans b)
                   | None => b_chans b
                   end
      | None => b_chans b
      end in
    Bind (b_local b) false None None (b_paths b) (Reset (b_fragments b)) chans.

(** One payload handed to the path: forwarded in order until an error;
    [forward n] is the result of the [n]-th [ForwardPacket] call. *)
Fixpoint forward_all (forward : nat -> list byte -> option gerror) (n : nat) (payloads : list (list byte))
    : list (list byte) * nat * option gerror :=
  match payloads with
  | [] => ([], n, None)
  | p :: rest =>
      match forward n p with
      | Some e => ([p], S n, Some e)
      | None => let '(l, n', e) := forward_all forward (S n) rest in (p :: l, n', e)
      end
  end.

(** src/masquecat_core.go:156-176 [masqueBind.Send], the loop over the buffers; the
    payloads handed to [ForwardPacket], and the fragment sequence counter; [clock n]
    is the time after [n] payloads were forwarded. *)
Fixpoint send_bufs (clock : nat -> Z) (forward : nat -> list byte -> option gerror) (offset : Z) (seq : Z)
    (n : nat) (bufs : list (list byte)) : list (list byte) * Z * option gerror :=
  match bufs with
  | [] => ([], seq, None)
  | buf :: rest =>
      if (offset <? 0) || (zlen buf <? offset) then
        ([], seq, Some (ErrNew "masquecat: invalid WireGuard packet offset %d for %d-byte buffer"))
      else
        let payload := drop (Z.to_nat offset) buf in
        match fragmentMasqueWireGuardPacket (clock n) seq payload with
        | (Err e, seq) => ([], seq, Some e)
        | (Ok fragments, seq) =>
            let out := match fragments with [] => [payload] | _ => fragments end in
            match forward_all forward n out with
            | (l, _, Some e) => (l, seq, Some e)
            | (l, n, None) =>
                let '(l', seq, e) := send_bufs clock forward offset seq n rest in
                (l ++ l', seq, e)
            end
        end
  end.

(** src/masquecat_core.go:145-178 [masqueBind.Send]: the path used with the payloads
    forwarded on it, the counter and the error. *)
Definition Send (b : masqueBind) (clock : nat -> Z) (forward : nat -> nat -> list byte -> option gerror)
    (seq : Z) (bufs : list (list byte)) (ep : connEndpoint) (offset : Z)
    : option (nat * NodePublic * list (list byte)) * Z * option gerror :=
  match ep with
  | MasqueEP (Some e) =>
      if IsZero (ep_peer e) then (None, seq, Some ConnErrWrongEndpointType)
      else
        match b_paths b !! ep_peer e with
        | None => (None, seq, Some (ErrNew "masquecat: no MASQUE path for peer %v"))
        | Some path =>
            let '(l, seq, err) := send_bufs clock (forward path) offset seq 0 bufs in
            (Some (path, ep_peer e, l), seq, err)
        end
  | _ => (None, seq, Some ConnErrWrongEndpointType)
  end.

(** src/masquecat_core.go:180-193 [masqueBind.ParseEndpoint] *)
Definition ParseEndpoint (s : gostring) : result masqueEndpoint :=
  let s := Strings.TrimPrefix s nodePublicTextPrefix in
  guard! zlen s =? NodePublicRawLen * 2 or ErrNew "masquecat: invalid peer endpoint %q" in
  match Hex.DecodeString s with
  | None => Err (ErrNew "masquecat: invalid peer endpoint: %w")
  | Some _ =>
      match UnmarshalText (nodePublicTextPrefix ++ s) with
      | Err e => Err (ErrWrap "masquecat: parse peer endpoint: %w" e)
      | Ok k => Ok (Endpoint k)
      end
  end.

(** src/masquecat_core.go:197-205 [masqueBind.SetPath]; [None] is a nil path *)
Definition bind_SetPath (b : masqueBind) (peer : NodePublic) (path : option nat) : masqueBind :=
  match path with
  | None => with_paths b (delete peer (b_paths b))
  | Some p => with_paths b (<[peer := p]> (b_paths b))
  end.

(** src/masquecat_core.go:207-215 [masqueBind.RemovePath], for a non-nil path *)
Definition bind_RemovePath (b : masqueBind) (peer : NodePublic) (path : nat) : masqueBind * bool :=
  if bool_decide (b_paths b !! peer = Some path)
  then (with_paths b (delete peer (b_paths b)), true)
  else (b, false).

(** src/masquecat_core.go:218-224 [masqueBind.Inject], the snapshot under the lock *)
Definition inject_snapshot (b : masqueBind) : result nat :=
  if negb (b_open b) then Err NetErrClosed
  else
    match b_recv b, b_closed b with
    | Some ch, Some _ => Ok ch
    | _, _ => Err NetErrClosed
    end.

(** src/masquecat_core.go:226-233 [masqueBind.Inject], reassembly; [None] when the
    datagram is dropped or incomplete. *)
Definition inject_push (b : masqueBind) (now : Z) (src : NodePublic) (payload : list byte)
    : masqueBind * option (list byte) :=
  let '(f, res) := Push (b_fragments b) now src payload in
  (with_fragments b f, match res with Ok (Some out) => Some out | _ => None end).

(** src/masquecat_core.go:234-240 [masqueBind.Inject], handing the packet to the
    captured channel pair; [None] while it blocks. *)
Definition inject_deliver (b : masqueBind) (ch : nat) (choice : select_choice) (pkt : masqueInboundPacket)
    : option (masqueBind * option gerror) :=
  match b_chans b !! ch with
  | None => None
  | Some c =>
      let room := zlen (ch_queue c) <? masqueCoreQueueSize in
      let put := (with_chans b (<[ch := ChanPair (ch_queue c ++ [pkt]) (ch_closed c)]> (b_chans b)), None) in
      if ch_closed c then
        match choice with
        | PreferData => if room then Some put else Some (b, Some NetErrClosed)
        | PreferClosed => Some (b, Some NetErrClosed)
        end
      else if room then Some put else None
  end.

(** src/masquecat_core.go:217-241 [masqueBind.Inject], run without interruption *)
Definition bind_Inject (b : masqueBind) (now : Z) (choice : select_choice) (src : NodePublic)
    (payload : list byte) : option (masqueBind * option gerror) :=
  match inject_snapshot b with
  | Err e => Some (b, Some e)
  | Ok ch =>
      match inject_push b now src payload with
      | (b, None) => Some (b, None)
      | (b, Some out) => inject_deliver b ch choice (Inbound src out)
      end
  end.
End bind.

(** * The TUN between gVisor and WireGuard *)

(** src/masquecat_core.go:261-277 [masqueTun.Read]: [pkt] is the raw packet of the
    link, [None] once the context is done; the buffer after the copy and the size. *)
Definition tun_Read (pkt : option (list byte)) (bufs : list (list byte)) (nsizes : nat) (offset : Z)
    : result (list (list byte) * Z) :=
  match pkt with
  | None => Err OSErrClosed
  | Some raw =>
      match bufs, nsizes with
      | b0 :: bs, S _ =>
          guard! negb ((offset <? 0) || (zlen b0 <? offset + zlen raw))
            or ErrNew "masquecat: WireGuard TUN buffer too small for %d-byte packet at offset %d" in
          let o := Z.to_nat offset in
          Ok ((take o b0 ++ raw ++ drop (o + length raw) b0) :: bs, zlen raw)
      | _, _ => Err (ErrNew "masquecat: WireGuard TUN read has no buffers")
      end
  end.

Inductive ip_proto : Type := IPv4 | IPv6.

(** src/masquecat_core.go:279-305 [masqueTun.Write]: the packets injected into the
    link with their protocols, the count and the error. *)
Fixpoint tun_Write (bufs : list (list byte)) (offset : Z) (written : Z)
    : list (ip_proto * list byte) * Z * option gerror :=
  match bufs with
  | [] => ([], written, None)
  | buf :: rest =>
      if (offset <? 0) || (zlen buf <=? offset) then
        ([], written, Some (ErrNew "masquecat: invalid TUN write offset %d for %d-byte buffer"))
      else
        let raw := drop (Z.to_nat offset) buf in
        match raw with
        | [] => tun_Write rest offset written
        | b0 :: _ =>
            let version := Z.shiftr (b2z b0) 4 in
            if version =? 4 then
              let '(l, w, e) := tun_Write rest offset (written + 1) in ((IPv4, raw) :: l, w, e)
            else if version =? 6 then
              let '(l, w, e) := tun_Write rest offset (written + 1) in ((IPv6, raw) :: l, w, e)
            else tun_Write rest offset written
        end
  end.

(** * Lemmas *)

Section facts.
Context `{K : KeyOps} {KL : KeyLaws K}.

Lemma forward_all_ok n payloads :
  forward_all (fun _ _ => None) n payloads = (payloads, (n + length payloads)%nat, None).
Proof.
  revert n. induction payloads as [|p rest IH]; intros n; simpl; [by rewrite Nat.add_0_r|].
  rewrite IH. by replace (n + S (length rest))%nat with (S n + length rest)%nat by lia.
Qed.

(** A datagram that is not a fragment is handed up as it is. *)
Lemma push_plain r now src payload :
  has_prefix masqueWGFragmentMagic payload = false -> Push r now src payload = (r, Ok (Some payload)).
Proof. intros H. unfold Push, parseFragment. by rewrite H. Qed.

(** Arrivals of one source at an open bind. *)
Fixpoint inject_all (b : masqueBind) (src : NodePublic) (evs : list (Z * list byte))
    : option masqueBind :=
  match evs with
  | [] => Some b
  | (t, p) :: rest =>
      match bind_Inject b t PreferClosed src p with
      | Some (b, None) => inject_all b src rest
      | _ => None
      end
  end.

Definition completed (l : list (push_event * result (option (list byte)))) : list (list byte) :=
  omap (fun x => match x.2 with Ok (Some out) => Some out | _ => None end) l.

Definition arrivals (src : NodePublic) (evs : list (Z * list byte)) : list push_event :=
  (fun e => PushEvent e.1 src e.2) <$> evs.

Lemma inject_step b t src p ch q f' res :
  inject_snapshot b = Ok ch -> b_chans b !! ch = Some (ChanPair q false) ->
  Push (b_fragments b) t src p = (f', res) ->
  let out := match res with Ok (Some out) => [Inbound src out] | _ => [] end in
  zlen (q ++ out) <= masqueCoreQueueSize ->
  exists b', bind_Inject b t PreferClosed src p = Some (b', None) /\
    inject_snapshot b' = Ok ch /\ b_chans b' !! ch = Some (ChanPair (q ++ out) false) /\
    b_fragments b' = f'.
Proof.
  intros Hsnap Hch Hp out Hlen. unfold bind_Inject, inject_push. rewrite Hsnap, Hp.
  assert (Hlt : (ch < length (b_chans b))%nat) by (by eapply lookup_lt_Some).
  destruct res as [[o|]|e]; simpl.
  - unfold inject_deliver. simpl. rewrite Hch. simpl. unfold out in Hlen. autorewrite with zlen in Hlen.
    rewrite (proj2 (Z.ltb_lt _ _)) by lia. eexists. split_and!; [done|done| |done]. simpl.
    by rewrite list_lookup_insert_eq.
  - eexists. split_and!; [done|done| |done]. unfold out. by rewrite app_nil_r.
  - eexists. split_and!; [done|done| |done]. unfold out. by rewrite app_nil_r.
Qed.

Lemma inject_all_spec src evs b ch q :
  inject_snapshot b = Ok ch -> b_chans b !! ch = Some (ChanPair q false) ->
  let out := Inbound src <$> completed (push_all (b_fragments b) (arrivals src evs)) in
  zlen (q ++ out) <= masqueCoreQueueSize ->
  exists b', inject_all b src evs = Some b' /\ inject_snapshot b' = Ok ch /\
    b_chans b' !! ch = Some (ChanPair (q ++ out) false).
Proof.
  revert b q. induction evs as [|[t p] evs IH]; intros b q Hsnap Hch out Hlen.
  { exists b. unfold out. simpl. rewrite app_nil_r. by split_and!. }
  unfold out in *. clear out. simpl in *. destruct (Push (b_fragments b) t src p) as [f' res] eqn:Hp.
  unfold completed in *. simpl in *.
  destruct (inject_step b t src p ch q f' res Hsnap Hch Hp) as (b' & Hi & Hs' & Hc' & Hf').
  { etrans; [|exact Hlen]. unfold zlen. destruct res as [[o|]|e]; rewrite !length_app; simpl; lia. }
  rewrite Hi. specialize (IH b' _ Hs' Hc'). rewrite Hf' in IH.
  destruct res as [[o|]|e]; simpl in *; rewrite ?app_nil_r, <- ?app_assoc in IH; by apply IH.
Qed.

Definition outputs (l : list (result (option (list byte)))) : list (list byte) :=
  omap (fun x => match x with Ok (Some out) => Some out | _ => None end) l.

Lemma completed_outputs l : completed l = outputs (snd <$> l).
Proof.
  unfold completed, outputs. induction l as [|[ev x] l IH]; [done|].
  destruct x as [[o|]|e]; cbn; [f_equal|..]; exact IH.
Qed.

Lemma outputs_last n payload : outputs (replicate n (Ok None) ++ [Ok (Some payload)]) = [payload].
Proof. by induction n. Qed.

Lemma results_all key evs r :
  Forall (fun ev => key_of ev = Some key) evs ->
  results_for key (push_all r evs) = snd <$> push_all r evs.
Proof.
  intros H. revert r. induction H as [|ev evs Hev _ IH]; intros r; [done|]. simpl.
  destruct (Push _ _ _ _) as [r' res]. unfold results_for in *. rewrite filter_cons. simpl.
  rewrite decide_True by done. simpl. by rewrite IH.
Qed.

(** The datagrams [Send] makes of one packet. *)
Definition datagrams_of (id : Z) (payload : list byte) : list (list byte) :=
  if zlen payload <=? masqueWGFragmentChunkSize then [payload] else fragments_of id payload.

Lemma arrivals_bytes src times l :
  length times = length l -> ev_bytes <$> arrivals src (zip times l) = l.
Proof.
  revert l. induction times as [|t times IH]; intros [|x l] H; try done.
  cbn. f_equal. apply IH. by injection H.
Qed.

Lemma datagrams_completed r id src payload t0 times l' :
  0 <= id < 2 ^ 64 -> zlen payload <= masqueWGFragmentMaxSize ->
  has_prefix masqueWGFragmentMagic payload = false ->
  l' ≡ₚ datagrams_of id payload -> length times = length l' ->
  Forall (fun t => t < t0 + masqueWGFragmentTTL /\ t0 <= t) times ->
  sets r !! (src, id) = None -> sourceAssemblyCountLocked (sets r) src < masqueWGMaxAssembliesPerSource ->
  Z.of_nat (size (sets r)) < masqueWGMaxAssemblies ->
  completed (push_all r (arrivals src (zip times l'))) = [payload].
Proof.
  intros Hid Hmax Hmagic Hperm Hlen Htimes Hnone Hsrcn Hsize. unfold datagrams_of in Hperm.
  destruct (zlen payload <=? masqueWGFragmentChunkSize) eqn:E; bool_to_prop.
  { apply Permutation_singleton_r in Hperm as ->. destruct times as [|t [|]]; try done.
    unfold completed. simpl. by rewrite push_plain. }
  assert (Hpl : masqueWGFragmentChunkSize < zlen payload <= masqueWGFragmentMaxSize) by lia.
  apply Permutation_map_inv in Hperm as (todo & -> & Htodo). symmetry in Htodo.
  assert (Hev : ev_bytes <$> arrivals src (zip times
      ((fun i => fragmentBytes id (Z.of_nat i) (chunk_count (zlen payload)) (zlen payload) (chunk_at payload i))
       <$> todo)) = (fun i => fragmentBytes id (Z.of_nat i) (chunk_count (zlen payload)) (zlen payload)
         (chunk_at payload i)) <$> todo).
  { by apply arrivals_bytes. }
  set (evs := arrivals src _) in *.
  assert (Hkeys : Forall (fun ev => key_of ev = Some (src, id)) evs).
  { apply Forall_lookup. intros i ev Hi. assert (Hb : (ev_bytes <$> evs) !! i = Some (ev_bytes ev))
      by (by rewrite list_lookup_fmap, Hi).
    rewrite Hev, list_lookup_fmap in Hb. destruct (todo !! i) as [j|] eqn:Hj; [|done].
    injection Hb as Hb. assert (Hsrc : ev_src ev = src).
    { unfold evs, arrivals in Hi. rewrite list_lookup_fmap in Hi. by destruct (zip _ _ !! i); simplify_eq/=. }
    assert (Hjn : j ∈ seq 0 (Z.to_nat (chunk_count (zlen payload))))
      by (rewrite <- Htodo; by eapply list_elem_of_lookup_2).
    apply elem_of_seq in Hjn. unfold key_of. rewrite <- Hb, parse_fragment by (done || lia). by rewrite Hsrc. }
  rewrite completed_outputs, <- (results_all (src, id)) by done.
  destruct evs as [|first rest] eqn:Hevs.
  { exfalso. destruct todo; [|done]. pose proof (chunk_count_bounds (zlen payload)) as Hc.
    apply Permutation_length in Htodo. rewrite length_seq in Htodo.
    frag_consts. simpl in Htodo. lia. }
  rewrite (deliver_all payload id src Hid Hpl t0 first rest r todo); try done.
  - apply outputs_last.
  - by inversion Hkeys.
  - rewrite <- Hevs. unfold evs, arrivals. apply Forall_fmap, Forall_forall. intros [t p] Hin.
    apply elem_of_zip_l in Hin. simpl. rewrite Forall_forall in Htimes. by apply Htimes.
  - rewrite <- Hev. f_equal. by apply filter_all.
Qed.
End facts.

(** * Executions of the bind *)

Section executions.
Context `{K : KeyOps}.

(** One atomic step of a goroutine on the bind.  An [Inject] is three steps, so
    its delivery may come after a [Close] and a new [Open]. *)
Inductive bind_step : masqueBind -> masqueBind -> Prop :=
  | bs_open b b' ch : Open b = (b', Ok ch) -> bind_step b b'
  | bs_close b : bind_step b (bind_Close b)
  | bs_set b peer path : bind_step b (bind_SetPath b peer path)
  | bs_remove b peer path : bind_step b (bind_RemovePath b peer path).1
  | bs_push b now src p : bind_step b (inject_push b now src p).1
  | bs_deliver b ch choice pkt b' e :
      inject_deliver b ch choice pkt = Some (b', e) -> bind_step b b'
  | bs_receive b ch choice lens ns ne b' r :
      receive b ch choice lens ns ne = Some (b', r) -> bind_step b b'.

Record wf_bind (b : masqueBind) : Prop := {
  (** the three fields of the current pair change together *)
  wb_open : b_open b = true <-> is_Some (b_recv b);
  wb_same : b_recv b = b_closed b;
  wb_current ch : b_recv b = Some ch ->
    exists q, b_chans b !! ch = Some (ChanPair q false);
  (** a pair that is not current is closed *)
  wb_old ch c : b_chans b !! ch = Some c -> b_recv b <> Some ch -> ch_closed c = true;
  wb_queue : Forall (fun c => zlen (ch_queue c) <= masqueCoreQueueSize) (b_chans b);
  wb_fragments : wf_reassembler (b_fragments b);
}.

Lemma wf_newMasqueBind local : wf_bind (newMasqueBind local).
Proof.
  split; simpl; try done; apply wf_empty.
Qed.

(** Replacing the queue of one pair. *)
Lemma wf_set_queue b ch c q :
  wf_bind b -> b_chans b !! ch = Some c -> zlen q <= masqueCoreQueueSize ->
  wf_bind (with_chans b (<[ch := ChanPair q (ch_closed c)]> (b_chans b))).
Proof.
  intros [Ho Hs Hc Hold Hq Hf] Hch Hlen. split; simpl; try done.
  - intros ch' Hr. destruct (decide (ch' = ch)) as [->|Hne].
    + rewrite list_lookup_insert_eq by (by eapply lookup_lt_Some).
      destruct (Hc ch Hr) as [q' Hq']. exists q. rewrite Hch in Hq'. by injection Hq' as ->.
    + rewrite list_lookup_insert_ne by done. by apply Hc.
  - intros ch' c' Hc' Hne. apply list_lookup_insert_Some in Hc' as [(<- & <- & _)|[? ?]]; simpl; eauto.
  - by apply Forall_insert.
Qed.

Lemma bind_step_wf b b' : wf_bind b -> bind_step b b' -> wf_bind b'.
Proof.
  intros Hwf Hs. destruct Hs as [b b' ch H|b|b peer path|b peer path|b now src p|b ch choice pkt b' e H|b ch choice lens ns ne b' r H].
  - unfold Open in H. destruct (b_open b) eqn:Hopen; [done|]. injection H as <- <-.
    destruct Hwf as [Ho Hs Hc Hold Hq Hf]. split; simpl; try done.
    + intros ch [= <-]. exists []. by rewrite lookup_app_r, Nat.sub_diag.
    + intros ch c Hc' Hne. apply lookup_app_Some in Hc' as [Hc'|[Hle Hc']].
      * apply (Hold ch c Hc'). intros Hr.
        assert (b_open b = true) by (apply Ho; rewrite Hr; eauto). congruence.
      * apply list_lookup_singleton_Some in Hc' as [Hz _].
        destruct Hne. f_equal. lia.
    + apply Forall_app. split; [done|]. by repeat constructor.
  - unfold bind_Close. destruct (b_open b) eqn:Hopen; simpl; [|done].
    destruct Hwf as [Ho Hs Hc Hold Hq Hf]. split; simpl; try done; try apply wf_empty.
    + intros ch c Hch _. destruct (b_closed b) as [ch0|] eqn:Hb.
      * destruct (b_chans b !! ch0) as [c0|] eqn:Hc0; [|apply (Hold ch c Hch); congruence].
        apply list_lookup_insert_Some in Hch as [(<- & <- & _)|[Hne Hch]]; [done|].
        apply (Hold ch c Hch). congruence.
      * apply (Hold ch c Hch). congruence.
    + destruct (b_closed b) as [ch0|]; [|done]. destruct (b_chans b !! ch0) as [c0|] eqn:Hc0; [|done].
      apply Forall_insert; [done|]. simpl. exact (Forall_lookup_1 _ _ _ _ Hq Hc0).
  - destruct path; simpl; by destruct Hwf; split.
  - unfold bind_RemovePath. case_bool_decide; simpl; [by destruct Hwf; split|done].
  - unfold inject_push. destruct (Push _ _ _ _) as [f res] eqn:Hp. simpl.
    destruct Hwf as [Ho Hs Hc Hold Hq Hf]. split; simpl; try done.
    pose proof (push_wf (b_fragments b) now src p Hf) as Hf'. rewrite Hp in Hf'. apply Hf'.
  - unfold inject_deliver in H. destruct (b_chans b !! ch) as [c|] eqn:Hc; [|done].
    destruct (zlen (ch_queue c) <? masqueCoreQueueSize) eqn:E; bool_to_prop;
      destruct (ch_closed c) eqn:Ecl, choice; simplify_eq; try done; rewrite <- Ecl; apply wf_set_queue; try done;
      rewrite zlen_app; change (zlen [pkt]) with 1; lia.
  - unfold receive in H. destruct (b_chans b !! ch) as [c|] eqn:Hc; [|done].
    destruct (ch_queue c) as [|p q] eqn:Eq; [destruct (ch_closed c); [destruct choice|]; by simplify_eq|].
    assert (Hw : wf_bind (with_chans b (<[ch := ChanPair q (ch_closed c)]> (b_chans b)))).
    { apply wf_set_queue; [done|done|]. pose proof (wb_queue _ Hwf) as Hq.
      eapply Forall_lookup_1 in Hq; [|exact Hc]. rewrite Eq, zlen_cons in Hq. lia. }
    destruct (ch_closed c) eqn:Ecl; [destruct choice|]; by simplify_eq.
Qed.

Lemma reachable_wf_bind local b : rtc bind_step (newMasqueBind local) b -> wf_bind b.
Proof.
  intros H. remember (newMasqueBind local) as b0 eqn:Hb0.
  assert (Hwf : wf_bind b0) by (subst; apply wf_newMasqueBind). clear Hb0.
  induction H; [done|]. eauto using bind_step_wf.
Qed.

Lemma chans_grow b b' : rtc bind_step b b' -> (length (b_chans b) <= length (b_chans b'))%nat.
Proof.
  induction 1 as [|b b1 b2 Hs _ IH]; [done|]. etrans; [|exact IH]. clear IH.
  destruct Hs as [b b' ch H|b|b peer path|b peer path|b now src p|b ch choice pkt b' e H|b ch choice lens ns ne b' r H].
  - unfold Open in H. destruct (b_open b); simplify_eq. simpl. rewrite length_app. lia.
  - unfold bind_Close. repeat case_match; simpl; rewrite ?length_insert; done.
  - by destruct path.
  - unfold bind_RemovePath. by case_bool_decide.
  - unfold inject_push. by destruct (Push _ _ _ _).
  - unfold inject_deliver in H. repeat case_match; simplify_eq; simpl; by rewrite ?length_insert.
  - unfold receive in H. repeat case_match; simplify_eq; simpl; by rewrite ?length_insert.
Qed.

(** The bind is consistent under any interleaving of [Open], [Close],
    path changes, receives and (split) injections: [open], [recv] and [closed]
    always agree, the current channel pair is open, every other pair is closed,
    no queue holds more than 512 packets, and the reassembler stays within its
    limits. *)
Theorem bind_invariant local b :
  rtc bind_step (newMasqueBind local) b ->
  (b_open b = true <-> is_Some (b_recv b)) /\ b_recv b = b_closed b /\
  (forall ch, b_recv b = Some ch -> exists q, b_chans b !! ch = Some (ChanPair q false)) /\
  (forall ch c, b_chans b !! ch = Some c -> b_recv b <> Some ch -> ch_closed c = true) /\
  Forall (fun c => zlen (ch_queue c) <= 512) (b_chans b) /\
  wf_reassembler (b_fragments b).
Proof. intros [Ho Hs Hc Hold Hq Hf]%reachable_wf_bind. by split_and!. Qed.

(** A packet whose injection was delayed across [Close] and a new [Open] never
    reaches the new receiver: the pair [Open] creates is a new one, and whatever
    is done with a pair captured before leaves the new queue alone. *)
Theorem stale_inject_never_reaches_new_bind local b0 ch0 b1 b2 ch b3 choice pkt b4 e :
  rtc bind_step (newMasqueBind local) b0 -> inject_snapshot b0 = Ok ch0 ->
  rtc bind_step b0 b1 -> Open b1 = (b2, Ok ch) -> rtc bind_step b2 b3 ->
  inject_deliver b3 ch0 choice pkt = Some (b4, e) ->
  b_chans b4 !! ch = b_chans b3 !! ch.
Proof.
  intros H0 Hsnap H1 Hopen H3 Hd.
  apply reachable_wf_bind in H0 as Hwf. unfold inject_snapshot in Hsnap.
  destruct (b_open b0); [|done]. simpl in Hsnap. destruct (b_recv b0) as [c0|] eqn:Hr; [|done].
  destruct (b_closed b0); [|done]. injection Hsnap as <-.
  destruct (wb_current _ Hwf _ Hr) as [q Hq]. apply lookup_lt_Some in Hq.
  apply chans_grow in H1. unfold Open in Hopen. destruct (b_open b1); [done|].
  injection Hopen as <- <-. assert (Hne : c0 <> length (b_chans b1)) by lia.
  unfold inject_deliver in Hd. repeat case_match; simplify_eq; simpl;
    by rewrite ?list_lookup_insert_ne.
Qed.
End executions.

(** * Properties *)

Section properties.
Context `{K : KeyOps} {KL : KeyLaws K}.

(** End to end through two binds.  One WireGuard packet of at most 64 KiB,
    sent on a registered path and not starting with the fragment magic, leaves as
    one or more datagrams; if all of them arrive at an open bind, in any order and
    within 30 seconds, the receiver's queue gets exactly the packet, once, with the
    sender's key as its source. *)
Theorem send_inject_roundtrip b path peer clock sq buf offset b' ch q t0 times l' :
  peer <> NodePublicZero -> b_paths b !! peer = Some path ->
  0 <= offset <= zlen buf ->
  let payload := drop (Z.to_nat offset) buf in
  zlen payload <= masqueWGFragmentMaxSize -> has_prefix masqueWGFragmentMagic payload = false ->
  let id := (nextMasqueWGFragmentID (clock 0%nat) sq).1 in
  l' ≡ₚ datagrams_of id payload -> length times = length l' ->
  Forall (fun t => t < t0 + masqueWGFragmentTTL /\ t0 <= t) times ->
  inject_snapshot b' = Ok ch -> b_chans b' !! ch = Some (ChanPair q false) ->
  zlen q < masqueCoreQueueSize ->
  sets (b_fragments b') !! (b_local b, id) = None ->
  sourceAssemblyCountLocked (sets (b_fragments b')) (b_local b) < masqueWGMaxAssembliesPerSource ->
  Z.of_nat (size (sets (b_fragments b'))) < masqueWGMaxAssemblies ->
  exists sq' b'',
    Send b clock (fun _ _ _ => None) sq [buf] (MasqueEP (Some (Endpoint peer))) offset
      = (Some (path, peer, datagrams_of id payload), sq', None) /\
    inject_all b' (b_local b) (zip times l') = Some b'' /\
    b_chans b'' !! ch = Some (ChanPair (q ++ [Inbound (b_local b) payload]) false).
Proof.
  intros Hpeer Hpath Hoff payload Hmax Hmagic id Hperm Hlen Htimes Hsnap Hch Hq Hnone Hsrcn Hsize.
  assert (Hid : 0 <= id < 2 ^ 64) by (apply Z.mod_pos_bound; lia).
  pose proof (datagrams_completed _ id (b_local b) payload t0 times l' Hid Hmax Hmagic Hperm Hlen
    Htimes Hnone Hsrcn Hsize) as Hc.
  destruct (inject_all_spec (b_local b) (zip times l') b' ch q Hsnap Hch) as (b'' & Hi & _ & Hq').
  { rewrite Hc. cbn. rewrite zlen_app. change (zlen [_]) with 1. lia. }
  rewrite Hc in Hq'. cbn in Hq'.
  assert (Hsend : exists sq', Send b clock (fun _ _ _ => None) sq [buf] (MasqueEP (Some (Endpoint peer))) offset
            = (Some (path, peer, datagrams_of id payload), sq', None)).
  { unfold Send. simpl. unfold IsZero. rewrite bool_decide_eq_false_2, Hpath by done.
    rewrite (proj2 (Z.ltb_ge _ _)), (proj2 (Z.ltb_ge _ _)) by lia. simpl. fold payload.
    unfold datagrams_of, id in *. destruct (zlen payload <=? _) eqn:E; bool_to_prop.
    - unfold fragmentMasqueWireGuardPacket. rewrite (proj2 (Z.leb_le _ _)) by done. simpl. eauto.
    - rewrite fragment_ok by lia. set (fs := fragments_of _ _) in *.
      assert (Hne : fs <> []).
      { intros Hnil. apply (f_equal length) in Hnil. unfold fs, fragments_of in Hnil.
        rewrite length_fmap, length_seq in Hnil. pose proof (chunk_count_bounds (zlen payload)).
        frag_consts. simpl in Hnil. lia. }
      destruct fs as [|f0 fs'] eqn:Hfs; [done|]. rewrite forward_all_ok, app_nil_r. eauto. }
  destruct Hsend as [sq' Hsend]. by exists sq', b''.
Qed.

Lemma parse_endpoint_key k : ParseEndpoint (KeyString k) = Ok (Endpoint k).
Proof.
  assert (Hk : KeyString k = nodePublicTextPrefix ++ Hex.EncodeToString (Raw k)) by apply key_string.
  unfold ParseEndpoint, Strings.TrimPrefix. rewrite Hk, cut_prefix_app. cbn [fst].
  unfold zlen. rewrite length_hex_encode, length_raw, hex_decode_encode, <- Hk, unmarshal_string. done.
Qed.

Lemma parse_endpoint_dst e : ParseEndpoint (DstToString e) = Ok e.
Proof.
  destruct e as [k]. rewrite <- parse_endpoint_key. unfold DstToString. simpl.
  assert (Hk : KeyString k = nodePublicTextPrefix ++ Hex.EncodeToString (Raw k)) by apply key_string.
  unfold ParseEndpoint, Strings.TrimPrefix. rewrite Hk, cut_prefix_app. cbn [fst].
  assert (Strings.CutPrefix (Hex.EncodeToString (Raw k)) nodePublicTextPrefix
          = (Hex.EncodeToString (Raw k), false)) as ->; [|done].
  unfold Strings.CutPrefix, Strings.HasPrefix.
  destruct (has_prefix _ _) eqn:E; [|done]. apply has_prefix_spec in E as [rest Hr].
  pose proof (hex_encode_digits (Raw k)) as Hd. rewrite Hr in Hd. by inversion Hd.
Qed.

(** Endpoint text round trip: the destination text of an endpoint, and the full
    textual node key, parse back to the same endpoint. *)
Theorem parse_endpoint_roundtrip e :
  ParseEndpoint (DstToString e) = Ok e /\ ParseEndpoint (KeyString (ep_peer e)) = Ok e.
Proof. destruct e. split; [apply parse_endpoint_dst|apply parse_endpoint_key]. Qed.
End properties.

(** The TUN hands gVisor exactly the IP packets WireGuard decrypted: when every
    buffer is longer than the offset, the injected packets are, in order, the
    buffers' contents from the offset on whose version nibble is 4 or 6, each under
    its protocol, and the count is their number. *)
Theorem tun_write_spec bufs offset written :
  0 <= offset -> Forall (fun buf => offset < zlen buf) bufs ->
  let version raw := match raw with [] => 0 | b0 :: _ => Z.shiftr (b2z b0) 4 end in
  let raws := (fun buf => drop (Z.to_nat offset) buf) <$> bufs in
  let ok := filter (fun raw => version raw = 4 \/ version raw = 6) raws in
  tun_Write bufs offset written =
  ((fun raw => (if version raw =? 4 then IPv4 else IPv6, raw)) <$> ok, written + zlen ok, None).
Proof.
  intros Hoff Hall version raws ok. unfold ok, raws. clear ok raws.
  revert written. induction Hall as [|buf bufs Hbuf _ IH]; intros written; simpl.
  { by rewrite Z.add_0_r. }
  rewrite (proj2 (Z.ltb_ge _ _)), (proj2 (Z.leb_gt _ _)) by lia. simpl.
  destruct (drop (Z.to_nat offset) buf) as [|b0 raw] eqn:Hraw.
  { exfalso. apply (f_equal length) in Hraw. rewrite length_drop in Hraw. unfold zlen in Hbuf. simpl in Hraw. lia. }
  rewrite filter_cons. simpl. destruct (Z.shiftr (b2z b0) 4 =? 4) eqn:E4; bool_to_prop.
  - rewrite IH, decide_True by auto. simpl. by rewrite E4, zlen_cons, Z.add_assoc.
  - destruct (Z.shiftr (b2z b0) 4 =? 6) eqn:E6; bool_to_prop.
    + rewrite IH, decide_True by auto. simpl. by rewrite (proj2 (Z.eqb_neq _ 4)), zlen_cons, Z.add_assoc by done.
    + rewrite IH, decide_False by naive_solver. done.
Qed.

(** * Witnesses *)

Import ToyKeys.

(** Peer 1 sends to peer 2, whose bind is open. *)
Definition sample_sender : masqueBind (K := toy) :=
  bind_SetPath (newMasqueBind (K := toy) (nkey 1)) (nkey 2) (Some 7%nat).
Definition sample_receiver : masqueBind (K := toy) := (Open (newMasqueBind (K := toy) (nkey 2))).1.
Definition sample_arrivals : list (list byte) := [sample_fragment 1; sample_fragment 2; sample_fragment 0].

Lemma send_inject_roundtrip_witness :
  exists sq' b'',
    Send sample_sender (fun _ => 100) (fun _ _ _ => None) 7 [sample_packet]
      (MasqueEP (Some (Endpoint (K := toy) (nkey 2)))) 0
      = (Some (7%nat, nkey 2, datagrams_of 108 sample_packet), sq', None) /\
    inject_all sample_receiver (nkey 1) (zip [5; 6; 7] sample_arrivals) = Some b'' /\
    b_chans b'' !! 0%nat = Some (ChanPair ([] ++ [Inbound (K := toy) (nkey 1) sample_packet]) false).
Proof.
  apply (send_inject_roundtrip (K := toy) sample_sender 7 (nkey 2) (fun _ => 100) 7 sample_packet 0
    sample_receiver 0 [] 5 [5; 6; 7] sample_arrivals); by_evaluation || vm_reflexivity.
Defined.

Lemma sample_receiver_reachable : rtc bind_step (newMasqueBind (K := toy) (nkey 2)) sample_receiver.
Proof.
  eapply rtc_l; [apply (bs_open _ _ 0); reflexivity|]. apply rtc_refl.
Qed.

Lemma bind_invariant_witness :
  (b_open sample_receiver = true <-> is_Some (b_recv sample_receiver)) /\
  b_recv sample_receiver = b_closed sample_receiver /\
  (forall ch, b_recv sample_receiver = Some ch -> exists q, b_chans sample_receiver !! ch = Some (ChanPair q false)) /\
  (forall ch c, b_chans sample_receiver !! ch = Some c -> b_recv sample_receiver <> Some ch -> ch_closed c = true) /\
  Forall (fun c => zlen (ch_queue c) <= 512) (b_chans sample_receiver) /\
  wf_reassembler (b_fragments sample_receiver).
Proof. apply (bind_invariant (nkey 2 : NodePublic (KeyOps := toy))), sample_receiver_reachable. Defined.

Definition sample_reopened : masqueBind (K := toy) := (Open (bind_Close sample_receiver)).1.
Lemma stale_inject_never_reaches_new_bind_witness :
  b_chans sample_reopened !! 1%nat = b_chans sample_reopened !! 1%nat.
Proof.
  apply (stale_inject_never_reaches_new_bind (nkey 2 : NodePublic (KeyOps := toy)) sample_receiver 0
    (bind_Close sample_receiver) sample_reopened 1 sample_reopened PreferClosed
    (Inbound (K := toy) (nkey 1) []) sample_reopened (Some NetErrClosed)).
  - apply sample_receiver_reachable.
  - reflexivity.
  - eapply rtc_l; [apply bs_close|apply rtc_refl].
  - reflexivity.
  - apply rtc_refl.
  - reflexivity.
Defined.

Lemma tun_write_spec_witness :
  tun_Write [[x00; x45; x01]; [x00; x60]; [x00; x10]] 1 0 = ([(IPv4, [x45; x01]); (IPv6, [x60])], 2, None).
Proof.
  apply (tun_write_spec [[x00; x45; x01]; [x00; x60]; [x00; x10]] 1 0); by_evaluation.
Defined.

Lemma parse_endpoint_roundtrip_witness :
  ParseEndpoint (K := toy) (DstToString (Endpoint (K := toy) (nkey 3))) = Ok (Endpoint (K := toy) (nkey 3)).
Proof. apply (parse_endpoint_roundtrip (K := toy) (KL := toy_laws)). Defined.
