(* ===== verification/Core.v ===== *)
(** Core: WireGuard peers, access control and TCP forwarding.

    Models [masqueCore] of src/masquecat_core.go: the peers admitted to the
    WireGuard device, their paths, the server's allowlist, the TCP forwarding
    decision, dialling through the NAT64 prefix and address resolution; and the
    address plan of src/tailcat.go.  wireguard-go and gVisor are third-party code:
    [IpcSet]'s result and the stack's answers are arguments, and [c_ipc] logs the
    configurations the device accepted. *)

From S2P Require Import Prelude GoStd Keys Packet Fragment Bind.
From Stdlib Require Import Strings.Byte.

(** * net/netip *)

Module Netip.
(** An address: the zero value, 4 bytes, or 16 bytes with a zone. *)
Inductive Addr : Type :=
  | AddrZero
  | A4 (b : list byte)
  | A6 (b : list byte) (zone : gostring).

#[global] Instance addr_eq_dec : EqDecision Addr.
Proof. solve_decision. Defined.

Definition Is4 (a : Addr) : bool := match a with A4 _ => true | _ => false end.
Definition Is6 (a : Addr) : bool := match a with A6 _ _ => true | _ => false end.
Definition mapped_prefix : list byte := replicate 10 x00 ++ [xff; xff].
Definition Is4In6 (a : Addr) : bool :=
  match a with A6 b _ => has_prefix mapped_prefix b | _ => false end.
Definition Unmap (a : Addr) : Addr :=
  match a with A6 b _ => if Is4In6 a then A4 (drop 12 b) else a | _ => a end.
Definition As16 (a : Addr) : list byte :=
  match a with AddrZero => replicate 16 x00 | A4 b => mapped_prefix ++ b | A6 b _ => b end.
Definition AsSlice (a : Addr) : list byte :=
  match a with AddrZero => [] | A4 b => b | A6 b _ => b end.
Definition AddrFromSlice (b : list byte) : option Addr :=
  if zlen b =? 4 then Some (A4 b) else if zlen b =? 16 then Some (A6 b []) else None.
Definition BitLen (a : Addr) : Z := match a with AddrZero => 0 | A4 _ => 32 | A6 _ _ => 128 end.

(** A prefix whose length is a multiple of 8, over a 16-byte address. *)
Record Prefix6 : Type := MkPrefix6 { pfx_bytes : list byte }.
Definition Contains (p : Prefix6) (a : Addr) : bool :=
  match a with A6 b zone => bool_decide (zone = []) && has_prefix (pfx_bytes p) b | _ => false end.
End Netip.
Import Netip.

(** src/tailcat.go:1867-1867 [nat64Prefix]: 64:ff9b::/96 *)
Definition nat64Prefix : Prefix6 := MkPrefix6 ([x00; x64; xff; x9b] ++ replicate 8 x00).
(** src/tailcat.go:1868-1868 [nat64PrefixBytes] *)
Definition nat64PrefixBytes : list byte := pfx_bytes nat64Prefix ++ replicate 4 x00.

(** src/masquecat_core.go:49-49 [masqueCorePingAddr] *)
Definition masqueCorePingAddr : Addr :=
  A6 [xfd; x00; x74; x61; x69; x6c; x63; x61; x74; x00; x70; x69; x6e; x67; x00; x01] [].
Definition masqueCorePingPort : Z := 65535.

(** [filter.PortRange]: inclusive bounds. *)
Record PortRange : Type := MkPortRange { pr_first : Z; pr_last : Z }.
Definition port_contains (pr : PortRange) (port : Z) : bool :=
  (pr_first pr <=? port) && (port <=? pr_last pr).

Section core.
Context `{K : KeyOps}.

(** src/tailcat.go:1433-1446 [tcAddrForKey] *)
Definition tcAddrForKey (k : NodePublic) : Addr :=
  A6 ([xfd; x7a; x11; x5c; xa1; xe0] ++ take 10 (Raw k)) [].

(** A WireGuard configuration request: add or replace a peer, or remove it. *)
Inductive ipc_op : Type :=
  | IpcPeer (peer : NodePublic) (allowed : option Addr)   (* [None]: ::/0 *)
  | IpcRemove (peer : NodePublic).

(** src/masquecat_core.go:489-489 [nodePublicHex] *)
Definition nodePublicHex (k : NodePublic) : gostring := Hex.EncodeToString (Raw k).

(** The allowlist and handlers of a core; a [gmap] to unit is a Go map to true. *)
Record masqueCore : Type := Core {
  c_pub : NodePublic;
  c_isServer : bool;
  c_allowed : option (gmap NodePublic unit);
  c_served : option (list PortRange);
  c_peers : gmap NodePublic unit;
  c_bind : masqueBind;
  c_ipc : list ipc_op;
}.

(** src/masquecat_core.go:347-353 [masqueCoreOptions] *)
Record masqueCoreOptions : Type := CoreOptions {
  o_IsServer : bool;
  o_AllowedClients : list NodePublic;
  o_ServedTCPPorts : option (list PortRange);
}.

(** src/masquecat_core.go:355-467 [newMasqueCore], the state it builds; [setup] is
    the error of the gVisor and WireGuard calls, if one fails. *)
Definition newMasqueCore (priv : NodePrivate) (opts : masqueCoreOptions) (setup : option gerror)
    : result masqueCore :=
  guard! negb (PrivIsZero priv) or ErrNew "masquecat: zero WireGuard private key" in
  let pub := Public priv in
  match setup with
  | Some e => Err e
  | None =>
      Ok (Core pub (o_IsServer opts)
            (match o_AllowedClients opts with
             | [] => None
             | ks => Some (list_to_map ((fun k => (k, tt)) <$> ks))
             end)
            (o_ServedTCPPorts opts) ∅ (newMasqueBind pub) [])
  end.

Definition with_bind (c : masqueCore) (b : masqueBind) : masqueCore :=
  Core (c_pub c) (c_isServer c) (c_allowed c) (c_served c) (c_peers c) b (c_ipc c).
Definition with_peers (c : masqueCore) (m : gmap NodePublic unit) (op : ipc_op) : masqueCore :=
  Core (c_pub c) (c_isServer c) (c_allowed c) (c_served c) m (c_bind c) (c_ipc c ++ [op]).

(** src/masquecat_core.go:471-475 [masqueCore.peerAllowed] *)
Definition peerAllowed (c : masqueCore) (peer : NodePublic) : bool :=
  negb (c_isServer c) ||
  match c_allowed c with None => true | Some m => bool_decide (is_Some (m !! peer)) end.

(** src/masquecat_core.go:480-487 [masqueCore.AddAllowedClient] *)
Definition AddAllowedClient (c : masqueCore) (peer : NodePublic) : masqueCore :=
  Core (c_pub c) (c_isServer c) (Some (<[peer := tt]> (default ∅ (c_allowed c)))) (c_served c)
    (c_peers c) (c_bind c) (c_ipc c).

(** src/masquecat_core.go:494-515 [masqueCore.addPeerLocked]; [ipc] is the result
    of [IpcSet] *)
Definition addPeerLocked (c : masqueCore) (ipc : option gerror) (peer : NodePublic)
    : masqueCore * option gerror :=
  if bool_decide (is_Some (c_peers c !! peer)) then (c, None)
  else if negb (peerAllowed c peer) then (c, Some (ErrNew "masquecat: peer %v is not allowed"))
  else
    let allowed := if negb (c_isServer c) then None else Some (tcAddrForKey peer) in
    match ipc with
    | Some e => (c, Some (ErrWrap "masquecat: configure WireGuard peer %v: %w" e))
    | None => (with_peers c (<[peer := tt]> (c_peers c)) (IpcPeer peer allowed), None)
    end.

(** src/masquecat_core.go:517-524 [masqueCore.AddPeer] *)
Definition AddPeer (c : masqueCore) (ipc : option gerror) (peer : NodePublic)
    : masqueCore * option gerror :=
  if IsZero peer then (c, Some (ErrNew "masquecat: zero peer key")) else addPeerLocked c ipc peer.

(** src/masquecat_core.go:526-537 [masqueCore.SetPath] *)
Definition SetPath (c : masqueCore) (ipc : option gerror) (peer : NodePublic) (path : nat)
    : masqueCore * option gerror :=
  if IsZero peer then (c, Some (ErrNew "masquecat: zero peer key"))
  else
    match addPeerLocked c ipc peer with
    | (c, Some e) => (c, Some e)
    | (c, None) => (with_bind c (bind_SetPath (c_bind c) peer (Some path)), None)
    end.

(** src/masquecat_core.go:539-551 [masqueCore.RemovePath] *)
Definition RemovePath (c : masqueCore) (ipc : option gerror) (peer : NodePublic) (path : nat)
    : masqueCore :=
  let '(b, removed) := bind_RemovePath (c_bind c) peer path in
  let c := with_bind c b in
  if negb removed || negb (bool_decide (is_Some (c_peers c !! peer))) then c
  else
    match ipc with
    | Some _ => c
    | None => with_peers c (delete peer (c_peers c)) (IpcRemove peer)
    end.

(** src/masquecat_core.go:553-558 [masqueCore.Inject], run without interruption *)
Definition core_Inject (c : masqueCore) (ipc : option gerror) (now : Z) (choice : select_choice)
    (src : NodePublic) (payload : list byte) : option (masqueCore * option gerror) :=
  match AddPeer c ipc src with
  | (c, Some e) => Some (c, Some e)
  | (c, None) =>
      match bind_Inject (c_bind c) now choice src payload with
      | None => None
      | Some (b, r) => Some (with_bind c b, r)
      end
  end.

(** src/masquecat_core.go:560-570 [masqueCore.localPortAllowed] *)
Definition localPortAllowed (c : masqueCore) (port : Z) : bool :=
  match c_served c with
  | None => true
  | Some prs => existsb (fun pr => port_contains pr port) prs
  end.

(** What becomes of an incoming TCP connection. *)
Inductive tcp_action (H : Type) : Type :=
  | TCPReset                        (* refused with a reset *)
  | TCPPing                         (* accepted and closed at once *)
  | TCPServe (h : H).               (* accepted and handed to [h] *)
#[global] Arguments TCPReset {H}.
#[global] Arguments TCPPing {H}.
#[global] Arguments TCPServe {H} _.

(** src/masquecat_core.go:572-611 [masqueCore.handleTCPForward]; [created] tells
    whether [CreateEndpoint] succeeds. *)
Definition handleTCPForward {H} (c : masqueCore) (onTCP : option (Z -> option H))
    (onTCPForward : option (Addr * Z -> option H)) (created : bool)
    (localAddress : list byte) (localPort : Z) : tcp_action H :=
  match AddrFromSlice localAddress with
  | None => TCPReset
  | Some dstAddr =>
      let dst := Unmap dstAddr in
      let handler :=
        if bool_decide (dst = masqueCorePingAddr) && (localPort =? masqueCorePingPort) then TCPPing
        else if bool_decide (dst = tcAddrForKey (c_pub c)) then
          match onTCP with
          | Some f =>
              if localPortAllowed c localPort
              then match f localPort with Some h => TCPServe h | None => TCPReset end
              else TCPReset
          | None => TCPReset
          end
        else
          match onTCPForward with
          | Some f =>
              let dst := if Contains nat64Prefix dst then A4 (take 4 (drop 12 (As16 dst))) else dst in
              match f (dst, localPort) with Some h => TCPServe h | None => TCPReset end
          | None => TCPReset
          end in
      match handler with
      | TCPReset => TCPReset
      | h => if created then h else TCPReset
      end
  end.

(** src/masquecat_core.go:613-629 [masqueCore.DialTCP]: the address, port and
    protocol given to gVisor. *)
Definition DialTCP (dst : Addr) (port : Z) : list byte * Z * ip_proto :=
  let dst := match dst with A4 a4 => A6 (take 12 nat64PrefixBytes ++ a4) [] | _ => dst end in
  let proto := if Is4 dst then IPv4 else IPv6 in
  (AsSlice dst, port, proto).

Inductive network : Type := tcp | tcp4 | tcp6.
#[global] Instance network_eq_dec : EqDecision network.
Proof. solve_decision. Defined.

(** src/masquecat_core.go:650-664 [resolveMasqueTCPAddrs], the filter over the
    resolved addresses *)
Fixpoint filter_ips (n : network) (ips : list Addr) : list Addr :=
  match ips with
  | [] => []
  | ip :: rest =>
      let ip := Unmap ip in
      match n with
      | tcp4 => if negb (Is4 ip) then filter_ips n rest else ip :: filter_ips n rest
      | tcp6 => if negb (Is6 ip) || Is4 ip then filter_ips n rest else ip :: filter_ips n rest
      | tcp => ip :: filter_ips n rest
      end
  end.

(** src/masquecat_core.go:631-669 [resolveMasqueTCPAddrs]; [ParseAddr] is
    netip's parser and [LookupNetIP] the resolver. *)
Definition resolveMasqueTCPAddrs (ParseAddr : gostring -> option Addr)
    (LookupNetIP : gostring -> result (list Addr)) (n : network) (host : gostring)
    : result (list Addr) :=
  match ParseAddr host with
  | Some ip =>
      match n with
      | tcp4 => guard! Is4 ip or ErrNew "masquecat: %q is not an IPv4 address" in Ok [Unmap ip]
      | tcp6 => guard! negb (negb (Is6 ip) || Is4In6 ip)
                  or ErrNew "masquecat: %q is not an IPv6 address" in Ok [Unmap ip]
      | tcp => Ok [Unmap ip]
      end
  | None =>
      match LookupNetIP host with
      | Err e => Err (ErrWrap "masquecat: resolve %q: %w" e)
      | Ok ips =>
          match filter_ips n ips with
          | [] => Err (ErrNew "masquecat: no addresses for %q match network %q")
          | out => Ok out
          end
      end
  end.

(** src/masquecat_core.go:692-703 [masqueCore.Dial], the loop over the addresses:
    [dial i ip] is the [i]-th attempt and [ctx i] the context's error after it. *)
Fixpoint dial_loop {C} (dial : nat -> Addr -> result C) (ctx : nat -> bool) (i : nat)
    (ips : list Addr) (errs : list gerror) : result C :=
  match ips with
  | [] => Err (ErrWrap "masquecat: dial %s: %w" (ErrJoin errs))
  | ip :: rest =>
      match dial i ip with
      | Ok conn => Ok conn
      | Err e =>
          let errs := errs ++ [ErrWrap "%s: %w" e] in
          if ctx i then Err (ErrWrap "masquecat: dial %s: %w" (ErrJoin errs))
          else dial_loop dial ctx (S i) rest errs
      end
  end.

Definition parse_network (s : gostring) : option network :=
  if bool_decide (s = B "tcp") then Some tcp
  else if bool_decide (s = B "tcp4") then Some tcp4
  else if bool_decide (s = B "tcp6") then Some tcp6 else None.

(** src/masquecat_core.go:671-704 [masqueCore.Dial] *)
Definition Dial {C} (ParseAddr : gostring -> option Addr) (LookupNetIP : gostring -> result (list Addr))
    (LookupPort : gostring -> result Z) (dialTCP : nat -> Addr * Z -> result C) (ctx : nat -> bool)
    (n addr : gostring) : result C :=
  match parse_network n with
  | None => Err (ErrNew "masquecat: network %q is not supported; only TCP is available")
  | Some n =>
      let? (host, portText) := Net.SplitHostPort addr in
      let? port := LookupPort portText in
      guard! negb ((port <? 0) || (65535 <? port)) or ErrNew "masquecat: invalid TCP port %d" in
      let? ips := resolveMasqueTCPAddrs ParseAddr LookupNetIP n host in
      dial_loop (fun i ip => dialTCP i (ip, u16 port)) ctx 0 ips []
  end.

(** gVisor's TCP endpoint states. *)
Inductive EndpointState : Type :=
  | StateInitial | StateBound | StateListen | StateConnecting | StateClose | StateError
  | StateEstablished | StateSynSent | StateSynRecv | StateFinWait1 | StateFinWait2
  | StateTimeWait | StateCloseWait | StateLastAck | StateClosing.

(** src/masquecat_core.go:716-733 [masqueTCPStateNeedsDrain] *)
Definition masqueTCPStateNeedsDrain (s : EndpointState) : bool :=
  match s with
  | StateConnecting | StateSynSent | StateSynRecv | StateEstablished | StateFinWait1
  | StateFinWait2 | StateClosing | StateCloseWait | StateLastAck => true
  | _ => false
  end.

(** src/masquecat_core.go:735-754 [masqueCore.DrainTCP]: over the states of the
    registered endpoints ([None]: an endpoint without a state) at each poll; the
    context's error ends it ([Some e] before the next poll).  The result and the
    number of polls; [None] while it still waits. *)
Fixpoint DrainTCP (polls : list (list (option EndpointState) * option gerror)) (n : nat)
    : option (option gerror * nat) :=
  match polls with
  | [] => None
  | (eps, done_) :: rest =>
      let active := existsb (fun s => match s with Some s => masqueTCPStateNeedsDrain s | None => false end) eps in
      if negb active then Some (None, S n)
      else match done_ with Some e => Some (Some e, S n) | None => DrainTCP rest (S n) end
  end.

(** src/masquecat_core.go:756-784 [masqueCore.Status]: the peers shown, each with
    its address. *)
Definition Status (c : masqueCore) : gmap NodePublic Addr :=
  map_imap (fun k _ => Some (tcAddrForKey k)) (c_peers c).
End core.

(** * Runs of a core *)

Section runs.
Context `{K : KeyOps}.

(** The calls that change a core, each with the results of the WireGuard device. *)
Inductive core_op : Type :=
  | OpAllow (peer : NodePublic)
  | OpAddPeer (ipc : option gerror) (peer : NodePublic)
  | OpSetPath (ipc : option gerror) (peer : NodePublic) (path : nat)
  | OpRemovePath (ipc : option gerror) (peer : NodePublic) (path : nat)
  | OpInject (ipc : option gerror) (now : Z) (choice : select_choice) (src : NodePublic) (payload : list byte)
  | OpOpen
  | OpClose.

Definition core_exec (c : masqueCore) (op : core_op) : option masqueCore :=
  match op with
  | OpAllow k => Some (AddAllowedClient c k)
  | OpAddPeer ipc k => Some (AddPeer c ipc k).1
  | OpSetPath ipc k path => Some (SetPath c ipc k path).1
  | OpRemovePath ipc k path => Some (RemovePath c ipc k path)
  | OpInject ipc now choice src payload => fst <$> core_Inject c ipc now choice src payload
  | OpOpen => Some (with_bind c (Open (c_bind c)).1)
  | OpClose => Some (with_bind c (bind_Close (c_bind c)))
  end.

Fixpoint core_run (c : masqueCore) (ops : list core_op) : option masqueCore :=
  match ops with
  | [] => Some c
  | op :: ops => match core_exec c op with Some c => core_run c ops | None => None end
  end.

(** The peers the WireGuard device has after a log of accepted configurations. *)
Definition device_apply (m : gmap NodePublic (option Addr)) (op : ipc_op) : gmap NodePublic (option Addr) :=
  match op with
  | IpcPeer k a => <[k := a]> m
  | IpcRemove k => delete k m
  end.
Definition device (log : list ipc_op) : gmap NodePublic (option Addr) := fold_left device_apply log ∅.

(** What a core of this role lets a peer send from. *)
Definition allowed_ip (c : masqueCore) (k : NodePublic) : option Addr :=
  if c_isServer c then Some (tcAddrForKey k) else None.

Record wf_core (c : masqueCore) : Prop := {
  wf_device k : device (c_ipc c) !! k = (fun _ => allowed_ip c k) <$> c_peers c !! k;
  wf_paths k : is_Some (b_paths (c_bind c) !! k) -> is_Some (c_peers c !! k);
  wf_nonzero k : is_Some (c_peers c !! k) -> IsZero k = false;
}.

Lemma device_snoc log op : device (log ++ [op]) = device_apply (device log) op.
Proof. unfold device. by rewrite fold_left_app. Qed.

(** Changing the bind without a new path keeps the invariant. *)
Lemma wf_with_bind c b :
  wf_core c -> (forall k, is_Some (b_paths b !! k) -> is_Some (c_peers c !! k)) -> wf_core (with_bind c b).
Proof. intros [H1 H2 H3] Hb. by constructor. Qed.

(** [addPeerLocked] succeeds exactly on known or admissible peers. *)
Lemma addPeerLocked_inv c ipc k c' e :
  addPeerLocked c ipc k = (c', e) ->
  (c' = c /\ (is_Some (c_peers c !! k) <-> e = None)) \/
  (c_peers c !! k = None /\ peerAllowed c k = true /\ e = None /\
   c' = with_peers c (<[k := tt]> (c_peers c)) (IpcPeer k (allowed_ip c k))).
Proof.
  unfold addPeerLocked, allowed_ip. case_bool_decide as Hk.
  { intros [= <- <-]. left. done. }
  apply eq_None_not_Some in Hk. destruct (peerAllowed c k) eqn:Ha; simpl.
  - destruct ipc; intros [= <- <-].
    + left. rewrite Hk. split; [done|]. split; [by intros []|done].
    + right. destruct (c_isServer c); done.
  - intros [= <- <-]. left. rewrite Hk. split; [done|]. split; [by intros []|done].
Qed.

Lemma wf_add c ipc k c' e : IsZero k = false -> wf_core c -> addPeerLocked c ipc k = (c', e) -> wf_core c'.
Proof.
  intros Hz Hwf [[-> _]|(Hk & _ & _ & ->)]%addPeerLocked_inv; [done|]. destruct Hwf as [H1 H2 H3].
  constructor; simpl; intros k'.
  - rewrite device_snoc; simpl. destruct (decide (k' = k)) as [->|].
    + by rewrite !lookup_insert_eq.
    + rewrite !lookup_insert_ne; [apply H1|done|done].
  - intros [p Hp]. destruct (decide (k' = k)) as [->|]; [by rewrite lookup_insert_eq|].
    rewrite lookup_insert_ne; eauto.
  - destruct (decide (k' = k)) as [->|]; [done|]. rewrite lookup_insert_ne; auto.
Qed.

Lemma bind_Inject_paths b now choice src payload b' e :
  bind_Inject b now choice src payload = Some (b', e) -> b_paths b' = b_paths b.
Proof.
  unfold bind_Inject. destruct (inject_snapshot b); [|by intros [= <- <-]].
  destruct (inject_push b now src payload) as [b1 o] eqn:Hp.
  assert (b_paths b1 = b_paths b) as <-.
  { unfold inject_push in Hp. destruct Push. by injection Hp as <- _. }
  destruct o; [|by intros [= <- <-]]. unfold inject_deliver.
  destruct (b_chans b1 !! _) as [c|]; [|done]. repeat case_match; intros [= <- <-]; done.
Qed.

(** [RemovePath] drops the path and its peer, or changes nothing of either. *)
Lemma RemovePath_inv c ipc k path :
  RemovePath c ipc k path = c \/
  b_paths (c_bind c) !! k = Some path /\
  (RemovePath c ipc k path = with_bind c (with_paths (c_bind c) (delete k (b_paths (c_bind c)))) \/
   RemovePath c ipc k path =
     with_peers (with_bind c (with_paths (c_bind c) (delete k (b_paths (c_bind c)))))
       (delete k (c_peers c)) (IpcRemove k)).
Proof.
  unfold RemovePath, bind_RemovePath. case_bool_decide as Hp; simpl; [|left; by destruct c].
  right. split; [done|]. case_bool_decide; simpl; [|by left]. destruct ipc; [by left|by right].
Qed.

(** What [addPeerLocked] does to one peer and to the allowlist. *)
Lemma addPeerLocked_admits c k ipc k0 c1 e :
  addPeerLocked c ipc k0 = (c1, e) ->
  (c_peers c !! k = None -> is_Some (c_peers c1 !! k) -> peerAllowed c k = true) /\
  (is_Some (c_peers c !! k) -> is_Some (c_peers c1 !! k)) /\
  peerAllowed c1 k = peerAllowed c k.
Proof.
  intros [[-> _]|(Hk & Ha & _ & ->)]%addPeerLocked_inv; simpl.
  { split; [by intros -> []|done]. }
  destruct (decide (k = k0)) as [->|].
  - rewrite lookup_insert_eq. done.
  - rewrite lookup_insert_ne by done. split; [by intros -> []|done].
Qed.

(** The paths after each call. *)
Lemma addPeerLocked_paths c ipc k c' e : addPeerLocked c ipc k = (c', e) -> c_bind c' = c_bind c.
Proof. by intros [[-> _]|(_ & _ & _ & ->)]%addPeerLocked_inv. Qed.

Lemma SetPath_paths c ipc k p c' e :
  SetPath c ipc k p = (c', e) ->
  b_paths (c_bind c') = match e with None => <[k := p]> (b_paths (c_bind c)) | Some _ => b_paths (c_bind c) end.
Proof.
  unfold SetPath. destruct (IsZero k); [by intros [= <- <-]|].
  destruct (addPeerLocked c ipc k) as [c1 [e1|]] eqn:Ha; intros [= <- <-]; simpl;
    by rewrite (addPeerLocked_paths _ _ _ _ _ Ha).
Qed.

Lemma core_Inject_paths c ipc now choice src payload c' e :
  core_Inject c ipc now choice src payload = Some (c', e) -> b_paths (c_bind c') = b_paths (c_bind c).
Proof.
  unfold core_Inject, AddPeer. destruct (IsZero src); [by intros [= <- <-]|].
  destruct (addPeerLocked c ipc src) as [c1 [e1|]] eqn:Ha; pose proof (addPeerLocked_paths _ _ _ _ _ Ha) as <-;
    [by intros [= <- <-]|].
  destruct (bind_Inject _ _ _ _ _) as [[b r]|] eqn:Hi; [|done]. intros [= <- <-].
  by apply bind_Inject_paths in Hi.
Qed.

Lemma RemovePath_paths c ipc k p :
  b_paths (c_bind (RemovePath c ipc k p)) =
    if bool_decide (b_paths (c_bind c) !! k = Some p) then delete k (b_paths (c_bind c)) else b_paths (c_bind c).
Proof.
  unfold RemovePath, bind_RemovePath. case_bool_decide; simpl; [|done].
  case_bool_decide; simpl; [|done]. by destruct ipc.
Qed.

Lemma wf_remove c ipc k path : wf_core c -> wf_core (RemovePath c ipc k path).
Proof.
  intros Hwf. pose proof Hwf as [H1 H2 H3].
  assert (forall k', is_Some (delete k (b_paths (c_bind c)) !! k') -> k' <> k /\ is_Some (c_peers c !! k')) as Hd.
  { intros k' [p [? ?]%lookup_delete_Some]. eauto. }
  destruct (RemovePath_inv c ipc k path) as [->|[_ [->| ->]]]; [done| |].
  - apply wf_with_bind; [done|]. intros k' ?. by apply Hd.
  - constructor; simpl; intros k'.
    + rewrite device_snoc; simpl. destruct (decide (k' = k)) as [->|].
      * by rewrite !lookup_delete_eq.
      * rewrite !lookup_delete_ne; [apply H1|done|done].
    + intros [Hne [u Hu]]%Hd. exists u. by apply lookup_delete_Some.
    + intros [u [? ?]%lookup_delete_Some]. eauto.
Qed.

Lemma wf_exec c op c' : wf_core c -> core_exec c op = Some c' -> wf_core c'.
Proof.
  intros Hwf. pose proof Hwf as [H1 H2 H3]. destruct op as [k|ipc k|ipc k p|ipc k p|ipc now ch src pl| |]; simpl.
  - intros [= <-]. by constructor.
  - intros [= <-]. unfold AddPeer. destruct (IsZero k) eqn:Hz; [done|].
    destruct (addPeerLocked c ipc k) eqn:Ha. eapply wf_add; eauto.
  - intros [= <-]. unfold SetPath. destruct (IsZero k) eqn:Hz; [done|].
    destruct (addPeerLocked c ipc k) as [c1 [e|]] eqn:Ha; pose proof (wf_add _ _ _ _ _ Hz Hwf Ha) as Hw1; [done|].
    apply wf_with_bind; [done|]. intros k'; simpl. destruct (decide (k' = k)) as [->|].
    + intros _. apply addPeerLocked_inv in Ha as [[-> [_ Hs]]|(_ & _ & _ & ->)]; [by apply Hs|].
      simpl. by rewrite lookup_insert_eq.
    + rewrite lookup_insert_ne; [|done]. apply Hw1.
  - intros [= <-]. by apply wf_remove.
  - unfold core_Inject, AddPeer. destruct (IsZero src) eqn:Hz; [by intros [= <-]|].
    destruct (addPeerLocked c ipc src) as [c1 [e|]] eqn:Ha; pose proof (wf_add _ _ _ _ _ Hz Hwf Ha) as Hw1;
      [by intros [= <-]|].
    destruct (bind_Inject (c_bind c1) now ch src pl) as [[b r]|] eqn:Hi; [|done]. intros [= <-].
    apply wf_with_bind; [done|]. rewrite (bind_Inject_paths _ _ _ _ _ _ _ Hi). apply Hw1.
  - intros [= <-]. apply wf_with_bind; [done|]. unfold Open. by destruct (b_open _).
  - intros [= <-]. apply wf_with_bind; [done|]. unfold bind_Close. by destruct (b_open _).
Qed.

Lemma wf_run ops c c' : wf_core c -> core_run c ops = Some c' -> wf_core c'.
Proof.
  revert c. induction ops as [|op ops IH]; intros c Hwf; simpl; [by intros [= <-]|].
  destruct (core_exec c op) as [c1|] eqn:He; [|done]. eapply IH, wf_exec; eauto.
Qed.

Lemma exec_config c op c' :
  core_exec c op = Some c' -> c_isServer c' = c_isServer c /\ c_pub c' = c_pub c /\ c_served c' = c_served c.
Proof.
  assert (forall ipc k c' e, addPeerLocked c ipc k = (c', e) ->
            c_isServer c' = c_isServer c /\ c_pub c' = c_pub c /\ c_served c' = c_served c) as Hadd.
  { intros ipc k c1 e [[-> _]|(_ & _ & _ & ->)]%addPeerLocked_inv; done. }
  destruct op as [k|ipc k|ipc k p|ipc k p|ipc now ch src pl| |]; simpl; try by intros [= <-].
  - unfold AddPeer. destruct (IsZero k); [by intros [= <-]|]. intros [= <-].
    destruct (addPeerLocked c ipc k) eqn:Ha. eauto.
  - unfold SetPath. destruct (IsZero k); [by intros [= <-]|]. intros [= <-].
    destruct (addPeerLocked c ipc k) as [c1 [e|]] eqn:Ha; simpl; eauto.
  - intros [= <-]. destruct (RemovePath_inv c ipc k p) as [->|[_ [->| ->]]]; done.
  - unfold core_Inject, AddPeer. destruct (IsZero src); [by intros [= <-]|].
    destruct (addPeerLocked c ipc src) as [c1 [e|]] eqn:Ha; [by intros [= <-]; eauto|].
    destruct bind_Inject as [[b r]|]; [|done]. intros [= <-]. simpl. eauto.
Qed.

Lemma run_config ops c c' :
  core_run c ops = Some c' -> c_isServer c' = c_isServer c /\ c_pub c' = c_pub c /\ c_served c' = c_served c.
Proof.
  revert c. induction ops as [|op ops IH]; intros c; simpl; [by intros [= <-]|].
  destruct (core_exec c op) as [c1|] eqn:He; [|done]. intros (-> & -> & ->)%IH. by eapply exec_config.
Qed.

Lemma wf_newcore priv opts setup c : newMasqueCore priv opts setup = Ok c -> wf_core c.
Proof.
  unfold newMasqueCore. destruct (PrivIsZero priv); [done|]. destruct setup; [done|]. intros [= <-].
  constructor; intros k; simpl; rewrite ?lookup_empty; [done|by intros []|by intros []].
Qed.
End runs.

(** * Properties *)

Section properties.
Context `{K : KeyOps} {KL : KeyLaws K}.


(** C14: a peer enters the core only while the allowlist admits it, and leaves it
    only when its current path is removed: a change of the allowlist never
    disconnects anybody.  The first addition to an empty allowlist of a server
    stops admitting everybody else. *)
Theorem allowlist_governs_admission c op c' k :
  core_exec c op = Some c' ->
  (c_peers c !! k = None -> is_Some (c_peers c' !! k) -> peerAllowed c k = true) /\
  (is_Some (c_peers c !! k) -> c_peers c' !! k = None ->
   exists path, op = OpRemovePath None k path /\ b_paths (c_bind c) !! k = Some path) /\
  peerAllowed c' k =
    match op with
    | OpAllow k0 =>
        negb (c_isServer c) || bool_decide (k = k0) ||
        match c_allowed c with None => false | Some m => bool_decide (is_Some (m !! k)) end
    | _ => peerAllowed c k
    end.
Proof.
  pose proof (addPeerLocked_admits c k) as Hadd.
  assert (forall c1 X, c_peers c1 = c_peers c -> X ->
            (c_peers c !! k = None -> is_Some (c_peers c1 !! k) -> peerAllowed c k = true) /\
            (is_Some (c_peers c !! k) -> c_peers c1 !! k = None ->
             exists path, op = OpRemovePath None k path /\ b_paths (c_bind c) !! k = Some path) /\ X) as Hsame.
  { intros c1 X -> HX. split_and!; [by intros -> []|by intros [? ->]|done]. }
  destruct op as [k0|ipc k0|ipc k0 p|ipc k0 p|ipc now ch src pl| |]; simpl.
  - intros [= <-]. apply Hsame; [done|]. unfold peerAllowed; simpl.
    destruct (c_isServer c); simpl; [|done]. destruct (decide (k = k0)) as [->|].
    + rewrite lookup_insert_eq. by rewrite !bool_decide_eq_true_2.
    + rewrite lookup_insert_ne by done. rewrite (bool_decide_eq_false_2 (k = k0)) by done.
      destruct (c_allowed c); simpl; [done|]. rewrite lookup_empty. by apply bool_decide_eq_false_2; intros [].
  - intros [= <-]. unfold AddPeer. destruct (IsZero k0).
    { by apply Hsame. }
    destruct (addPeerLocked c ipc k0) eqn:Ha. destruct (Hadd _ _ _ _ Ha) as (? & H2 & ?); simpl.
    split_and!; [done| |done]. by intros [? Hs]%H2 ?; simplify_eq.
  - intros [= <-]. unfold SetPath. destruct (IsZero k0).
    { by apply Hsame. }
    destruct (addPeerLocked c ipc k0) as [c1 [e|]] eqn:Ha; destruct (Hadd _ _ _ _ Ha) as (? & H2 & ?); simpl;
      (split_and!; [done| |done]; by intros [? Hs]%H2 ?; simplify_eq).
  - intros [= <-]. destruct (RemovePath_inv c ipc k0 p) as [->|[Hp [->|Hr]]].
    + by apply Hsame.
    + by apply Hsame.
    + rewrite Hr; simpl. split_and!; [intros H0 [u [_ Hu]%lookup_delete_Some]; congruence| |done].
      intros [u Hu] Hn. destruct (decide (k0 = k)) as [<-|].
      * exists p. split; [|done]. f_equal. destruct ipc; [|done]. exfalso.
        assert (c_peers (RemovePath c (Some g) k0 p) = c_peers c) as Hc.
        { unfold RemovePath. destruct bind_RemovePath. by case_match. }
        rewrite Hr in Hc. simpl in Hc. rewrite <- Hc, lookup_delete_eq in Hu. done.
      * rewrite lookup_delete_ne in Hn by done. congruence.
  - unfold core_Inject, AddPeer. destruct (IsZero src).
    { intros [= <-]. by apply Hsame. }
    destruct (addPeerLocked c ipc src) as [c1 [e|]] eqn:Ha; destruct (Hadd _ _ _ _ Ha) as (H1 & H2 & H3).
    { intros [= <-]. split_and!; [done| |done]. by intros [? Hs]%H2 ?; simplify_eq. }
    destruct bind_Inject as [[b r]|]; [|done]. intros [= <-]. simpl.
    split_and!; [done| |done]. by intros [? Hs]%H2 ?; simplify_eq.
  - intros [= <-]. by apply Hsame.
  - intros [= <-]. by apply Hsame.
Qed.

(** an exit peer hands each forwarded connection to [onTCPForward] with the
    address the client dialled: an IPv4 address survives the NAT64 prefix, a plain
    IPv6 address outside the prefix is untouched; neither reaches the local
    handler. *)
Theorem forward_sees_dialled_address {H} (c : masqueCore) onTCP (f : Addr * Z -> option H) dst port raw p proto :
  DialTCP dst port = (raw, p, proto) ->
  match dst with
  | A4 b => zlen b = 4
  | A6 b zone => zlen b = 16 /\ has_prefix mapped_prefix b = false /\ zone = [] /\
                 has_prefix (pfx_bytes nat64Prefix) b = false /\
                 dst <> tcAddrForKey (c_pub c) /\ dst <> masqueCorePingAddr
  | AddrZero => False
  end ->
  proto = IPv6 /\
  handleTCPForward c onTCP (Some f) true raw p =
    match f (dst, port) with Some h => TCPServe h | None => TCPReset end.
Proof.
  destruct dst as [|b|b zone]; [done| |]; intros [= <- <- <-].
  - intros Hb. split; [done|]. assert (length b = 4%nat) as Hl by (unfold zlen in Hb; lia).
    destruct b as [|b0 [|b1 [|b2 [|b3 []]]]]; try done.
    unfold handleTCPForward. simpl. repeat (case_bool_decide; [done|]; simpl).
    unfold Contains. simpl. repeat case_match; done.
  - intros (Hb & Hm & -> & Hn & Hown & Hping). split; [done|].
    assert (AddrFromSlice (AsSlice (A6 b [])) = Some (A6 b [])) as Hs.
    { unfold AddrFromSlice, AsSlice. by rewrite Hb. }
    assert (Unmap (A6 b []) = A6 b []) as Hu by (unfold Unmap, Is4In6; by rewrite Hm).
    assert (Contains nat64Prefix (A6 b []) = false) as Hc by (unfold Contains; by rewrite Hn, andb_false_r).
    unfold handleTCPForward. change (AsSlice _) with b in Hs. rewrite Hs. cbv zeta. rewrite Hu, Hc.
    rewrite (bool_decide_eq_false_2 _ Hping), (bool_decide_eq_false_2 _ Hown). by destruct (f _).
Qed.

(** a connection to the core's own address, on any port but a ping's, is served
    exactly when a local handler is installed, the port is within the served ports
    (any port when none are set) and the handler accepts it; it is never handed to
    [onTCPForward]. *)
Theorem local_port_gate {H} (c : masqueCore) (onTCP : option (Z -> option H)) onTCPForward port h :
  handleTCPForward c onTCP onTCPForward true (AsSlice (tcAddrForKey (c_pub c))) port = TCPServe h <->
  exists f, onTCP = Some f /\ f port = Some h /\
    match c_served c with
    | None => True
    | Some prs => exists pr, pr ∈ prs /\ pr_first pr <= port <= pr_last pr
    end.
Proof.
  assert (localPortAllowed c port = true <->
          match c_served c with
          | None => True
          | Some prs => exists pr, pr ∈ prs /\ pr_first pr <= port <= pr_last pr
          end) as Hlp.
  { unfold localPortAllowed. destruct (c_served c) as [prs|]; [|done]. rewrite existsb_exists.
    unfold port_contains. split.
    - intros (pr & Hin & [? ?]%andb_true_iff). exists pr. rewrite list_elem_of_In. split; [done|lia].
    - intros (pr & Hin & ?). exists pr. rewrite <- list_elem_of_In. split; [done|]. apply andb_true_iff; lia. }
  assert (AddrFromSlice (AsSlice (tcAddrForKey (c_pub c))) = Some (tcAddrForKey (c_pub c))) as Hs.
  { unfold AddrFromSlice, tcAddrForKey, AsSlice. rewrite zlen_app.
    assert (zlen (take 10 (Raw (c_pub c))) = 10) as ->; [|done].
    unfold zlen. rewrite length_take, length_raw. done. }
  unfold handleTCPForward. rewrite Hs.
  assert (Unmap (tcAddrForKey (c_pub c)) = tcAddrForKey (c_pub c)) as -> by done.
  assert (bool_decide (tcAddrForKey (c_pub c) = masqueCorePingAddr) = false) as -> by by apply bool_decide_eq_false_2.
  rewrite (bool_decide_eq_true_2 (_ = _)) by done. simpl. destruct onTCP as [f|]; [|split; [done|]].
  - destruct (localPortAllowed c port).
    + destruct (f port) as [h'|] eqn:Hf; split.
      * intros [= ->]. exists f. split_and!; [done|done|by apply Hlp].
      * intros (f' & [= <-] & Hh & _). by rewrite Hf in Hh; injection Hh as ->.
      * done.
      * intros (f' & [= <-] & Hh & _). by rewrite Hf in Hh.
    + split; [done|]. by intros (f' & _ & _ & ?%Hlp).
  - by intros (f & ? & _).
Qed.
(** The loop over the addresses connects to the first that answers. *)
Lemma dial_loop_ok {C} (dial : nat -> Addr -> result C) ctx i ips errs conn :
  dial_loop dial ctx i ips errs = Ok conn <->
  exists j ip, ips !! j = Some ip /\ dial (i + j)%nat ip = Ok conn /\
    forall j' ip', (j' < j)%nat -> ips !! j' = Some ip' ->
      (exists e, dial (i + j')%nat ip' = Err e) /\ ctx (i + j')%nat = false.
Proof.
  revert i errs. induction ips as [|ip0 ips IH]; intros i errs; simpl.
  { split; [done|]. by intros (? & ? & ? & _). }
  destruct (dial i ip0) as [c0|e] eqn:Hd.
  { split.
    - intros [= ->]. exists O, ip0. rewrite Nat.add_0_r. split_and!; [done|done|intros; lia].
    - intros ([|j] & ip & Hj & Hok & Hlt); simpl in Hj.
      + rewrite Nat.add_0_r in Hok. congruence.
      + destruct (Hlt O ip0) as [[e He] _]; [lia|done|]. rewrite Nat.add_0_r in He. congruence. }
  destruct (ctx i) eqn:Hc.
  { split; [done|]. intros ([|j] & ip & Hj & Hok & Hlt); simpl in Hj.
    - rewrite Nat.add_0_r in Hok. congruence.
    - destruct (Hlt O ip0) as [_ He]; [lia|done|]. rewrite Nat.add_0_r in He. congruence. }
  rewrite IH. split; intros (j & ip & Hj & Hok & Hlt).
  - exists (S j), ip. rewrite <- plus_n_Sm. split_and!; [done|done|].
    intros [|j'] ip' Hl Hj'; simpl in Hj'; [rewrite Nat.add_0_r; simplify_eq; eauto|].
    rewrite <- plus_n_Sm. apply Hlt; [lia|done].
  - destruct j as [|j]; simpl in Hj; [rewrite Nat.add_0_r in Hok; congruence|].
    exists j, ip. rewrite <- plus_n_Sm in Hok. split_and!; [done|done|].
    intros j' ip' Hl Hj'. destruct (Hlt (S j') ip') as [? ?]; [lia|done|].
    rewrite <- plus_n_Sm in *. done.
Qed.

Lemma filter_ips_spec n ips ip :
  ip ∈ filter_ips n ips <->
  (exists ip0, ip0 ∈ ips /\ ip = Unmap ip0) /\
  match n with tcp => True | tcp4 => Is4 ip = true | tcp6 => Is6 ip = true end.
Proof.
  assert (forall a, Is4 a = true -> Is6 a = false) as H46 by by intros [].
  induction ips as [|a ips IH]; simpl.
  { rewrite elem_of_nil. split; [done|]. by intros [(? & ?%elem_of_nil & _) _]. }
  assert (forall P : Prop, ((exists ip0, ip0 ∈ a :: ips /\ ip = Unmap ip0) /\ P) <->
            (ip = Unmap a /\ P) \/ ((exists ip0, ip0 ∈ ips /\ ip = Unmap ip0) /\ P)) as ->.
  { intros P. split.
    - intros [(ip0 & [->|]%elem_of_cons & ->) ?]; eauto 6.
    - intros [[-> ?]|[(ip0 & ? & ->) ?]]; (split; [|done]); eexists; rewrite elem_of_cons; eauto. }
  rewrite <- IH.
  destruct n; [rewrite elem_of_cons; naive_solver| |].
  - destruct (Is4 (Unmap a)) eqn:H4; simpl; [rewrite elem_of_cons|]; naive_solver congruence.
  - destruct (Is6 (Unmap a)) eqn:H6; simpl; [|naive_solver congruence].
    destruct (Is4 (Unmap a)) eqn:H4; [apply H46 in H4; congruence|].
    rewrite elem_of_cons. naive_solver congruence.
Qed.

(** [Dial] returns the connection of the first address of the host, in
    resolution order, that accepts, having failed on every earlier one with the
    context still live; when no address accepts it returns an error.  Every address
    it tries is of the family the network names. *)
Theorem dial_first_reachable {C} ParseAddr LookupNetIP LookupPort (dialTCP : nat -> Addr * Z -> result C) ctx
    n addr conn :
  Dial ParseAddr LookupNetIP LookupPort dialTCP ctx n addr = Ok conn <->
  exists nw host portText port ips i ip,
    parse_network n = Some nw /\ Net.SplitHostPort addr = Ok (host, portText) /\
    LookupPort portText = Ok port /\ 0 <= port <= 65535 /\
    resolveMasqueTCPAddrs ParseAddr LookupNetIP nw host = Ok ips /\
    (forall ip', ip' ∈ ips -> match nw with tcp => True | tcp4 => Is4 ip' = true | tcp6 => Is6 ip' = true end) /\
    ips !! i = Some ip /\ dialTCP i (ip, port) = Ok conn /\
    forall j ip', (j < i)%nat -> ips !! j = Some ip' ->
      (exists e, dialTCP j (ip', port) = Err e) /\ ctx j = false.
Proof.
  assert (forall nw host ips, resolveMasqueTCPAddrs ParseAddr LookupNetIP nw host = Ok ips ->
    forall ip', ip' ∈ ips -> match nw with tcp => True | tcp4 => Is4 ip' = true | tcp6 => Is6 ip' = true end) as Hfam.
  { intros nw host ips. unfold resolveMasqueTCPAddrs. destruct (ParseAddr host) as [a|].
    - assert (Is6 a = true -> Is4In6 a = false -> Is6 (Unmap a) = true) as H6.
      { intros H6 Hm. destruct a; try done. unfold Unmap. by rewrite Hm. }
      destruct nw; [by intros _ | |]; cbv beta iota.
      + destruct (Is4 a) eqn:H4; [|done]. intros [= <-] ip' ->%list_elem_of_singleton. by destruct a.
      + destruct (Is6 a) eqn:Ha; simpl; [|done]. destruct (Is4In6 a) eqn:Hm; simpl; [done|].
        intros [= <-] ip' ->%list_elem_of_singleton. auto.
    - destruct (LookupNetIP host) as [l|]; [|done]. destruct (filter_ips nw l) eqn:Hf; [done|].
      intros [= <-] ip'. rewrite <- Hf. by intros [_ ?]%filter_ips_spec. }
  unfold Dial. destruct (parse_network n) as [nw|]; [|split; [done|by intros (?&?&?&?&?&?&?&?&_)]].
  destruct (Net.SplitHostPort addr) as [[host pt]|]; simpl; [|split; [done|by intros (?&?&?&?&?&?&?&?&?&_)]].
  destruct (LookupPort pt) as [port|] eqn:Hp; simpl;
    [|split; [done|intros (?&?&?&?&?&?&?&?&?&?&_); simplify_eq; congruence]].
  destruct ((port <? 0) || (65535 <? port)) eqn:Hr; simpl.
  { split; [done|]. intros (?&?&?&?&?&?&?&?&?&?&?&_); simplify_eq. rewrite Hp in *. simplify_eq. lia. }
  destruct (resolveMasqueTCPAddrs _ _ nw host) as [ips|] eqn:Hres; simpl.
  2: { split; [done|]. intros (?&?&?&?&?&?&?&?&?&?&?&?&_); simplify_eq. congruence. }
  assert (u16 port = port) as Hu by (unfold u16; apply Z.mod_small; lia).
  rewrite dial_loop_ok. rewrite Hu. split.
  - intros (j & ip & ? & ? & ?). exists nw, host, pt, port, ips, j, ip. split_and!; try done; try lia. by apply (Hfam nw host).
  - intros (nw' & host' & pt' & port' & ips' & i & ip & ? & ? & Hp' & ? & Hres' & ? & ? & ? & ?).
    simplify_eq. assert (port' = port) as -> by congruence. assert (ips' = ips) as -> by congruence.
    by exists i, ip.
Qed.
End properties.

(** * Witnesses *)

Import ToyKeys.

Definition sample_options : masqueCoreOptions (K := toy) := CoreOptions true [nkey 1] None.
Definition sample_core : masqueCore (K := toy) :=
  Core (Public (KeyOps := toy) (nkey 9)) true (Some {[nkey 1 := tt]}) None ∅
    (newMasqueBind (K := toy) (Public (KeyOps := toy) (nkey 9))) [].
Definition sample_ops : list (core_op (K := toy)) :=
  [OpOpen; OpSetPath None (nkey 1) 4; OpSetPath None (nkey 2) 5; OpAllow (nkey 2);
   OpSetPath (Some NetErrClosed) (nkey 2) 5; OpAddPeer None (nkey 2); OpRemovePath None (nkey 1) 5].
Definition sample_core_after : masqueCore (K := toy) := default sample_core (core_run sample_core sample_ops).


Lemma allowlist_governs_admission_witness :
  peerAllowed (K := toy) sample_core_after (nkey 1) = true.
Proof.
  assert (core_exec sample_core (OpSetPath None (nkey 1) 4) =
          Some (SetPath sample_core None (nkey 1) 4).1) as H by vm_reflexivity.
  destruct (allowlist_governs_admission (K := toy) _ _ _ (nkey 1) H) as (Ha & _ & Hb).
  assert (peerAllowed (K := toy) sample_core_after (nkey 1) = peerAllowed sample_core (nkey 1)) as -> by vm_reflexivity.
  apply Ha; [vm_reflexivity|]. exists tt. vm_reflexivity.
Defined.

Lemma forward_sees_dialled_address_witness :
  handleTCPForward (K := toy) sample_core (H := Addr * Z) None (Some Some) true
    (AsSlice (A6 (take 12 nat64PrefixBytes ++ [x01; x02; x03; x04]) [])) 80 =
  TCPServe (A4 [x01; x02; x03; x04], 80).
Proof.
  assert (DialTCP (A4 [x01; x02; x03; x04]) 80 =
          (AsSlice (A6 (take 12 nat64PrefixBytes ++ [x01; x02; x03; x04]) []), 80, IPv6)) as H by vm_reflexivity.
  destruct (forward_sees_dialled_address (K := toy) sample_core (H := Addr * Z) None Some _ _ _ _ _ H) as [_ ->];
    [vm_reflexivity|vm_reflexivity].
Defined.

Lemma local_port_gate_witness :
  handleTCPForward (K := toy) (Core (Public (KeyOps := toy) (nkey 9)) true None (Some [MkPortRange 80 90]) ∅
      (newMasqueBind (K := toy) (nkey 9)) []) (H := Z) (Some Some) (None : option (Addr * Z -> option Z)) true
    (AsSlice (tcAddrForKey (K := toy) (Public (KeyOps := toy) (nkey 9)))) 85 = TCPServe 85.
Proof.
  apply (local_port_gate (K := toy) (KL := toy_laws)). exists Some. split_and!; [done|done|].
  exists (MkPortRange 80 90). split; [by apply list_elem_of_singleton|simpl; lia].
Defined.
