(* ===== verification/Direct.v ===== *)
(** Direct: a server's direct endpoint and its relay path.

    Models src/masquecat_direct.go ([directMasqueCoreHandler] and its reservations)
    and the relay receive loop of [MasqueServer.Start] (src/masquecat.go), which
    share one core.  As in Relay, a session is a goroutine between two lock
    acquisitions, and [direct_step] interleaves any number of them with packets
    from the relay and changes of the allowlist.  Forwarders are numbered: 0 is the
    relay path, [S sid] the stream of session [sid]. *)

From S2P Require Import Prelude GoStd Keys Packet Fragment Auth Url Endpoint Bind Core.
From Stdlib Require Import Strings.Byte.

Section reservations.
Context `{K : KeyOps}.

(** src/masquecat_direct.go:16-19 [directMasqueReservations] *)
Record directMasqueReservations : Type := Reservations { rs_peers : gmap NodePublic unit }.

(** src/masquecat_direct.go:21-32 [directMasqueReservations.reserve] *)
Definition direct_reserve (r : directMasqueReservations) (peer : NodePublic)
    : directMasqueReservations * bool :=
  match rs_peers r !! peer with
  | Some _ => (r, false)
  | None => (Reservations (<[peer := tt]> (rs_peers r)), true)
  end.

(** src/masquecat_direct.go:34-38 [directMasqueReservations.release] *)
Definition direct_release (r : directMasqueReservations) (peer : NodePublic) : directMasqueReservations :=
  Reservations (delete peer (rs_peers r)).
End reservations.

Section admission.
Context `{K : KeyOps} `{ML : MasqueLib}.

(** src/masquecat_direct.go:47-77 [directMasqueCoreHandler], up to the allowlist
    check: the response that rejects the request, or the peer's key. *)
Definition directAdmit (local : NodePublic) (core : masqueCore) (a : masqueAuthenticator) (now1 now2 : Z)
    (order : masqueAuthenticator -> list (gostring * masqueChallenge)) (rand : result (list byte))
    (req : request) : masqueAuthenticator * (HTTP.responseWriter + HTTP.responseWriter * NodePublic) :=
  let w := HTTP.newResponse in
  match masqueTemplateFor (B "https://" ++ rq_host req) with
  | Err e => (a, inl (HTTP.Error w (ErrorText e) HTTP.StatusBadRequest))
  | Ok tmpl =>
      match parseConnectUDPRequestAny w (masqueProxyRequestForParser req) tmpl with
      | inl w => (a, inl w)
      | inr target =>
          if negb (bool_decide (HTTP.Get (rq_header req) masqueModeHeader = masqueModeDirect)) then
            (a, inl (HTTP.Error w (B "expected direct MasqueCat path") HTTP.StatusBadRequest))
          else
            let not_here := HTTP.Error w
              (B "CONNECT-UDP target is not this MasqueCat peer") HTTP.StatusNotFound in
            match parseMasqueTarget target with
            | Err _ => (a, inl not_here)
            | Ok target =>
                if negb (bool_decide (target = local)) then (a, inl not_here)
                else
                  let invalid := HTTP.Error w (B "invalid MasqueCat source") HTTP.StatusUnauthorized in
                  match parseMasqueSource (rq_header req) with
                  | Err _ => (a, inl invalid)
                  | Ok src =>
                      if IsZero src then (a, inl invalid)
                      else
                        match authorize a now1 now2 order rand w (rq_header req) (rq_remote_addr req)
                                src target masqueModeDirect with
                        | (a, w, false) => (a, inl w)
                        | (a, w, true) =>
                            if negb (peerAllowed core src) then
                              (a, inl (HTTP.Error w (B "MasqueCat peer is not allowed") HTTP.StatusForbidden))
                            else (a, inr (w, src))
                        end
                  end
            end
      end
  end.

(** src/masquecat_direct.go:111-125 [directMasqueCoreHandler], one round of the
    datagram loop: the payload injected. *)
Definition direct_datagram (local src : NodePublic) (b : list byte) : option (list byte) :=
  match decodeMasquePacket b with
  | Err _ => None
  | Ok pkt =>
      if negb (bool_decide (pkt_src pkt = src)) || negb (bool_decide (pkt_dst pkt = local)) then None
      else if is_disco (pkt_payload pkt) then None
      else Some (pkt_payload pkt)
  end.
End admission.

(** * Interleaved sessions *)

Section world.
Context `{K : KeyOps}.

Inductive dsession : Type :=
  | DProved (k : NodePublic)       (* proof accepted *)
  | DAllowed (k : NodePublic)      (* on the allowlist *)
  | DReserved (k : NodePublic)     (* reserved, stream not registered yet *)
  | DActive (k : NodePublic)       (* path set, relaying *)
  | DClosing (k : NodePublic).     (* path removed, reservation not released yet *)

#[global] Instance dsession_eq_dec : EqDecision dsession.
Proof. solve_decision. Defined.

Definition dkey (s : dsession) : NodePublic :=
  match s with DProved k | DAllowed k | DReserved k | DActive k | DClosing k => k end.
(** Whether the session holds the reservation of its key. *)
Definition dholds (s : dsession) : bool :=
  match s with DProved _ | DAllowed _ => false | _ => true end.

Record dworld : Type := DWorld {
  dw_auth : masqueAuthenticator;
  dw_core : masqueCore;
  dw_res : directMasqueReservations;
  dw_sessions : gmap nat dsession;
}.

Definition relay_path_id : nat := 0.
Definition session_path (sid : nat) : nat := S sid.

Inductive dlabel : Type :=
  | DQuiet
  | DAuth (ev : auth_event)
  | DInject (sid : nat) (src : NodePublic) (payload : list byte)
  | DRelay (src : NodePublic) (payload : list byte) (rejected : bool).

(** [step_relay] is the relay loop's callback (src/masquecat.go:192-198). *)
Inductive direct_step (local : NodePublic) : dworld -> dlabel -> dworld -> Prop :=
  | ds_auth a c r ss ev a' :
      auth_step a ev a' -> direct_step local (DWorld a c r ss) (DAuth ev) (DWorld a' c r ss)
  | ds_proved a c r ss now proof src a' sid :
      ss !! sid = None -> verify a now proof src local masqueModeDirect = (a', true) ->
      direct_step local (DWorld a c r ss) (DAuth (EvVerify now proof src local masqueModeDirect true))
        (DWorld a' c r (<[sid := DProved src]> ss))
  | ds_allowed a c r ss sid k :
      ss !! sid = Some (DProved k) -> peerAllowed c k = true ->
      direct_step local (DWorld a c r ss) DQuiet (DWorld a c r (<[sid := DAllowed k]> ss))
  | ds_forbidden a c r ss sid k :
      ss !! sid = Some (DProved k) -> peerAllowed c k = false ->
      direct_step local (DWorld a c r ss) DQuiet (DWorld a c r (delete sid ss))
  | ds_reserve a c r ss sid k r' :
      ss !! sid = Some (DAllowed k) -> direct_reserve r k = (r', true) ->
      direct_step local (DWorld a c r ss) DQuiet (DWorld a c r' (<[sid := DReserved k]> ss))
  | ds_conflict a c r ss sid k r' :
      ss !! sid = Some (DAllowed k) -> direct_reserve r k = (r', false) ->
      direct_step local (DWorld a c r ss) DQuiet (DWorld a c r' (delete sid ss))
  | ds_accept_failed a c r ss sid k :
      ss !! sid = Some (DReserved k) ->
      direct_step local (DWorld a c r ss) DQuiet (DWorld a c (direct_release r k) (delete sid ss))
  | ds_path_set a c r ss sid k ipc c' :
      ss !! sid = Some (DReserved k) -> SetPath c ipc k (session_path sid) = (c', None) ->
      direct_step local (DWorld a c r ss) DQuiet (DWorld a c' r (<[sid := DActive k]> ss))
  | ds_path_failed a c r ss sid k ipc c' e :
      ss !! sid = Some (DReserved k) -> SetPath c ipc k (session_path sid) = (c', Some e) ->
      direct_step local (DWorld a c r ss) DQuiet (DWorld a c' (direct_release r k) (delete sid ss))
  | ds_inject a c r ss sid k b payload ipc now choice c' e :
      ss !! sid = Some (DActive k) -> direct_datagram local k b = Some payload ->
      core_Inject c ipc now choice k payload = Some (c', e) ->
      direct_step local (DWorld a c r ss) (DInject sid k payload) (DWorld a c' r ss)
  | ds_remove_path a c r ss sid k ipc :
      ss !! sid = Some (DActive k) ->
      direct_step local (DWorld a c r ss) DQuiet
        (DWorld a (RemovePath c ipc k (session_path sid)) r (<[sid := DClosing k]> ss))
  | ds_release a c r ss sid k :
      ss !! sid = Some (DClosing k) ->
      direct_step local (DWorld a c r ss) DQuiet (DWorld a c (direct_release r k) (delete sid ss))
  | ds_allow a c r ss k :
      direct_step local (DWorld a c r ss) DQuiet (DWorld a (AddAllowedClient c k) r ss)
  | ds_relay a c r ss src payload ipc ipc' now choice c1 c2 e :
      SetPath c ipc src relay_path_id = (c1, None) ->
      core_Inject c1 ipc' now choice src payload = Some (c2, e) ->
      direct_step local (DWorld a c r ss) (DRelay src payload false) (DWorld a c2 r ss)
  | ds_relay_rejected a c r ss src payload ipc c1 e :
      SetPath c ipc src relay_path_id = (c1, Some e) ->
      direct_step local (DWorld a c r ss) (DRelay src payload true) (DWorld a c1 r ss).

Inductive direct_trace (local : NodePublic) : dworld -> list dlabel -> dworld -> Prop :=
  | dtrace_nil w : direct_trace local w [] w
  | dtrace_snoc w ls w' l w'' :
      direct_trace local w ls w' -> direct_step local w' l w'' -> direct_trace local w (ls ++ [l]) w''.

Definition dworld0 (priv : NodePrivate) (core : masqueCore) : dworld :=
  DWorld (Authenticator priv ∅) core (Reservations ∅) ∅.
End world.

(** * Invariant *)

Section invariant.
Context `{K : KeyOps}.
Implicit Types w : dworld.

#[local] Abbreviation paths w := (b_paths (c_bind (dw_core w))).

Record wf_dworld w : Prop := {
  (** a session past the reservation holds the reservation of its key *)
  wd_held sid s : dw_sessions w !! sid = Some s -> dholds s = true -> is_Some (rs_peers (dw_res w) !! dkey s);
  (** a reservation is held by a session *)
  wd_owned k : is_Some (rs_peers (dw_res w) !! k) ->
    exists sid s, dw_sessions w !! sid = Some s /\ dholds s = true /\ dkey s = k;
  (** and by one only *)
  wd_unique sid1 sid2 s1 s2 :
    dw_sessions w !! sid1 = Some s1 -> dw_sessions w !! sid2 = Some s2 ->
    dholds s1 = true -> dholds s2 = true -> dkey s1 = dkey s2 -> sid1 = sid2;
  (** the path of a peer is the relay's or an active session's of that peer *)
  wd_path k p : paths w !! k = Some p -> p = relay_path_id \/
    exists sid, p = session_path sid /\ dw_sessions w !! sid = Some (DActive k);
  (** an active session's peer has a path *)
  wd_active sid k : dw_sessions w !! sid = Some (DActive k) -> is_Some (paths w !! k);
}.

(** A session without a reservation comes or goes. *)
Lemma wf_dplain a a' c r ss sid o :
  wf_dworld (DWorld a c r ss) ->
  (forall s, ss !! sid = Some s -> dholds s = false) -> (forall s, o = Some s -> dholds s = false) ->
  wf_dworld (DWorld a' c r (partial_alter (fun _ => o) sid ss)).
Proof.
  intros [Hh Ho Hu Hp Ha] Hs Hn; simpl in *.
  assert (forall sid' s, partial_alter (fun _ => o) sid ss !! sid' = Some s -> dholds s = true -> ss !! sid' = Some s) as Hback.
  { intros sid' s. destruct (decide (sid' = sid)) as [->|].
    - rewrite lookup_partial_alter_eq. intros ->%Hn. done.
    - by rewrite lookup_partial_alter_ne. }
  assert (forall sid' s, ss !! sid' = Some s -> dholds s = true -> partial_alter (fun _ => o) sid ss !! sid' = Some s) as Hfwd.
  { intros sid' s Hl Hd. destruct (decide (sid' = sid)) as [->|]; [|by rewrite lookup_partial_alter_ne].
    apply Hs in Hl. congruence. }
  constructor; simpl.
  - eauto.
  - intros k (sid' & s & ? & ? & <-)%Ho. eauto 6.
  - intros sid1 sid2 s1 s2 ? ? ? ? ?. eapply Hu; eauto.
  - intros k p [->|(sid' & -> & ?)]%Hp; [by left|right; eauto].
  - intros sid' k ?. eapply Ha, Hback; [eassumption|done].
Qed.

(** A session with its reservation moves on, under the same key. *)
Lemma wf_dmove a c c' r ss sid s s' :
  wf_dworld (DWorld a c r ss) -> ss !! sid = Some s -> dholds s = true -> dholds s' = true -> dkey s' = dkey s ->
  (forall k p, b_paths (c_bind c') !! k = Some p -> p = relay_path_id \/
     exists sid', p = session_path sid' /\ <[sid := s']> ss !! sid' = Some (DActive k)) ->
  (forall sid' k, <[sid := s']> ss !! sid' = Some (DActive k) -> is_Some (b_paths (c_bind c') !! k)) ->
  wf_dworld (DWorld a c' r (<[sid := s']> ss)).
Proof.
  intros [Hh Ho Hu Hp Ha] Hs Hd Hd' Hk Hp' Ha'; simpl in *. constructor; simpl; [| | |done|done].
  - intros sid' s0 [[<- <-]|[? ?]]%lookup_insert_Some ?; [rewrite Hk|]; eauto.
  - intros k (sid' & s0 & Hs0 & ? & <-)%Ho. destruct (decide (sid' = sid)) as [->|].
    + exists sid, s'. rewrite lookup_insert_eq. split_and!; [done|done|congruence].
    + exists sid', s0. by rewrite lookup_insert_ne.
  - intros sid1 sid2 s1 s2 [[<- <-]|[? ?]]%lookup_insert_Some [[<- <-]|[? ?]]%lookup_insert_Some ? ? Hkk;
      [done|rewrite Hk in Hkk|rewrite Hk in Hkk|]; eauto.
Qed.

(** A session that is not active releases its reservation and ends. *)
Lemma wf_drelease a c r ss sid s :
  wf_dworld (DWorld a c r ss) -> ss !! sid = Some s -> dholds s = true -> (forall k, s <> DActive k) ->
  wf_dworld (DWorld a c (direct_release r (dkey s)) (delete sid ss)).
Proof.
  intros [Hh Ho Hu Hp Ha] Hs Hd Hn; simpl in *. constructor; simpl.
  - intros sid' s' [? ?]%lookup_delete_Some ?. rewrite lookup_delete_ne; [eauto|].
    intros Heq. by apply (Hu sid sid' s s') in Heq.
  - intros k [u [? ?]%lookup_delete_Some]. destruct (Ho k) as (sid' & s' & ? & ? & ?); [eauto|].
    exists sid', s'. rewrite lookup_delete_ne; [done|]. intros <-. congruence.
  - intros sid1 sid2 s1 s2 [? ?]%lookup_delete_Some [? ?]%lookup_delete_Some. eauto.
  - intros k p [->|(sid' & -> & ?)]%Hp; [by left|right]. exists sid'. split; [done|].
    rewrite lookup_delete_ne; [done|]. intros <-. apply (Hn k). congruence.
  - intros sid' k [? ?]%lookup_delete_Some. eauto.
Qed.

Lemma wf_dreserve a c r ss sid k r' :
  wf_dworld (DWorld a c r ss) -> ss !! sid = Some (DAllowed k) -> direct_reserve r k = (r', true) ->
  wf_dworld (DWorld a c r' (<[sid := DReserved k]> ss)).
Proof.
  intros [Hh Ho Hu Hp Ha] Hs Hr; simpl in *. unfold direct_reserve in Hr.
  destruct (rs_peers r !! k) eqn:Hk; [done|]. injection Hr as <-.
  assert (forall sid' s, ss !! sid' = Some s -> dholds s = true -> dkey s <> k) as Hne.
  { intros sid' s Hl Hd <-. destruct (Hh _ _ Hl Hd). congruence. }
  assert (forall sid' s, <[sid := DReserved k]> ss !! sid' = Some s ->
            sid' = sid /\ s = DReserved k \/ sid' <> sid /\ ss !! sid' = Some s) as Hins.
  { intros sid' s [[<- <-]|[? ?]]%lookup_insert_Some; auto. }
  constructor; simpl.
  - intros sid' s [[-> ->]|[? Hl]]%Hins Hd; simpl; [by rewrite lookup_insert_eq|].
    rewrite lookup_insert_ne; [by eapply Hh|]. by intros <-%symmetry; eapply Hne.
  - intros k'. destruct (decide (k' = k)) as [->|].
    + intros _. exists sid, (DReserved k). by rewrite lookup_insert_eq.
    + rewrite lookup_insert_ne by done. intros (sid' & s & ? & ? & ?)%Ho. exists sid', s.
      rewrite lookup_insert_ne; [done|]. intros <-. simplify_eq.
  - intros sid1 sid2 s1 s2 [[-> ->]|[? ?]]%Hins [[-> ->]|[? ?]]%Hins ? ? Hkk; simpl in *; eauto.
    + exfalso. by eapply Hne; [| |symmetry].
    + exfalso. by eapply Hne.
  - intros k' p [->|(sid' & -> & ?)]%Hp; [by left|right]. exists sid'. split; [done|].
    rewrite lookup_insert_ne; [done|]. intros <-. congruence.
  - intros sid' k' [[? ?]|[? ?]]%Hins; [done|eauto].
Qed.

(** The core changes without touching the direct sessions' paths. *)
Lemma wf_dcore a c c' r ss :
  wf_dworld (DWorld a c r ss) ->
  (forall k, b_paths (c_bind c') !! k = b_paths (c_bind c) !! k \/ b_paths (c_bind c') !! k = Some relay_path_id) ->
  wf_dworld (DWorld a c' r ss).
Proof.
  intros [Hh Ho Hu Hp Ha] Hc; simpl in *. constructor; simpl; [done|done|done| |].
  - intros k p Hl. destruct (Hc k) as [Hk|Hk]; rewrite Hk in Hl; [eauto|]. injection Hl as <-. by left.
  - intros sid k Hs. destruct (Hc k) as [->|Hk]; [eauto|by rewrite Hk].
Qed.

Lemma dstep_wf local w l w' : wf_dworld w -> direct_step local w l w' -> wf_dworld w'.
Proof.
  intros Hwf Hs. destruct Hs as [| | | | |a c r ss sid k r' Hl Hr| |a c r ss sid k ipc c' Hl Hp
    |a c r ss sid k ipc c' e Hl Hp|a c r ss sid k b pl ipc now ch c' e Hl Hd Hi|a c r ss sid k ipc Hl| |
    |a c r ss src pl ipc ipc' now ch c1 c2 e Hp Hi|a c r ss src pl ipc c1 e Hp].
  - by destruct Hwf; constructor.
  - eapply (wf_dplain _ _ _ _ _ _ (Some _)); [done|congruence|by intros ? [= <-]].
  - eapply (wf_dplain _ _ _ _ _ _ (Some _)); [done|by intros ? [= <-]%(eq_trans (eq_sym H))|by intros ? [= <-]].
  - eapply (wf_dplain _ _ _ _ _ _ None); [done|by intros ? [= <-]%(eq_trans (eq_sym H))|done].
  - by eapply wf_dreserve.
  - unfold direct_reserve in Hr. destruct (rs_peers r !! k); [injection Hr as <-|done].
    eapply (wf_dplain _ _ _ _ _ _ None); [done|by intros ? [= <-]%(eq_trans (eq_sym Hl))|done].
  - by eapply (wf_drelease _ _ _ _ _ (DReserved k)).
  - pose proof Hwf as [Hh Ho Hu Hwp Ha]. simpl in *. apply SetPath_paths in Hp.
    eapply wf_dmove; [done|done|done|done|done| |]; rewrite Hp.
    + intros k' p [[<- <-]|[? [->|(sid' & -> & ?)]%Hwp]]%lookup_insert_Some; [| by left|].
      * right. exists sid. by rewrite lookup_insert_eq.
      * right. exists sid'. split; [done|]. rewrite lookup_insert_ne; [done|]. intros <-. congruence.
    + intros sid' k' Hk'. destruct (decide (k' = k)) as [->|]; [by rewrite lookup_insert_eq|].
      rewrite lookup_insert_ne by done. apply lookup_insert_Some in Hk' as [[<- ?]|[? ?]]; [congruence|eauto].
  - apply SetPath_paths in Hp. eapply (wf_drelease _ _ _ _ _ (DReserved k)); [|done..].
    eapply wf_dcore; [done|]. intros k'. left. by rewrite Hp.
  - apply core_Inject_paths in Hi. eapply wf_dcore; [done|]. intros k'. left. by rewrite Hi.
  - pose proof Hwf as [Hh Ho Hu Hwp Ha]. simpl in *.
    assert (forall sid' k', sid' <> sid -> ss !! sid' = Some (DActive k') -> k' <> k) as Hne.
    { intros sid' k' Hne Hk' ->. apply Hne. by eapply Hu. }
    eapply wf_dmove; [done|done|done|done|done| |]; rewrite RemovePath_paths; case_bool_decide as Hb.
    + intros k' p [Hkk [->|(sid' & -> & Hs')]%Hwp]%lookup_delete_Some; [by left|right]. exists sid'.
      split; [done|]. rewrite lookup_insert_ne; [done|]. intros <-. congruence.
    + intros k' p Hp. destruct (Hwp _ _ Hp) as [->|(sid' & -> & Hs')]; [by left|right]. exists sid'.
      split; [done|]. rewrite lookup_insert_ne; [done|]. intros <-. congruence.
    + intros sid' k' [[_ [=]]|[? Hs']]%lookup_insert_Some. rewrite lookup_delete_ne; eauto.
    + intros sid' k' [[_ [=]]|[? ?]]%lookup_insert_Some. eauto.
  - by eapply (wf_drelease _ _ _ _ _ (DClosing k)).
  - eapply wf_dcore; [done|]. by left.
  - apply SetPath_paths in Hp. apply core_Inject_paths in Hi. eapply wf_dcore; [done|]. intros k.
    rewrite Hi, Hp. destruct (decide (k = src)) as [->|].
    + right. apply lookup_insert_eq.
    + left. by apply lookup_insert_ne.
  - apply SetPath_paths in Hp. eapply wf_dcore; [done|]. intros k. left. by rewrite Hp.
Qed.

Lemma dtrace_wf local priv core ls w :
  b_paths (c_bind core) = ∅ -> direct_trace local (dworld0 priv core) ls w -> wf_dworld w.
Proof.
  intros He. remember (dworld0 priv core) as w0. induction 1 as [|w ls w1 l w2 Htr IH Hst]; subst.
  - constructor; simpl.
    + intros sid s. by rewrite lookup_empty.
    + intros k. rewrite lookup_empty. by intros [].
    + intros sid1 sid2 s1 s2. by rewrite lookup_empty.
    + intros k p. by rewrite He, lookup_empty.
    + intros sid k. by rewrite lookup_empty.
  - eapply dstep_wf; [|done]. by apply IH.
Qed.
End invariant.

(** * Properties *)

Section properties.
Context `{K : KeyOps} {KL : KeyLaws K}.
Implicit Types w : dworld.

Lemma dtrace_snoc_inv local w ls l w' :
  direct_trace local w (ls ++ [l]) w' -> exists w1, direct_trace local w ls w1 /\ direct_step local w1 l w'.
Proof.
  intros H. inversion H as [? Ha Hnil|? ? w1 ? ? Htr Hs Ha Heq]; [by destruct ls|].
  apply app_inj_tail in Heq as [-> ->]. eauto.
Qed.

(** The key was admitted by the allowlist of some state of the run. *)
Definition was_allowed (local : NodePublic) (w0 : dworld) (ls : list dlabel) (k : NodePublic) : Prop :=
  exists ls1 ls2 w1, ls = ls1 ++ ls2 /\ direct_trace local w0 ls1 w1 /\ peerAllowed (dw_core w1) k = true.

Definition proof_accepted (local k : NodePublic) (ls : list dlabel) : Prop :=
  exists now proof, DAuth (EvVerify now proof k local masqueModeDirect true) ∈ ls.

Lemma was_allowed_snoc local w0 ls l k : was_allowed local w0 ls k -> was_allowed local w0 (ls ++ [l]) k.
Proof. intros (ls1 & ls2 & w1 & -> & ? & ?). exists ls1, (ls2 ++ [l]), w1. by rewrite app_assoc. Qed.

Lemma proof_accepted_snoc local k ls l : proof_accepted local k ls -> proof_accepted local k (ls ++ [l]).
Proof. intros (now & p & ?). exists now, p. apply elem_of_app. by left. Qed.

(** Where a session of the next state comes from. *)
Lemma dsession_origin local w l w' sid s :
  direct_step local w l w' -> dw_sessions w' !! sid = Some s ->
  dw_sessions w !! sid = Some s \/
  (exists k now p, s = DProved k /\ l = DAuth (EvVerify now p k local masqueModeDirect true)) \/
  (exists k, s = DAllowed k /\ dw_sessions w !! sid = Some (DProved k) /\ peerAllowed (dw_core w) k = true) \/
  (exists k, dw_sessions w !! sid = Some (DAllowed k) /\ s = DReserved k) \/
  (exists s0, dw_sessions w !! sid = Some s0 /\ dholds s0 = true /\ dkey s0 = dkey s /\ dholds s = true).
Proof.
  intros Hst Hs. destruct Hst; simpl in *; auto;
    first [apply lookup_insert_Some in Hs as [[<- <-]|[? ?]]|apply lookup_delete_Some in Hs as [? ?]]; eauto 10.
Qed.

Lemma dsession_evidence local w0 ls w :
  dw_sessions w0 = ∅ -> direct_trace local w0 ls w -> forall sid s, dw_sessions w !! sid = Some s ->
  proof_accepted local (dkey s) ls /\
  match s with DProved _ => True | _ => was_allowed local w0 ls (dkey s) end.
Proof.
  intros H0. induction 1 as [w|w ls w1 l w2 Htr IH Hst]; intros sid s Hs.
  { by rewrite H0, lookup_empty in Hs. }
  specialize (IH H0).
  assert (forall k, was_allowed local w ls k ->
            match s with DProved _ => True | _ => was_allowed local w (ls ++ [l]) k end) as Hw.
  { intros k ?%(was_allowed_snoc _ _ _ l). by destruct s. }
  destruct (dsession_origin _ _ _ _ _ _ Hst Hs)
    as [Hs'|[(k & now & p & -> & ->)|[(k & -> & Hs' & Ha)|[(k & Hs' & ->)|(s0 & Hs' & Hh & Hk & Hh')]]]].
  - destruct (IH _ _ Hs') as [? ?]. split; [by apply proof_accepted_snoc|].
    destruct s; [done|..]; by apply was_allowed_snoc.
  - split; [|done]. exists now, p. apply elem_of_app. right. by apply list_elem_of_singleton.
  - destruct (IH _ _ Hs') as [? _]. split; [by apply proof_accepted_snoc|].
    exists ls, [l], w1. done.
  - destruct (IH _ _ Hs') as [? ?]. split; [by apply proof_accepted_snoc|by apply was_allowed_snoc].
  - destruct (IH _ _ Hs') as [? ?]. rewrite <- Hk. split; [by apply proof_accepted_snoc|].
    apply Hw. by destruct s0.
Qed.

(** at most one direct session per identity, whatever the interleaving: two
    sessions past the reservation never share a key, and a key is reserved exactly
    while a session holds it, so a duplicate is refused and a reservation never
    leaks. *)
Theorem one_direct_session_per_key local priv core ls w :
  b_paths (c_bind core) = ∅ -> direct_trace local (dworld0 priv core) ls w ->
  (forall sid1 sid2 s1 s2, dw_sessions w !! sid1 = Some s1 -> dw_sessions w !! sid2 = Some s2 ->
     dholds s1 = true -> dholds s2 = true -> dkey s1 = dkey s2 -> sid1 = sid2) /\
  (forall k, is_Some (rs_peers (dw_res w) !! k) <->
     exists sid s, dw_sessions w !! sid = Some s /\ dholds s = true /\ dkey s = k).
Proof.
  intros He Htr. destruct (dtrace_wf _ _ _ _ _ He Htr) as [Hh Ho Hu _ _]. split; [done|].
  intros k. split; [auto|]. intros (sid & s & ? & ? & <-). eauto.
Qed.

(** return paths.  A peer's packets go back on the relay path or on the stream
    of that peer's own live direct session, never on another session's; an active
    session's peer always has a path; and once a session uses its own stream, only
    its end or a packet of the same peer through the relay moves the path. *)
Theorem direct_return_path local priv core ls w l w' :
  b_paths (c_bind core) = ∅ ->
  direct_trace local (dworld0 priv core) ls w -> direct_step local w l w' ->
  (forall k p, b_paths (c_bind (dw_core w)) !! k = Some p -> p = relay_path_id \/
     exists sid, p = session_path sid /\ dw_sessions w !! sid = Some (DActive k)) /\
  (forall sid k, dw_sessions w !! sid = Some (DActive k) ->
     is_Some (b_paths (c_bind (dw_core w)) !! k) /\
     (b_paths (c_bind (dw_core w)) !! k = Some (session_path sid) ->
      dw_sessions w' !! sid = Some (DActive k) /\ b_paths (c_bind (dw_core w')) !! k = Some (session_path sid) \/
      dw_sessions w' !! sid = Some (DClosing k) /\ b_paths (c_bind (dw_core w')) !! k = None \/
      dw_sessions w' !! sid = Some (DActive k) /\ b_paths (c_bind (dw_core w')) !! k = Some relay_path_id /\
        exists payload, l = DRelay k payload false)).
Proof.
  intros He Htr Hst. pose proof (dtrace_wf _ _ _ _ _ He Htr) as Hwf.
  pose proof Hwf as [Hh Ho Hu Hp Ha]. split; [done|]. intros sid k Hs. split; [eauto|]. intros Hk.
  assert (forall sid' o, dw_sessions w !! sid' <> Some (DActive k) ->
            partial_alter (fun _ => o) sid' (dw_sessions w) !! sid = Some (DActive k)) as Hother.
  { intros sid' o Hne. rewrite lookup_partial_alter_ne; [done|]. congruence. }
  destruct Hst as [| | | | | | |a c r ss sid' k' ipc c' Hl Hsp
    |a c r ss sid' k' ipc c' e Hl Hsp|a c r ss sid' k' b pl ipc now ch c' e Hl Hd Hi|a c r ss sid' k' ipc Hl| |
    |a c r ss src pl ipc ipc' now ch c1 c2 e Hsp Hi|a c r ss src pl ipc c1 e Hsp]; simpl in *;
    try (left; split; [first [done|apply (Hother _ (Some _)); congruence|apply (Hother _ None); congruence]|done]).
  - left. split; [apply (Hother _ (Some _)); congruence|]. apply SetPath_paths in Hsp. rewrite Hsp.
    rewrite lookup_insert_ne; [done|]. intros <-. assert (sid = sid') as <- by (by eapply Hu). congruence.
  - left. split; [apply (Hother _ None); congruence|]. apply SetPath_paths in Hsp. by rewrite Hsp.
  - left. apply core_Inject_paths in Hi. by rewrite Hi.
  - rewrite RemovePath_paths. destruct (decide (sid' = sid)) as [->|Hne].
    + right; left. assert (k' = k) as -> by congruence. rewrite lookup_insert_eq, bool_decide_eq_true_2 by done.
      by rewrite lookup_delete_eq.
    + left. rewrite lookup_insert_ne by done. split; [done|]. case_bool_decide; [|done].
      rewrite lookup_delete_ne; [done|]. intros <-. apply Hne. by eapply Hu.
  - apply SetPath_paths in Hsp. apply core_Inject_paths in Hi. rewrite Hi, Hsp.
    destruct (decide (src = k)) as [->|].
    + right; right. rewrite lookup_insert_eq. eauto.
    + left. by rewrite lookup_insert_ne.
  - left. apply SetPath_paths in Hsp. by rewrite Hsp.
Qed.

(** C12: what a direct session feeds into WireGuard.  The source is the session's key;
    a proof of possession of that key was accepted and the allowlist admitted it
    before; the datagram it came in named exactly this source and the local node;
    and it is not a path-discovery frame. *)
Theorem injected_payload_is_authentic local priv core ls sid k payload w :
  direct_trace local (dworld0 priv core) (ls ++ [DInject sid k payload]) w ->
  proof_accepted local k ls /\ was_allowed local (dworld0 priv core) ls k /\
  (exists b, b = encodeMasquePacket k local payload /\ direct_datagram local k b = Some payload) /\
  is_disco payload = false.
Proof.
  intros (w1 & Htr & Hst)%dtrace_snoc_inv. inversion Hst as [| | | | | | | | |a c r ss sid' k' b pl ipc now ch c' e Hl Hd Hi| | | | |]; subst.
  destruct (dsession_evidence _ (dworld0 priv core) _ _ eq_refl Htr _ _ Hl) as [Hp Ha]. split_and!; [done|done| |].
  - exists b. split; [|done]. unfold direct_datagram in Hd.
    destruct (decodeMasquePacket b) as [pkt|] eqn:Hb; [|done]. apply encode_decode in Hb as Hb'.
    destruct (_ || _) eqn:Ho; [done|]. destruct (is_disco _); [done|]. bool_to_prop. injection Hd as <-.
    by subst k local.
  - unfold direct_datagram in Hd. destruct (decodeMasquePacket b) as [pkt|]; [|done].
    destruct (_ || _); [done|]. destruct (is_disco _) eqn:Hx; [done|]. by injection Hd as <-.
Qed.
End properties.

Section admission_facts.
Context `{K : KeyOps} {KL : KeyLaws K} `{ML : MasqueLib}.

(** a direct endpoint goes on to reserve a key only for a direct-mode request
    whose CONNECT-UDP target is this node, whose source header names that non-zero
    key, whose proof for it was accepted and which the allowlist admits, and has
    not answered it yet; every other request is answered with an HTTP error. *)
Theorem direct_admits_only_proved_allowed_keys local core a now1 now2 order rand req a' res :
  (forall r t text s, ParseProxyRequest r t = inr (text, Some s) -> 400 <= s < 600) ->
  directAdmit local core a now1 now2 order rand req = (a', res) ->
  match res with
  | inl w => error_status w
  | inr (w, k) =>
      w = HTTP.newResponse /\ k <> NodePublicZero /\ local <> NodePublicZero /\
      HTTP.Get (rq_header req) masqueModeHeader = masqueModeDirect /\
      parseMasqueSource (rq_header req) = Ok k /\
      (exists target, parseMasqueTarget target = Ok local) /\
      verify a now1 (HTTP.Get (rq_header req) masqueProofHeader) k local masqueModeDirect = (a', true) /\
      peerAllowed core k = true
  end.
Proof.
  intros Hlib H. unfold directAdmit in H.
  destruct (masqueTemplateFor _) as [tmpl|e]; [|injection H as <- <-; by apply error_response].
  destruct (parseConnectUDPRequestAny _ _ _) as [w|target] eqn:Hp.
  { injection H as <- <-. eauto using parse_request_error. }
  destruct (negb _) eqn:Hm; [injection H as <- <-; by apply error_response|].
  destruct (parseMasqueTarget target) as [t|e] eqn:Ht; [|injection H as <- <-; by apply error_response].
  destruct (negb _) eqn:He in H; [injection H as <- <-; by apply error_response|]. bool_to_prop. subst t.
  destruct (parseMasqueSource _) as [src|e] eqn:Hs; [|injection H as <- <-; by apply error_response].
  destruct (IsZero src); [injection H as <- <-; by apply error_response|].
  destruct (authorize _ _ _ _ _ _ _ _ _ _ _) as [[a1 w1] ok] eqn:Ha.
  apply authorize_inv in Ha. destruct ok; [|by injection H as <- <-]. destruct Ha as (-> & Hz & Hz' & Hv).
  destruct (peerAllowed core src) eqn:Hal; simpl in H; injection H as <- <-; [|by apply error_response].
  split_and!; eauto.
Qed.
End admission_facts.

(** * Witnesses *)

Import ToyKeys.

Definition direct_local : NodePublic (KeyOps := toy) := Public (KeyOps := toy) (nkey 9).
Definition direct_token : gostring := Base64.EncodeToString (replicate 32 x05).
Definition direct_proof : gostring :=
  Base64.EncodeToString (SealTo (KeyOps := toy) [] (nkey 1) (nkey 9) direct_token).

Definition direct_auth0 : masqueAuthenticator (K := toy) := Authenticator (K := toy) (nkey 9) ∅.
Definition direct_auth1 : masqueAuthenticator (K := toy) :=
  (issue direct_auth0 7 [] (Ok (replicate 32 x05)) (nkey 1) direct_local masqueModeDirect []).1.
Definition direct_auth2 : masqueAuthenticator (K := toy) :=
  (verify direct_auth1 8 direct_proof (nkey 1) direct_local masqueModeDirect).1.
Definition direct_core0 : masqueCore (K := toy) := with_bind sample_core (Open (c_bind sample_core)).1.
Definition direct_core1 : masqueCore (K := toy) := (SetPath direct_core0 None (nkey 1) (session_path 7)).1.
Definition direct_core2 : masqueCore (K := toy) :=
  default direct_core1 (fst <$> core_Inject direct_core1 None 9 PreferData (nkey 1) [x05]).
Definition direct_res1 : directMasqueReservations (K := toy) := (direct_reserve (Reservations ∅) (nkey 1)).1.

Definition direct_sessions : gmap nat (dsession (K := toy)) :=
  <[7%nat := DActive (K := toy) (nkey 1)]> (<[7%nat := DReserved (K := toy) (nkey 1)]>
    (<[7%nat := DAllowed (K := toy) (nkey 1)]> (<[7%nat := DProved (K := toy) (nkey 1)]> ∅))).
Definition direct_world1 : dworld (K := toy) := DWorld direct_auth2 direct_core1 direct_res1 direct_sessions.
Definition direct_world2 : dworld (K := toy) := DWorld direct_auth2 direct_core2 direct_res1 direct_sessions.
Definition direct_issue : dlabel (K := toy) :=
  DAuth (EvIssue (K := toy) 7 (nkey 1) direct_local masqueModeDirect [] (Ok direct_token)).
Definition direct_verify : dlabel (K := toy) :=
  DAuth (EvVerify (K := toy) 8 direct_proof (nkey 1) direct_local masqueModeDirect true).
Definition direct_labels : list (dlabel (K := toy)) :=
  ((((([] ++ [direct_issue]) ++ [direct_verify]) ++ [DQuiet]) ++ [DQuiet]) ++ [DQuiet]).
Definition direct_datagram1 : list byte := encodeMasquePacket (K := toy) (nkey 1) direct_local [x05].
Definition direct_inject : dlabel (K := toy) := DInject (K := toy) 7 (nkey 1) [x05].

Lemma direct_world1_reachable :
  direct_trace direct_local (dworld0 (K := toy) (nkey 9 : NodePrivate (KeyOps := toy)) direct_core0) direct_labels direct_world1.
Proof.
  unfold direct_labels. repeat eapply dtrace_snoc; [apply dtrace_nil|..].
  - apply ds_auth. eapply (step_issue _ 7 [] (Ok (replicate 32 x05))); [reflexivity|by intros ? [= <-]|].
    assert ((issue direct_auth0 7 [] (Ok (replicate 32 x05)) (nkey 1 : NodePublic (KeyOps := toy)) direct_local masqueModeDirect []).2
            = Ok direct_token) as <- by vm_reflexivity.
    apply surjective_pairing.
  - apply (ds_proved _ _ _ _ _ _ _ _ direct_auth2 7); [done|].
    assert ((verify direct_auth1 8 direct_proof (nkey 1 : NodePublic (KeyOps := toy)) direct_local masqueModeDirect).2 = true) as <- by vm_reflexivity.
    apply surjective_pairing.
  - apply (ds_allowed _ _ _ _ _ 7 (nkey 1 : NodePublic (KeyOps := toy))); [apply lookup_insert_eq|vm_reflexivity].
  - apply (ds_reserve _ _ _ _ _ 7 (nkey 1 : NodePublic (KeyOps := toy)) direct_res1); [apply lookup_insert_eq|].
    assert ((direct_reserve (K := toy) (Reservations ∅) (nkey 1 : NodePublic (KeyOps := toy))).2 = true) as <- by vm_reflexivity.
    apply surjective_pairing.
  - apply (ds_path_set _ _ _ _ _ 7 (nkey 1 : NodePublic (KeyOps := toy)) None direct_core1); [apply lookup_insert_eq|].
    assert ((SetPath direct_core0 None (nkey 1 : NodePublic (KeyOps := toy)) (session_path 7)).2 = None) as <- by vm_reflexivity.
    apply surjective_pairing.
Qed.

Lemma direct_inject_step : direct_step direct_local direct_world1 direct_inject direct_world2.
Proof.
  eapply (ds_inject _ direct_auth2 direct_core1 direct_res1 direct_sessions 7 (nkey 1 : NodePublic (KeyOps := toy)) direct_datagram1 [x05]
    None 9 PreferData direct_core2 None).
  - apply lookup_insert_eq.
  - vm_reflexivity.
  - vm_reflexivity.
Qed.

Lemma one_direct_session_per_key_witness : is_Some (rs_peers direct_res1 !! nkey 1).
Proof.
  apply (one_direct_session_per_key direct_local (nkey 9 : NodePrivate (KeyOps := toy)) direct_core0 direct_labels direct_world1 eq_refl
           direct_world1_reachable).
  exists 7%nat, (DActive (K := toy) (nkey 1 : NodePublic (KeyOps := toy))). split_and!; [apply lookup_insert_eq|done|done].
Defined.

Lemma direct_return_path_witness :
  exists p, b_paths (c_bind direct_core1) !! (nkey 1 : NodePublic (KeyOps := toy)) = Some p.
Proof.
  destruct (direct_return_path direct_local (nkey 9 : NodePrivate (KeyOps := toy)) direct_core0 direct_labels direct_world1 _ _ eq_refl
    direct_world1_reachable direct_inject_step) as [_ H].
  apply (H 7%nat (nkey 1 : NodePublic (KeyOps := toy))). apply lookup_insert_eq.
Defined.

Lemma injected_payload_is_authentic_witness :
  proof_accepted direct_local (nkey 1 : NodePublic (KeyOps := toy)) direct_labels /\ is_disco [x05] = false.
Proof.
  destruct (injected_payload_is_authentic direct_local (nkey 9 : NodePrivate (KeyOps := toy)) direct_core0 direct_labels 7 (nkey 1 : NodePublic (KeyOps := toy)) [x05]
    direct_world2) as (H1 & _ & _ & H2); [|done].
  eapply dtrace_snoc; [apply direct_world1_reachable|apply direct_inject_step].
Defined.

(** A direct request of key 1 with a proof. *)
Definition direct_request : request :=
  Request (B "CONNECT") (B "connect-udp") 3
    (Some (Url.MkURL [] (masqueTarget (K := toy) direct_local) None [] [] [] false false [] [] []))
    (B "peer.example")
    {[ masqueModeHeader := [masqueModeDirect];
       masqueSourceHeader := [KeyString (KeyOps := toy) (nkey 1 : NodePublic (KeyOps := toy))];
       masqueProofHeader := [direct_proof] ]} true (B "1.2.3.4:5").

Lemma direct_admits_only_proved_allowed_keys_witness :
  peerAllowed direct_core0 (nkey 1 : NodePublic (KeyOps := toy)) = true /\ parseMasqueSource (K := toy) (rq_header direct_request) = Ok (nkey 1 : NodePublic (KeyOps := toy)).
Proof.
  assert (directAdmit (K := toy) (ML := toy_lib) direct_local direct_core0 direct_auth1 8 8
    (fun a => map_to_list (pending a)) (Err (ErrExt 0)) direct_request
    = (direct_auth2, inr (HTTP.newResponse, nkey 1 : NodePublic (KeyOps := toy)))) as H by vm_reflexivity.
  destruct (direct_admits_only_proved_allowed_keys (K := toy) (ML := toy_lib) _ _ _ _ _ _ _ _ _ _
    ltac:(intros r t text s; simpl; destruct (rq_url r); [done|]; intros [= <- <-]; lia) H)
    as (_ & _ & _ & _ & ? & _ & _ & ?).
  done.
Defined.
