(* ===== verification/Capsule.v ===== *)
(** Capsule: HTTP datagrams as DATAGRAM capsules of an HTTP/2 stream.

    Models [masqueCapsuleStream] and [masqueH2PacketConn] of src/masquecat_h2.go.
    The stream's reader is the bytes it still yields and the error that ends it;
    QUIC variable-length integers are the parameter [VarintOps]. *)

From S2P Require Import Prelude GoStd Keys Packet.
From Stdlib Require Import Strings.Byte.

(** src/masquecat_h2.go:34-34 [masqueDatagramCapsule] *)
Definition masqueDatagramCapsule : Z := 0.
(** src/masquecat_h2.go:35-35 [maxMasqueCapsuleSize] *)
Definition maxMasqueCapsuleSize : Z := Z.shiftl 64 10.

(** * io *)

Record reader : Type := Reader { rd_data : list byte; rd_end : gerror }.

(** [io.ReadFull] into a buffer of [n] bytes *)
Definition ReadFull (r : reader) (n : Z) : result (list byte) * reader :=
  if n <=? zlen (rd_data r) then
    (Ok (take (Z.to_nat n) (rd_data r)), Reader (drop (Z.to_nat n) (rd_data r)) (rd_end r))
  else
    (Err (match rd_data r with
          | [] => rd_end r
          | _ => if is_eof (rd_end r) then IOErrUnexpectedEOF else rd_end r
          end), Reader [] (rd_end r)).

(** [io.CopyN(io.Discard, r, n)] *)
Definition DiscardN (r : reader) (n : Z) : option gerror * reader :=
  if n <=? zlen (rd_data r) then (None, Reader (drop (Z.to_nat n) (rd_data r)) (rd_end r))
  else (Some (rd_end r), Reader [] (rd_end r)).

Section capsule.
Context `{V : VarintOps}.

(** src/masquecat_h2.go:126-141 [readMasqueQUICVarint] *)
Definition readMasqueQUICVarint (r : reader) : result Z * reader :=
  match ReadFull r 1 with
  | (Err e, r) => (Err e, r)
  | (Ok first, r) =>
      let first := default x00 (head first) in
      let n := varint_len_of_first first in
      match (if 1 <? n then ReadFull r (n - 1) else (Ok [], r)) with
      | (Err e, r) => (Err e, r)
      | (Ok rest, r) =>
          (match VarintParse (first :: rest) with Ok (v, _) => Ok v | Err e => Err e end, r)
      end
  end.

(** src/masquecat_h2.go:93-124 [masqueCapsuleStream.ReceiveDatagram]; [ctx i] is the
    context's error at the [i]-th round, and [None] means that the fuel is spent. *)
Fixpoint ReceiveDatagram_fuel (fuel : nat) (ctx : nat -> option gerror) (i : nat) (r : reader)
    : option (result (list byte) * reader) :=
  match fuel with
  | O => None
  | S fuel =>
      match ctx i with
      | Some e => Some (Err e, r)
      | None =>
          match readMasqueQUICVarint r with
          | (Err e, r) => Some (Err e, r)
          | (Ok capsuleType, r) =>
              match readMasqueQUICVarint r with
              | (Err e, r) => Some (Err e, r)
              | (Ok capsuleLen, r) =>
                  if negb (capsuleType =? masqueDatagramCapsule) then
                    if maxMasqueCapsuleSize <? capsuleLen then
                      Some (Err (ErrNew "masquecat: HTTP/2 capsule too large: %d"), r)
                    else
                      match DiscardN r capsuleLen with
                      | (Some e, r) => Some (Err e, r)
                      | (None, r) => ReceiveDatagram_fuel fuel ctx (S i) r
                      end
                  else if maxMasqueCapsuleSize <? capsuleLen then
                    Some (Err (ErrNew "masquecat: HTTP/2 DATAGRAM capsule too large: %d"), r)
                  else
                    match ReadFull r capsuleLen with
                    | (Err e, r) => Some (Err e, r)
                    | (Ok b, r) => Some (Ok b, r)
                    end
              end
          end
      end
  end.

(** src/masquecat_h2.go:93-124 [masqueCapsuleStream.ReceiveDatagram]: every round but
    the last consumes a byte, so this fuel never runs out. *)
Definition ReceiveDatagram (ctx : nat -> option gerror) (r : reader)
    : option (result (list byte) * reader) :=
  ReceiveDatagram_fuel (S (length (rd_data r))) ctx 0 r.

(** src/masquecat_h2.go:85-91 [masqueCapsuleStream.SendDatagram], the frame it writes *)
Definition datagramFrame (b : list byte) : list byte :=
  VarintEncode masqueDatagramCapsule ++ VarintEncode (zlen b) ++ b.

(** src/masquecat_h2.go:61-69 [masqueCapsuleStream.Write]: the count and error, and
    whether the stream is flushed. *)
Definition capsule_Write (w : list byte -> Z * option gerror) (has_flush : bool) (p : list byte)
    : Z * option gerror * bool :=
  let '(n, err) := w p in
  (n, err, match err with None => has_flush | Some _ => false end).

(** src/masquecat_h2.go:85-91 [masqueCapsuleStream.SendDatagram] *)
Definition SendDatagram (w : list byte -> Z * option gerror) (has_flush : bool) (b : list byte) : option gerror :=
  let '(_, err, _) := capsule_Write w has_flush (datagramFrame b) in err.

(** src/masquecat_h2.go:45-55 [masqueCapsuleStream]: the results its [closeWriter]
    and its reader's [Close] give, and the outcome of the first [Close]. *)
Record masqueCapsuleStream : Type := CapsuleStream {
  cs_closeWriter : option (option gerror);   (* [None]: no [closeWriter] *)
  cs_closeReader : option (option gerror);   (* [None]: nil reader *)
  cs_closed : option (option gerror);
}.

(** src/masquecat_h2.go:71-83 [masqueCapsuleStream.Close] *)
Definition capsule_Close (s : masqueCapsuleStream) : masqueCapsuleStream * option gerror :=
  match cs_closed s with
  | Some e => (s, e)
  | None =>
      let errs := (match cs_closeWriter s with Some e => [e] | None => [] end) ++
                  (match cs_closeReader s with Some e => [e] | None => [] end) in
      let e := errors_join errs in
      (CapsuleStream (cs_closeWriter s) (cs_closeReader s) (Some e), e)
  end.

(** Receive the next datagram of context 0: [receiveStreamDatagram] over the
    stream's own [ReceiveDatagram]; fuel as there. *)
Fixpoint h2_receive_fuel (fuel : nat) (ctx : nat -> option gerror) (r : reader)
    : option (result (list byte) * reader) :=
  match fuel with
  | O => None
  | S fuel =>
      match ReceiveDatagram ctx r with
      | None => None
      | Some (Err e, r) => Some (Err e, r)
      | Some (Ok b, r) =>
          match receiveStreamDatagram [Ok b] with
          | Some (res, _) => Some (res, r)
          | None => h2_receive_fuel fuel ctx r
          end
      end
  end.

(** src/masquecat_h2.go:148-158 [masqueH2PacketConn.ReadFrom] with a buffer of
    [buflen] bytes *)
Definition h2_ReadFrom (ctx : nat -> option gerror) (r : reader) (buflen : Z)
    : option (result (list byte) * reader) :=
  match h2_receive_fuel (S (length (rd_data r))) ctx r with
  | None => None
  | Some (Err e, r) => Some (Err e, r)
  | Some (Ok b, r) =>
      Some (guard! negb (buflen <? zlen b) or IOErrShortBuffer in Ok b, r)
  end.

(** src/masquecat_h2.go:160-168 [masqueH2PacketConn.WriteTo] *)
Definition h2_WriteTo (w : list byte -> Z * option gerror) (has_flush : bool) (p : list byte) : result Z :=
  match SendDatagram w has_flush (contextIDZero ++ p) with
  | Some e => Err e
  | None => Ok (zlen p)
  end.
End capsule.

(** * Lemmas *)

Section facts.
Context `{V : VarintOps} {VL : VarintLaws V}.

Lemma ReadFull_app l rest e :
  ReadFull (Reader (l ++ rest) e) (zlen l) = (Ok l, Reader rest e).
Proof.
  unfold ReadFull, zlen. simpl. rewrite length_app. rewrite (proj2 (Z.leb_le _ _)) by lia.
  rewrite Nat2Z.id, take_app_length, drop_app_length. done.
Qed.

Lemma ReadFull_inv r n res r' :
  0 <= n -> ReadFull r n = (res, r') ->
  match res with
  | Ok l => rd_data r = l ++ rd_data r' /\ zlen l = n
  | Err _ => rd_data r' = [] /\ zlen (rd_data r) < n
  end.
Proof.
  intros Hn. unfold ReadFull. destruct (n <=? zlen (rd_data r)) eqn:E; intros [= <- <-]; simpl; bool_to_prop.
  - rewrite take_drop. split; [done|]. unfold zlen in *. rewrite length_take. lia.
  - done.
Qed.

Lemma varint_len_pos b : 1 <= varint_len_of_first b <= 8.
Proof.
  unfold varint_len_of_first. rewrite Z.shiftr_div_pow2, Z.shiftl_1_l by lia.
  pose proof (b2z_range b). change (2 ^ 6) with 64.
  assert (0 <= b2z b / 64 < 4) as Hd by (split; [apply Z.div_pos; lia|apply Z.div_lt_upper_bound; lia]).
  assert (b2z b / 64 = 0 \/ b2z b / 64 = 1 \/ b2z b / 64 = 2 \/ b2z b / 64 = 3) as Hc by lia.
  destruct Hc as [-> |[-> |[-> | ->]]]; lia.
Qed.

(** An integer written by [quicvarint.Append] reads back. *)
Lemma readVarint_encode v rest e :
  0 <= v < 2 ^ 62 -> readMasqueQUICVarint (Reader (VarintEncode v ++ rest) e) = (Ok v, Reader rest e).
Proof.
  intros Hv. destruct (varint_encode_len v Hv) as (b & l & Henc & Hlen).
  unfold readMasqueQUICVarint. rewrite Henc. change ((b :: l) ++ rest) with ([b] ++ (l ++ rest)).
  change 1 with (zlen [b]) at 1. rewrite ReadFull_app. simpl default. rewrite <- Hlen, zlen_cons.
  assert (VarintParse (b :: l) = Ok (v, zlen (b :: l))) as Hp.
  { rewrite <- Henc. rewrite <- (app_nil_r (VarintEncode v)) at 1. by apply varint_parse_encode. }
  destruct (1 <? 1 + zlen l) eqn:E; bool_to_prop.
  - replace (1 + zlen l - 1) with (zlen l) by lia. rewrite ReadFull_app. by rewrite Hp.
  - destruct l; [|rewrite zlen_cons in E; pose proof (zlen_nonneg l); lia]. by rewrite Hp.
Qed.

Lemma readVarint_shorter r v r' : readMasqueQUICVarint r = (Ok v, r') -> (length (rd_data r') < length (rd_data r))%nat.
Proof.
  unfold readMasqueQUICVarint. destruct (ReadFull r 1) as [[first|e] r1] eqn:H1; [|done].
  apply ReadFull_inv in H1 as [-> Hl1]; [|lia]. rewrite length_app. unfold zlen in Hl1.
  destruct (1 <? _) eqn:E.
  - destruct (ReadFull r1 _) as [[rest|e] r2] eqn:H2; [|done].
    apply ReadFull_inv in H2 as [-> Hl2]; [|bool_to_prop; lia]. intros [= _ <-]. rewrite length_app. lia.
  - intros [= _ <-]. lia.
Qed.

(** A receive that produced a datagram within the limit, consuming some of the [n]
    bytes, or an error; in particular the fuel was enough. *)
Definition received (n : nat) (x : option (result (list byte) * reader)) : Prop :=
  match x with
  | None => False
  | Some (Ok b, r') => (length (rd_data r') < n)%nat /\ zlen b <= maxMasqueCapsuleSize
  | Some (Err _, _) => True
  end.

Lemma receive_total fuel ctx i r :
  (length (rd_data r) < fuel)%nat -> received (length (rd_data r)) (ReceiveDatagram_fuel fuel ctx i r).
Proof.
  revert i r. induction fuel as [|fuel IH]; intros i r Hf; [lia|]. simpl.
  destruct (ctx i); [done|].
  destruct (readMasqueQUICVarint r) as [[t|e] r1] eqn:H1; [|done]. apply readVarint_shorter in H1.
  destruct (readMasqueQUICVarint r1) as [[l|e] r2] eqn:H2; [|done]. apply readVarint_shorter in H2.
  destruct (negb (t =? masqueDatagramCapsule)).
  - destruct (maxMasqueCapsuleSize <? l); [done|]. destruct (DiscardN r2 l) as [[e|] r3] eqn:H3; [done|].
    assert (length (rd_data r3) <= length (rd_data r2))%nat.
    { unfold DiscardN in H3. destruct (l <=? _) in H3; [|done]. injection H3 as <-. simpl. rewrite length_drop. lia. }
    specialize (IH (S i) r3 ltac:(lia)). destruct (ReceiveDatagram_fuel fuel ctx (S i) r3) as [[[b|e] r4]|]; try done.
    destruct IH. split; [lia|done].
  - destruct (maxMasqueCapsuleSize <? l) eqn:El; [done|]. destruct (ReadFull r2 l) as [[b|e] r3] eqn:H3; [|done].
    unfold ReadFull in H3. destruct (l <=? _) eqn:Eb in H3; [|done]. injection H3 as <- <-. simpl. bool_to_prop.
    assert (maxMasqueCapsuleSize = 65536) by done.
    rewrite length_drop. split; [lia|]. unfold zlen in *. rewrite length_take. lia.
Qed.

(** A capsule of another type, within the size limit. *)
Definition other_capsule (c : list byte) : Prop :=
  exists t b, 0 < t < 2 ^ 62 /\ zlen b <= maxMasqueCapsuleSize /\ c = VarintEncode t ++ VarintEncode (zlen b) ++ b.

Lemma receive_frame fuel ctx i b rest e :
  zlen b <= maxMasqueCapsuleSize -> ctx i = None ->
  ReceiveDatagram_fuel (S fuel) ctx i (Reader (datagramFrame b ++ rest) e) = Some (Ok b, Reader rest e).
Proof.
  intros Hb Hc. unfold datagramFrame. simpl. rewrite Hc, <- !app_assoc. pose proof (zlen_nonneg b).
  assert (maxMasqueCapsuleSize = 65536) as Hm by done.
  rewrite !readVarint_encode by (unfold masqueDatagramCapsule; lia). simpl.
  rewrite (proj2 (Z.ltb_ge _ _)) by done. by rewrite ReadFull_app.
Qed.

Lemma receive_skips fuel ctx i noise rest e :
  Forall other_capsule noise -> (forall j, ctx j = None) -> (length noise <= fuel)%nat ->
  ReceiveDatagram_fuel fuel ctx i (Reader (concat noise ++ rest) e) =
  ReceiveDatagram_fuel (fuel - length noise) ctx (i + length noise) (Reader rest e).
Proof.
  intros Hn Hc. revert fuel i. induction Hn as [|c noise (t & b & Ht & Hb & ->) _ IH]; intros fuel i Hf; simpl.
  { by rewrite Nat.add_0_r, Nat.sub_0_r. }
  destruct fuel as [|fuel]; [simpl in Hf; lia|]. simpl. rewrite Hc, <- !app_assoc. pose proof (zlen_nonneg b).
  assert (maxMasqueCapsuleSize = 65536) as Hm by done.
  rewrite !readVarint_encode by lia. rewrite (proj2 (Z.eqb_neq t _)) by (unfold masqueDatagramCapsule; lia). simpl.
  rewrite (proj2 (Z.ltb_ge _ _)) by done. unfold DiscardN. simpl. rewrite zlen_app.
  pose proof (zlen_nonneg (concat noise ++ rest)). rewrite (proj2 (Z.leb_le _ _)) by lia.
  unfold zlen. rewrite Nat2Z.id, drop_app_length, IH by (simpl in Hf; lia).
  f_equal; lia.
Qed.
End facts.

(** * Input that grows *)

Section prefixes.
Context `{V : VarintOps}.

Definition extend (r : reader) (k : list byte) : reader := Reader (rd_data r ++ k) (rd_end r).

Lemma ReadFull_extend r n l r' k : ReadFull r n = (Ok l, r') -> ReadFull (extend r k) n = (Ok l, extend r' k).
Proof.
  unfold ReadFull. destruct (n <=? zlen (rd_data r)) eqn:E; intros [= <- <-]; bool_to_prop. simpl.
  rewrite zlen_app. pose proof (zlen_nonneg k). rewrite (proj2 (Z.leb_le _ _)) by lia.
  unfold zlen in *. rewrite take_app_le, drop_app_le by lia. done.
Qed.

Lemma readVarint_extend r v r' k :
  readMasqueQUICVarint r = (Ok v, r') -> readMasqueQUICVarint (extend r k) = (Ok v, extend r' k).
Proof.
  unfold readMasqueQUICVarint. destruct (ReadFull r 1) as [[first|e] r1] eqn:H1; [|done].
  rewrite (ReadFull_extend _ _ _ _ k H1). destruct (1 <? _).
  - destruct (ReadFull r1 _) as [[rest|e] r2] eqn:H2; [|done].
    rewrite (ReadFull_extend _ _ _ _ k H2). by intros [= -> ->].
  - by intros [= -> ->].
Qed.

(** A datagram that was received from some input is received from more input. *)
Lemma receive_extend fuel ctx i r b r' k fuel' :
  (fuel <= fuel')%nat ->
  ReceiveDatagram_fuel fuel ctx i r = Some (Ok b, r') ->
  ReceiveDatagram_fuel fuel' ctx i (extend r k) = Some (Ok b, extend r' k).
Proof.
  revert fuel' i r. induction fuel as [|fuel IH]; intros fuel' i r Hle; [done|].
  destruct fuel' as [|fuel']; [lia|]. simpl. destruct (ctx i); [done|].
  destruct (readMasqueQUICVarint r) as [[t|e] r1] eqn:H1; [|done]. rewrite (readVarint_extend _ _ _ k H1).
  destruct (readMasqueQUICVarint r1) as [[l|e] r2] eqn:H2; [|done]. rewrite (readVarint_extend _ _ _ k H2).
  destruct (negb (t =? masqueDatagramCapsule)).
  - destruct (maxMasqueCapsuleSize <? l); [done|]. unfold DiscardN. simpl.
    destruct (l <=? zlen (rd_data r2)) eqn:E; [|done]. intros H. bool_to_prop.
    rewrite zlen_app. pose proof (zlen_nonneg k). rewrite (proj2 (Z.leb_le _ _)) by lia.
    apply (IH fuel') in H; [|lia]. unfold extend in H at 1. simpl in H.
    rewrite drop_app_le by (unfold zlen in *; lia). exact H.
  - destruct (maxMasqueCapsuleSize <? l); [done|].
    destruct (ReadFull r2 l) as [[x|e] r3] eqn:H3; [|done]. rewrite (ReadFull_extend _ _ _ _ k H3).
    by intros [= -> ->].
Qed.
End prefixes.

(** * Properties *)

Section properties.
Context `{V : VarintOps} {VL : VarintLaws V}.

(** What a receiver ignores: another capsule type or another HTTP datagram context. *)
Definition ignored (c : list byte) : Prop :=
  other_capsule c \/
  exists d v n, c = datagramFrame d /\ zlen d <= maxMasqueCapsuleSize /\ VarintParse d = Ok (v, n) /\ v <> 0.

Lemma encode_nonempty v : 0 <= v < 2 ^ 62 -> VarintEncode v <> [].
Proof. intros Hv. by destruct (varint_encode_len v Hv) as (b & l & -> & _). Qed.

Lemma ignored_pos c : ignored c -> (1 <= length c)%nat.
Proof.
  intros [(t & b & Ht & _ & ->)|(d & _ & _ & -> & _)]; unfold datagramFrame; rewrite length_app.
  - assert (VarintEncode t <> []) by (apply encode_nonempty; lia). destruct (VarintEncode t); simpl; [done|lia].
  - assert (VarintEncode masqueDatagramCapsule <> []) by by apply encode_nonempty.
    destruct (VarintEncode masqueDatagramCapsule); simpl; [done|lia].
Qed.

(** One receive passes the other capsules in front of a datagram. *)
Lemma ReceiveDatagram_frame ctx others b rest e :
  (forall j, ctx j = None) -> Forall other_capsule others -> zlen b <= maxMasqueCapsuleSize ->
  ReceiveDatagram ctx (Reader (concat others ++ datagramFrame b ++ rest) e) = Some (Ok b, Reader rest e).
Proof.
  intros Hc Ho Hb. unfold ReceiveDatagram. simpl rd_data.
  assert (length others <= length (concat others ++ datagramFrame b ++ rest))%nat as Hl.
  { rewrite length_app. clear Hb. induction Ho as [|c others Hoc _ IH]; simpl; [lia|].
    assert (1 <= length c)%nat by (apply ignored_pos; by left). rewrite length_app. lia. }
  rewrite receive_skips by (done || lia).
  destruct (S _ - length others)%nat as [|fuel] eqn:E; [lia|]. by apply receive_frame.
Qed.

Lemma h2_receive_noise ctx noise p rest e :
  (forall j, ctx j = None) -> Forall ignored noise -> zlen (contextIDZero ++ p) <= maxMasqueCapsuleSize ->
  forall others fuel, Forall other_capsule others -> (length noise < fuel)%nat ->
  h2_receive_fuel fuel ctx (Reader (concat others ++ concat noise ++ datagramFrame (contextIDZero ++ p) ++ rest) e)
  = Some (Ok p, Reader rest e).
Proof.
  intros Hc Hn Hp. induction Hn as [|c noise Hig Hn IH]; intros others fuel Ho Hf; destruct fuel as [|fuel]; try (simpl in Hf; lia).
  - simpl. rewrite ReceiveDatagram_frame by done. cbn [receiveStreamDatagram]. unfold contextIDZero.
    rewrite varint_parse_encode by lia. simpl. unfold zlen. by rewrite Nat2Z.id, drop_app_length.
  - destruct Hig as [Hother|(d & v & n & -> & Hd & Hv & Hne)].
    + specialize (IH (others ++ [c]) (S fuel)). rewrite concat_app in IH. cbn [concat] in *.
      rewrite app_nil_r, <- !app_assoc in IH. rewrite <- !app_assoc.
      apply IH; [|simpl in Hf; lia]. apply Forall_app. by repeat constructor.
    + cbn [concat]. rewrite <- app_assoc. cbn [h2_receive_fuel]. rewrite ReceiveDatagram_frame by done.
      cbn [receiveStreamDatagram]. rewrite Hv, (proj2 (Z.eqb_neq v 0)) by done. simpl.
      apply (IH [] fuel); [constructor|simpl in Hf; lia].
Qed.

Lemma h2_receive_total fuel ctx r :
  (length (rd_data r) < fuel)%nat -> is_Some (h2_receive_fuel fuel ctx r).
Proof.
  revert r. induction fuel as [|fuel IH]; intros r Hf; [lia|]. simpl.
  assert (received (length (rd_data r)) (ReceiveDatagram ctx r)) as H by (apply receive_total; lia).
  destruct (ReceiveDatagram ctx r) as [[[b|e] r']|]; [|eauto|done]. simpl in H.
  repeat case_match; simplify_eq/=; eauto. apply IH. lia.
Qed.

(** what the packet connection writes on one side it reads on the other: past any
    capsules of other types and datagrams of other contexts, up to 64 KiB each, the
    reader yields exactly the packet and leaves what follows. *)
Theorem h2_packet_roundtrip ctx w has_flush noise p rest e buflen :
  (forall j, ctx j = None) -> Forall ignored noise -> zlen (contextIDZero ++ p) <= maxMasqueCapsuleSize ->
  zlen p <= buflen ->
  h2_WriteTo w has_flush p =
    match snd (w (datagramFrame (contextIDZero ++ p))) with None => Ok (zlen p) | Some e => Err e end /\
  h2_ReadFrom ctx (Reader (concat noise ++ datagramFrame (contextIDZero ++ p) ++ rest) e) buflen
  = Some (Ok p, Reader rest e).
Proof.
  intros Hc Hn Hp Hl. split.
  - unfold h2_WriteTo, SendDatagram, capsule_Write. by destruct (w _) as [n [err|]].
  - unfold h2_ReadFrom. simpl rd_data. rewrite (h2_receive_noise ctx noise p rest e Hc Hn Hp []); [|constructor|].
    + by rewrite (proj2 (Z.ltb_ge _ _)) by lia.
    + rewrite !length_app. clear Hp. induction Hn as [|c noise Hi _ IH]; simpl; [lia|].
      apply ignored_pos in Hi. rewrite length_app. lia.
Qed.

(** C19: the receive loops always end, on any input, and a datagram they yield is at
    most 64 KiB.  A datagram whose capsule was cut short is never delivered: on a
    proper prefix of its frame the receiver gets an error. *)
Theorem receive_is_total_and_bounded ctx r buflen :
  received (length (rd_data r)) (ReceiveDatagram ctx r) /\
  is_Some (h2_ReadFrom ctx r buflen) /\
  (forall b k, k <> [] -> rd_data r ++ k = datagramFrame b -> zlen b <= maxMasqueCapsuleSize ->
     (forall j, ctx j = None) -> exists e r', ReceiveDatagram ctx r = Some (Err e, r')).
Proof.
  assert (received (length (rd_data r)) (ReceiveDatagram ctx r)) as Hrec by (apply receive_total; lia).
  split; [done|]. split.
  - unfold h2_ReadFrom. destruct (h2_receive_total (S (length (rd_data r))) ctx r) as [[[b|e] r'] ->]; [lia| |];
      eauto.
  - intros b k Hk Hr Hb Hc. destruct (ReceiveDatagram ctx r) as [[[x|e] r']|] eqn:Hx; [|eauto|done]. exfalso.
    apply (receive_extend _ _ _ _ _ _ k (S (length (datagramFrame b)))) in Hx.
    2: { rewrite <- Hr, length_app. lia. }
    unfold extend in Hx at 1. rewrite Hr, <- (app_nil_r (datagramFrame b)) in Hx.
    rewrite receive_frame in Hx by done. injection Hx as _ Hnil. by destruct (rd_data r'), k.
Qed.
End properties.

(** * Witnesses *)

Import ToyVarint.

Definition sample_capsules : list (list byte) :=
  [VarintEncode (VarintOps := toy_varint) 5 ++ VarintEncode (VarintOps := toy_varint) 3 ++ [x01; x02; x03];
   datagramFrame (V := toy_varint) [x02; x07]].

Lemma h2_packet_roundtrip_witness :
  h2_ReadFrom (V := toy_varint) (fun _ => None)
    (Reader (concat sample_capsules ++ datagramFrame (contextIDZero ++ [x05; x06]) ++ [x01]) IOEOF) 1500
  = Some (Ok [x05; x06], Reader [x01] IOEOF).
Proof.
  apply (h2_packet_roundtrip (VL := toy_varint_laws) (fun _ => None) (fun p => (zlen p, None)) true
    sample_capsules [x05; x06] [x01] IOEOF 1500); [done| |done|done].
  constructor; [|constructor; [|constructor]].
  - left. exists 5, [x01; x02; x03]. split_and!; [lia|lia|done|done].
  - right. exists [x02; x07], 2, 1. split_and!; [done|done|vm_reflexivity|done].
Defined.

Lemma receive_is_total_and_bounded_witness :
  exists e r', ReceiveDatagram (V := toy_varint) (fun _ => None) (Reader [x00; x03; x01] IOEOF) = Some (Err e, r').
Proof.
  apply (receive_is_total_and_bounded (VL := toy_varint_laws) (fun _ => None) (Reader [x00; x03; x01] IOEOF) 0)
    with (b := [x01; x02; x03]) (k := [x02; x03]); [done|vm_reflexivity|done|done].
Defined.
