(* ===== verification/H2.v ===== *)
(** H2: what the HTTP/2 server and client share.

    Frames, the pipe that carries a stream's body, header fields, and the
    flow-control windows, from src/masquecat_h2.go and src/masquecat_h2_client.go.
    The HTTP/2 framer and HPACK are third-party code: a frame is received and
    written as a value, and a header block is its list of fields. *)

From S2P Require Import Prelude GoStd Keys Packet Auth Url Endpoint.
From Stdlib Require Import Strings.Byte.

(** src/masquecat_h2.go:37-37 [masqueH2InitialWindow] *)
Definition masqueH2InitialWindow : Z := Z.shiftl 1 20.
(** src/masquecat_h2.go:38-38 [masqueH2MaxHeaderListSize] *)
Definition masqueH2MaxHeaderListSize : Z := Z.shiftl 64 10.

Definition IOErrClosedPipe : gerror := ErrNew "io: read/write on closed pipe".

(** * Frames *)

(** An [hpack.HeaderField]. *)
Definition field : Type := gostring * gostring.

(** A setting: its identifier and value. *)
Definition setting : Type := Z * Z.
Definition SettingMaxConcurrentStreams : Z := 3.
Definition SettingInitialWindowSize : Z := 4.
Definition SettingMaxFrameSize : Z := 5.
Definition SettingMaxHeaderListSize : Z := 6.
Definition SettingEnableConnectProtocol : Z := 8.
Definition ErrCodeRefusedStream : Z := 7.

(** Received frames, as the framer delivers them. *)
Inductive iframe : Type :=
  | FSettings (ack : bool) (settings : list setting)
  | FPing (ack : bool) (data : list byte)
  | FWindowUpdate (sid increment : Z)
  | FMetaHeaders (sid : Z) (fields : list field) (ended truncated : bool)
  | FData (sid : Z) (data : list byte) (length : Z) (ended : bool)
  | FRSTStream (sid code : Z)
  | FGoAway
  | FOther.

(** Written frames. *)
Inductive oframe : Type :=
  | OSettings (settings : list setting)
  | OSettingsAck
  | OPing (ack : bool) (data : list byte)
  | OWindowUpdate (sid increment : Z)
  | OHeaders (sid : Z) (fields : list field) (ended : bool)
  | OData (sid : Z) (data : list byte) (ended : bool)
  | ORSTStream (sid code : Z).

(** What a read yields: a frame, a timeout, or another error (of the read, or of
    setting its deadline). *)
Inductive read_event : Type :=
  | EvFrame (f : iframe)
  | EvTimeout (e : gerror)
  | EvReadErr (e : gerror).

(** * io.Pipe

    The bytes handed to the reading side so far, and how each side was closed.  A
    write blocks until its bytes are read; here it is one step. *)

Record pipe : Type := Pipe {
  pp_data : list byte;
  pp_wclosed : option gerror;
  pp_rclosed : option gerror;
}.
Definition newPipe : pipe := Pipe [] None None.

Definition pipe_Write (p : pipe) (data : list byte) : pipe * option gerror :=
  match pp_wclosed p, pp_rclosed p with
  | Some _, _ => (p, Some IOErrClosedPipe)
  | None, Some e => (p, Some e)
  | None, None => (Pipe (pp_data p ++ data) None None, None)
  end.

(** [CloseWithError] of the writer; the first call counts. *)
Definition pipe_CloseWithError (p : pipe) (e : gerror) : pipe :=
  Pipe (pp_data p) (match pp_wclosed p with None => Some e | Some e0 => Some e0 end) (pp_rclosed p).
Definition pipe_Close (p : pipe) : pipe := pipe_CloseWithError p IOEOF.

(** * Flow control

    The windows the peer has granted, in bytes. *)

Record flow : Type := Flow {
  peerConnWindow : Z;
  peerStreamWindow : Z;
  peerInitialWindow : Z;
  peerMaxFrameSize : Z;
}.
Definition newFlow : flow := Flow 65535 65535 65535 16384.

(** SETTINGS_INITIAL_WINDOW_SIZE adjusts an open stream by the difference. *)
Definition set_initial_window (f : flow) (stream : bool) (v : Z) : flow :=
  let delta := v - peerInitialWindow f in
  Flow (peerConnWindow f) (if stream then peerStreamWindow f + delta else peerStreamWindow f) v
    (peerMaxFrameSize f).
Definition set_max_frame (f : flow) (v : Z) : flow :=
  Flow (peerConnWindow f) (peerStreamWindow f) (peerInitialWindow f) v.
Definition reset_stream_window (f : flow) : flow :=
  Flow (peerConnWindow f) (peerInitialWindow f) (peerInitialWindow f) (peerMaxFrameSize f).

(** A WINDOW_UPDATE for the connection or the stream [sid]. *)
Definition add_window (f : flow) (streamID sid inc : Z) : flow :=
  if sid =? 0 then
    Flow (peerConnWindow f + inc) (peerStreamWindow f) (peerInitialWindow f) (peerMaxFrameSize f)
  else if sid =? streamID then
    Flow (peerConnWindow f) (peerStreamWindow f + inc) (peerInitialWindow f) (peerMaxFrameSize f)
  else f.

Definition window_overflow (f : flow) : bool :=
  (2 ^ 31 - 1 <? peerConnWindow f) || (2 ^ 31 - 1 <? peerStreamWindow f).

(** What a peer's setting does to the windows; [stream]: whether the stream is open. *)
Definition apply_setting (stream : bool) (f : flow) (s : setting) : flow :=
  let '(id, v) := s in
  if id =? SettingInitialWindowSize then set_initial_window f stream v
  else if id =? SettingMaxFrameSize then set_max_frame f v
  else f.

(** One round of a writer that wants [want] bytes: what it takes from the windows. *)
Definition reserve_once (f : flow) (want : Z) : option (Z * flow) :=
  let available := peerConnWindow f in
  let available := if peerStreamWindow f <? available then peerStreamWindow f else available in
  let available := if peerMaxFrameSize f <? available then peerMaxFrameSize f else available in
  let available := if want <? available then want else available in
  if 0 <? available then
    Some (available, Flow (peerConnWindow f - available) (peerStreamWindow f - available)
                       (peerInitialWindow f) (peerMaxFrameSize f))
  else None.

(** What wakes a writer that found no window: a signal, after which the windows are
    [f]; the end of the connection or of the context; or its own timer. *)
Inductive wake : Type :=
  | WakeFlow (f : flow)
  | WakeDone
  | WakeContext (e : gerror)
  | WakeTimeout.

(** * Header fields *)

(** [sort.Strings]: byte-wise order. *)
Fixpoint str_leb (a b : gostring) : bool :=
  match a, b with
  | [], _ => true
  | _ :: _, [] => false
  | x :: a', y :: b' => if b2z x <? b2z y then true else if b2z y <? b2z x then false else str_leb a' b'
  end.
Definition str_le (a b : gostring) : Prop := str_leb a b = true.
#[global] Instance str_le_dec : RelDecision str_le.
Proof. intros a b. unfold str_le. apply bool_eq_dec. Defined.
Definition SortStrings (l : list gostring) : list gostring := merge_sort str_le l.

(** src/masquecat_h2_client.go:307-314 [isMasqueH2HopByHopHeader] *)
Definition isMasqueH2HopByHopHeader (name : gostring) : bool :=
  bool_decide (name = B "connection") || bool_decide (name = B "keep-alive") ||
  bool_decide (name = B "proxy-connection") || bool_decide (name = B "transfer-encoding") ||
  bool_decide (name = B "upgrade").

(** The loop over the sorted keys of both encoders. *)
Definition header_fields (header : gmap gostring (list gostring)) : list field :=
  let keys := SortStrings (map_to_list header).*1 in
  concat ((fun key =>
    let name := Strings.ToLower key in
    if Strings.HasPrefix name (B ":") || isMasqueH2HopByHopHeader name then []
    else (fun value => (name, value)) <$> default [] (header !! key)) <$> keys).

(** src/masquecat_h2_client.go:265-271 [encodeMasqueH2RequestHeaders], the path *)
Definition request_path (u : Url.URL) : gostring :=
  let path := Url.EscapedPath u in
  let path := if bool_decide (path = []) then B "/" else path in
  if bool_decide (Url.RawQuery u = []) then path else path ++ B "?" ++ Url.RawQuery u.

(** src/masquecat_h2_client.go:264-305 [encodeMasqueH2RequestHeaders] *)
Definition encodeMasqueH2RequestHeaders (u : Url.URL) (headers : gmap gostring (list gostring)) : list field :=
  let path := request_path u in
  [(B ":method", B "CONNECT"); (B ":protocol", masqueConnectUDPProtocol); (B ":scheme", B "https");
   (B ":authority", Url.Host u); (B ":path", path)] ++ header_fields headers.

(** src/masquecat_h2.go:896-919 [encodeMasqueH2ResponseHeaders] *)
Definition encodeMasqueH2ResponseHeaders (statusCode : Z) (header : gmap gostring (list gostring)) : list field :=
  (B ":status", Strconv.Itoa statusCode) :: header_fields header.

(** The fields read so far of a request. *)
Record requestFields : Type := RequestFields {
  rf_method : gostring;
  rf_scheme : gostring;
  rf_authority : gostring;
  rf_path : gostring;
  rf_protocol : gostring;
  rf_hdr : gmap gostring (list gostring);
}.

(** src/masquecat_h2.go:771-788 [masqueH2RequestFromFields], one field *)
Definition request_field (s : requestFields) (f : field) : requestFields :=
  let '(name, value) := f in
  let '(RequestFields m sc a p pr h) := s in
  if bool_decide (name = B ":method") then RequestFields value sc a p pr h
  else if bool_decide (name = B ":scheme") then RequestFields m value a p pr h
  else if bool_decide (name = B ":authority") then RequestFields m sc value p pr h
  else if bool_decide (name = B ":path") then RequestFields m sc a value pr h
  else if bool_decide (name = B ":protocol") then RequestFields m sc a p value h
  else if negb (Strings.HasPrefix name (B ":")) then RequestFields m sc a p pr (HTTP.Add h name value)
  else s.

(** src/masquecat_h2.go:768-818 [masqueH2RequestFromFields] *)
Definition masqueH2RequestFromFields (remoteAddr : gostring) (fields : list field) : result request :=
  let '(RequestFields method scheme authority path protocol hdr) :=
    foldl request_field (RequestFields [] [] [] [] [] ∅) fields in
  guard! negb (bool_decide (method = []) || bool_decide (authority = []) || bool_decide (path = []))
    or ErrNew "masquecat: incomplete HTTP/2 request pseudo-headers" in
  let hdr := if bool_decide (protocol = []) then hdr else HTTP.Set_ hdr (B ":protocol") protocol in
  match Url.ParseRequestURI path with
  | Err e => Err (ErrWrap "masquecat: parse HTTP/2 :path: %w" e)
  | Ok u =>
      let u := if bool_decide (scheme = []) then u else Url.with_scheme u scheme in
      Ok (Request method (B "HTTP/2.0") 2 (Some u) authority hdr true remoteAddr)
  end.

(** An [*http.Response] as the client uses it. *)
Record response : Type := Response {
  rs_Status : gostring;
  rs_StatusCode : Z;
  rs_Header : gmap gostring (list gostring);
}.

(** src/masquecat_h2_client.go:494-506 [masqueH2ClientConn.handleResponseHeaders],
    the loop over the fields *)
Fixpoint response_fields (fields : list field) (statusCode : Z) (headers : gmap gostring (list gostring))
    : result (Z * gmap gostring (list gostring)) :=
  match fields with
  | [] => Ok (statusCode, headers)
  | (name, value) :: rest =>
      if bool_decide (name = B ":status") then
        match Strconv.Atoi value with
        | Err _ => Err (ErrNew "masquecat: invalid HTTP/2 :status %q")
        | Ok code => response_fields rest code headers
        end
      else
        response_fields rest statusCode
          (if negb (Strings.HasPrefix name (B ":")) then HTTP.Add headers name value else headers)
  end.

(** src/masquecat_h2_client.go:491-524 [masqueH2ClientConn.handleResponseHeaders],
    the response of a header frame *)
Definition responseFromFields (fields : list field) : result response :=
  let? (statusCode, headers) := response_fields fields 0 ∅ in
  guard! negb (statusCode =? 0) or ErrNew "masquecat: HTTP/2 response missing :status" in
  let statusText := HTTP.StatusText statusCode in
  let status := Strconv.Itoa statusCode in
  let status := if bool_decide (statusText = []) then status else status ++ B " " ++ statusText in
  Ok (Response status statusCode headers).

(** * Header lemmas *)

Section headers.

(** A canonical field name: a token written the way [CanonicalHeaderKey] writes it. *)
Definition canonical (k : gostring) : bool :=
  forallb HTTP.is_token_byte k && bool_decide (HTTP.CanonicalHeaderKey k = k).

(** Whether an encoder sends a header. *)
Definition sent_header (k : gostring) : bool := negb (isMasqueH2HopByHopHeader (Strings.ToLower k)).

Lemma byte_forall (P : byte -> bool) : forallb P (z2b <$> seqZ 0 256) = true -> forall b, P b = true.
Proof.
  intros H b. rewrite forallb_forall in H. apply H. apply list_elem_of_In, list_elem_of_fmap.
  exists (b2z b). rewrite z2b_b2z. split; [done|]. apply elem_of_seqZ. pose proof (b2z_range b). lia.
Qed.

Lemma lower_token b : HTTP.is_token_byte (Strings.lower b) = HTTP.is_token_byte b.
Proof.
  apply Bool.eqb_prop. revert b.
  apply (byte_forall (fun b => Bool.eqb (HTTP.is_token_byte (Strings.lower b)) (HTTP.is_token_byte b))).
  vm_compute. reflexivity.
Qed.

Lemma lower_case_idem b : Strings.lower (Strings.lower b) = Strings.lower b.
Proof.
  apply (bool_decide_eq_true (Strings.lower (Strings.lower b) = Strings.lower b)). revert b.
  apply (byte_forall (fun b => bool_decide (Strings.lower (Strings.lower b) = Strings.lower b))).
  vm_compute. reflexivity.
Qed.

Lemma upper_lower b : Strings.upper (Strings.lower b) = Strings.upper b.
Proof.
  apply (bool_decide_eq_true (Strings.upper (Strings.lower b) = Strings.upper b)). revert b.
  apply (byte_forall (fun b => bool_decide (Strings.upper (Strings.lower b) = Strings.upper b))).
  vm_compute. reflexivity.
Qed.

Lemma lower_dash b : bool_decide (Strings.lower b = "-"%byte) = bool_decide (b = "-"%byte).
Proof.
  apply Bool.eqb_prop. revert b.
  apply (byte_forall (fun b => Bool.eqb (bool_decide (Strings.lower b = "-"%byte)) (bool_decide (b = "-"%byte)))).
  vm_compute. reflexivity.
Qed.

Lemma canon_lower up k : HTTP.canon_from up (Strings.ToLower k) = HTTP.canon_from up k.
Proof.
  revert up. induction k as [|b k IH]; intros up; [done|]. unfold Strings.ToLower in *. cbn.
  rewrite lower_dash, IH. f_equal. destruct up; [apply upper_lower|apply lower_case_idem].
Qed.

(** The lower-case name of a canonical header is its name again. *)
Lemma canonical_lower k : canonical k = true -> HTTP.CanonicalHeaderKey (Strings.ToLower k) = k.
Proof.
  unfold canonical. intros [Ht Hk]%andb_true_iff. apply bool_decide_eq_true in Hk.
  unfold HTTP.CanonicalHeaderKey in *. rewrite Ht in Hk.
  assert (forallb HTTP.is_token_byte (Strings.ToLower k) = true) as ->.
  { unfold Strings.ToLower. rewrite forallb_forall in *. intros x Hx. apply list_elem_of_In, list_elem_of_fmap in Hx as (y & -> & Hy).
    rewrite lower_token. apply Ht. by apply list_elem_of_In. }
  by rewrite canon_lower.
Qed.

Lemma canonical_no_colon k : canonical k = true -> Strings.HasPrefix (Strings.ToLower k) (B ":") = false.
Proof.
  unfold canonical. intros [Ht _]%andb_true_iff. destruct k as [|b k]; [done|].
  simpl in Ht. apply andb_true_iff in Ht as [Ht _]. unfold Strings.HasPrefix, Strings.ToLower.
  change (B ":") with [":"%byte]. cbn.
  destruct (bool_decide_reflect (":"%byte = Strings.lower b)) as [Hb|]; [exfalso|done].
  assert (HTTP.is_token_byte (Strings.lower b) = true) as Hl by (by rewrite lower_token). rewrite <- Hb in Hl. done.
Qed.

(** The values of header [k] among fields. *)
Definition values_of (k : gostring) (l : list field) : list gostring :=
  omap (fun f => if bool_decide (HTTP.CanonicalHeaderKey f.1 = k) then Some f.2 else None) l.

Definition add_fields (h : gmap gostring (list gostring)) (l : list field) : gmap gostring (list gostring) :=
  foldl (fun h f => HTTP.Add h f.1 f.2) h l.

Lemma add_fields_lookup h l k :
  default [] (add_fields h l !! k) = default [] (h !! k) ++ values_of k l.
Proof.
  revert h. induction l as [|[n v] l IH]; intros h; simpl; [by rewrite app_nil_r|].
  unfold add_fields in *. simpl. rewrite IH. unfold HTTP.Add.
  destruct (decide (HTTP.CanonicalHeaderKey n = k)) as [<-|Hne].
  - rewrite lookup_insert_eq, bool_decide_eq_true_2 by done. simpl. by rewrite <- app_assoc.
  - rewrite lookup_insert_ne, bool_decide_eq_false_2 by done. done.
Qed.

Lemma values_of_app k l1 l2 : values_of k (l1 ++ l2) = values_of k l1 ++ values_of k l2.
Proof. apply omap_app. Qed.

(** The part of the encoder's output that comes from one key. *)
Definition key_fields (header : gmap gostring (list gostring)) (key : gostring) : list field :=
  let name := Strings.ToLower key in
  if Strings.HasPrefix name (B ":") || isMasqueH2HopByHopHeader name then []
  else (fun value => (name, value)) <$> default [] (header !! key).

Lemma values_of_key header k k' :
  canonical k' = true ->
  values_of k (key_fields header k') = if decide (k = k') then (if sent_header k then default [] (header !! k) else []) else [].
Proof.
  intros Hc. unfold key_fields, sent_header. rewrite canonical_no_colon by done. simpl.
  assert (forall l, values_of k ((fun value => (Strings.ToLower k', value)) <$> l) = if decide (k = k') then l else []) as Hv.
  { intros l. induction l as [|v l IH]; cbn; [by destruct (decide _)|]. rewrite canonical_lower by done.
    unfold values_of in IH. rewrite IH. destruct (decide (k = k')) as [<-|Hne].
    - by rewrite bool_decide_eq_true_2.
    - by rewrite bool_decide_eq_false_2. }
  destruct (decide (k = k')) as [<-|Hne].
  - destruct (isMasqueH2HopByHopHeader _); simpl; [done|]. rewrite Hv. by destruct (decide (k = k)).
  - destruct (isMasqueH2HopByHopHeader _); [done|]. rewrite Hv. by destruct (decide (k = k')).
Qed.

Lemma values_of_keys header k keys :
  NoDup keys -> Forall (fun k => canonical k = true) keys ->
  values_of k (concat (key_fields header <$> keys)) =
  if decide (k ∈ keys) then (if sent_header k then default [] (header !! k) else []) else [].
Proof.
  intros Hnd Hc. induction Hnd as [|k' keys Hni Hnd IH]; [done|]. inversion Hc; subst.
  cbn [fmap list_fmap concat]. rewrite values_of_app, values_of_key, IH by done.
  destruct (decide (k = k')) as [->|Hne].
  - rewrite decide_False by done. rewrite decide_True by set_solver. by rewrite app_nil_r.
  - simpl. destruct (decide (k ∈ keys)).
    + by rewrite decide_True by set_solver.
    + by rewrite decide_False by set_solver.
Qed.

(** The encoder's fields, added back, give every header but the hop-by-hop ones. *)
Lemma values_of_header_fields header k :
  (forall k', is_Some (header !! k') -> canonical k' = true) ->
  values_of k (header_fields header) = if sent_header k then default [] (header !! k) else [].
Proof.
  intros Hc. unfold header_fields.
  assert (SortStrings (map_to_list header).*1 ≡ₚ (map_to_list header).*1) as Hp by apply merge_sort_Permutation.
  change (fun key => _) with (key_fields header). rewrite values_of_keys.
  - destruct (decide _) as [Hin|Hni]; [done|]. rewrite Hp in Hni. destruct (header !! k) as [l|] eqn:Hk.
    + destruct Hni. apply list_elem_of_fmap. exists (k, l). split; [done|]. by apply elem_of_map_to_list.
    + by destruct (sent_header k).
  - rewrite Hp. apply NoDup_fst_map_to_list.
  - rewrite Hp. apply Forall_forall. intros k' ([? l] & -> & Hin%elem_of_map_to_list)%list_elem_of_fmap. eauto.
Qed.

(** No encoded field is a pseudo-header. *)
Lemma header_fields_names header n v : (n, v) ∈ header_fields header -> Strings.HasPrefix n (B ":") = false.
Proof.
  unfold header_fields. intros Hin. apply list_elem_of_In, in_concat in Hin as (l & Hl & Hn).
  apply list_elem_of_In, list_elem_of_fmap in Hl as (k & -> & _). apply list_elem_of_In in Hn.
  destruct (_ || _) eqn:E; [by apply elem_of_nil in Hn|]. bool_to_prop.
  by apply list_elem_of_fmap in Hn as (v' & [= -> ->] & _).
Qed.
End headers.

(** * Round trips *)

Section roundtrips.

Lemma not_pseudo n m : Strings.HasPrefix n (B ":") = false -> Strings.HasPrefix m (B ":") = true -> n <> m.
Proof. intros H1 H2 ->. congruence. Qed.

Lemma request_fields_plain m sc a p pr h l :
  (forall n v, (n, v) ∈ l -> Strings.HasPrefix n (B ":") = false) ->
  foldl request_field (RequestFields m sc a p pr h) l = RequestFields m sc a p pr (add_fields h l).
Proof.
  revert h. induction l as [|[n v] l IH]; intros h Hl; [done|]. cbn [foldl add_fields].
  assert (Strings.HasPrefix n (B ":") = false) as Hn by (eapply Hl; left).
  assert (request_field (RequestFields m sc a p pr h) (n, v) = RequestFields m sc a p pr (HTTP.Add h n v)) as ->.
  { unfold request_field. rewrite !bool_decide_eq_false_2 by (by apply not_pseudo). by rewrite Hn. }
  rewrite IH; [done|]. intros n' v' ?. apply (Hl n' v'). by right.
Qed.

Lemma response_fields_plain code h l :
  (forall n v, (n, v) ∈ l -> Strings.HasPrefix n (B ":") = false) ->
  response_fields l code h = Ok (code, add_fields h l).
Proof.
  revert h. induction l as [|[n v] l IH]; intros h Hl; [done|]. cbn [response_fields].
  assert (Strings.HasPrefix n (B ":") = false) as Hn by (eapply Hl; left).
  rewrite bool_decide_eq_false_2 by (by apply not_pseudo). rewrite Hn. simpl.
  apply IH. intros n' v' ?. apply (Hl n' v'). by right.
Qed.

(** The values of every header that is sent survive; the others are dropped. *)
Definition same_headers (h h' : gmap gostring (list gostring)) : Prop :=
  forall k, default [] (h' !! k) = if sent_header k then default [] (h !! k) else [].

Lemma same_headers_fields h :
  (forall k, is_Some (h !! k) -> canonical k = true) -> same_headers h (add_fields ∅ (header_fields h)).
Proof. intros Hc k. rewrite add_fields_lookup, lookup_empty. simpl. by apply values_of_header_fields. Qed.

Lemma same_headers_get h h' k :
  same_headers h h' -> sent_header (HTTP.CanonicalHeaderKey k) = true -> HTTP.Get h' k = HTTP.Get h k.
Proof.
  intros Hs Hk. specialize (Hs (HTTP.CanonicalHeaderKey k)). rewrite Hk in Hs. unfold HTTP.Get.
  destruct (h' !! _) as [[|v l]|], (h !! _) as [[|v' l']|]; simpl in Hs; by simplify_eq.
Qed.

(** an Extended CONNECT request survives HTTP/2.  The fields the client encodes
    parse at the server to a CONNECT request for the same authority, with the
    connect-udp protocol, the encoded path and every end-to-end header of the client,
    value by value; hop-by-hop headers are not transmitted. *)
Theorem h2_request_roundtrip remote u headers u' :
  (forall k, is_Some (headers !! k) -> canonical k = true) -> Url.Host u <> [] ->
  Url.ParseRequestURI (request_path u) = Ok u' ->
  exists hdr,
    masqueH2RequestFromFields remote (encodeMasqueH2RequestHeaders u headers) =
      Ok (Request (B "CONNECT") (B "HTTP/2.0") 2 (Some (Url.with_scheme u' (B "https"))) (Url.Host u) hdr true remote) /\
    HTTP.Get hdr (B ":protocol") = masqueConnectUDPProtocol /\
    (forall k, canonical k = true ->
       default [] (hdr !! k) = if sent_header k then default [] (headers !! k) else []) /\
    (forall k, HTTP.CanonicalHeaderKey k <> B ":protocol" -> sent_header (HTTP.CanonicalHeaderKey k) = true ->
       HTTP.Get hdr k = HTTP.Get headers k).
Proof.
  intros Hc Hhost Hu. unfold encodeMasqueH2RequestHeaders.
  assert (request_path u <> []) as Hp by (by intros Hp; rewrite Hp in Hu).
  pose proof (same_headers_fields headers Hc) as Hs.
  exists (HTTP.Set_ (add_fields ∅ (header_fields headers)) (B ":protocol") masqueConnectUDPProtocol).
  split_and!.
  - unfold masqueH2RequestFromFields. rewrite foldl_app.
    assert (foldl request_field (RequestFields [] [] [] [] [] ∅)
      [(B ":method", B "CONNECT"); (B ":protocol", masqueConnectUDPProtocol); (B ":scheme", B "https");
       (B ":authority", Url.Host u); (B ":path", request_path u)]
      = RequestFields (B "CONNECT") (B "https") (Url.Host u) (request_path u) masqueConnectUDPProtocol ∅) as -> by done.
    rewrite request_fields_plain by (intros n v; apply header_fields_names).
    rewrite (bool_decide_eq_false_2 _ Hhost), (bool_decide_eq_false_2 _ Hp). simpl. by rewrite Hu.
  - apply header_get_set.
  - intros k Hk. unfold HTTP.Set_. rewrite lookup_insert_ne; [apply Hs|].
    intros <-. by vm_compute in Hk.
  - intros k Hk Hsent. rewrite header_get_set_ne by done. by eapply same_headers_get.
Qed.

(** a response survives HTTP/2: the client reads the status the server wrote and
    every end-to-end header, value by value. *)
Theorem h2_response_roundtrip statusCode header :
  0 < statusCode < 2 ^ 63 -> (forall k, is_Some (header !! k) -> canonical k = true) ->
  exists resp, responseFromFields (encodeMasqueH2ResponseHeaders statusCode header) = Ok resp /\
    rs_StatusCode resp = statusCode /\ same_headers header (rs_Header resp) /\
    (forall k, sent_header (HTTP.CanonicalHeaderKey k) = true -> HTTP.Get (rs_Header resp) k = HTTP.Get header k).
Proof.
  intros Hs Hc. pose proof (same_headers_fields header Hc) as Hh.
  unfold responseFromFields, encodeMasqueH2ResponseHeaders. cbn [response_fields].
  rewrite bool_decide_eq_true_2 by done. rewrite atoi_itoa by lia.
  rewrite response_fields_plain by (intros n v; apply header_fields_names). simpl.
  rewrite (proj2 (Z.eqb_neq _ _)) by lia. simpl. eexists. split; [done|]. simpl.
  split_and!; [done|done|]. intros k Hk. by eapply same_headers_get.
Qed.
End roundtrips.

(** * Flow-control accounting *)

Section accounting.

Lemma ltb_min x y : (if y <? x then y else x) = Z.min x y.
Proof. destruct (y <? x) eqn:E; bool_to_prop; lia. Qed.

Lemma reserve_once_spec f want n f' :
  reserve_once f want = Some (n, f') ->
  1 <= n <= want /\ n <= peerMaxFrameSize f /\ n <= peerConnWindow f /\ n <= peerStreamWindow f /\
  f' = Flow (peerConnWindow f - n) (peerStreamWindow f - n) (peerInitialWindow f) (peerMaxFrameSize f).
Proof.
  unfold reserve_once. cbv zeta. rewrite !ltb_min. destruct (0 <? _) eqn:Ea; [|done].
  intros [= <- <-]. bool_to_prop. split_and!; try lia. done.
Qed.

Lemma reserve_once_None f want :
  0 < want -> reserve_once f want = None ->
  peerConnWindow f <= 0 \/ peerStreamWindow f <= 0 \/ peerMaxFrameSize f <= 0.
Proof.
  unfold reserve_once. cbv zeta. rewrite !ltb_min. intros Hw. destruct (0 <? _) eqn:Ea; [done|].
  intros _. bool_to_prop. lia.
Qed.

(** The chunks of a write: one frame per reservation. *)
Fixpoint write_chunks (fuel : nat) (reserve : nat -> Z -> result Z) (write : nat -> oframe -> option gerror)
    (sid : Z) (endStream : bool) (i : nat) (p : list byte) : option (list oframe * option gerror) :=
  match p with
  | [] => Some ([], None)
  | _ =>
      match fuel with
      | O => None
      | S fuel =>
          match reserve i (zlen p) with
          | Err e => Some ([], Some e)
          | Ok n =>
              let last := n =? zlen p in
              let fr := OData sid (take (Z.to_nat n) p) (endStream && last) in
              match write i fr with
              | Some e => Some ([], Some e)
              | None =>
                  match write_chunks fuel reserve write sid endStream (S i) (drop (Z.to_nat n) p) with
                  | None => None
                  | Some (l, e) => Some (fr :: l, e)
                  end
              end
          end
      end
  end.

Definition frame_data (fr : oframe) : list byte := match fr with OData _ d _ => d | _ => [] end.
Definition frame_ends (fr : oframe) : bool := match fr with OData _ _ e | OHeaders _ _ e => e | _ => false end.

(** The reservations a write may rely on. *)
Definition sound_reserve (reserve : nat -> Z -> result Z) : Prop :=
  forall i want n, 0 < want -> reserve i want = Ok n -> 1 <= n <= want.

Lemma write_chunks_spec fuel reserve write sid endStream i p :
  sound_reserve reserve -> (length p <= fuel)%nat ->
  exists l e, write_chunks fuel reserve write sid endStream i p = Some (l, e) /\
    concat (frame_data <$> l) `prefix_of` p /\
    match e with
    | Some _ => concat (frame_data <$> l) <> p /\ Forall (fun fr => frame_ends fr = false) l
    | None => concat (frame_data <$> l) = p /\
        (p <> [] -> exists l' fr, l = l' ++ [fr] /\ frame_ends fr = endStream /\
                    Forall (fun fr => frame_ends fr = false) l')
    end.
Proof.
  intros Hs. revert i p. induction fuel as [|fuel IH]; intros i p Hf.
  { destruct p; [|simpl in Hf; lia]. exists [], None. by split_and!. }
  destruct p as [|b p]; [exists [], None; by split_and!|]. cbn [write_chunks]. set (q := b :: p) in *.
  assert (0 < zlen q) as Hq by (unfold q; rewrite zlen_cons; pose proof (zlen_nonneg p); lia).
  destruct (reserve i (zlen q)) as [n|e] eqn:Hr.
  2: { exists [], (Some e). split_and!; try done. apply prefix_nil. }
  apply Hs in Hr; [|done]. destruct (write i _) as [e|].
  { exists [], (Some e). split_and!; try done. apply prefix_nil. }
  destruct (IH (S i) (drop (Z.to_nat n) q)) as (l & e & Hw & Hpre & Hres).
  { rewrite length_drop. unfold zlen in Hr. lia. }
  rewrite Hw. eexists _, e. split; [done|]. cbn [fmap list_fmap concat frame_data].
  assert (q = take (Z.to_nat n) q ++ drop (Z.to_nat n) q) as Hsplit by by rewrite take_drop.
  split; [rewrite Hsplit at 2; by apply prefix_app|]. destruct e as [e|].
  - destruct Hres as [Hne Hno]. split.
    + rewrite Hsplit at 2. intros H%app_inv_head. done.
    + constructor; [|done]. simpl. destruct (n =? zlen q) eqn:E; [|by rewrite andb_false_r].
      bool_to_prop. assert (drop (Z.to_nat n) q = []) as Hd by (apply drop_ge; unfold zlen in *; lia).
      rewrite Hd in *. by apply prefix_nil_inv in Hpre.
  - destruct Hres as [-> Hend]. split; [by rewrite take_drop|]. intros _.
    destruct (n =? zlen q) eqn:E; bool_to_prop.
    + assert (drop (Z.to_nat n) q = []) as Hd by (apply drop_ge; unfold zlen in E; lia).
      rewrite Hd in Hw. assert (l = []) as -> by (destruct fuel; cbn in Hw; congruence).
      exists [], (OData sid (take (Z.to_nat n) q) (endStream && true)). simpl. by rewrite andb_true_r.
    + destruct Hend as (l' & fr & -> & Hfr & Hno).
      { intros Hd. assert (length (drop (Z.to_nat n) q) = 0)%nat as Hl by (by rewrite Hd).
        rewrite length_drop in Hl. unfold zlen in *. lia. }
      eexists (_ :: l'), fr. split; [done|]. split; [done|]. constructor; [|done]. simpl. by rewrite andb_false_r.
Qed.
End accounting.

(** * Witnesses *)

Definition sample_request_headers : gmap gostring (list gostring) :=
  {[ B "Capsule-Protocol" := [B "?1"]; B "Masquecat-Mode" := [B "relay"]; B "Upgrade" := [B "x"] ]}.
Definition sample_url : Url.URL :=
  Url.MkURL (B "https") [] None (B "h:1") (B "/a b") [] false false (B "q=1") [] [].

Lemma h2_request_roundtrip_witness :
  exists hdr, masqueH2RequestFromFields [] (encodeMasqueH2RequestHeaders sample_url sample_request_headers)
    = Ok (Request (B "CONNECT") (B "HTTP/2.0") 2
        (Some (Url.MkURL (B "https") [] None [] (B "/a b") [] false false (B "q=1") [] [])) (B "h:1") hdr true []) /\
    HTTP.Get hdr (B "masquecat-mode") = B "relay" /\ HTTP.Get hdr (B "upgrade") = [].
Proof.
  destruct (h2_request_roundtrip [] sample_url sample_request_headers
    (Url.MkURL [] [] None [] (B "/a b") [] false false (B "q=1") [] [])) as (hdr & Hrq & _ & Hh & Hg).
  - intros k [v Hk]. unfold sample_request_headers in Hk.
    repeat apply lookup_insert_Some in Hk as [[<- _]|[_ Hk]]; [vm_reflexivity..|].
    by apply lookup_singleton_Some in Hk as [<- _].
  - done.
  - vm_reflexivity.
  - exists hdr. split_and!; [exact Hrq| |].
    + rewrite Hg by by_evaluation. vm_reflexivity.
    + unfold HTTP.Get. specialize (Hh (B "Upgrade") ltac:(vm_reflexivity)).
      change (HTTP.CanonicalHeaderKey (B "upgrade")) with (B "Upgrade").
      change (sent_header (B "Upgrade")) with false in Hh. by destruct (hdr !! _) as [[|]|].
Defined.

Lemma h2_response_roundtrip_witness :
  exists resp, responseFromFields (encodeMasqueH2ResponseHeaders 401 sample_request_headers) = Ok resp /\
    rs_StatusCode resp = 401 /\ HTTP.Get (rs_Header resp) (B "masquecat-mode") = B "relay".
Proof.
  destruct (h2_response_roundtrip 401 sample_request_headers) as (resp & Hr & Hc & _ & Hg).
  - lia.
  - intros k [v Hk]. unfold sample_request_headers in Hk.
    repeat apply lookup_insert_Some in Hk as [[<- _]|[_ Hk]]; [vm_reflexivity..|].
    by apply lookup_singleton_Some in Hk as [<- _].
  - exists resp. split_and!; [done|done|]. rewrite Hg by vm_reflexivity. vm_reflexivity.
Defined.
