(* ===== verification/H2Server.v ===== *)
(** H2Server: the dedicated HTTP/2 Extended CONNECT server.

    Models [masqueHTTP2Server], [masqueHTTP2Conn] and [masqueH2ResponseWriter] of
    src/masquecat_h2.go.  A write of a frame is given by its result; the frames that
    were written are part of each operation's outcome.  The read loop is a function
    of what its reads yield; a handler's writer and the read loop, which share the
    flow-control windows, are interleaved in [send_step] and [wait_step], the server's
    goroutines in [server_step]. *)

From S2P Require Import Prelude GoStd Keys Packet Auth Url Endpoint H2.
From Stdlib Require Import Strings.Byte.

(** * A connection *)

(** src/masquecat_h2.go:442-462 [masqueHTTP2Conn]; [sc_flowCh] is the buffered
    signal of [flowCh]. *)
Record masqueHTTP2Conn : Type := ServerConn {
  sc_flow : flow;
  sc_streamID : Z;
  sc_body : option pipe;
  sc_flowCh : bool;
  sc_done : bool;
}.

(** src/masquecat_h2.go:496-507 [masqueHTTP2Server.serveConn], the new connection *)
Definition newServerConn : masqueHTTP2Conn := ServerConn newFlow 0 None false false.

Definition with_flow (c : masqueHTTP2Conn) (f : flow) (signal : bool) : masqueHTTP2Conn :=
  ServerConn f (sc_streamID c) (sc_body c) (sc_flowCh c || signal) (sc_done c).
Definition with_body (c : masqueHTTP2Conn) (b : option pipe) : masqueHTTP2Conn :=
  ServerConn (sc_flow c) (sc_streamID c) b (sc_flowCh c) (sc_done c).

(** src/masquecat_h2.go:517-529 [masqueHTTP2Conn.close] *)
Definition server_close (c : masqueHTTP2Conn) : masqueHTTP2Conn :=
  if sc_done c then c
  else ServerConn (sc_flow c) (sc_streamID c)
         ((fun p => pipe_CloseWithError p NetErrClosed) <$> sc_body c) true true.

(** src/masquecat_h2.go:531-540 [masqueHTTP2Conn.writeFrame]: [write] gives the
    result of setting the deadline and of the write; the frames written. *)
Definition writeFrame (write : oframe -> option gerror) (fr : oframe) : list oframe * option gerror :=
  match write fr with
  | Some e => ([], Some e)
  | None => ([fr], None)
  end.

(** Frames written in order until a write fails. *)
Fixpoint writeFrames (write : oframe -> option gerror) (frs : list oframe) : list oframe * option gerror :=
  match frs with
  | [] => ([], None)
  | fr :: frs =>
      match writeFrame write fr with
      | (l, Some e) => (l, Some e)
      | (l, None) => let '(l', e) := writeFrames write frs in (l ++ l', e)
      end
  end.

(** src/masquecat_h2.go:551-565 [masqueHTTP2Conn.writeSettings] *)
Definition server_writeSettings (write : oframe -> option gerror) : list oframe * option gerror :=
  writeFrames write
    [OSettings [(SettingEnableConnectProtocol, 1); (SettingMaxConcurrentStreams, 1);
                (SettingInitialWindowSize, masqueH2InitialWindow);
                (SettingMaxHeaderListSize, masqueH2MaxHeaderListSize)];
     OWindowUpdate 0 (masqueH2InitialWindow - 65535)].

(** src/masquecat_h2.go:673-699 [masqueHTTP2Conn.handleSettings] *)
Definition server_handleSettings (c : masqueHTTP2Conn) (write : oframe -> option gerror) (ack : bool)
    (settings : list setting) : masqueHTTP2Conn * list oframe * option gerror :=
  if ack then (c, [], None)
  else
    let f := foldl (apply_setting (negb (sc_streamID c =? 0))) (sc_flow c) settings in
    let c := with_flow c f true in
    let '(l, e) := writeFrame write OSettingsAck in
    (c, l, e).

(** src/masquecat_h2.go:701-718 [masqueHTTP2Conn.handleWindowUpdate] *)
Definition server_handleWindowUpdate (c : masqueHTTP2Conn) (sid inc : Z) : masqueHTTP2Conn * option gerror :=
  let f := add_window (sc_flow c) (sc_streamID c) sid inc in
  if window_overflow f then
    (with_flow c f false, Some (ErrNew "masquecat: HTTP/2 flow-control window overflow"))
  else (with_flow c f true, None).

(** src/masquecat_h2.go:720-766 [masqueHTTP2Conn.startRequest]: the request its
    handler goroutine serves. *)
Definition startRequest (c : masqueHTTP2Conn) (remoteAddr : gostring) (sid : Z) (fields : list field)
    (ended : bool) : masqueHTTP2Conn * result request :=
  if (sid =? 0) || (sid mod 2 =? 0) then (c, Err (ErrNew "masquecat: invalid HTTP/2 CONNECT stream id"))
  else
    match masqueH2RequestFromFields remoteAddr fields with
    | Err e => (c, Err e)
    | Ok req =>
        if negb (bool_decide (rq_method req = B "CONNECT")) ||
           negb (bool_decide (HTTP.Get (rq_header req) (B ":protocol") = masqueConnectUDPProtocol)) then
          (c, Err (ErrNew "masquecat: expected HTTP/2 extended CONNECT-UDP"))
        else
          (ServerConn (reset_stream_window (sc_flow c)) sid
             (Some (if ended then pipe_Close newPipe else newPipe)) (sc_flowCh c) (sc_done c), Ok req)
    end.

(** What one round of the read loop does: the frames it wrote, the request it
    started, and the error that ends the loop. *)
Record round : Type := Round {
  rd_frames : list oframe;
  rd_started : option request;
  rd_exit : option gerror;
}.
Definition quiet : round := Round [] None None.

(** src/masquecat_h2.go:640-662 [masqueHTTP2Conn.readLoop], a DATA frame *)
Definition server_data (c : masqueHTTP2Conn) (write : oframe -> option gerror) (sid : Z) (data : list byte)
    (length : Z) (ended : bool) : masqueHTTP2Conn * round :=
  match sc_body c with
  | Some p =>
      if negb (sid =? sc_streamID c) then (c, quiet)
      else
        match (if bool_decide (data = []) then (p, None) else pipe_Write p data) with
        | (p, Some e) => (with_body c (Some p), Round [] None (Some e))
        | (p, None) =>
            let c := with_body c (Some p) in
            match (if length =? 0 then ([], None)
                   else writeFrames write [OWindowUpdate 0 length; OWindowUpdate (sc_streamID c) length]) with
            | (l, Some e) => (c, Round l None (Some e))
            | (l, None) => (if ended then with_body c (Some (pipe_Close p)) else c, Round l None None)
            end
        end
  | None => (c, quiet)
  end.

(** src/masquecat_h2.go:623-639 [masqueHTTP2Conn.readLoop], a header block *)
Definition server_headers (c : masqueHTTP2Conn) (write : oframe -> option gerror) (remoteAddr : gostring)
    (sid : Z) (fields : list field) (ended truncated : bool) : masqueHTTP2Conn * round :=
  if truncated then
    (c, Round [] None (Some (ErrNew "masquecat: HTTP/2 request headers exceed configured limit")))
  else if negb (sc_streamID c =? 0) then
    if negb (sid =? sc_streamID c) then
      (c, Round (writeFrame write (ORSTStream sid ErrCodeRefusedStream)).1 None None)
    else
      (if ended then with_body c (pipe_Close <$> sc_body c) else c, quiet)
  else
    match startRequest c remoteAddr sid fields ended with
    | (c, Err e) => (c, Round [] None (Some e))
    | (c, Ok req) => (c, Round [] (Some req) None)
    end.

(** src/masquecat_h2.go:608-669 [masqueHTTP2Conn.readLoop], one frame *)
Definition server_frame (c : masqueHTTP2Conn) (write : oframe -> option gerror) (remoteAddr : gostring)
    (f : iframe) : masqueHTTP2Conn * round :=
  match f with
  | FSettings ack settings =>
      let '(c, l, e) := server_handleSettings c write ack settings in (c, Round l None e)
  | FPing ack data =>
      if ack then (c, quiet)
      else let '(l, e) := writeFrame write (OPing true data) in (c, Round l None e)
  | FWindowUpdate sid inc =>
      let '(c, e) := server_handleWindowUpdate c sid inc in (c, Round [] None e)
  | FMetaHeaders sid fields ended truncated => server_headers c write remoteAddr sid fields ended truncated
  | FData sid data length ended => server_data c write sid data length ended
  | FRSTStream sid _ =>
      if sid =? sc_streamID c then
        (c, Round [] None (Some (ErrNew "masquecat: HTTP/2 CONNECT stream reset: %s")))
      else (c, quiet)
  | FGoAway => (c, Round [] None (Some IOEOF))
  | FOther => (c, quiet)
  end.

(** src/masquecat_h2.go:570-670 [masqueHTTP2Conn.readLoop], one round; [rand] is the
    payload of a new PING. *)
Definition server_round (c : masqueHTTP2Conn) (pingOutstanding : bool) (write : oframe -> option gerror)
    (rand : result (list byte)) (remoteAddr : gostring) (ev : read_event) : masqueHTTP2Conn * bool * round :=
  match ev with
  | EvReadErr e => (c, pingOutstanding, Round [] None (Some e))
  | EvTimeout e =>
      if sc_streamID c =? 0 then (c, pingOutstanding, Round [] None (Some e))
      else if pingOutstanding then
        (c, true, Round [] None (Some (ErrNew "masquecat: HTTP/2 client did not answer PING within %s")))
      else
        match rand with
        | Err e => (c, false, Round [] None (Some e))
        | Ok pingData =>
            match writeFrame write (OPing false pingData) with
            | (l, Some e) => (c, false, Round l None (Some e))
            | (l, None) => (c, true, Round l None None)
            end
        end
  | EvFrame f =>
      let pingOutstanding := if sc_streamID c =? 0 then pingOutstanding else false in
      let '(c, r) := server_frame c write remoteAddr f in
      (c, pingOutstanding, r)
  end.

(** The outside of one round: what is read, the random bytes and the write results. *)
Record round_env : Type := RoundEnv {
  re_event : read_event;
  re_rand : result (list byte);
  re_write : oframe -> option gerror;
}.

(** src/masquecat_h2.go:567-671 [masqueHTTP2Conn.readLoop]: the frames written, the
    requests started, and the error it returns ([None] while it still runs). *)
Fixpoint server_readLoop (c : masqueHTTP2Conn) (pingOutstanding : bool) (remoteAddr : gostring)
    (env : list round_env) : masqueHTTP2Conn * list oframe * list request * option gerror :=
  match env with
  | [] => (c, [], [], None)
  | e :: env =>
      let '(c, ping, r) := server_round c pingOutstanding (re_write e) (re_rand e) remoteAddr (re_event e) in
      let started := match rd_started r with Some q => [q] | None => [] end in
      match rd_exit r with
      | Some err => (c, rd_frames r, started, Some err)
      | None =>
          let '(c, l, qs, err) := server_readLoop c ping remoteAddr env in
          (c, rd_frames r ++ l, started ++ qs, err)
      end
  end.

(** * Writing *)

(** src/masquecat_h2.go:921-954 [masqueHTTP2Conn.reserveWriteWindow]; [None] while it
    still waits. *)
Fixpoint server_reserveWriteWindow (f : flow) (want : Z) (wakes : list wake) : option (result Z * flow) :=
  match reserve_once f want with
  | Some (n, f) => Some (Ok n, f)
  | None =>
      match wakes with
      | [] => None
      | WakeFlow f :: wakes => server_reserveWriteWindow f want wakes
      | WakeDone :: _ => Some (Err NetErrClosed, f)
      | WakeContext e :: _ => Some (Err e, f)
      | WakeTimeout :: _ => Some (Err (ErrNew "masquecat: HTTP/2 flow-control write timeout"), f)
      end
  end.

(** src/masquecat_h2.go:956-973 [masqueHTTP2Conn.writeData]; [reserve i] is the
    result of the [i]-th reservation.  A reservation takes at least one byte, so the
    length is enough fuel. *)
Definition server_writeData (reserve : nat -> Z -> result Z) (write : nat -> oframe -> option gerror)
    (sid : Z) (p : list byte) (endStream : bool) : option (list oframe * option gerror) :=
  match p with
  | [] => Some (writeFrame (write 0%nat) (OData sid [] endStream))
  | _ => write_chunks (length p) reserve write sid endStream 0 p
  end.

(** src/masquecat_h2.go:820-828 [masqueH2ResponseWriter] *)
Record masqueH2ResponseWriter : Type := H2ResponseWriter {
  hw_streamID : Z;
  hw_header : gmap gostring (list gostring);
  hw_wroteHeader : bool;
  hw_ended : bool;
}.

(** src/masquecat_h2.go:838-857 [masqueH2ResponseWriter.writeHeaderLocked] *)
Definition writeHeaderLocked (w : masqueH2ResponseWriter) (write : oframe -> option gerror) (statusCode : Z)
    : masqueH2ResponseWriter * list oframe * option gerror :=
  if hw_wroteHeader w || hw_ended w then (w, [], None)
  else
    let block := encodeMasqueH2ResponseHeaders statusCode (hw_header w) in
    match writeFrame write (OHeaders (hw_streamID w) block false) with
    | (l, Some e) => (w, l, Some e)
    | (l, None) => (H2ResponseWriter (hw_streamID w) (hw_header w) true (hw_ended w), l, None)
    end.

(** The calls a handler, and the end of its goroutine, make on the writer. *)
Inductive rw_op : Type :=
  | RWSetHeader (k v : gostring)
  | RWWriteHeader (statusCode : Z)
  | RWWrite (p : list byte)
  | RWFlush
  | RWFinish.

(** The outside of one call: the results of its reservations and writes. *)
Record rw_env : Type := RWEnv {
  rw_reserve : nat -> Z -> result Z;
  rw_write : nat -> oframe -> option gerror;
  rw_header_write : oframe -> option gerror;
}.

(** src/masquecat_h2.go:859-875 [masqueH2ResponseWriter.Write] *)
Definition rw_Write (w : masqueH2ResponseWriter) (env : rw_env) (p : list byte)
    : option (masqueH2ResponseWriter * list oframe * result Z) :=
  if hw_ended w then Some (w, [], Err NetErrClosed)
  else
    match writeHeaderLocked w (rw_header_write env) HTTP.StatusOK with
    | (w, l, Some e) => Some (w, l, Err e)
    | (w, l, None) =>
        if bool_decide (p = []) then Some (w, l, Ok 0)
        else
          match server_writeData (rw_reserve env) (rw_write env) (hw_streamID w) p false with
          | None => None
          | Some (l', Some e) => Some (w, l ++ l', Err e)
          | Some (l', None) => Some (w, l ++ l', Ok (zlen p))
          end
    end.

(** src/masquecat_h2.go:883-894 [masqueH2ResponseWriter.finish] *)
Definition rw_finish (w : masqueH2ResponseWriter) (env : rw_env)
    : option (masqueH2ResponseWriter * list oframe * option gerror) :=
  if hw_ended w then Some (w, [], None)
  else
    match writeHeaderLocked w (rw_header_write env) HTTP.StatusOK with
    | (w, l, Some e) => Some (w, l, Some e)
    | (w, l, None) =>
        let w := H2ResponseWriter (hw_streamID w) (hw_header w) (hw_wroteHeader w) true in
        match server_writeData (rw_reserve env) (rw_write env) (hw_streamID w) [] true with
        | None => None
        | Some (l', e) => Some (w, l ++ l', e)
        end
    end.

(** src/masquecat_h2.go:830-894 [masqueH2ResponseWriter], one call: the frames
    written and the error. *)
Definition rw_exec (w : masqueH2ResponseWriter) (env : rw_env) (op : rw_op)
    : option (masqueH2ResponseWriter * list oframe * option gerror) :=
  match op with
  | RWSetHeader k v =>
      Some (H2ResponseWriter (hw_streamID w) (HTTP.Set_ (hw_header w) k v) (hw_wroteHeader w) (hw_ended w), [], None)
  | RWWriteHeader statusCode => Some (writeHeaderLocked w (rw_header_write env) statusCode)
  | RWWrite p =>
      match rw_Write w env p with
      | None => None
      | Some (w, l, Ok _) => Some (w, l, None)
      | Some (w, l, Err e) => Some (w, l, Some e)
      end
  | RWFlush => Some (writeHeaderLocked w (rw_header_write env) HTTP.StatusOK)
  | RWFinish => rw_finish w env
  end.

(** A sequence of calls: all frames, and whether every call succeeded. *)
Fixpoint rw_run (w : masqueH2ResponseWriter) (ops : list (rw_op * rw_env))
    : option (masqueH2ResponseWriter * list oframe * bool) :=
  match ops with
  | [] => Some (w, [], true)
  | (op, env) :: ops =>
      match rw_exec w env op with
      | None => None
      | Some (w, l, e) =>
          match rw_run w ops with
          | None => None
          | Some (w, l', ok) => Some (w, l ++ l', match e with None => ok | Some _ => false end)
          end
      end
  end.

(** * The server: listeners, connections and Close

    Goroutines between their lock acquisitions: an accept loop per registered
    listener, one goroutine per connection, and [Close].  Listeners and connections
    are numbered; [hs_open] are the accepted connections that are not closed and
    [hs_bound] the listeners that are not. *)

(** An accept loop: in [Accept], holding a connection before the lock, or returning. *)
Inductive serve_state : Type :=
  | SAccept
  | SGot (conn : nat)
  | SReturn (e : gerror).

(** A connection's goroutine: serving, or done and its connection closed. *)
Inductive conn_state : Type := CServing | CClosed.

(** src/masquecat_h2.go:306-315 [masqueHTTP2Server], with its goroutines *)
Record masqueHTTP2Server : Type := H2Server {
  hs_closed : bool;
  hs_listeners : gset nat;
  hs_conns : gset nat;
  hs_wg : Z;
  hs_serve : gmap nat serve_state;
  hs_goroutines : gmap nat conn_state;
  hs_open : gset nat;
  hs_bound : gset nat;
  hs_returned : bool;                  (* [Close] returned *)
}.

(** A TLS configuration as far as the server rewrites it; [tc_GetConfigForClient] maps
    a client hello to a configuration. *)
Inductive tls_config : Type :=
  TLSConfig (MinVersion : Z) (NextProtos : list gostring)
    (GetConfigForClient : option (nat -> result (option (Z * list gostring)))).
Definition VersionTLS13 : Z := 772.
Definition NextProtoTLS : gostring := B "h2".

(** src/masquecat_h2.go:317-347 [newMasqueHTTP2Server]; [None] is a nil configuration. *)
Definition newMasqueHTTP2Server (tlsConfig : option tls_config) (has_handler : bool)
    : result (tls_config * masqueHTTP2Server) :=
  match tlsConfig with
  | None => Err (ErrNew "masquecat: nil HTTP/2 TLS config")
  | Some (TLSConfig _ _ get) =>
      guard! has_handler or ErrNew "masquecat: nil HTTP/2 handler" in
      let get' :=
        (fun f => fun hello =>
          match f hello with
          | Err e => Err e
          | Ok None => Ok None
          | Ok (Some (minVersion, _)) =>
              Ok (Some (if minVersion <? VersionTLS13 then VersionTLS13 else minVersion, [NextProtoTLS]))
          end) <$> get in
      Ok (TLSConfig VersionTLS13 [NextProtoTLS] get', H2Server false ∅ ∅ 0 ∅ ∅ ∅ ∅ false)
  end.

(** src/masquecat_h2.go:349-358 [masqueHTTP2Server.registerListener] *)
Definition registerListener (s : masqueHTTP2Server) (ln : nat) : masqueHTTP2Server * option gerror :=
  if hs_closed s then (s, Some HTTPErrServerClosed)
  else (H2Server (hs_closed s) ({[ln]} ∪ hs_listeners s) (hs_conns s) (hs_wg s + 1)
          (<[ln := SAccept]> (hs_serve s)) (hs_goroutines s) (hs_open s) (hs_bound s) (hs_returned s), None).

(** src/masquecat_h2.go:377-385 [masqueHTTP2Server.serveRegistered], a failed
    [Accept]: the error it returns *)
Definition accept_error (s : masqueHTTP2Server) (e : gerror) : gerror :=
  if hs_closed s || errors_is is_net_closed e then HTTPErrServerClosed else e.

(** src/masquecat_h2.go:375-385 [masqueHTTP2Server.serveRegistered], a failed [Accept] *)
Definition accept_fails (s : masqueHTTP2Server) (ln : nat) (e : gerror) : masqueHTTP2Server :=
  H2Server (hs_closed s) (hs_listeners s) (hs_conns s) (hs_wg s)
    (<[ln := SReturn (accept_error s e)]> (hs_serve s)) (hs_goroutines s) (hs_open s)
    (hs_bound s) (hs_returned s).

(** src/masquecat_h2.go:387-395 [masqueHTTP2Server.serveRegistered], under the lock,
    with accepted connection [conn] *)
Definition admit_conn (s : masqueHTTP2Server) (ln conn : nat) : masqueHTTP2Server :=
  if hs_closed s then
    H2Server true (hs_listeners s) (hs_conns s) (hs_wg s) (<[ln := SReturn HTTPErrServerClosed]> (hs_serve s))
      (hs_goroutines s) (hs_open s ∖ {[conn]}) (hs_bound s) (hs_returned s)
  else
    H2Server false (hs_listeners s) ({[conn]} ∪ hs_conns s) (hs_wg s + 1) (<[ln := SAccept]> (hs_serve s))
      (<[conn := CServing]> (hs_goroutines s)) (hs_open s) (hs_bound s) (hs_returned s).

(** src/masquecat_h2.go:368-373 [masqueHTTP2Server.serveRegistered], its deferred part *)
Definition serve_return (s : masqueHTTP2Server) (ln : nat) : masqueHTTP2Server :=
  H2Server (hs_closed s) (hs_listeners s ∖ {[ln]}) (hs_conns s) (hs_wg s - 1) (delete ln (hs_serve s))
    (hs_goroutines s) (hs_open s) (hs_bound s) (hs_returned s).

(** src/masquecat_h2.go:366-385 [masqueHTTP2Server.serveRegistered], from a failed [Accept]
    to its end: the accept loop's goroutine forgets the listener, which it does not close *)
Definition accept_loop_ends (s : masqueHTTP2Server) (ln : nat) (e : gerror) : masqueHTTP2Server :=
  match hs_serve s !! ln with
  | Some SAccept => serve_return (accept_fails s ln e) ln
  | _ => s
  end.

(** src/masquecat_h2.go:397-403 [masqueHTTP2Server.serveRegistered], the deferred part
    of a connection's goroutine: [c.Close()], then its removal *)
Definition conn_close (s : masqueHTTP2Server) (conn : nat) : masqueHTTP2Server :=
  H2Server (hs_closed s) (hs_listeners s) (hs_conns s) (hs_wg s) (hs_serve s)
    (<[conn := CClosed]> (hs_goroutines s)) (hs_open s ∖ {[conn]}) (hs_bound s) (hs_returned s).
Definition conn_remove (s : masqueHTTP2Server) (conn : nat) : masqueHTTP2Server :=
  H2Server (hs_closed s) (hs_listeners s) (hs_conns s ∖ {[conn]}) (hs_wg s - 1) (hs_serve s)
    (delete conn (hs_goroutines s)) (hs_open s) (hs_bound s) (hs_returned s).

(** src/masquecat_h2.go:409-437 [masqueHTTP2Server.Close], up to the wait: the
    registered listeners and connections are closed *)
Definition close_all (s : masqueHTTP2Server) : masqueHTTP2Server :=
  if hs_closed s then s
  else H2Server true (hs_listeners s) (hs_conns s) (hs_wg s) (hs_serve s) (hs_goroutines s)
         (hs_open s ∖ hs_conns s) (hs_bound s ∖ hs_listeners s) (hs_returned s).

Inductive server_step : masqueHTTP2Server -> masqueHTTP2Server -> Prop :=
  (** [net.Listen], then [registerListener]; on an error [startMasqueHTTP2] closes
      the listener again. *)
  | sv_listen s ln s' :
      ln ∉ hs_bound s -> hs_serve s !! ln = None -> registerListener s ln = (s', None) ->
      server_step s (H2Server (hs_closed s') (hs_listeners s') (hs_conns s') (hs_wg s') (hs_serve s')
                       (hs_goroutines s') (hs_open s') ({[ln]} ∪ hs_bound s') (hs_returned s'))
  | sv_accept s ln conn :
      hs_serve s !! ln = Some SAccept -> ln ∈ hs_bound s ->
      conn ∉ hs_open s -> hs_goroutines s !! conn = None ->
      server_step s (H2Server (hs_closed s) (hs_listeners s) (hs_conns s) (hs_wg s)
                       (<[ln := SGot conn]> (hs_serve s)) (hs_goroutines s) ({[conn]} ∪ hs_open s)
                       (hs_bound s) (hs_returned s))
  | sv_accept_error s ln e :
      hs_serve s !! ln = Some SAccept ->
      server_step s (accept_fails s ln e)
  | sv_admit s ln conn :
      hs_serve s !! ln = Some (SGot conn) -> server_step s (admit_conn s ln conn)
  | sv_return s ln e :
      hs_serve s !! ln = Some (SReturn e) -> server_step s (serve_return s ln)
  | sv_conn_close s conn :
      hs_goroutines s !! conn = Some CServing -> server_step s (conn_close s conn)
  | sv_conn_remove s conn :
      hs_goroutines s !! conn = Some CClosed -> server_step s (conn_remove s conn)
  | sv_close s : server_step s (close_all s)
  | sv_close_returns s :
      hs_closed s = true -> hs_wg s = 0 ->
      server_step s (H2Server true (hs_listeners s) (hs_conns s) (hs_wg s) (hs_serve s) (hs_goroutines s)
                       (hs_open s) (hs_bound s) true).

Lemma accept_loop_steps s ln e : rtc server_step s (accept_loop_ends s ln e).
Proof.
  unfold accept_loop_ends. destruct (hs_serve s !! ln) as [[| |]|] eqn:Hs; try done.
  eapply rtc_l; [by apply (sv_accept_error s ln e)|]. eapply rtc_l; [|apply rtc_refl].
  eapply (sv_return _ ln). apply lookup_insert_eq.
Qed.

Definition server0 : masqueHTTP2Server := H2Server false ∅ ∅ 0 ∅ ∅ ∅ ∅ false.

Record wf_server (s : masqueHTTP2Server) : Prop := {
  ws_wg : hs_wg s = Z.of_nat (size (hs_serve s)) + Z.of_nat (size (hs_goroutines s));
  ws_open c : c ∈ hs_open s ->
    (exists ln, hs_serve s !! ln = Some (SGot c)) \/ hs_goroutines s !! c = Some CServing;
  ws_listeners ln : ln ∈ hs_listeners s <-> is_Some (hs_serve s !! ln);
  ws_conns c : c ∈ hs_conns s <-> is_Some (hs_goroutines s !! c);
  ws_got ln c : hs_serve s !! ln = Some (SGot c) -> c ∈ hs_open s /\ hs_goroutines s !! c = None;
  ws_got_unique ln1 ln2 c : hs_serve s !! ln1 = Some (SGot c) -> hs_serve s !! ln2 = Some (SGot c) -> ln1 = ln2;
  ws_returned : hs_returned s = true -> hs_closed s = true /\ hs_wg s = 0;
}.

Lemma size_insert_over {A} (m : gmap nat A) k x : is_Some (m !! k) -> size (<[k := x]> m) = size m.
Proof. intros Hk. by rewrite map_size_insert_Some. Qed.

Lemma size_delete {A} (m : gmap nat A) k : is_Some (m !! k) -> Z.of_nat (size (delete k m)) = Z.of_nat (size m) - 1.
Proof.
  intros Hk. rewrite map_size_delete_Some by done. destruct Hk as [y Hy].
  assert (size m <> 0%nat). { intros H0%map_size_empty_inv. by rewrite H0, lookup_empty in Hy. } lia.
Qed.

(** The accept loop of [ln] moves on, holding no connection. *)
Lemma wf_serve_move s ln st op :
  wf_server s -> is_Some (hs_serve s !! ln) -> (forall c, st <> SGot c) ->
  (forall c, c ∈ op -> c ∈ hs_open s /\ hs_serve s !! ln <> Some (SGot c)) ->
  (forall ln' c, ln' <> ln -> hs_serve s !! ln' = Some (SGot c) -> c ∈ op) ->
  wf_server (H2Server (hs_closed s) (hs_listeners s) (hs_conns s) (hs_wg s) (<[ln := st]> (hs_serve s))
               (hs_goroutines s) op (hs_bound s) (hs_returned s)).
Proof.
  intros [Hw Ho Hl Hc Hg Hu Hr] Hs Hst Hop Hkeep. constructor; simpl.
  - by rewrite size_insert_over.
  - intros c [Hin Hne]%Hop. destruct (Ho _ Hin) as [[ln' Hln']|]; [left|by right]. exists ln'.
    rewrite lookup_insert_ne; [done|]. by intros <-.
  - intros ln'. rewrite Hl. destruct (decide (ln' = ln)) as [->|].
    + rewrite lookup_insert_eq. split; [eauto|done].
    + by rewrite lookup_insert_ne.
  - done.
  - intros ln' c [[<- ?]|[? Hln']]%lookup_insert_Some; [by destruct (Hst c)|].
    split; [by eapply Hkeep; [|done]|by eapply Hg].
  - intros ln1 ln2 c [[<- ?]|[? ?]]%lookup_insert_Some [[<- ?]|[? ?]]%lookup_insert_Some;
      [done|by destruct (Hst c)|by destruct (Hst c)|by eapply Hu].
  - done.
Qed.

Lemma wf_returned_idle s : wf_server s -> hs_returned s = true -> hs_serve s = ∅ /\ hs_goroutines s = ∅.
Proof.
  intros Hwf Hr. destruct (ws_returned _ Hwf Hr) as [_ H0]. pose proof (ws_wg _ Hwf).
  split; apply map_size_empty_inv; lia.
Qed.

Lemma step_wf_server s s' : wf_server s -> server_step s s' -> wf_server s'.
Proof.
  intros Hwf Hst. pose proof (wf_returned_idle s Hwf) as Hidle. pose proof Hwf as [Hw Ho Hl Hc Hg Hu Hr].
  destruct Hst as [s ln s1 Hb Hn Hreg|s ln conn Hs Hb Hno Hng|s ln e Hs|s ln conn Hs|s ln e Hs|s conn Hs|s conn Hs|s|s Hcl H0].
  - unfold registerListener in Hreg. destruct (hs_closed s) eqn:Hcl; [done|]. injection Hreg as <-.
    assert (hs_returned s = false) as Hret.
    { destruct (hs_returned s); [|done]. destruct Hr; [done|congruence]. }
    constructor; simpl.
    + rewrite map_size_insert_None by done. lia.
    + intros c [[ln' Hln']|]%Ho; [left|by right]. exists ln'. rewrite lookup_insert_ne; [done|]. intros <-. congruence.
    + intros ln'. rewrite elem_of_union, elem_of_singleton, Hl. destruct (decide (ln' = ln)) as [->|].
      * rewrite lookup_insert_eq. split; [eauto|by left].
      * rewrite lookup_insert_ne by done. split; [by intros [?|?]|by right].
    + done.
    + intros ln' c [[_ [=]]|[_ ?]]%lookup_insert_Some. by eapply Hg.
    + intros ln1 ln2 c [[_ [=]]|[_ ?]]%lookup_insert_Some [[_ [=]]|[_ ?]]%lookup_insert_Some. by eapply Hu.
    + by rewrite Hret.
  - constructor; simpl.
    + rewrite size_insert_over by eauto. lia.
    + intros c [->%elem_of_singleton|Hin]%elem_of_union.
      * left. exists ln. by rewrite lookup_insert_eq.
      * destruct (Ho _ Hin) as [[ln' Hln']|]; [left|by right]. exists ln'. rewrite lookup_insert_ne; [done|].
        intros <-. congruence.
    + intros ln'. rewrite Hl. destruct (decide (ln' = ln)) as [->|].
      * rewrite lookup_insert_eq. split; [eauto|done].
      * by rewrite lookup_insert_ne.
    + done.
    + intros ln' c [[_ [= <-]]|[_ Hln']]%lookup_insert_Some; [split; [set_solver|done]|].
      destruct (Hg _ _ Hln'). split; [set_solver|done].
    + intros ln1 ln2 c [[<- [= <-]]|[? H1]]%lookup_insert_Some [[<- [=]]|[? H2]]%lookup_insert_Some; [done| | |].
      * by apply Hg in H2 as [? _].
      * subst c. by apply Hg in H1 as [? _].
      * by eapply Hu.
    + intros Hret. destruct (Hidle Hret) as [He _]. by rewrite He, lookup_empty in Hs.
  - apply wf_serve_move; [done|eauto|done| |].
    + intros c Hin. split; [done|]. congruence.
    + intros ln' c _ Hln'. by eapply Hg.
  - unfold admit_conn. destruct (Hg _ _ Hs) as [Hin Hng]. destruct (hs_closed s) eqn:Hcl.
    + rewrite <- Hcl. apply wf_serve_move; [done|eauto|done| |].
      * intros c [Hc1 Hc2]%elem_of_difference. split; [done|]. rewrite Hs. intros [= <-]. by apply Hc2, elem_of_singleton.
      * intros ln' c Hne Hln'. apply elem_of_difference. split; [by eapply Hg|]. intros ->%elem_of_singleton.
        by apply Hne, (Hu _ _ conn).
    + assert (hs_returned s = false) as Hret.
      { destruct (hs_returned s); [|done]. destruct Hr; [done|congruence]. }
      constructor; simpl.
      * rewrite size_insert_over, map_size_insert_None by eauto. lia.
      * intros c Hc'. destruct (decide (c = conn)) as [->|]; [right; by rewrite lookup_insert_eq|].
        destruct (Ho _ Hc') as [[ln' Hln']|]; [left; exists ln'|right; by rewrite lookup_insert_ne].
        rewrite lookup_insert_ne; [done|]. intros <-. congruence.
      * intros ln'. rewrite Hl. destruct (decide (ln' = ln)) as [->|].
        -- rewrite lookup_insert_eq. split; [eauto|done].
        -- by rewrite lookup_insert_ne.
      * intros c. rewrite elem_of_union, elem_of_singleton, Hc. destruct (decide (c = conn)) as [->|].
        -- rewrite lookup_insert_eq. split; [eauto|by left].
        -- rewrite lookup_insert_ne by done. split; [by intros [?|?]|by right].
      * intros ln' c [[_ [=]]|[? Hln']]%lookup_insert_Some. destruct (Hg _ _ Hln') as [? ?]. split; [done|].
        rewrite lookup_insert_ne; [done|]. intros <-. by destruct (Hu ln ln' conn).
      * intros ln1 ln2 c [[_ [=]]|[_ ?]]%lookup_insert_Some [[_ [=]]|[_ ?]]%lookup_insert_Some. by eapply Hu.
      * by rewrite Hret.
  - constructor; simpl.
    + rewrite size_delete by eauto. lia.
    + intros c [[ln' Hln']|]%Ho; [left|by right]. exists ln'. rewrite lookup_delete_ne; [done|]. intros <-. congruence.
    + intros ln'. rewrite elem_of_difference, elem_of_singleton, Hl, lookup_delete_is_Some. naive_solver.
    + done.
    + intros ln' c [_ ?]%lookup_delete_Some. by eapply Hg.
    + intros ln1 ln2 c [_ ?]%lookup_delete_Some [_ ?]%lookup_delete_Some. by eapply Hu.
    + intros Hret. destruct (Hidle Hret) as [He _]. by rewrite He, lookup_empty in Hs.
  - assert (hs_returned s = true -> False) as Hnr.
    { intros Hret. destruct (Hidle Hret) as [_ He]. by rewrite He, lookup_empty in Hs. }
    constructor; simpl; [| |done| | |done|].
    + by rewrite size_insert_over by eauto.
    + intros c [Hin Hne]%elem_of_difference. rewrite elem_of_singleton in Hne.
      destruct (Ho _ Hin) as [|]; [by left|right]. by rewrite lookup_insert_ne.
    + intros c. rewrite Hc. destruct (decide (c = conn)) as [->|].
      * rewrite lookup_insert_eq. split; [eauto|by rewrite Hs; eauto].
      * by rewrite lookup_insert_ne.
    + intros ln c Hln. destruct (Hg _ _ Hln) as [? Hn]. rewrite elem_of_difference, elem_of_singleton.
      assert (c <> conn) by congruence. rewrite lookup_insert_ne by done. done.
    + by intros ?%Hnr.
  - assert (hs_returned s = true -> False) as Hnr.
    { intros Hret. destruct (Hidle Hret) as [_ He]. by rewrite He, lookup_empty in Hs. }
    constructor; simpl; [| |done| | |done|].
    + rewrite size_delete by eauto. lia.
    + intros c Hin. destruct (Ho _ Hin) as [|Hgc]; [by left|right]. rewrite lookup_delete_ne; [done|]. intros <-. congruence.
    + intros c. rewrite elem_of_difference, elem_of_singleton, Hc, lookup_delete_is_Some. naive_solver.
    + intros ln c Hln. destruct (Hg _ _ Hln) as [? Hn]. split; [done|]. by rewrite lookup_delete_None; right.
    + by intros ?%Hnr.
  - unfold close_all. destruct (hs_closed s) eqn:Hcl; [done|]. constructor; simpl; try done.
    + intros c [Hin _]%elem_of_difference. auto.
    + intros ln c Hln. destruct (Hg _ _ Hln) as [? Hn]. split; [|done]. apply elem_of_difference. split; [done|].
      rewrite Hc, Hn. by intros [].
    + intros Hret. destruct (Hr Hret). congruence.
  - constructor; simpl; try done.
Qed.

Lemma reachable_wf_server s : rtc server_step server0 s -> wf_server s.
Proof.
  assert (wf_server server0) as H0.
  { constructor; simpl.
    - done.
    - set_solver.
    - intros ln. rewrite lookup_empty. split; [set_solver|by intros []].
    - intros c. rewrite lookup_empty. split; [set_solver|by intros []].
    - intros ln c. by rewrite lookup_empty.
    - intros ln1 ln2 c. by rewrite lookup_empty.
    - done. }
  intros Hr. revert H0. induction Hr; [done|]. intros H0. by eapply IHHr, step_wf_server.
Qed.

(** * Responses *)

Section responses.

Definition newResponseWriter (sid : Z) : masqueH2ResponseWriter := H2ResponseWriter sid ∅ false false.

Definition op_payload (op : rw_op) : list byte := match op with RWWrite p => p | _ => [] end.

(** A chunk of the body. *)
Definition body_frame (sid : Z) (fr : oframe) : Prop := exists d, fr = OData sid d false.

(** What the client has seen of the response: nothing, or one header block, chunks of
    the body, and at most one final frame, which only an ended response has. *)
Definition response_shape (w : masqueH2ResponseWriter) (l : list oframe) : Prop :=
  if hw_wroteHeader w then
    exists code header chunks final,
      l = OHeaders (hw_streamID w) (encodeMasqueH2ResponseHeaders code header) false :: chunks ++ final /\
      Forall (body_frame (hw_streamID w)) chunks /\
      (final = [] \/ hw_ended w = true /\ final = [OData (hw_streamID w) [] true])
  else l = [] /\ hw_ended w = false.

Lemma write_chunks_frames fuel reserve write sid endStream i p l e :
  write_chunks fuel reserve write sid endStream i p = Some (l, e) ->
  Forall (fun fr => exists d b, fr = OData sid d b) l.
Proof.
  revert i p l. induction fuel as [|fuel IH]; intros i [|b p] l; cbn [write_chunks]; try (by intros [= <- _]).
  destruct (reserve i _); [|by intros [= <- _]]. destruct (write i _); [by intros [= <- _]|].
  destruct (write_chunks _ _ _ _ _ _ _) as [[l' e']|] eqn:Hw; [|done]. intros [= <- <-]. constructor; [eauto|by eapply IH].
Qed.

Lemma writeData_body reserve write sid p l e :
  sound_reserve reserve -> p <> [] -> server_writeData reserve write sid p false = Some (l, e) ->
  Forall (body_frame sid) l /\ (e = None -> concat (frame_data <$> l) = p).
Proof.
  intros Hs Hp Hw. unfold server_writeData in Hw. destruct p as [|b p]; [done|]. set (q := b :: p) in *.
  destruct (write_chunks_spec (length q) reserve write sid false 0 q Hs) as (l' & e' & Hw' & _ & Hres); [done|].
  assert (l' = l) as -> by congruence. assert (e' = e) as -> by congruence.
  apply write_chunks_frames in Hw.
  assert (Forall (fun fr => frame_ends fr = false) l) as Hno.
  { destruct e; [by destruct Hres|]. destruct Hres as [_ Hend].
    destruct Hend as (l0 & fr & -> & ? & ?); [done|]. apply Forall_app. by repeat constructor. }
  split; [|intros ->; by destruct Hres].
  apply Forall_forall. intros fr Hin. rewrite Forall_forall in Hw, Hno.
  destruct (Hw fr Hin) as (d & bb & ->). specialize (Hno _ Hin). simpl in Hno. subst bb. by exists d.
Qed.

(** Writing the header block, when the response has none yet. *)
Lemma writeHeaderLocked_inv w write code w' l e :
  writeHeaderLocked w write code = (w', l, e) ->
  hw_streamID w' = hw_streamID w /\ hw_ended w' = hw_ended w /\
  match e with
  | Some _ => w' = w /\ l = [] /\ hw_wroteHeader w = false /\ hw_ended w = false
  | None =>
      l = [] /\ w' = w /\ (hw_wroteHeader w = true \/ hw_ended w = true) \/
      hw_wroteHeader w = false /\ hw_ended w = false /\ hw_wroteHeader w' = true /\
        l = [OHeaders (hw_streamID w) (encodeMasqueH2ResponseHeaders code (hw_header w)) false]
  end.
Proof.
  unfold writeHeaderLocked, writeFrame. destruct (hw_wroteHeader w || hw_ended w) eqn:E.
  - intros [= <- <- <-]. apply orb_true_iff in E. split_and!; [done|done|left; by split_and!].
  - bool_to_prop. destruct (write _); intros [= <- <- <-]; simpl; split_and!; try done. by right.
Qed.

Lemma shape_extend w l w1 l1 e write code :
  response_shape w l -> hw_ended w = false -> writeHeaderLocked w write code = (w1, l1, e) ->
  response_shape w1 (l ++ l1) /\ concat (frame_data <$> l1) = [] /\ hw_ended w1 = false /\
  (e = None -> hw_wroteHeader w1 = true).
Proof.
  intros Hs He H. apply writeHeaderLocked_inv in H as (Hid & He' & H). destruct e as [e|].
  - destruct H as (-> & -> & Hw & _). rewrite app_nil_r. done.
  - destruct H as [(-> & -> & [Hw|Hw])|(Hw & _ & Hw' & ->)]; [|congruence|].
    + rewrite app_nil_r. split_and!; done.
    + unfold response_shape in *. rewrite Hw in Hs. destruct Hs as [-> _]. rewrite Hw', Hid.
      split_and!; [|done|congruence|done]. exists code, (hw_header w), [], []. split_and!; [done|constructor|by left].
Qed.

Lemma shape_chunks w l chunks :
  response_shape w l -> hw_wroteHeader w = true -> hw_ended w = false -> Forall (body_frame (hw_streamID w)) chunks ->
  response_shape w (l ++ chunks).
Proof.
  unfold response_shape. intros Hs Hw He Hc. rewrite Hw in *. destruct Hs as (code & h & cs & final & -> & Hcs & Hf).
  destruct Hf as [->|[Hf _]]; [|congruence]. exists code, h, (cs ++ chunks), [].
  split_and!; [|by apply Forall_app|by left]. by rewrite !app_nil_r.
Qed.

Lemma rw_exec_shape w env op w' l l0 e :
  sound_reserve (rw_reserve env) -> response_shape w l0 -> rw_exec w env op = Some (w', l, e) ->
  response_shape w' (l0 ++ l) /\ (e = None -> concat (frame_data <$> l) = op_payload op).
Proof.
  intros Hres Hs. destruct (hw_ended w) eqn:He.
  { (* an ended response writes nothing *)
    intros H. assert (l = [] /\ (response_shape w l0 -> response_shape w' l0) /\ (e = None -> op_payload op = [])) as (-> & Hw & Hp).
    { destruct op; simpl in H; unfold rw_Write, rw_finish, writeHeaderLocked in H;
        rewrite ?He, ?orb_true_r in H; injection H as <- <- <-; split_and!; try done;
        unfold response_shape; simpl; by rewrite ?He. }
    rewrite app_nil_r. split; [auto|]. intros Hn. by rewrite Hp. }
  destruct op as [k v|code|p| |]; simpl; intros H.
  - injection H as <- <- <-. by rewrite app_nil_r.
  - injection H as H. edestruct shape_extend as (? & ? & _ & _); [exact Hs|exact He|exact H|]. done.
  - unfold rw_Write in H. rewrite He in H.
    destruct (writeHeaderLocked w (rw_header_write env) HTTP.StatusOK) as [[w1 l1] [e1|]] eqn:Hh;
      destruct (shape_extend _ _ _ _ _ _ _ Hs He Hh) as (Hs1 & Hl1 & He1 & Hw1).
    { injection H as <- <- <-. by rewrite Hl1. }
    case_bool_decide as Hp.
    { injection H as <- <- <-. by rewrite Hl1, Hp. }
    destruct (server_writeData _ _ _ _ _) as [[l2 e2]|] eqn:Hd; [|done].
    destruct (writeData_body _ _ _ _ _ _ Hres Hp Hd) as [Hb Hcat].
    assert (response_shape w1 (l0 ++ l1 ++ l2)) as Hfin.
    { rewrite app_assoc. apply shape_chunks; auto. }
    destruct e2; injection H as <- <- <-; (split; [done|]); [done|]. intros _.
    by rewrite fmap_app, concat_app, Hl1, Hcat.
  - injection H as H. edestruct shape_extend as (? & ? & _ & _); [exact Hs|exact He|exact H|]. done.
  - unfold rw_finish in H. rewrite He in H.
    destruct (writeHeaderLocked w (rw_header_write env) HTTP.StatusOK) as [[w1 l1] [e1|]] eqn:Hh;
      destruct (shape_extend _ _ _ _ _ _ _ Hs He Hh) as (Hs1 & Hl1 & He1 & Hw1).
    { injection H as <- <- <-. by rewrite Hl1. }
    unfold server_writeData, writeFrame in H. specialize (Hw1 eq_refl).
    unfold response_shape in *. rewrite Hw1 in Hs1. destruct Hs1 as (code & h & cs & final & Heq & Hcs & Hf).
    destruct Hf as [->|[Hf _]]; [|congruence]. rewrite app_nil_r in Heq.
    destruct (rw_write env 0%nat _); injection H as <- <- <-; simpl; rewrite Hw1.
    + rewrite app_nil_r, Heq. split; [|done]. exists code, h, cs, []. rewrite app_nil_r. split_and!; auto.
    + rewrite app_assoc, Heq. split; [|by rewrite fmap_app, concat_app, Hl1].
      exists code, h, cs, [OData (hw_streamID w1) [] true]. split_and!; auto.
Qed.
End responses.

(** * The CONNECT stream *)

Section stream.

(** What one read carries for stream [sid]: bytes of its body, the flow-control charge,
    whether it ends the body; and the stream it makes the server refuse, with the code,
    when the reply can be written. *)
Definition event_data (sid : Z) (e : round_env) : list byte :=
  match re_event e with EvFrame (FData i data _ _) => if i =? sid then data else [] | _ => [] end.
Definition event_charge (sid : Z) (e : round_env) : Z :=
  match re_event e with EvFrame (FData i _ length _) => if i =? sid then length else 0 | _ => 0 end.
Definition event_ends (sid : Z) (e : round_env) : bool :=
  match re_event e with
  | EvFrame (FData i _ _ ended) | EvFrame (FMetaHeaders i _ ended false) => (i =? sid) && ended
  | _ => false
  end.
Definition event_refusal (sid : Z) (e : round_env) : list (Z * Z) :=
  match re_event e with
  | EvFrame (FMetaHeaders i _ _ false) =>
      if i =? sid then []
      else match re_write e (ORSTStream i ErrCodeRefusedStream) with None => [(i, ErrCodeRefusedStream)] | Some _ => [] end
  | _ => []
  end.

Definition carried (sid : Z) (env : list round_env) : list byte := concat (event_data sid <$> env).
Definition charged (sid : Z) (env : list round_env) : Z := foldr Z.add 0 (event_charge sid <$> env).
Definition to_refuse (sid : Z) (env : list round_env) : list (Z * Z) := concat (event_refusal sid <$> env).

(** The credit given back for stream [sid], and the streams refused. *)
Definition credit (sid : Z) (l : list oframe) : Z :=
  foldr Z.add 0 ((fun fr => match fr with OWindowUpdate i inc => if i =? sid then inc else 0 | _ => 0 end) <$> l).
Definition refused (l : list oframe) : list (Z * Z) :=
  omap (fun fr => match fr with ORSTStream i code => Some (i, code) | _ => None end) l.

Lemma credit_app sid l1 l2 : credit sid (l1 ++ l2) = credit sid l1 + credit sid l2.
Proof.
  induction l1 as [|fr l1 IH]; [done|]. unfold credit in *. cbn [fmap list_fmap app foldr]. rewrite IH. lia.
Qed.

(** A connection whose CONNECT stream [sid] is open with body [p]. *)
Definition serving (c : masqueHTTP2Conn) (sid : Z) (p : pipe) : Prop :=
  sc_streamID c = sid /\ sid <> 0 /\ sc_body c = Some p.

(** What a round that reads [e] makes of a connection that serves [sid]. *)
Definition serves (sid : Z) (p : pipe) (e : round_env) (c' : masqueHTTP2Conn) (r : round) : Prop :=
  exists p', serving c' sid p' /\ pp_data p' = pp_data p ++ event_data sid e /\
    pp_wclosed p' = (if event_ends sid e then Some (default IOEOF (pp_wclosed p)) else pp_wclosed p) /\
    rd_started r = None /\ credit 0 (rd_frames r) = event_charge sid e /\
    credit sid (rd_frames r) = event_charge sid e /\ refused (rd_frames r) = event_refusal sid e.

Lemma writeFrame_ok write fr l : writeFrame write fr = (l, None) -> l = [fr].
Proof. unfold writeFrame. destruct (write fr); congruence. Qed.

(** Frames other than window updates and refusals. *)
Definition plain_frame (fr : oframe) : bool :=
  match fr with OWindowUpdate _ _ | ORSTStream _ _ => false | _ => true end.

Lemma serves_quietly sid p write rand ev c l e :
  serving c sid p -> (match ev with EvFrame (FData _ _ _ _) | EvFrame (FMetaHeaders _ _ _ _) => False | _ => True end) ->
  forallb plain_frame l = true -> serves sid p (RoundEnv ev rand write) c (Round l None e).
Proof.
  intros Hs Hev Hl. exists p. unfold event_data, event_charge, event_ends, event_refusal. simpl.
  assert (refused l = [] /\ forall i, credit i l = 0) as [Hr Hc].
  { induction l as [|fr l IH]; [done|]. simpl in Hl. apply andb_true_iff in Hl as [Hf Hl]. destruct (IH Hl) as [Hr Hc].
    split; [|intros i; specialize (Hc i)]; destruct fr; simpl in *; done. }
  rewrite !Hc. destruct ev as [[]| |]; try done; rewrite app_nil_r; by split_and!.
Qed.

Lemma writeFrame_plain write fr l e : writeFrame write fr = (l, e) -> plain_frame fr = true -> forallb plain_frame l = true.
Proof. unfold writeFrame. destruct (write fr); intros [= <- _] Hp; [done|]. simpl. by rewrite Hp. Qed.

(** A DATA frame. *)
Lemma data_serves sid p write rand c i data length ended c' r :
  serving c sid p -> server_data c write i data length ended = (c', r) -> rd_exit r = None ->
  serves sid p (RoundEnv (EvFrame (FData i data length ended)) rand write) c' r.
Proof.
  intros (Hid & Hnz & Hb) Hf Hex. unfold server_data in Hf. rewrite Hb, Hid in Hf.
  unfold serves, event_data, event_charge, event_ends, event_refusal. cbn [re_event re_write].
  destruct (i =? sid) eqn:Es; cbn [negb andb] in *.
  2: { injection Hf as <- <-. exists p. rewrite app_nil_r. by split_and!. }
  destruct (if bool_decide (data = []) then (p, None) else pipe_Write p data) as [p1 [e|]] eqn:Hp;
    [by injection Hf as <- <-|].
  assert (pp_data p1 = pp_data p ++ data /\ pp_wclosed p1 = pp_wclosed p) as [Hp1 Hw1].
  { case_bool_decide as Hd; [injection Hp as <-; by rewrite Hd, app_nil_r|].
    unfold pipe_Write in Hp. destruct (pp_wclosed p) eqn:?, (pp_rclosed p); try done. by injection Hp as <-. }
  assert (forall c2 l, (if ended then with_body c2 (Some (pipe_Close p1)) else c2) = c' -> serving c2 sid p1 ->
      credit 0 l = length -> credit sid l = length -> refused l = [] -> r = Round l None None ->
      serves sid p (RoundEnv (EvFrame (FData i data length ended)) rand write) c' r) as Hend.
  { intros c2 l <- (? & ? & ?) Hc0 Hcs Hr ->. unfold serves, event_data, event_charge, event_ends, event_refusal.
    cbn [re_event re_write rd_started rd_frames]. rewrite Es. cbn [andb].
    destruct ended; [exists (pipe_Close p1)|exists p1]; split_and!; try done.
    unfold pipe_Close, pipe_CloseWithError. cbn [pp_wclosed]. rewrite Hw1. by destruct (pp_wclosed p). }
  unfold serves, event_data, event_charge, event_ends, event_refusal in Hend. cbn [re_event re_write] in Hend. rewrite Es in Hend.
  destruct (length =? 0) eqn:El; bool_to_prop; simpl in Hf.
  { subst length. injection Hf as Hf <-. by apply (Hend _ [] Hf). }
  destruct (writeFrame write (OWindowUpdate 0 length)) as [l [e|]] eqn:W1; simpl in Hf; [by injection Hf as <- <-|].
  rewrite Hid in Hf.
  destruct (writeFrame write (OWindowUpdate sid length)) as [l' [e|]] eqn:W2; simpl in Hf; [by injection Hf as <- <-|].
  apply writeFrame_ok in W1 as ->. apply writeFrame_ok in W2 as ->. injection Hf as Hf <-.
  apply (Hend _ [OWindowUpdate 0 length; OWindowUpdate sid length] Hf); [done| | |done|done]; unfold credit; simpl.
  - rewrite (proj2 (Z.eqb_neq sid 0)) by done. lia.
  - rewrite Z.eqb_refl. destruct sid; [done|simpl; lia..].
Qed.

(** A header block. *)
Lemma headers_serve sid p write rand c remote i fields ended truncated c' r :
  serving c sid p -> server_headers c write remote i fields ended truncated = (c', r) -> rd_exit r = None ->
  serves sid p (RoundEnv (EvFrame (FMetaHeaders i fields ended truncated)) rand write) c' r.
Proof.
  intros Hs Hf Hex. pose proof Hs as (Hid & Hnz & Hb). unfold server_headers in Hf.
  destruct truncated; [injection Hf as <- <-; done|]. rewrite Hid, (proj2 (Z.eqb_neq sid 0)) in Hf by done. cbn [negb] in Hf.
  unfold serves, event_data, event_charge, event_ends, event_refusal. cbn [re_event re_write]. rewrite app_nil_r.
  destruct (i =? sid); cbn [negb andb] in *.
  - destruct ended; injection Hf as <- <-; [|by exists p]. exists (pipe_Close p). split_and!; try done.
    + cbn. by rewrite Hb.
    + unfold pipe_Close, pipe_CloseWithError. cbn. by destruct (pp_wclosed p).
  - injection Hf as <- <-. exists p. cbn [rd_started rd_frames]. unfold writeFrame.
    by destruct (write (ORSTStream i ErrCodeRefusedStream)).
Qed.

(** One round that does not end the loop, on an open stream. *)
Lemma round_serves sid p ping write rand remote ev c c' ping' r :
  serving c sid p -> server_round c ping write rand remote ev = (c', ping', r) -> rd_exit r = None ->
  serves sid p (RoundEnv ev rand write) c' r.
Proof.
  intros Hs. pose proof Hs as (Hid & Hnz & Hb). unfold server_round. destruct ev as [f|e|e].
  - destruct (server_frame c write remote f) as [c1 r1] eqn:Hf. intros [= -> _ ->] Hex. destruct f; simpl in Hf.
    + unfold server_handleSettings in Hf. destruct ack; [injection Hf as <- <-; by apply serves_quietly|].
      destruct (writeFrame write OSettingsAck) as [l e] eqn:Hw. injection Hf as <- <-.
      apply serves_quietly; [done|done|by eapply writeFrame_plain].
    + destruct ack; [injection Hf as <- <-; by apply serves_quietly|].
      destruct (writeFrame write (OPing true data)) as [l e] eqn:Hw. injection Hf as <- <-.
      apply serves_quietly; [done|done|by eapply writeFrame_plain].
    + destruct (server_handleWindowUpdate c sid0 increment) as [c2 e] eqn:Hw. injection Hf as <- <-.
      unfold server_handleWindowUpdate in Hw. destruct (window_overflow _); injection Hw as <- <-; by apply serves_quietly.
    + by eapply headers_serve.
    + by eapply data_serves.
    + destruct (sid0 =? _); injection Hf as <- <-; by apply serves_quietly.
    + by injection Hf as <- <-.
    + injection Hf as <- <-. by apply serves_quietly.
  - rewrite Hid, (proj2 (Z.eqb_neq sid 0)) by done. destruct ping; [by intros [= <- _ <-]|].
    destruct rand as [d|e']; [|by intros [= <- _ <-]].
    destruct (writeFrame write (OPing false d)) as [l [e'|]] eqn:Hw; intros [= <- _ <-]; [done|]. intros _.
    apply serves_quietly; [done|done|by eapply writeFrame_plain].
  - by intros [= <- _ <-].
Qed.

(** Any number of rounds. *)
Lemma loop_serves sid env p c ping remote c' frames reqs :
  serving c sid p -> server_readLoop c ping remote env = (c', frames, reqs, None) ->
  exists p', serving c' sid p' /\ pp_data p' = pp_data p ++ carried sid env /\
    pp_wclosed p' = (if existsb (event_ends sid) env then Some (default IOEOF (pp_wclosed p)) else pp_wclosed p) /\
    reqs = [] /\ credit 0 frames = charged sid env /\ credit sid frames = charged sid env /\
    refused frames = to_refuse sid env.
Proof.
  revert c ping p frames reqs. induction env as [|e env IH]; intros c ping p0 frames reqs Hserv; simpl.
  { intros [= <- <- <-]. exists p0. by rewrite app_nil_r. }
  destruct (server_round c ping (re_write e) (re_rand e) remote (re_event e)) as [[c1 ping1] r] eqn:Hr.
  destruct (rd_exit r) eqn:Hex; [by intros [=]|].
  destruct (server_readLoop c1 ping1 remote env) as [[[c2 l] qs] err] eqn:Hl. intros [= <- <- <- ->].
  destruct (round_serves _ _ _ _ _ _ _ _ _ _ _ Hserv Hr Hex) as (p1 & Hserv1 & Hd1 & Hw1 & -> & Hc0 & Hcs & Hr1).
  destruct (IH _ _ _ _ _ Hserv1 Hl) as (p & Hsp & Hd & Hw & -> & Hl0 & Hls & Hlr). exists p.
  assert (RoundEnv (re_event e) (re_rand e) (re_write e) = e) as He by by destruct e. rewrite He in *.
  unfold refused in *. rewrite omap_app, !credit_app, Hl0, Hls, Hc0, Hcs, Hd, Hd1, Hr1, Hlr, <- app_assoc.
  split_and!; try done. rewrite Hw, Hw1. by destruct (event_ends sid e), (existsb _ env).
Qed.

(** C21: the CONNECT stream, from the request that opened it to any later point of the
    read loop.  The connection serves only this stream: no further request is started,
    and every header block for another stream is answered with RST_STREAM and
    REFUSED_STREAM, one for one (as far as the reply can be written), and no other stream
    is reset; the handler is given exactly the DATA bytes of the stream, in order, and the
    end of its body when the client ended the stream and not before; and the peer gets
    back, on the connection's window and on the stream's, exactly the flow-control charge
    of those frames, padding included. *)
Theorem server_stream_exact c0 c remote sid fields ended req ping env c' frames reqs :
  startRequest c0 remote sid fields ended = (c, Ok req) ->
  server_readLoop c ping remote env = (c', frames, reqs, None) ->
  sc_streamID c' = sid /\ sid mod 2 = 1 /\ reqs = [] /\
  rq_method req = B "CONNECT" /\ HTTP.Get (rq_header req) (B ":protocol") = masqueConnectUDPProtocol /\
  (exists p, sc_body c' = Some p /\ pp_data p = carried sid env /\
     pp_wclosed p = if ended || existsb (event_ends sid) env then Some IOEOF else None) /\
  credit 0 frames = charged sid env /\ credit sid frames = charged sid env /\
  refused frames = to_refuse sid env.
Proof.
  intros Hst Hloop. unfold startRequest in Hst. destruct ((sid =? 0) || (sid mod 2 =? 0)) eqn:Es; [done|].
  destruct (masqueH2RequestFromFields remote fields) as [rq|e]; [|done].
  destruct (negb _ || negb _) eqn:Ep; [done|]. injection Hst as Hc <-. bool_to_prop.
  assert (exists p0, serving c sid p0 /\ pp_data p0 = [] /\ pp_wclosed p0 = if ended then Some IOEOF else None)
    as (p0 & Hserv & Hp0 & Hw0).
  { rewrite <- Hc. by destruct ended; eexists; split_and!. }
  assert (sid mod 2 = 1) as Hodd by (pose proof (Z.mod_pos_bound sid 2); lia).
  destruct (loop_serves _ _ _ _ _ _ _ _ _ Hserv Hloop) as (p & (? & _ & ?) & Hd & Hw & ? & ? & ? & ?).
  rewrite Hp0 in Hd. split_and!; try done. exists p. split_and!; [done|done|].
  rewrite Hw, Hw0. by destruct ended, (existsb _ env).
Qed.

End stream.

(** * Sending within the windows

    The read loop and a handler's writer share the windows.  The steps below are a frame
    that the read loop handles and, of the writer, each reservation of [writeData]; the
    frames of a [writeData] in progress are what [server_writeData] makes of the
    reservations it got so far.  [credits] is the peer's side of the account. *)

Section sending.

(** What the peer granted: on the connection and, by window updates, on the stream; the
    initial window and the frame size of its last settings; and the bytes the writer
    has reserved against it. *)
Record credits : Type := Credits {
  cr_conn : Z;
  cr_stream : Z;
  cr_initial : Z;
  cr_frame : Z;
  cr_reserved : Z;
}.
(** The values before any settings (RFC 9113, 6.5.2 and 6.9.2). *)
Definition credits0 : credits := Credits 65535 0 65535 16384 0.
Definition stream_credit (g : credits) : Z := cr_initial g + cr_stream g.

Definition grant_setting (g : credits) (s : setting) : credits :=
  let '(id, v) := s in
  if id =? SettingInitialWindowSize then Credits (cr_conn g) (cr_stream g) v (cr_frame g) (cr_reserved g)
  else if id =? SettingMaxFrameSize then Credits (cr_conn g) (cr_stream g) (cr_initial g) v (cr_reserved g)
  else g.

(** A frame of the peer, while the connection's stream is [sid]. *)
Definition grant (sid : Z) (g : credits) (f : iframe) : credits :=
  match f with
  | FSettings false settings => foldl grant_setting g settings
  | FWindowUpdate i inc =>
      if i =? 0 then Credits (cr_conn g + inc) (cr_stream g) (cr_initial g) (cr_frame g) (cr_reserved g)
      else if i =? sid then Credits (cr_conn g) (cr_stream g + inc) (cr_initial g) (cr_frame g) (cr_reserved g)
      else g
  | _ => g
  end.
Definition reserve_credit (g : credits) (n : Z) : credits :=
  Credits (cr_conn g) (cr_stream g) (cr_initial g) (cr_frame g) (cr_reserved g + n).

(** A [writeData] in progress: its arguments, the results of its writes, and the
    reservations it got so far. *)
Record call : Type := Call {
  ca_data : list byte;
  ca_end : bool;
  ca_write : nat -> oframe -> option gerror;
  ca_got : list Z;
}.
Definition answers (got : list Z) (i : nat) (want : Z) : result Z :=
  match got !! i with Some n => Ok n | None => Err NetErrClosed end.
(** The frames it has written. *)
Definition call_frames (sid : Z) (ca : call) : list oframe :=
  match server_writeData (answers (ca_got ca)) (ca_write ca) sid (ca_data ca) (ca_end ca) with
  | Some (l, _) => l
  | None => []
  end.

Record sender : Type := Sender {
  sd_conn : masqueHTTP2Conn;
  sd_credits : credits;
  sd_done : list oframe;
  sd_call : option call;
}.
Definition sender0 : sender := Sender newServerConn credits0 [] None.

(** The DATA frames written so far, and their bytes. *)
Definition sent (s : sender) : list oframe :=
  sd_done s ++ default [] (call_frames (sc_streamID (sd_conn s)) <$> sd_call s).
Definition data_bytes (l : list oframe) : Z := zlen (concat (frame_data <$> l)).

(** A reservation that began at the windows [f0] looks at the windows [f] when it has
    been woken by [wakes]: it found no window before the last of them. *)
Definition looks_at (f0 : flow) (want : Z) (wakes : list wake) (f : flow) : Prop :=
  (wakes = [] /\ f0 = f) \/
  exists ws, wakes = ws ++ [WakeFlow f] /\ server_reserveWriteWindow f0 want ws = None.

(** Increments are 31-bit numbers.  A call starts when the handler has a stream and no
    other call runs (the writer's mutex); a call may end at any time, as reservations fail
    when the connection ends or after a timeout. *)
Inductive send_step : sender -> sender -> Prop :=
  | sn_frame s write remote f c r :
      (forall i inc, f = FWindowUpdate i inc -> 0 <= inc) ->
      server_frame (sd_conn s) write remote f = (c, r) ->
      send_step s (Sender c (grant (sc_streamID (sd_conn s)) (sd_credits s) f) (sd_done s) (sd_call s))
  | sn_close s : send_step s (Sender (server_close (sd_conn s)) (sd_credits s) (sd_done s) (sd_call s))
  | sn_call s p endStream write :
      sc_streamID (sd_conn s) <> 0 -> sd_call s = None ->
      send_step s (Sender (sd_conn s) (sd_credits s) (sd_done s) (Some (Call p endStream write [])))
  | sn_reserve s ca want f0 wakes n f :
      sd_call s = Some ca -> 0 < want -> looks_at f0 want wakes (sc_flow (sd_conn s)) ->
      server_reserveWriteWindow f0 want wakes = Some (Ok n, f) ->
      send_step s (Sender (with_flow (sd_conn s) f false) (reserve_credit (sd_credits s) n) (sd_done s)
                     (Some (Call (ca_data ca) (ca_end ca) (ca_write ca) (ca_got ca ++ [n]))))
  | sn_end s ca :
      sd_call s = Some ca -> send_step s (Sender (sd_conn s) (sd_credits s) (sent s) None).

(** The server's windows are the peer's account. *)
Record accounts (stream : bool) (f : flow) (g : credits) : Prop := {
  ac_conn : peerConnWindow f = cr_conn g - cr_reserved g;
  ac_nonneg : 0 <= peerConnWindow f;
  ac_initial : peerInitialWindow f = cr_initial g;
  ac_frame : peerMaxFrameSize f = cr_frame g;
  ac_stream : if stream then peerStreamWindow f = stream_credit g - cr_reserved g
              else cr_stream g = 0 /\ cr_reserved g = 0;
}.
Definition has_stream (c : masqueHTTP2Conn) : bool := negb (sc_streamID c =? 0).

Record fc_inv (s : sender) : Prop := {
  fi_accounts : accounts (has_stream (sd_conn s)) (sc_flow (sd_conn s)) (sd_credits s);
  fi_idle : sc_streamID (sd_conn s) = 0 -> sd_call s = None;
  fi_sent : data_bytes (sent s) <= cr_reserved (sd_credits s);
  fi_got : Forall (fun n => 1 <= n) (default [] (ca_got <$> sd_call s));
}.

Lemma look_reserves f0 want wakes f n f' :
  looks_at f0 want wakes f -> server_reserveWriteWindow f0 want wakes = Some (Ok n, f') ->
  reserve_once f want = Some (n, f').
Proof.
  intros [[-> ->]|(ws & -> & Hn)].
  - simpl. destruct (reserve_once f want) as [[]|]; congruence.
  - revert f0 Hn. induction ws as [|w ws IH]; intros f0; simpl.
    + destruct (reserve_once f0 want) as [[]|]; [done|]. destruct (reserve_once f want) as [[]|]; congruence.
    + destruct (reserve_once f0 want) as [[]|]; [done|]. destruct w; try done. apply IH.
Qed.
(** The peer's frames keep the account. *)
Lemma accounts_settings stream settings f g :
  accounts stream f g ->
  accounts stream (foldl (apply_setting stream) f settings) (foldl grant_setting g settings) /\
  cr_reserved (foldl grant_setting g settings) = cr_reserved g.
Proof.
  revert f g. induction settings as [|[id v] settings IH]; intros f g Ha; [done|]. cbn [foldl].
  assert (cr_reserved (grant_setting g (id, v)) = cr_reserved g) as <-.
  { simpl. destruct (id =? _); [done|]. by destruct (id =? _). }
  apply IH. destruct Ha as [Hc Hn Hi Hf Hs]. cbn [apply_setting grant_setting].
  destruct (id =? SettingInitialWindowSize); [|destruct (id =? SettingMaxFrameSize); by split].
  split; try done. unfold stream_credit in *. destruct stream; simpl; [lia|done].
Qed.

Lemma accounts_window sid i inc f g :
  0 <= inc -> accounts (negb (sid =? 0)) f g ->
  accounts (negb (sid =? 0)) (add_window f sid i inc) (grant sid g (FWindowUpdate i inc)) /\
  cr_reserved (grant sid g (FWindowUpdate i inc)) = cr_reserved g.
Proof.
  intros Hi [Hc Hn Hin Hf Hs]. unfold add_window, grant, stream_credit in *. destruct (i =? 0) eqn:E0.
  - split; [|done]. split; simpl; try lia. unfold stream_credit in *. destruct (negb _); [simpl; lia|done].
  - destruct (i =? sid) eqn:Es; [|done]. split; [|done]. bool_to_prop. subst i.
    rewrite (proj2 (Z.eqb_neq sid 0)) in * by done. split; unfold stream_credit in *; simpl in *; lia.
Qed.

(** What a frame does to the windows. *)
Lemma server_frame_windows c write remote f c' r :
  server_frame c write remote f = (c', r) ->
  sc_streamID c' = sc_streamID c /\
    sc_flow c' = match f with
                 | FSettings false l => foldl (apply_setting (has_stream c)) (sc_flow c) l
                 | FWindowUpdate i inc => add_window (sc_flow c) (sc_streamID c) i inc
                 | _ => sc_flow c
                 end \/
  sc_streamID c = 0 /\ sc_streamID c' <> 0 /\ sc_flow c' = reset_stream_window (sc_flow c) /\
    forall g, grant (sc_streamID c) g f = g.
Proof.
  destruct f; simpl.
  - unfold server_handleSettings. destruct ack; [intros ?; simplify_eq; by left|].
    destruct (writeFrame _ _). intros ?; simplify_eq. by left.
  - destruct ack; [intros ?; simplify_eq; by left|]. destruct (writeFrame _ _). intros ?; simplify_eq. by left.
  - unfold server_handleWindowUpdate. destruct (window_overflow _); intros ?; simplify_eq; by left.
  - unfold server_headers. destruct truncated; [intros ?; simplify_eq; by left|]. destruct (sc_streamID c =? 0) eqn:Ez; simpl.
    + unfold startRequest. destruct ((sid =? 0) || _) eqn:Es; [intros ?; simplify_eq; by left|].
      destruct (masqueH2RequestFromFields _ _); [|intros ?; simplify_eq; by left].
      destruct (negb _ || negb _); intros ?; simplify_eq; [by left|]. bool_to_prop. right. by split_and!.
    + destruct (sid =? _); simpl; [destruct ended|]; intros ?; simplify_eq; by left.
  - unfold server_data. destruct (sc_body c) as [p|]; [|intros ?; simplify_eq; by left].
    destruct (sid =? _); simpl; [|intros ?; simplify_eq; by left].
    destruct (if bool_decide _ then _ else _) as [p1 [e|]]; [intros ?; simplify_eq; by left|].
    destruct (if length =? 0 then _ else _) as [l [e|]]; [intros ?; simplify_eq; by left|].
    destruct ended; intros ?; simplify_eq; by left.
  - destruct (sid =? _); intros ?; simplify_eq; by left.
  - intros ?; simplify_eq. by left.
  - intros ?; simplify_eq. by left.
Qed.

Lemma frame_inv s write remote f c r :
  fc_inv s -> (forall i inc, f = FWindowUpdate i inc -> 0 <= inc) -> server_frame (sd_conn s) write remote f = (c, r) ->
  let s' := Sender c (grant (sc_streamID (sd_conn s)) (sd_credits s) f) (sd_done s) (sd_call s) in
  fc_inv s' /\ sent s' = sent s.
Proof.
  intros [Ha Hi Hs Hg] Hinc Hf s'. destruct (server_frame_windows _ _ _ _ _ _ Hf) as [[Hid Hfl]|(Hz & Hnz & Hfl & Hgr)].
  - assert (sent s' = sent s) as He by (unfold sent, s'; simpl; by rewrite Hid). split; [|done].
    assert (accounts (has_stream c) (sc_flow c) (sd_credits s') /\ cr_reserved (sd_credits s') = cr_reserved (sd_credits s))
      as [Ha' Hr]; [|split; [done|by simpl; rewrite Hid|by rewrite He, Hr|done]].
    unfold has_stream in *. rewrite Hid, Hfl. destruct f; try by split.
    + destruct ack; [by split|]. by apply accounts_settings.
    + apply accounts_window; [by eapply Hinc|done].
  - assert (sent s' = sent s) as He by (unfold sent, s'; simpl; by rewrite (Hi Hz)).
    split; [|done]. unfold s' in *. rewrite Hgr in *. split; [|done|by rewrite He|done].
    destruct Ha as [Hc Hn Hin Hfr Hst]. unfold has_stream in *. cbn [sd_conn sd_credits].
    rewrite Hz in Hst. rewrite Hfl, (proj2 (Z.eqb_neq _ _) Hnz). split; unfold stream_credit; simpl in *; lia.
Qed.

(** The frames of a call when it gets one reservation more. *)
Lemma chunks_stop fuel got write sid endStream i p :
  (length p <= fuel)%nat -> (length got <= i)%nat ->
  exists e, write_chunks fuel (answers got) write sid endStream i p = Some ([], e).
Proof.
  intros Hf Hi. destruct p as [|b p]; [destruct fuel; simpl; eauto|]. destruct fuel as [|fuel]; simpl in *; [lia|].
  unfold answers. rewrite lookup_ge_None_2 by done. eauto.
Qed.

Lemma chunks_grow fuel got n write sid endStream i p :
  Forall (fun m => 1 <= m) got -> 1 <= n -> (length p <= fuel)%nat -> (i <= length got)%nat ->
  exists l new e1 e2, write_chunks fuel (answers got) write sid endStream i p = Some (l, e1) /\
    write_chunks fuel (answers (got ++ [n])) write sid endStream i p = Some (l ++ new, e2) /\
    (new = [] \/ exists fr, new = [fr] /\ zlen (frame_data fr) <= n).
Proof.
  intros Hg Hn. revert i p. induction fuel as [|fuel IH]; intros i [|b p] Hf Hi; try (by simpl in Hf; lia);
    try (exists [], [], None, None; split_and!; eauto; fail).
  destruct (decide (i < length got)%nat) as [Hlt|Hge].
  - destruct (lookup_lt_is_Some_2 got i Hlt) as [m Hm]. cbn [write_chunks]. unfold answers at 1 3.
    rewrite (lookup_app_l_Some _ _ _ _ Hm), Hm. destruct (write i _) as [e|].
    { exists [], [], (Some e), (Some e). split_and!; eauto. }
    destruct (IH (S i) (drop (Z.to_nat m) (b :: p))) as (l & new & e1 & e2 & -> & -> & Hnew).
    + rewrite Forall_forall in Hg. assert (1 <= m) by (by eapply Hg, list_elem_of_lookup_2).
      rewrite length_drop. simpl in *. lia.
    + lia.
    + exists (OData sid (take (Z.to_nat m) (b :: p)) (endStream && (m =? zlen (b :: p))) :: l), new, e1, e2. eauto.
  - assert (i = length got) as -> by lia. cbn [write_chunks]. unfold answers at 1 3.
    rewrite (lookup_ge_None_2 got), (list_lookup_middle got [] n) by done.
    destruct (write _ _) as [e|]; [exists [], [], (Some NetErrClosed), (Some e); split_and!; eauto|].
    destruct (chunks_stop fuel (got ++ [n]) write sid endStream (S (length got)) (drop (Z.to_nat n) (b :: p))) as [e ->].
    + rewrite length_drop. simpl in *. lia.
    + rewrite length_app. simpl. lia.
    + eexists [], [_], _, _. split_and!; [done|done|]. right. eexists. split; [done|]. simpl.
      unfold zlen. rewrite length_take. lia.
Qed.

Lemma call_grows sid p endStream write got n :
  Forall (fun m => 1 <= m) got -> 1 <= n ->
  exists new, call_frames sid (Call p endStream write (got ++ [n])) = call_frames sid (Call p endStream write got) ++ new /\
    (new = [] \/ exists fr, new = [fr] /\ zlen (frame_data fr) <= n).
Proof.
  intros Hg Hn. unfold call_frames, server_writeData. cbn [ca_got ca_data ca_write ca_end]. destruct p as [|b p].
  - exists []. rewrite app_nil_r. split; [|by left]. by destruct (writeFrame _ _).
  - destruct (chunks_grow (length (b :: p)) got n write sid endStream 0 (b :: p) Hg Hn) as (l & new & e1 & e2 & -> & -> & Hnew);
      [done|lia|]. by exists new.
Qed.

Lemma call_begins sid p endStream write : data_bytes (call_frames sid (Call p endStream write [])) = 0.
Proof.
  unfold call_frames, server_writeData. cbn [ca_got ca_data ca_write ca_end]. destruct p as [|b p].
  - unfold writeFrame. by destruct (write _ _).
  - by destruct (chunks_stop (length (b :: p)) [] write sid endStream 0 (b :: p)) as [e ->]; [done|simpl; lia|].
Qed.

Lemma data_bytes_app l1 l2 : data_bytes (l1 ++ l2) = data_bytes l1 + data_bytes l2.
Proof. unfold data_bytes. by rewrite fmap_app, concat_app, zlen_app. Qed.

(** What a step puts on the wire: DATA within what the peer grants at that moment. *)
Definition within_credit (s' : sender) (new : list oframe) : Prop :=
  data_bytes (sent s') <= cr_conn (sd_credits s') /\ data_bytes (sent s') <= stream_credit (sd_credits s') /\
  Forall (fun fr => zlen (frame_data fr) <= cr_frame (sd_credits s')) new.

Lemma reserve_inv s ca want f0 wakes n f :
  fc_inv s -> sd_call s = Some ca -> looks_at f0 want wakes (sc_flow (sd_conn s)) ->
  server_reserveWriteWindow f0 want wakes = Some (Ok n, f) ->
  let s' := Sender (with_flow (sd_conn s) f false) (reserve_credit (sd_credits s) n) (sd_done s)
              (Some (Call (ca_data ca) (ca_end ca) (ca_write ca) (ca_got ca ++ [n]))) in
  fc_inv s' /\ exists new, sent s' = sent s ++ new /\ within_credit s' new.
Proof.
  intros [Ha Hi Hs Hg] Hca Hl Hr s'. pose proof (look_reserves _ _ _ _ _ _ Hl Hr) as Ho.
  apply reserve_once_spec in Ho as (Hn & Hm & Hc & Hst & ->).
  rewrite Hca in Hg, Hi. simpl in Hg. destruct (Z.eq_dec (sc_streamID (sd_conn s)) 0) as [Hz|Hz]; [by apply Hi in Hz|].
  destruct (call_grows (sc_streamID (sd_conn s)) (ca_data ca) (ca_end ca) (ca_write ca) (ca_got ca) n Hg) as (new & Hgr & Hnew); [lia|].
  assert (sent s' = sent s ++ new) as Hsent.
  { unfold sent, s'. rewrite Hca. simpl. rewrite Hgr, app_assoc. by destruct ca. }
  assert (data_bytes new <= n /\ Forall (fun fr => zlen (frame_data fr) <= n) new) as [Hb Hf].
  { destruct Hnew as [->|(fr & -> & Hfr)]; [split; [unfold data_bytes, zlen; simpl; lia|done]|].
    split; [|by repeat constructor]. unfold data_bytes. simpl. by rewrite app_nil_r. }
  destruct Ha as [Ac An Ai Af As]. unfold has_stream in *. rewrite (proj2 (Z.eqb_neq _ _) Hz) in As. simpl in As.
  assert (data_bytes (sent s') <= cr_reserved (sd_credits s) + n) as Hle by (rewrite Hsent, data_bytes_app; lia).
  split; [split|exists new; split; [done|]; unfold within_credit].
  - unfold has_stream, s'. cbn [sd_conn with_flow sc_flow sc_streamID sd_credits].
    rewrite (proj2 (Z.eqb_neq _ _) Hz). split; unfold stream_credit in *; simpl; lia.
  - done.
  - exact Hle.
  - apply Forall_app. split; [done|]. repeat constructor. lia.
  - unfold s' at 2 4. unfold stream_credit in *. simpl. split_and!; [lia|lia|].
    eapply Forall_impl; [exact Hf|]. intros fr Hfr. simpl in Hfr. lia.
Qed.

Lemma send_step_spec s s' :
  fc_inv s -> send_step s s' ->
  fc_inv s' /\ exists new, sent s' = sent s ++ new /\ (data_bytes new = 0 \/ within_credit s' new).
Proof.
  intros Hinv Hst. pose proof Hinv as [Ha Hi Hs Hg].
  destruct Hst as [s write remote f c r Hinc Hf|s|s p endStream write Hz Hn|s ca want f0 wakes n f Hca _ Hl Hr|s ca Hca].
  - destruct (frame_inv _ _ _ _ _ _ Hinv Hinc Hf) as [Hinv' He]. split; [done|].
    exists []. rewrite app_nil_r. split; [done|by left].
  - assert (sent (Sender (server_close (sd_conn s)) (sd_credits s) (sd_done s) (sd_call s)) = sent s) as He.
    { unfold sent, server_close. simpl. by destruct (sc_done (sd_conn s)). }
    split; [|exists []; rewrite app_nil_r; split; [done|by left]].
    split; [|simpl|by rewrite He|done]; unfold server_close; simpl; by destruct (sc_done (sd_conn s)).
  - pose proof (call_begins (sc_streamID (sd_conn s)) p endStream write) as Hb.
    assert (sent s = sd_done s) as He by (unfold sent; by rewrite Hn, app_nil_r).
    split; [split|eexists; split; [unfold sent at 1; simpl; by rewrite He|by left]]; simpl; try done.
    unfold sent. simpl. rewrite data_bytes_app, Hb, <- He. lia.
  - destruct (reserve_inv _ _ _ _ _ _ _ Hinv Hca Hl Hr) as [Hinv' (new & He & Hw)]. split; [done|]. exists new. auto.
  - assert (sent (Sender (sd_conn s) (sd_credits s) (sent s) None) = sent s) as He by (unfold sent; simpl; by rewrite app_nil_r).
    split; [|exists []; rewrite app_nil_r; split; [done|by left]]. split; simpl; [done|done|by rewrite He|constructor].
Qed.

Lemma sender_inv s : rtc send_step sender0 s -> fc_inv s.
Proof.
  assert (fc_inv sender0) as H0 by (split; [split; vm_compute; done|done|vm_compute; done|constructor]).
  intros Hr. revert H0. induction Hr as [|s1 s2 s3 Hst _ IH]; [done|]. intros H0. by apply IH, (send_step_spec s1 s2).
Qed.

End sending.

(** * Waiting for a window

    The handler's writer and the read loop share the windows and the signal.  The
    writer tries to reserve under the lock, and waits for the signal when it finds no
    window; it is the only receiver of the signal. *)

Section waiting.

Inductive writer : Type :=
  | WIdle
  | WTrying (want : Z)
  | WWaiting (want : Z).

Inductive wait_step : masqueHTTP2Conn * writer -> masqueHTTP2Conn * writer -> Prop :=
  | wt_settings c w write ack settings c' l e :
      server_handleSettings c write ack settings = (c', l, e) -> wait_step (c, w) (c', w)
  | wt_window c w sid inc c' :
      server_handleWindowUpdate c sid inc = (c', None) -> wait_step (c, w) (c', w)
  | wt_close c w : wait_step (c, w) (server_close c, w)
  | wt_want c want : 0 < want -> wait_step (c, WIdle) (c, WTrying want)
  | wt_reserve c want n f :
      reserve_once (sc_flow c) want = Some (n, f) -> wait_step (c, WTrying want) (with_flow c f false, WIdle)
  | wt_none c want :
      reserve_once (sc_flow c) want = None -> wait_step (c, WTrying want) (c, WWaiting want)
  | wt_wake c want :
      sc_flowCh c = true ->
      wait_step (c, WWaiting want)
        (ServerConn (sc_flow c) (sc_streamID c) (sc_body c) false (sc_done c), WTrying want).

Definition wait_inv (s : masqueHTTP2Conn * writer) : Prop :=
  match s.2 with
  | WWaiting want => sc_flowCh s.1 = true \/ reserve_once (sc_flow s.1) want = None
  | _ => True
  end.

(** C23: no wake-up is lost: a writer that waits for a window while one is available
    (or after the connection was closed) has its signal pending, whatever settings,
    window updates and reservations came in between. *)
Theorem no_lost_wakeup c w c' want n f :
  (forall want, w <> WWaiting want) -> rtc wait_step (c, w) (c', WWaiting want) ->
  reserve_once (sc_flow c') want = Some (n, f) -> sc_flowCh c' = true.
Proof.
  intros Hw Hr Hn.
  assert (wait_inv (c', WWaiting want)) as [|Hi]; [|done|simpl in Hi; congruence].
  assert (wait_inv (c, w)) as H0 by (destruct w; [done|done|by destruct (Hw want0)]).
  clear Hn Hw. revert H0. induction Hr as [|s1 s2 s3 Hst _ IH]; [done|]. intros H0. apply IH. clear IH.
  destruct Hst as [c1 w1 write ack settings c2 l e Hs|c1 w1 sid inc c2 Hs|c1 w1| | | |]; unfold wait_inv in *; simpl in *; try done.
  - unfold server_handleSettings in Hs. destruct ack; [by injection Hs as <- _ _|].
    destruct (writeFrame _ _). injection Hs as <- _ _. destruct w1; try done. left. simpl. apply orb_true_r.
  - unfold server_handleWindowUpdate in Hs. destruct (window_overflow _); [done|]. injection Hs as <-.
    destruct w1; try done. left. simpl. apply orb_true_r.
  - unfold server_close. destruct (sc_done c1); [done|]. destruct w1; try done. by left.
  - by right.
Qed.
End waiting.

(** * Properties of responses and of the server *)

Section server_properties.

(** C22: HTTP/2 framing of a response, whatever calls the handler makes and whatever
    writes fail: every call ends; the client sees nothing, or one header block
    followed by chunks of the body, and an END_STREAM frame at most once and last;
    and when no call failed, the body is exactly the bytes written. *)
Theorem response_frames_wellformed sid ops :
  Forall (fun x => sound_reserve (rw_reserve x.2)) ops ->
  exists w l ok, rw_run (newResponseWriter sid) ops = Some (w, l, ok) /\ response_shape w l /\
    (ok = true -> concat (frame_data <$> l) = concat (op_payload <$> ops.*1)).
Proof.
  intros Hs.
  enough (forall w0 l0, response_shape w0 l0 -> exists w l ok, rw_run w0 ops = Some (w, l, ok) /\
            response_shape w (l0 ++ l) /\ (ok = true -> concat (frame_data <$> l) = concat (op_payload <$> ops.*1))) as H.
  { by apply (H (newResponseWriter sid) []). }
  induction Hs as [|[op env] ops Hres _ IH]; intros w0 l0 H0; simpl.
  { exists w0, [], true. by rewrite app_nil_r. }
  assert (exists w1 l1 e1, rw_exec w0 env op = Some (w1, l1, e1)) as (w1 & l1 & e1 & He).
  { destruct op; simpl; [eauto|by destruct (writeHeaderLocked _ _ _) as [[? ?] ?]; eauto| |
                         by destruct (writeHeaderLocked _ _ _) as [[? ?] ?]; eauto|].
    - unfold rw_Write. destruct (hw_ended w0); [eauto|].
      destruct (writeHeaderLocked _ _ _) as [[w1 l1] [e1|]]; [eauto|]. case_bool_decide as Hp; [eauto|].
      unfold server_writeData. destruct p as [|b p]; [done|].
      destruct (write_chunks_spec (length (b :: p)) (rw_reserve env) (rw_write env) (hw_streamID w1) false 0 (b :: p) Hres)
        as (l2 & e2 & -> & _); [done|]. destruct e2; eauto.
    - unfold rw_finish. destruct (hw_ended w0); [eauto|].
      destruct (writeHeaderLocked _ _ _) as [[w1 l1] [e1|]]; [eauto|]. unfold server_writeData, writeFrame.
      destruct (rw_write env 0%nat _); eauto. }
  rewrite He. destruct (rw_exec_shape _ _ _ _ _ _ _ Hres H0 He) as [H1 Hp].
  destruct (IH _ _ H1) as (w & l & ok & -> & Hsh & Hok). eexists w, (l1 ++ l), _. split; [done|].
  rewrite app_assoc. split; [done|]. destruct e1; [done|]. intros ->.
  by rewrite fmap_app, concat_app, Hp, Hok.
Qed.

(** closing the server is final.  Once [Close] has returned, no connection is open
    or registered, no goroutine is left and no listener is registered, at every later
    point too: a listener that is registered afterwards is refused. *)
Theorem server_close_is_final s :
  rtc server_step server0 s -> hs_returned s = true ->
  hs_open s = ∅ /\ hs_conns s = ∅ /\ hs_listeners s = ∅ /\ hs_serve s = ∅ /\ hs_goroutines s = ∅ /\
  forall ln, registerListener s ln = (s, Some HTTPErrServerClosed).
Proof.
  intros Hwf%reachable_wf_server Hret. destruct (wf_returned_idle _ Hwf Hret) as [Hs Hg].
  destruct Hwf as [_ Ho Hl Hc _ _ Hr]. destruct (Hr Hret) as [Hcl _]. split_and!; try done.
  - apply set_eq. intros c. split; [|set_solver]. intros [[ln Hln]|Hgc]%Ho; [by rewrite Hs, lookup_empty in Hln|].
    by rewrite Hg, lookup_empty in Hgc.
  - apply set_eq. intros c. rewrite Hc, Hg, lookup_empty. split; [by intros []|set_solver].
  - apply set_eq. intros ln. rewrite Hl, Hs, lookup_empty. split; [by intros []|set_solver].
  - intros ln. unfold registerListener. by rewrite Hcl.
Qed.

(** a listener can outlive the server.  When [Accept] fails with an error of its
    own, the accept loop forgets its listener without closing it, and a [Close]
    afterwards does not close it either: its port stays bound. *)
Theorem failed_accept_leaks_listener :
  exists s, rtc server_step server0 s /\ hs_returned s = true /\ hs_bound s = {[0%nat]}.
Proof.
  eexists. split.
  - eapply rtc_l; [apply (sv_listen server0 0); [set_solver|done|reflexivity]|].
    eapply rtc_l; [apply (sv_accept_error _ 0 (ErrExt 0)); reflexivity|].
    eapply rtc_l; [eapply (sv_return _ 0); reflexivity|].
    eapply rtc_l; [apply sv_close|].
    eapply rtc_l; [apply sv_close_returns; reflexivity|]. apply rtc_refl.
  - split; vm_reflexivity.
Qed.
End server_properties.

(** * Witnesses *)

Definition all_ok : oframe -> option gerror := fun _ => None.
Definition sample_fields : list field :=
  [(B ":method", B "CONNECT"); (B ":protocol", B "connect-udp"); (B ":scheme", B "https");
   (B ":authority", B "h"); (B ":path", B "/x"); (B "masquecat-mode", B "relay")].
Definition sample_request : request :=
  Request (B "CONNECT") (B "HTTP/2.0") 2 (Some (Url.MkURL (B "https") [] None [] (B "/x") [] false false [] [] []))
    (B "h") {[ B ":protocol" := [B "connect-udp"]; B "Masquecat-Mode" := [B "relay"] ]} true (B "1.2.3.4:5").
Definition sample_conn : masqueHTTP2Conn := (startRequest newServerConn (B "1.2.3.4:5") 1 sample_fields false).1.
Definition env_of (f : iframe) : round_env := RoundEnv (EvFrame f) (Ok []) all_ok.
Definition sample_env : list round_env :=
  [env_of (FData 1 [x05] 9 false); env_of (FMetaHeaders 3 [] false false); env_of (FPing false []);
   env_of (FData 1 [x06; x07] 2 true)].

Lemma server_stream_exact_witness :
  let '(c, frames, reqs, err) := server_readLoop sample_conn false (B "1.2.3.4:5") sample_env in
  refused frames = [(3, ErrCodeRefusedStream)] /\ credit 0 frames = 11 /\ credit 1 frames = 11 /\
  (exists p, sc_body c = Some p /\ pp_data p = [x05; x06; x07] /\ pp_wclosed p = Some IOEOF).
Proof.
  destruct (server_readLoop sample_conn false (B "1.2.3.4:5") sample_env) as [[[c frames] reqs] err] eqn:Hl.
  assert (err = None) as -> by (revert Hl; vm_compute; by intros [= <- <- <- <-]).
  assert (startRequest newServerConn (B "1.2.3.4:5") 1 sample_fields false = (sample_conn, Ok sample_request)) as Hs
    by vm_reflexivity.
  destruct (server_stream_exact _ _ _ _ _ _ _ _ _ _ _ _ Hs Hl) as (_ & _ & _ & _ & _ & Hb & Hc0 & Hc1 & Hr).
  by split_and!.
Defined.

(** A peer that first allows three bytes: the five bytes of a write go out in two chunks,
    the second after a wait for the stream's window. *)
Lemma sample_sending :
  exists s, rtc send_step sender0 s /\ sent s = [OData 1 [x01; x02; x03] false; OData 1 [x04; x05] true].
Proof.
  eexists. split.
  - eapply rtc_l.
    { by eapply (sn_frame _ all_ok [] (FSettings false [(SettingInitialWindowSize, 3)])), surjective_pairing. }
    eapply rtc_l; [by eapply (sn_frame _ all_ok [] (FMetaHeaders 1 sample_fields false false)), surjective_pairing|].
    eapply rtc_l; [apply (sn_call _ [x01; x02; x03; x04; x05] true (fun _ _ => None)); [by vm_compute|reflexivity]|].
    eapply rtc_l; [eapply (sn_reserve _ _ 5 _ [] 3 (Flow 65532 0 3 16384)); [reflexivity|lia|by left|vm_reflexivity]|].
    eapply rtc_l.
    { eapply (sn_frame _ all_ok [] (FWindowUpdate 1 10)); [by intros ? ? [= _ <-]|apply surjective_pairing]. }
    eapply rtc_l; [|apply rtc_refl].
    eapply (sn_reserve _ _ 2 (Flow 65532 0 3 16384) [WakeFlow (Flow 65532 10 3 16384)] 2 (Flow 65530 8 3 16384));
      [reflexivity|lia| |vm_reflexivity].
    right. by exists [].
  - vm_reflexivity.
Qed.


Lemma response_frames_wellformed_witness :
  exists w l ok, rw_run (newResponseWriter 1)
    [(RWWriteHeader 200, RWEnv (fun _ w => Ok (Z.min w 2)) (fun _ _ => None) all_ok);
     (RWWrite [x01; x02; x03], RWEnv (fun _ w => Ok (Z.min w 2)) (fun _ _ => None) all_ok);
     (RWFinish, RWEnv (fun _ w => Ok (Z.min w 2)) (fun _ _ => None) all_ok)] = Some (w, l, ok) /\
    response_shape w l.
Proof.
  destruct (response_frames_wellformed 1
    [(RWWriteHeader 200, RWEnv (fun _ w => Ok (Z.min w 2)) (fun _ _ => None) all_ok);
     (RWWrite [x01; x02; x03], RWEnv (fun _ w => Ok (Z.min w 2)) (fun _ _ => None) all_ok);
     (RWFinish, RWEnv (fun _ w => Ok (Z.min w 2)) (fun _ _ => None) all_ok)]) as (w & l & ok & H1 & H2 & _).
  - assert (sound_reserve (fun _ w => Ok (Z.min w 2))) by (intros i want n Hw; intros [= <-]; lia).
    by repeat apply Forall_cons_2; [..|apply Forall_nil_2].
  - exists w, l, ok. done.
Defined.

Lemma server_close_is_final_witness :
  registerListener (H2Server true ∅ ∅ 0 ∅ ∅ ∅ ∅ true) 4
  = (H2Server true ∅ ∅ 0 ∅ ∅ ∅ ∅ true, Some HTTPErrServerClosed).
Proof.
  apply (server_close_is_final (H2Server true ∅ ∅ 0 ∅ ∅ ∅ ∅ true)); [|done].
  eapply rtc_l; [apply (sv_close server0)|]. eapply rtc_l; [apply sv_close_returns; reflexivity|]. apply rtc_refl.
Defined.

(** A writer that found the windows exhausted, and the update that comes then. *)
Definition exhausted : masqueHTTP2Conn := ServerConn (Flow 0 0 65535 16384) 1 None false false.

Lemma no_lost_wakeup_witness :
  sc_flowCh (with_flow (with_flow exhausted (Flow 5 0 65535 16384) true) (Flow 5 7 65535 16384) true) = true.
Proof.
  apply (no_lost_wakeup exhausted (WTrying 9) _ 9 5 (Flow 0 2 65535 16384)); [done| |done].
  eapply rtc_l; [by apply (wt_none _ 9)|].
  eapply rtc_l; [by apply (wt_window _ _ 0 5)|].
  eapply rtc_l; [by apply (wt_window _ _ 1 7)|]. apply rtc_refl.
Defined.
