(* ===== verification/H2Client.v ===== *)
(** H2Client: CONNECT-UDP over HTTP/2 from the client's side.

    Models src/masquecat_h2_client.go: one connection with its only stream, number 1,
    its read loop, the settings gate, flow control, closing, and the dial with its
    challenge handshake.  As in H2Server, the results of reads and writes are
    arguments. *)

From S2P Require Import Prelude GoStd Keys Packet Fragment Auth Url Endpoint Path Capsule H2 H2Server.
From Stdlib Require Import Strings.Byte.

(** * A connection *)

(** src/masquecat_h2_client.go:34-63 [masqueH2ClientConn]; the channels [settingsCh]
    and [responseCh] hold at most one value, put there by the [Once] beside them. *)
Record masqueH2ClientConn : Type := ClientConn {
  cc_flow : flow;
  cc_body : pipe;
  cc_flowCh : bool;
  cc_done : bool;
  cc_extendedConnectAllowed : bool;
  cc_settingsOnce : bool;
  cc_settingsCh : option (option gerror);
  cc_responseOnce : bool;
  cc_responseCh : option (result response);
}.
Definition client_streamID : Z := 1.

(** src/masquecat_h2_client.go:153-168 [dialMasqueH2ExtendedConnect], the new connection *)
Definition newClientConn : masqueH2ClientConn :=
  ClientConn newFlow newPipe false false false false None false None.

Definition cc_with_flow (c : masqueH2ClientConn) (f : flow) (signal : bool) : masqueH2ClientConn :=
  ClientConn f (cc_body c) (cc_flowCh c || signal) (cc_done c) (cc_extendedConnectAllowed c)
    (cc_settingsOnce c) (cc_settingsCh c) (cc_responseOnce c) (cc_responseCh c).
Definition cc_with_body (c : masqueH2ClientConn) (p : pipe) : masqueH2ClientConn :=
  ClientConn (cc_flow c) p (cc_flowCh c) (cc_done c) (cc_extendedConnectAllowed c)
    (cc_settingsOnce c) (cc_settingsCh c) (cc_responseOnce c) (cc_responseCh c).
Definition cc_allow (c : masqueH2ClientConn) (b : bool) : masqueH2ClientConn :=
  ClientConn (cc_flow c) (cc_body c) (cc_flowCh c) (cc_done c) b
    (cc_settingsOnce c) (cc_settingsCh c) (cc_responseOnce c) (cc_responseCh c).
(** The first SETTINGS frame, or the end of the connection, reports to [settingsCh]. *)
Definition cc_settings (c : masqueH2ClientConn) (v : option (option gerror)) : masqueH2ClientConn :=
  ClientConn (cc_flow c) (cc_body c) (cc_flowCh c) (cc_done c) (cc_extendedConnectAllowed c)
    true (match v with Some v => Some v | None => cc_settingsCh c end) (cc_responseOnce c) (cc_responseCh c).
(** [responseOnce.Do] *)
Definition cc_respond (c : masqueH2ClientConn) (r : result response) : masqueH2ClientConn :=
  if cc_responseOnce c then c
  else ClientConn (cc_flow c) (cc_body c) (cc_flowCh c) (cc_done c) (cc_extendedConnectAllowed c)
         (cc_settingsOnce c) (cc_settingsCh c) true (Some r).

(** src/masquecat_h2_client.go:601-621 [masqueH2ClientConn.closeWithError]; [None] is a
    nil error *)
Definition closeWithError (c : masqueH2ClientConn) (err : option gerror) : masqueH2ClientConn :=
  let err := default IOEOF err in
  if cc_done c then c
  else
    let c := ClientConn (cc_flow c) (pipe_CloseWithError (cc_body c) err) true true (cc_extendedConnectAllowed c)
               (cc_settingsOnce c) (cc_settingsCh c) (cc_responseOnce c) (cc_responseCh c) in
    let c := if cc_settingsOnce c then c else cc_settings c (Some (Some err)) in
    cc_respond c (Err err).

(** src/masquecat_h2_client.go:210-228 [masqueH2ClientConn.writeClientPrefaceAndSettings],
    behind the preface *)
Definition client_writeSettings (write : oframe -> option gerror) : list oframe * option gerror :=
  writeFrames write
    [OSettings [(SettingInitialWindowSize, masqueH2InitialWindow); (SettingMaxConcurrentStreams, 1);
                (SettingMaxHeaderListSize, masqueH2MaxHeaderListSize)];
     OWindowUpdate 0 (masqueH2InitialWindow - 65535)].

(** src/masquecat_h2_client.go:230-244 [masqueH2ClientConn.writeFrame] *)
Definition client_writeFrame (c : masqueH2ClientConn) (write : oframe -> option gerror) (fr : oframe)
    : list oframe * option gerror :=
  if cc_done c then ([], Some NetErrClosed) else writeFrame write fr.

(** src/masquecat_h2_client.go:246-262 [masqueH2ClientConn.writeExtendedConnectHeaders] *)
Definition writeExtendedConnectHeaders (c : masqueH2ClientConn) (write : oframe -> option gerror)
    (u : Url.URL) (headers : gmap gostring (list gostring)) : masqueH2ClientConn * list oframe * option gerror :=
  let block := encodeMasqueH2RequestHeaders u headers in
  let c := cc_with_flow c (reset_stream_window (cc_flow c)) false in
  let '(l, e) := client_writeFrame c write (OHeaders client_streamID block false) in
  (c, l, e).

(** src/masquecat_h2_client.go:427-445 [masqueH2ClientConn.handleSettings], the loop
    over the settings *)
Fixpoint client_settings (c : masqueH2ClientConn) (settings : list setting) : masqueH2ClientConn * option gerror :=
  match settings with
  | [] => (c, None)
  | (id, v) :: rest =>
      if id =? SettingEnableConnectProtocol then
        if 1 <? v then (c, Some (ErrNew "masquecat: invalid SETTINGS_ENABLE_CONNECT_PROTOCOL=%d"))
        else client_settings (cc_allow c (v =? 1)) rest
      else client_settings (cc_with_flow c (apply_setting true (cc_flow c) (id, v)) false) rest
  end.

(** src/masquecat_h2_client.go:421-470 [masqueH2ClientConn.handleSettings] *)
Definition client_handleSettings (c : masqueH2ClientConn) (write : oframe -> option gerror) (ack : bool)
    (settings : list setting) : masqueH2ClientConn * list oframe * option gerror :=
  if ack then (c, [], None)
  else
    let firstSettings := negb (cc_settingsOnce c) in
    let c := cc_settings c None in
    match client_settings c settings with
    | (c, Some e) => (if firstSettings then cc_settings c (Some (Some e)) else c, [], Some e)
    | (c, None) =>
        match client_writeFrame c write OSettingsAck with
        | (l, Some e) => (if firstSettings then cc_settings c (Some (Some e)) else c, l, Some e)
        | (l, None) =>
            let c := cc_with_flow c (cc_flow c) true in
            (if firstSettings then
               cc_settings c (Some
                 (if negb (cc_extendedConnectAllowed c)
                  then Some (ErrNew "masquecat: HTTP/2 peer did not advertise SETTINGS_ENABLE_CONNECT_PROTOCOL")
                  else None))
             else c, l, None)
        end
    end.

(** src/masquecat_h2_client.go:472-489 [masqueH2ClientConn.handleWindowUpdate] *)
Definition client_handleWindowUpdate (c : masqueH2ClientConn) (sid inc : Z) : masqueH2ClientConn * option gerror :=
  let f := add_window (cc_flow c) client_streamID sid inc in
  if window_overflow f then
    (cc_with_flow c f false, Some (ErrNew "masquecat: HTTP/2 flow-control window overflow"))
  else (cc_with_flow c f true, None).

(** src/masquecat_h2_client.go:491-532 [masqueH2ClientConn.handleResponseHeaders] *)
Definition handleResponseHeaders (c : masqueH2ClientConn) (fields : list field) (ended : bool)
    : masqueH2ClientConn * option gerror :=
  match responseFromFields fields with
  | Err e => (c, Some e)
  | Ok resp =>
      let c := cc_respond c (Ok resp) in
      (if ended then cc_with_body c (pipe_Close (cc_body c)) else c, None)
  end.

(** One round of the read loop: the frames written, and the value it returns with,
    if it returns. *)
Record cround : Type := CRound {
  cr_frames : list oframe;
  cr_exit : option (option gerror);
}.

(** src/masquecat_h2_client.go:384-408 [masqueH2ClientConn.readLoop], a DATA frame *)
Definition client_data (c : masqueH2ClientConn) (write : oframe -> option gerror) (sid : Z) (data : list byte)
    (length : Z) (ended : bool) : masqueH2ClientConn * cround :=
  if negb (sid =? client_streamID) then (c, CRound [] None)
  else
    match (if bool_decide (data = []) then (cc_body c, None) else pipe_Write (cc_body c) data) with
    | (p, Some e) => (cc_with_body c p, CRound [] (Some (Some e)))
    | (p, None) =>
        let c := cc_with_body c p in
        let '(l, e) :=
          if length =? 0 then ([], None)
          else
            match client_writeFrame c write (OWindowUpdate 0 length) with
            | (l, Some e) => (l, Some e)
            | (l, None) =>
                let '(l', e) := client_writeFrame c write (OWindowUpdate client_streamID length) in (l ++ l', e)
            end in
        match e with
        | Some e => (c, CRound l (Some (Some e)))
        | None =>
            if ended then (cc_with_body c (pipe_Close p), CRound l (Some None)) else (c, CRound l None)
        end
    end.

(** src/masquecat_h2_client.go:354-417 [masqueH2ClientConn.readLoop], one frame *)
Definition client_frame (c : masqueH2ClientConn) (write : oframe -> option gerror) (f : iframe)
    : masqueH2ClientConn * cround :=
  match f with
  | FSettings ack settings =>
      let '(c, l, e) := client_handleSettings c write ack settings in (c, CRound l (Some <$> e))
  | FPing ack data =>
      if ack then (c, CRound [] None)
      else let '(l, e) := client_writeFrame c write (OPing true data) in (c, CRound l (Some <$> e))
  | FWindowUpdate sid inc =>
      let '(c, e) := client_handleWindowUpdate c sid inc in (c, CRound [] (Some <$> e))
  | FMetaHeaders sid fields ended truncated =>
      if truncated then
        (c, CRound [] (Some (Some (ErrNew "masquecat: HTTP/2 response headers exceed configured limit"))))
      else if negb (sid =? client_streamID) then (c, CRound [] None)
      else let '(c, e) := handleResponseHeaders c fields ended in (c, CRound [] (Some <$> e))
  | FData sid data length ended => client_data c write sid data length ended
  | FRSTStream sid _ =>
      if sid =? client_streamID then
        (c, CRound [] (Some (Some (ErrNew "masquecat: HTTP/2 CONNECT stream reset: %s"))))
      else (c, CRound [] None)
  | FGoAway => (c, CRound [] (Some (Some IOEOF)))
  | FOther => (c, CRound [] None)
  end.

(** src/masquecat_h2_client.go:321-418 [masqueH2ClientConn.readLoop], one round *)
Definition client_round (c : masqueH2ClientConn) (pingOutstanding : bool) (write : oframe -> option gerror)
    (rand : result (list byte)) (ev : read_event) : masqueH2ClientConn * bool * cround :=
  match ev with
  | EvReadErr e => (c, pingOutstanding, CRound [] (Some (Some e)))
  | EvTimeout _ =>
      if pingOutstanding then
        (c, true, CRound [] (Some (Some (ErrNew "masquecat: HTTP/2 peer did not answer PING within %s"))))
      else
        match rand with
        | Err e => (c, false, CRound [] (Some (Some e)))
        | Ok pingData =>
            match client_writeFrame c write (OPing false pingData) with
            | (l, Some e) => (c, false, CRound l (Some (Some e)))
            | (l, None) => (c, true, CRound l None)
            end
        end
  | EvFrame f => let '(c, r) := client_frame c write f in (c, false, r)
  end.

(** * Writing *)

(** src/masquecat_h2_client.go:534-568 [masqueH2ClientConn.reserveWriteWindow]; [None]
    while it still waits *)
Fixpoint client_reserveWriteWindow (f : flow) (want : Z) (wakes : list wake) : option (result Z * flow) :=
  match reserve_once f want with
  | Some (n, f) => Some (Ok n, f)
  | None =>
      match wakes with
      | [] => None
      | WakeFlow f :: wakes => client_reserveWriteWindow f want wakes
      | WakeDone :: _ => Some (Err NetErrClosed, f)
      | WakeContext e :: _ => Some (Err e, f)
      | WakeTimeout :: _ => Some (Err (ErrNew "masquecat: HTTP/2 flow-control write timeout"), f)
      end
  end.

(** src/masquecat_h2_client.go:570-590 [masqueH2ClientConn.writeData] and
    [masqueH2ClientBodyWriter.Write]; the stream is always 1 here *)
Definition client_writeData (reserve : nat -> Z -> result Z) (write : nat -> oframe -> option gerror)
    (p : list byte) (endStream : bool) : option (list oframe * option gerror) :=
  match p with
  | [] => Some (writeFrame (write 0%nat) (OData client_streamID [] endStream))
  | _ => write_chunks (length p) reserve write client_streamID endStream 0 p
  end.

(** src/masquecat_h2_client.go:592-599 [masqueH2ClientConn.closeRequestStream] *)
Definition closeRequestStream (c : masqueH2ClientConn) (write : oframe -> option gerror)
    : masqueH2ClientConn * list oframe * option gerror :=
  let '(l, e) := client_writeFrame c write (OData client_streamID [] true) in
  (closeWithError c (Some NetErrClosed), l, errors_join [e]).

(** src/masquecat_h2_client.go:316-419 [masqueH2ClientConn.readLoop]: the frames
    written, and the value it returns with ([None] while it still runs); when it
    returns, the connection is closed with it. *)
Fixpoint client_readLoop (c : masqueH2ClientConn) (pingOutstanding : bool) (env : list round_env)
    : masqueH2ClientConn * list oframe * option (option gerror) :=
  match env with
  | [] => (c, [], None)
  | e :: env =>
      let '(c, ping, r) := client_round c pingOutstanding (re_write e) (re_rand e) (re_event e) in
      match cr_exit r with
      | Some err => (closeWithError c err, cr_frames r, Some err)
      | None =>
          let '(c, l, err) := client_readLoop c ping env in
          (c, cr_frames r ++ l, err)
      end
  end.

(** * Dialling *)

(** What a wait on a channel or on the context yields. *)
Inductive waited (A : Type) : Type :=
  | Got (a : A)
  | CtxDone (e : gerror).
Arguments Got {A} _.
Arguments CtxDone {A} _.

(** The outside of one dial: the TLS dial to an address, the result of writing the
    preface, the first value of [settingsCh], the result of writing the request, the
    value of [responseCh]. *)
Record dial_env : Type := DialEnv {
  de_dial : gostring -> option gerror;
  de_preface : option gerror;
  de_settings : waited (option gerror);
  de_request : list field -> option gerror;
  de_response : list field -> waited (result response);
}.

(** What a dial did: whether a connection was opened, whether it was closed again, and
    the request it wrote. *)
Record dial_log : Type := DialLog {
  dl_opened : option gostring;
  dl_closed : bool;
  dl_request : option (list field);
}.

(** src/masquecat_h2_client.go:125-208 [dialMasqueH2ExtendedConnect] *)
Definition dialMasqueH2ExtendedConnect (env : dial_env) (rawURL : gostring)
    (headers : gmap gostring (list gostring)) : result response * dial_log :=
  let unopened := DialLog None false None in
  match Url.Parse rawURL with
  | Err e => (Err (ErrWrap "masquecat: parse HTTP/2 CONNECT-UDP URL: %w" e), unopened)
  | Ok u =>
      if negb (bool_decide (Url.Scheme u = B "https")) || bool_decide (Url.Host u = []) then
        (Err (ErrNew "masquecat: invalid HTTP/2 CONNECT-UDP URL %q"), unopened)
      else
        let addr := if bool_decide (Url.Port u = []) then Net.JoinHostPort (Url.Hostname u) (B "443") else Url.Host u in
        match de_dial env addr with
        | Some e => (Err (ErrWrap "masquecat: dial HTTP/2 CONNECT-UDP: %w" e), unopened)
        | None =>
            match de_preface env with
            | Some e => (Err e, DialLog (Some addr) true None)
            | None =>
                match de_settings env with
                | Got (Some e) | CtxDone e => (Err e, DialLog (Some addr) true None)
                | Got None =>
                    let block := encodeMasqueH2RequestHeaders u headers in
                    match de_request env block with
                    | Some e => (Err e, DialLog (Some addr) true None)
                    | None =>
                        match de_response env block with
                        | Got (Err e) | CtxDone e => (Err e, DialLog (Some addr) true (Some block))
                        | Got (Ok resp) => (Ok resp, DialLog (Some addr) false (Some block))
                        end
                    end
                end
            end
        end
  end.

Section dial.
Context `{K : KeyOps} `{ML : MasqueLib}.

(** src/masquecat_h2_client.go:79-85 [dialMasqueH2PacketConnRFC8441, dial]: the
    request headers *)
Definition h2_connectHeaders (local : NodePublic) (mode proof : gostring) : gmap gostring (list gostring) :=
  let h := HTTP.Set_ ∅ CapsuleProtocolHeader (B "?1") in
  let h := HTTP.Set_ h masqueSourceHeader (KeyString local) in
  let h := HTTP.Set_ h masqueModeHeader mode in
  if bool_decide (proof = []) then h else HTTP.Set_ h masqueProofHeader proof.

(** The end of the dial: only a 2xx response yields the connection. *)
Definition h2_dial_finish (conn : nat) (resp : response) : result nat * list nat :=
  if (rs_StatusCode resp <? 200) || (300 <=? rs_StatusCode resp) then
    (Err (ErrNew "masquecat: HTTP/2 CONNECT-UDP failed: %s"), [conn])
  else (Ok conn, []).

(** src/masquecat_h2_client.go:65-123 [dialMasqueH2PacketConnRFC8441]: the connection
    (0 for the first dial's, 1 for the second's) and the packet connections closed on
    the way; [env1] and [env2] are the outsides of the two dials. *)
Definition dialMasqueH2PacketConnRFC8441 (env1 env2 : dial_env) (nonce : list byte) (tmpl : template)
    (target : NodePublic) (local : NodePrivate) (mode : gostring) : result nat * list nat :=
  match expandMasqueTargetURL tmpl (masqueTarget target) with
  | Err e => (Err e, [])
  | Ok expandedURL =>
      match (dialMasqueH2ExtendedConnect env1 expandedURL (h2_connectHeaders (Public local) mode [])).1 with
      | Err e => (Err e, [])
      | Ok resp =>
          if rs_StatusCode resp =? HTTP.StatusUnauthorized then
            match masqueProofForChallenge nonce local (HTTP.Get (rs_Header resp) masqueChallengeHeader)
                    (HTTP.Get (rs_Header resp) masqueVerifierHeader) target mode with
            | Err e => (Err (ErrWrap "masquecat: authenticate HTTP/2 CONNECT-UDP: %w" e), [0%nat])
            | Ok proof =>
                match (dialMasqueH2ExtendedConnect env2 expandedURL (h2_connectHeaders (Public local) mode proof)).1 with
                | Err e => (Err e, [0%nat])
                | Ok resp => let '(r, closed) := h2_dial_finish 1 resp in (r, 0%nat :: closed)
                end
            end
          else h2_dial_finish 0 resp
      end
  end.
End dial.

(** * Facts *)

(** The steps of a connection before and after its read loop ends. *)
Inductive client_step : masqueH2ClientConn -> masqueH2ClientConn -> Prop :=
  | cl_round c ping write rand ev c' ping' r :
      client_round c ping write rand ev = (c', ping', r) -> cr_exit r = None -> client_step c c'
  | cl_round_exit c ping write rand ev c' ping' r err :
      client_round c ping write rand ev = (c', ping', r) -> cr_exit r = Some err ->
      client_step c (closeWithError c' err)
  | cl_headers c write u headers c' l e :
      writeExtendedConnectHeaders c write u headers = (c', l, e) -> client_step c c'
  | cl_close c err : client_step c (closeWithError c err)
  | cl_closeStream c write c' l e : closeRequestStream c write = (c', l, e) -> client_step c c'.

(** Everything but the windows, the signal and the Extended CONNECT setting. *)
Definition same_channels (c c' : masqueH2ClientConn) : Prop :=
  cc_body c' = cc_body c /\ cc_done c' = cc_done c /\ cc_settingsOnce c' = cc_settingsOnce c /\
  cc_settingsCh c' = cc_settingsCh c /\ cc_responseOnce c' = cc_responseOnce c /\ cc_responseCh c' = cc_responseCh c.

(** The channels hold what their [Once] put there, and the end of the connection
    fills both and closes the body. *)
Record wf_client (c : masqueH2ClientConn) : Prop := {
  wc_settings : cc_settingsOnce c = true <-> is_Some (cc_settingsCh c);
  wc_response : cc_responseOnce c = true <-> is_Some (cc_responseCh c);
  wc_done : cc_done c = true ->
    is_Some (cc_settingsCh c) /\ is_Some (cc_responseCh c) /\ is_Some (pp_wclosed (cc_body c));
  wc_fresh : cc_settingsOnce c = false -> cc_extendedConnectAllowed c = false;
}.

(** A channel that holds a value keeps it. *)
Definition keeps (c c' : masqueH2ClientConn) : Prop :=
  (forall v, cc_settingsCh c = Some v -> cc_settingsCh c' = Some v) /\
  (forall v, cc_responseCh c = Some v -> cc_responseCh c' = Some v).

Lemma keeps_trans c1 c2 c3 : keeps c1 c2 -> keeps c2 c3 -> keeps c1 c3.
Proof. intros [? ?] [? ?]. split; auto. Qed.

Lemma same_wf c c' :
  same_channels c c' -> (cc_settingsOnce c' = false -> cc_extendedConnectAllowed c' = false) ->
  wf_client c -> wf_client c' /\ keeps c c'.
Proof.
  intros (Hb & Hd & Hs & Hsc & Hr & Hrc) Hf [H1 H2 H3 _]. split.
  - constructor; rewrite ?Hb, ?Hd, ?Hs, ?Hsc, ?Hr, ?Hrc; auto. by rewrite <- Hs.
  - split; intros v; congruence.
Qed.

Lemma client_settings_same c settings c' e : client_settings c settings = (c', e) -> same_channels c c'.
Proof.
  revert c. induction settings as [|[id v] rest IH]; intros c; simpl; [by intros [= <- _]|].
  destruct (id =? SettingEnableConnectProtocol).
  - destruct (1 <? v); [by intros [= <- _]|]. by intros ?%IH.
  - by intros ?%IH.
Qed.

Lemma body_wf c p :
  (is_Some (pp_wclosed (cc_body c)) -> is_Some (pp_wclosed p)) ->
  wf_client c -> wf_client (cc_with_body c p) /\ keeps c (cc_with_body c p).
Proof.
  intros Hp [H1 H2 H3 H4]. split; [|done]. constructor; simpl; auto. intros Hd.
  destruct (H3 Hd) as (? & ? & ?). auto.
Qed.

Lemma once_empty {A} (b : bool) (x : option A) : (b = true <-> is_Some x) -> b = false -> x = None.
Proof. intros H ->. destruct x; [|done]. by assert (false = true) by (apply H; eauto). Qed.

Lemma respond_wf c r : wf_client c -> wf_client (cc_respond c r) /\ keeps c (cc_respond c r).
Proof.
  intros Hwf. unfold cc_respond. destruct (cc_responseOnce c) eqn:Hr; [done|]. destruct Hwf as [H1 H2 H3 H4].
  assert (cc_responseCh c = None) as Hn.
  { by apply once_empty in H2. }
  split; [constructor; simpl; auto|split; simpl; congruence].
  - split; eauto.
  - intros Hd. destruct (H3 Hd) as (? & ? & ?). eauto.
Qed.

Lemma closeWithError_wf c err : wf_client c -> wf_client (closeWithError c err) /\ keeps c (closeWithError c err).
Proof.
  intros Hwf. unfold closeWithError. destruct (cc_done c) eqn:Hd; [done|].
  set (e := default IOEOF err). set (p := pipe_CloseWithError (cc_body c) e).
  assert (is_Some (pp_wclosed p)) as Hp by (unfold p, pipe_CloseWithError; simpl; destruct (pp_wclosed (cc_body c)); eauto).
  destruct Hwf as [H1 H2 H3 H4].
  assert (cc_settingsOnce c = false -> cc_settingsCh c = None) as Hsn.
  { by apply once_empty. }
  assert (cc_responseOnce c = false -> cc_responseCh c = None) as Hrn.
  { by apply once_empty. }
  unfold cc_respond, cc_settings. split.
  - destruct (cc_settingsOnce c) eqn:Es, (cc_responseOnce c) eqn:Er; simpl; rewrite ?Er; simpl;
      (constructor; simpl; [|split|intros _; split_and!|]; rewrite ?Es, ?Er; try done; eauto; naive_solver).
  - destruct (cc_settingsOnce c) eqn:Es, (cc_responseOnce c) eqn:Er; simpl; rewrite ?Er; simpl; split; simpl; try done;
      intros v; rewrite ?Hsn, ?Hrn by done; done.
Qed.

(** The first SETTINGS frame reports once; the others change no channel. *)
Lemma handleSettings_wf c write ack settings c' l e :
  wf_client c -> client_handleSettings c write ack settings = (c', l, e) -> wf_client c' /\ keeps c c'.
Proof.
  intros Hwf H. unfold client_handleSettings in H. destruct ack; [by injection H as <- _ _|].
  destruct (client_settings (cc_settings c None) settings) as [c1 e1] eqn:Hs.
  apply client_settings_same in Hs as (Hb & Hd & Hso & Hsc & Hr & Hrc). simpl in *.
  destruct Hwf as [H1 H2 H3 H4].
  assert (forall c2 v, same_channels c1 c2 -> cc_settingsOnce c = false ->
            wf_client (cc_settings c2 (Some v)) /\ keeps c (cc_settings c2 (Some v))) as Hfirst.
  { intros c2 v (Gb & Gd & Gso & Gsc & Gr & Grc) Ho.
    assert (cc_settingsCh c = None) as Hn by (by apply once_empty in H1).
    split; [constructor; simpl|split; simpl; [congruence|intros r; congruence]].
    - split; eauto.
    - by rewrite Gr, Hr, Grc, Hrc.
    - rewrite Gd, Hd, Grc, Hrc, Gb, Hb. intros Hdone. destruct (H3 Hdone) as (? & ? & ?). eauto.
    - done. }
  assert (forall c2, same_channels c1 c2 -> cc_settingsOnce c = true -> wf_client c2 /\ keeps c c2) as Hlater.
  { intros c2 (Gb & Gd & Gso & Gsc & Gr & Grc) Ho. split.
    - constructor; rewrite ?Gb, ?Gd, ?Gso, ?Gsc, ?Gr, ?Grc, ?Hb, ?Hd, ?Hso, ?Hsc, ?Hr, ?Hrc; auto; [|done].
      split; [intros _; by apply H1|done].
    - split; intros v; congruence. }
  destruct e1 as [e1|].
  { injection H as <- _ _. destruct (cc_settingsOnce c); simpl; [by apply Hlater|by apply Hfirst]. }
  destruct (client_writeFrame c1 write OSettingsAck) as [l1 [e2|]]; injection H as <- _ _;
    (destruct (cc_settingsOnce c); simpl; [by apply Hlater|by apply Hfirst]).
Qed.

Lemma frame_wf c write f c' r :
  wf_client c -> client_frame c write f = (c', r) -> wf_client c' /\ keeps c c'.
Proof.
  intros Hwf H. destruct f; simpl in H.
  - destruct (client_handleSettings c write ack settings) as [[c1 l] e] eqn:Hs. injection H as <- _.
    by eapply handleSettings_wf.
  - destruct ack; [by injection H as <- _|]. destruct (client_writeFrame _ _ _). by injection H as <- _.
  - unfold client_handleWindowUpdate in H. destruct (window_overflow _); injection H as <- _;
      (apply (same_wf c); [done|apply Hwf|done]).
  - destruct truncated; [by injection H as <- _|]. destruct (negb _); [by injection H as <- _|].
    unfold handleResponseHeaders in H. destruct (responseFromFields fields) as [resp|e]; [|by injection H as <- _].
    destruct (respond_wf c (Ok resp) Hwf) as [Hw1 Hk1]. injection H as <- _. destruct ended; [|done].
    destruct (body_wf (cc_respond c (Ok resp)) (pipe_Close (cc_body (cc_respond c (Ok resp))))) as [Hw2 Hk2]; [|done|].
    { unfold pipe_Close, pipe_CloseWithError. simpl. destruct (pp_wclosed _); eauto. }
    split; [done|]. by eapply keeps_trans.
  - unfold client_data in H. destruct (negb _); [by injection H as <- _|].
    assert (forall p e, (if bool_decide (data = []) then (cc_body c, None) else pipe_Write (cc_body c) data) = (p, e) ->
              is_Some (pp_wclosed (cc_body c)) -> is_Some (pp_wclosed p)) as Hp.
    { intros p e. case_bool_decide; [by intros [= <- _]|]. unfold pipe_Write.
      destruct (pp_wclosed (cc_body c)) eqn:E; [|by intros _ []]. intros [= <- _] ?. by rewrite E. }
    destruct (if bool_decide (data = []) then _ else _) as [p [e|]] eqn:Hw; specialize (Hp _ _ eq_refl).
    { injection H as <- _. by apply body_wf. }
    destruct (if length =? 0 then _ else _) as [l [e|]]; [injection H as <- _; by apply body_wf|].
    destruct ended; injection H as <- _; [|by apply body_wf].
    destruct (body_wf c p Hp Hwf) as [Hw1 Hk1]. destruct (body_wf (cc_with_body c p) (pipe_Close p)) as [Hw2 Hk2]; [|done|].
    { simpl. unfold pipe_Close, pipe_CloseWithError. simpl. destruct (pp_wclosed p); eauto. }
    split; [done|]. by eapply keeps_trans.
  - destruct (_ =? _); by injection H as <- _.
  - by injection H as <- _.
  - by injection H as <- _.
Qed.

Lemma round_wf c ping write rand ev c' ping' r :
  wf_client c -> client_round c ping write rand ev = (c', ping', r) -> wf_client c' /\ keeps c c'.
Proof.
  intros Hwf H. unfold client_round in H. destruct ev as [f|e|e].
  - destruct (client_frame c write f) as [c1 r1] eqn:Hf. injection H as <- _ _. by eapply frame_wf.
  - destruct ping; [by injection H as <- _ _|]. destruct rand; [|by injection H as <- _ _].
    destruct (client_writeFrame _ _ _) as [l [e'|]]; by injection H as <- _ _.
  - by injection H as <- _ _.
Qed.

Lemma client_step_wf c c' : wf_client c -> client_step c c' -> wf_client c' /\ keeps c c'.
Proof.
  intros Hwf Hst. destruct Hst as [c ping write rand ev c' ping' r Hr _|c ping write rand ev c' ping' r err Hr _
    |c write u headers c' l e H|c err|c write c' l e H].
  - by eapply round_wf.
  - destruct (round_wf _ _ _ _ _ _ _ _ Hwf Hr) as [Hw Hk]. destruct (closeWithError_wf c' err Hw).
    split; [done|]. by eapply keeps_trans.
  - unfold writeExtendedConnectHeaders in H. destruct (client_writeFrame _ _ _). injection H as <- _ _.
    apply (same_wf c); [done|apply Hwf|done].
  - by apply closeWithError_wf.
  - unfold closeRequestStream in H. destruct (client_writeFrame _ _ _). injection H as <- _ _. by apply closeWithError_wf.
Qed.

Lemma wf_newClientConn : wf_client newClientConn.
Proof. constructor; simpl; try done; (split; [done|by intros []]). Qed.

Lemma reachable_wf_client c : rtc client_step newClientConn c -> wf_client c.
Proof.
  pose proof wf_newClientConn as H0. intros Hr. revert H0. induction Hr as [|c1 c2 c3 Hst _ IH]; [done|].
  intros H0. apply IH. by eapply client_step_wf.
Qed.

(** The last value of SETTINGS_ENABLE_CONNECT_PROTOCOL. *)
Definition advertised (settings : list setting) : Z :=
  default 0 (last (snd <$> filter (fun s => s.1 = SettingEnableConnectProtocol) settings)).

Lemma client_settings_allowed c settings c' :
  client_settings c settings = (c', None) ->
  cc_extendedConnectAllowed c' =
    match last (snd <$> filter (fun s => s.1 = SettingEnableConnectProtocol) settings) with
    | Some v => v =? 1
    | None => cc_extendedConnectAllowed c
    end.
Proof.
  revert c. induction settings as [|[id v] rest IH]; intros c; simpl; [by intros [= <-]|].
  destruct (id =? SettingEnableConnectProtocol) eqn:E; bool_to_prop.
  - destruct (1 <? v); [done|]. intros H%IH. rewrite filter_cons_True by done. cbn [fmap list_fmap snd].
    rewrite last_cons. destruct (last _); [done|]. exact H.
  - intros H%IH. rewrite filter_cons_False by done. exact H.
Qed.

(** * Properties *)

(** the dialler is always answered, once.  Whatever the peer sends and however the
    connection is closed, a channel that holds a value keeps it, and when the
    connection is done both the settings and the response channel hold one and the
    body is closed; so no wait of the dial can last longer than the connection. *)
Theorem dialler_is_answered c c' :
  rtc client_step newClientConn c -> client_step c c' ->
  (forall v, cc_settingsCh c = Some v -> cc_settingsCh c' = Some v) /\
  (forall v, cc_responseCh c = Some v -> cc_responseCh c' = Some v) /\
  (cc_done c' = true ->
   is_Some (cc_settingsCh c') /\ is_Some (cc_responseCh c') /\ is_Some (pp_wclosed (cc_body c'))).
Proof.
  intros Hwf%reachable_wf_client Hst. destruct (client_step_wf _ _ Hwf Hst) as [Hw [? ?]].
  split_and!; [done|done|apply Hw].
Qed.

(** the gate in front of the request.  The first SETTINGS frame of the peer opens it
    exactly when the frame was valid, its acknowledgement was written, and it
    advertised Extended CONNECT (the last such setting counts, and it is 1). *)
Theorem connect_is_gated c write settings c' l e :
  rtc client_step newClientConn c -> cc_settingsOnce c = false ->
  client_handleSettings c write false settings = (c', l, e) ->
  cc_settingsCh c' = Some None <-> e = None /\ advertised settings = 1.
Proof.
  intros Hwf%reachable_wf_client Ho H. pose proof (wc_fresh _ Hwf Ho) as Hf.
  unfold client_handleSettings in H. rewrite Ho in H. cbn [negb] in H.
  destruct (client_settings (cc_settings c None) settings) as [c1 [e1|]] eqn:Hs.
  { injection H as <- <- <-. simpl. split; [done|by intros [? _]]. }
  pose proof (client_settings_allowed _ _ _ Hs) as Ha. simpl in Ha. rewrite Hf in Ha. unfold advertised.
  destruct (client_writeFrame c1 write OSettingsAck) as [l1 [e2|]]; injection H as <- <- <-; simpl.
  { split; [done|by intros [? _]]. }
  rewrite Ha. destruct (last _) as [v|]; simpl.
  - destruct (v =? 1) eqn:E; simpl; bool_to_prop; naive_solver.
  - split; [done|by intros [_ ?]].
Qed.

(** A dial that failed. *)
Ltac dial_error H := injection H as <- <-; split_and!; simpl; try done; by intros [].

(** a dial leaks nothing and asks for nothing early.  A connection that was opened
    is closed again unless the dial succeeds; it is opened to the URL's host, on port
    443 by default, for an https URL only; and the request is written only after the
    settings were accepted. *)
Theorem h2_dial_outcomes env rawURL headers res log :
  dialMasqueH2ExtendedConnect env rawURL headers = (res, log) ->
  (is_Some (dl_opened log) -> dl_closed log = negb (is_ok res)) /\
  (dl_opened log = None -> is_ok res = false /\ dl_closed log = false /\ dl_request log = None) /\
  (is_Some (dl_request log) -> de_preface env = None /\ de_settings env = Got None) /\
  (forall resp, res = Ok resp -> exists u block,
     Url.Parse rawURL = Ok u /\ Url.Scheme u = B "https" /\ Url.Host u <> [] /\
     block = encodeMasqueH2RequestHeaders u headers /\ dl_request log = Some block /\
     de_response env block = Got (Ok resp) /\
     dl_opened log = Some (if bool_decide (Url.Port u = []) then Net.JoinHostPort (Url.Hostname u) (B "443")
                           else Url.Host u)).
Proof.
  unfold dialMasqueH2ExtendedConnect. intros H.
  destruct (Url.Parse rawURL) as [u|e] eqn:Hu; [|dial_error H].
  destruct (negb _ || _) eqn:Eu; [dial_error H|]. bool_to_prop.
  destruct (de_dial env _); [dial_error H|].
  destruct (de_preface env) eqn:Hpre; [dial_error H|].
  destruct (de_settings env) as [[e|]|e] eqn:Hset; [dial_error H| |dial_error H].
  destruct (de_request env _); [dial_error H|].
  destruct (de_response env _) as [[resp|e]|e] eqn:Hresp; [injection H as <- <-; split_and!; try done|dial_error H..].
  intros resp' [= <-]. eexists u, _. split_and!; done.
Qed.

(** * From the server's response writer to the client's body *)

Section downstream.

(** A written frame as the other side's framer delivers it. *)
Definition deliver (fr : oframe) : iframe :=
  match fr with
  | OSettings l => FSettings false l
  | OSettingsAck => FSettings true []
  | OPing ack d => FPing ack d
  | OWindowUpdate sid inc => FWindowUpdate sid inc
  | OHeaders sid fields ended => FMetaHeaders sid fields ended false
  | OData sid d ended => FData sid d (zlen d) ended
  | ORSTStream sid code => FRSTStream sid code
  end.

(** A read of that frame, all writes of the round succeeding. *)
Definition reads (l : list oframe) : list round_env :=
  (fun fr => RoundEnv (EvFrame (deliver fr)) (Ok []) all_ok) <$> l.

(** Chunks of the body arrive in the client's pipe. *)
Lemma client_chunks c chunks env2 d :
  Forall (body_frame client_streamID) chunks -> cc_done c = false -> cc_body c = Pipe d None None ->
  exists c' l, cc_done c' = false /\ cc_body c' = Pipe (d ++ concat (frame_data <$> chunks)) None None /\
    cc_responseCh c' = cc_responseCh c /\
    forall c2 l2 e2, client_readLoop c' false env2 = (c2, l2, e2) ->
      client_readLoop c false (reads chunks ++ env2) = (c2, l ++ l2, e2).
Proof.
  intros Hch. revert c d. induction Hch as [|fr chunks (b & ->) _ IH]; intros c d Hd Hb.
  { exists c, []. rewrite app_nil_r. by split_and!. }
  set (c1 := cc_with_body c (Pipe (d ++ b) None None)).
  destruct (IH c1 (d ++ b)) as (c' & l & Hd' & Hb' & Hr' & Hloop); [done|done|].
  exists c', ((if zlen b =? 0 then [] else [OWindowUpdate 0 (zlen b); OWindowUpdate client_streamID (zlen b)]) ++ l).
  split_and!; [done|by rewrite Hb', <- app_assoc|done|].
  intros c2 l2 e2 H2. apply Hloop in H2. cbn [reads fmap list_fmap app client_readLoop re_write re_rand re_event deliver].
  assert (client_round c false all_ok (Ok []) (EvFrame (FData client_streamID b (zlen b) false)) =
    (c1, false, CRound (if zlen b =? 0 then [] else [OWindowUpdate 0 (zlen b); OWindowUpdate client_streamID (zlen b)]) None)) as ->.
  { unfold client_round, client_frame, client_data. rewrite Z.eqb_refl, Hb. cbn [negb].
    assert ((if bool_decide (b = []) then (Pipe d None None, None) else pipe_Write (Pipe d None None) b)
            = (Pipe (d ++ b) None None, None)) as ->.
    { case_bool_decide as E; [by rewrite E, app_nil_r|done]. }
    unfold client_writeFrame. simpl. rewrite Hd. by destruct (zlen b =? 0). }
  cbn [cr_exit cr_frames]. unfold reads in H2. rewrite H2. by rewrite <- app_assoc.
Qed.

(** The calls a handler makes behind its header: bodies written. *)
Definition is_write (x : rw_op * rw_env) : Prop := exists p, x.1 = RWWrite p.

(** Writes behind the header put exactly their bytes on the stream. *)
Lemma rw_writes w ops w' l :
  hw_wroteHeader w = true -> hw_ended w = false ->
  Forall (fun x => is_write x /\ sound_reserve (rw_reserve x.2)) ops ->
  rw_run w ops = Some (w', l, true) ->
  Forall (body_frame (hw_streamID w)) l /\ concat (frame_data <$> l) = concat (op_payload <$> ops.*1).
Proof.
  intros Hw He Hops. revert l. induction Hops as [|[op env] ops [[p Hop] Hs] _ IH]; intros l H; simpl in H.
  { injection H as _ <-. by split. }
  simpl in Hop. subst op. cbn [rw_exec] in H. unfold rw_Write, writeHeaderLocked in H. rewrite He, Hw in H.
  cbn [orb] in H. case_bool_decide as Hp.
  - subst p. destruct (rw_run w ops) as [[[w1 l1] ok]|] eqn:Hr; [|done]. injection H as <- <- ->.
    by destruct (IH _ eq_refl).
  - destruct (server_writeData _ _ _ _ _) as [[l' [e|]]|] eqn:Hd; [by destruct (rw_run w ops) as [[[? ?] ?]|]| |done].
    destruct (rw_run w ops) as [[[w1 l1] ok]|] eqn:Hr; [|done]. injection H as <- <- ->.
    destruct (writeData_body _ _ _ _ _ _ Hs Hp Hd) as [Hf Hc]. destruct (IH _ eq_refl) as [Hf1 Hc1].
    split; [by apply Forall_app|]. cbn [app]. rewrite fmap_app, concat_app, Hc, Hc1 by done. done.
Qed.

(** A client that waits for its response. *)
Definition awaiting (c : masqueH2ClientConn) : Prop :=
  cc_done c = false /\ cc_body c = newPipe /\ cc_responseOnce c = false.

(** A handler's header and body, read by the client's loop. *)
Lemma response_arrives c code header write ops env0 w l :
  awaiting c -> 0 < code < 2 ^ 63 -> (forall k, is_Some (header !! k) -> canonical k = true) ->
  rw_header_write env0 = write -> (forall fr, write fr = None) ->
  Forall (fun x => is_write x /\ sound_reserve (rw_reserve x.2)) ops ->
  rw_run (H2ResponseWriter client_streamID header false false) ((RWWriteHeader code, env0) :: ops) = Some (w, l, true) ->
  exists c' sent resp, client_readLoop c false (reads l) = (c', sent, None) /\ cc_done c' = false /\
    cc_responseCh c' = Some (Ok resp) /\ rs_StatusCode resp = code /\ same_headers header (rs_Header resp) /\
    cc_body c' = Pipe (concat (op_payload <$> ops.*1)) None None.
Proof.
  intros (Hd & Hb & Ho) Hcode Hcan Hw0 Hwok Hops H.
  destruct (h2_response_roundtrip code header Hcode Hcan) as (resp & Hresp & Hst & Hh & _).
  cbn [rw_run rw_exec] in H. unfold writeHeaderLocked, writeFrame in H. cbn [hw_wroteHeader hw_ended orb] in H.
  rewrite Hw0, Hwok in H. cbn [hw_streamID hw_header hw_ended] in H.
  destruct (rw_run _ ops) as [[[w1 l1] ok]|] eqn:Hr; [|done]. injection H as -> <- ->.
  apply rw_writes in Hr as [Hf Hc]; [|done|done|done]. cbn [hw_streamID] in Hf.
  set (c1 := cc_respond c (Ok resp)).
  assert (cc_done c1 = false /\ cc_body c1 = Pipe [] None None /\ cc_responseCh c1 = Some (Ok resp)) as (Hd1 & Hb1 & Hr1).
  { unfold c1, cc_respond. rewrite Ho. simpl. by split_and!. }
  destruct (client_chunks c1 l1 [] [] Hf Hd1 Hb1) as (c' & sent & Hd' & Hb' & Hr' & Hloop).
  exists c', sent, resp. specialize (Hloop c' [] None eq_refl). rewrite !app_nil_r in Hloop. split_and!.
  - cbn [reads fmap list_fmap app client_readLoop re_write re_rand re_event deliver].
    cbn [client_round client_frame]. rewrite Z.eqb_refl. cbn [negb].
    unfold handleResponseHeaders. rewrite Hresp. fold c1. cbn [cr_exit cr_frames fmap option_fmap option_map].
    unfold reads in Hloop. by rewrite Hloop.
  - done.
  - congruence.
  - done.
  - done.
  - by rewrite Hb', Hc.
Qed.

Context `{V : VarintOps} {VL : VarintLaws V}.

(** Successive reads of a packet connection. *)
Fixpoint h2_reads (n : nat) (ctx : nat -> option gerror) (r : reader) (buflen : Z) : option (list (result (list byte)) * reader) :=
  match n with
  | O => Some ([], r)
  | S n =>
      match h2_ReadFrom ctx r buflen with
      | None => None
      | Some (p, r) =>
          match h2_reads n ctx r buflen with
          | None => None
          | Some (ps, r) => Some (p :: ps, r)
          end
      end
  end.

Lemma h2_reads_frames ctx ps rest e buflen :
  (forall j, ctx j = None) -> Forall (fun p => zlen (contextIDZero ++ p) <= maxMasqueCapsuleSize /\ zlen p <= buflen) ps ->
  h2_reads (length ps) ctx (Reader (concat ((fun p => datagramFrame (contextIDZero ++ p)) <$> ps) ++ rest) e) buflen
  = Some (Ok <$> ps, Reader rest e).
Proof.
  intros Hc Hps. induction Hps as [|p ps [Hp Hl] _ IH]; [done|].
  cbn [length h2_reads fmap list_fmap concat]. rewrite <- app_assoc.
  unfold h2_ReadFrom. cbn [rd_data].
  match goal with |- context [h2_receive_fuel ?f ?cx (Reader (?a ++ ?b) e)] =>
    pose proof (h2_receive_noise cx [] p b e Hc (Forall_nil_2 _) Hp [] f (Forall_nil_2 _)) as Hn end.
  cbn [concat app] in Hn. rewrite Hn by (simpl; lia). rewrite IH. by rewrite (proj2 (Z.ltb_ge _ _)) by lia.
Qed.

(** C18: the HTTP/2 carrier refines a packet queue downstream.  The packets a relay's
    handler writes, each in one capsule behind its 2xx header, cut into DATA frames as
    the flow-control windows allow, come out of the client's packet connection one by
    one, in order, unchanged and with no rest; the client sees the handler's status and
    headers. *)
Theorem h2_downstream_delivers c code header env0 ops ps w l ctx e buflen :
  awaiting c -> 0 < code < 2 ^ 63 -> (forall k, is_Some (header !! k) -> canonical k = true) ->
  (forall fr, rw_header_write env0 fr = None) ->
  ops.*1 = (fun p => RWWrite (datagramFrame (contextIDZero ++ p))) <$> ps ->
  Forall (fun env => sound_reserve (rw_reserve env)) ops.*2 ->
  rw_run (H2ResponseWriter client_streamID header false false) ((RWWriteHeader code, env0) :: ops) = Some (w, l, true) ->
  (forall j, ctx j = None) -> Forall (fun p => zlen (contextIDZero ++ p) <= maxMasqueCapsuleSize /\ zlen p <= buflen) ps ->
  exists c' sent resp, client_readLoop c false (reads l) = (c', sent, None) /\
    cc_responseCh c' = Some (Ok resp) /\ rs_StatusCode resp = code /\ same_headers header (rs_Header resp) /\
    h2_reads (length ps) ctx (Reader (pp_data (cc_body c')) e) buflen = Some (Ok <$> ps, Reader [] e).
Proof.
  intros Hc Hcode Hcan Hw Hops Hs Hrun Hctx Hps.
  assert (Forall (fun x => is_write x /\ sound_reserve (rw_reserve x.2)) ops) as Hall.
  { clear Hrun. rewrite Forall_fmap in Hs. rewrite Forall_forall in *. intros x Hx. split; [|by apply Hs].
    assert (x.1 ∈ ops.*1) as Hx1 by (by apply list_elem_of_fmap_2). rewrite Hops in Hx1.
    apply list_elem_of_fmap in Hx1 as (p & Hx1 & _). by exists (datagramFrame (contextIDZero ++ p)). }
  destruct (response_arrives c code header _ ops env0 w l Hc Hcode Hcan eq_refl Hw Hall Hrun)
    as (c' & sent & resp & Hl & _ & Hr & Hst & Hh & Hb).
  exists c', sent, resp. split_and!; try done. rewrite Hb. cbn [pp_data].
  rewrite Hops, <- list_fmap_compose. unfold compose. cbn [op_payload].
  rewrite <- (app_nil_r (concat _)). by apply h2_reads_frames.
Qed.
End downstream.

(** * Witnesses *)

Import ToyVarint.

(** A connection that closes before any SETTINGS frame answers the dialler. *)
Lemma dialler_is_answered_witness :
  is_Some (cc_settingsCh (closeWithError newClientConn None)) /\
  is_Some (cc_responseCh (closeWithError newClientConn None)) /\
  is_Some (pp_wclosed (cc_body (closeWithError newClientConn None))).
Proof.
  destruct (dialler_is_answered newClientConn (closeWithError newClientConn None)) as (_ & _ & H);
    [apply rtc_refl|apply cl_close|by apply H].
Defined.

(** A setting of 0 behind one of 1 leaves the gate closed. *)
Lemma connect_is_gated_witness :
  cc_settingsCh (client_handleSettings newClientConn all_ok false [(SettingEnableConnectProtocol, 1)]).1.1 = Some None /\
  cc_settingsCh (client_handleSettings newClientConn all_ok false
    [(SettingEnableConnectProtocol, 1); (SettingEnableConnectProtocol, 0)]).1.1 <> Some None.
Proof.
  destruct (client_handleSettings newClientConn all_ok false [(SettingEnableConnectProtocol, 1)]) as [[c1 l1] e1] eqn:H1.
  destruct (client_handleSettings newClientConn all_ok false
    [(SettingEnableConnectProtocol, 1); (SettingEnableConnectProtocol, 0)]) as [[c2 l2] e2] eqn:H2.
  apply (connect_is_gated newClientConn all_ok) in H1 as G1; [|apply rtc_refl|done].
  apply (connect_is_gated newClientConn all_ok) in H2 as G2; [|apply rtc_refl|done].
  split.
  - apply G1. split; [revert H1; vm_compute; by intros [= _ _ <-]|vm_reflexivity].
  - intros [_ Ha]%G2. by vm_compute in Ha.
Defined.

Definition sample_dial : dial_env :=
  DialEnv (fun _ => None) None (Got None) (fun _ => None) (fun _ => Got (Ok (Response (B "200 OK") 200 ∅))).

Lemma h2_dial_outcomes_witness :
  exists log, dialMasqueH2ExtendedConnect sample_dial (B "https://relay.example/x") ∅
    = (Ok (Response (B "200 OK") 200 ∅), log) /\
  dl_opened log = Some (B "relay.example:443") /\ dl_closed log = false.
Proof.
  destruct (dialMasqueH2ExtendedConnect sample_dial (B "https://relay.example/x") ∅) as [res log] eqn:H.
  assert (res = Ok (Response (B "200 OK") 200 ∅)) as -> by (revert H; vm_compute; by intros [= <- _]).
  destruct (h2_dial_outcomes _ _ _ _ _ H) as (Hc & _ & _ & Hok).
  destruct (Hok _ eq_refl) as (u & block & Hu & _ & _ & _ & _ & _ & Ho). exists log. split; [done|].
  revert Hu Ho. vm_compute (Url.Parse _). intros [= <-] Ho. split; [rewrite Ho; vm_reflexivity|].
  by apply Hc; rewrite Ho; eexists.
Defined.

Definition one_by_one : rw_env := RWEnv (fun _ w => Ok (Z.min w 2)) (fun _ _ => None) all_ok.

(** Two packets, cut into DATA frames of two bytes. *)
Lemma h2_downstream_delivers_witness :
  exists w l c' sent,
    rw_run (H2ResponseWriter 1 ∅ false false)
      [(RWWriteHeader 200, one_by_one);
       (RWWrite (datagramFrame (V := toy_varint) (contextIDZero ++ [x05; x06])), one_by_one);
       (RWWrite (datagramFrame (V := toy_varint) (contextIDZero ++ [x07])), one_by_one)] = Some (w, l, true) /\
    client_readLoop newClientConn false (reads l) = (c', sent, None) /\
    h2_reads (V := toy_varint) 2 (fun _ => None) (Reader (pp_data (cc_body c')) IOEOF) 1500
    = Some ([Ok [x05; x06]; Ok [x07]], Reader [] IOEOF).
Proof.
  set (frame p := datagramFrame (V := toy_varint) (contextIDZero ++ p)).
  set (ops := [(RWWrite (frame [x05; x06]), one_by_one); (RWWrite (frame [x07]), one_by_one)]).
  destruct (rw_run (H2ResponseWriter 1 ∅ false false) ((RWWriteHeader 200, one_by_one) :: ops)) as [[[w l] ok]|] eqn:Hr;
    [|by vm_compute in Hr].
  assert (ok = true) as -> by (revert Hr; vm_compute; by intros [= _ _ <-]).
  destruct (h2_downstream_delivers (VL := toy_varint_laws) newClientConn 200 ∅ one_by_one ops [[x05; x06]; [x07]] w l
    (fun _ => None) IOEOF 1500) as (c' & sent & resp & Hl & _ & _ & _ & Hreads); try done.
  - by intros k [? Hk].
  - assert (sound_reserve (fun _ w => Ok (Z.min w 2))) by (intros i want n Hw; intros [= <-]; lia).
    apply Forall_cons_2; [done|]. apply Forall_cons_2; [done|]. apply Forall_nil_2.
  - apply Forall_cons_2; [done|]. apply Forall_cons_2; [done|]. apply Forall_nil_2.
  - exists w, l, c', sent. done.
Defined.
