(* ===== verification/Lifecycle.v ===== *)
(** Lifecycle: what a start opens and a close closes, and the server.

    Models [MasqueServer] of src/masquecat.go with what it starts: [newMasqueCore]'s
    set-up, [newMasquePathWithFallback] and [startMasqueHTTP2] with its accept loop.
    Everything that has to be closed again (a context, a stack, a WireGuard device, a
    socket, a listener, a server, a path) is a number in the world's set of open resources;
    the results of the calls that open them are arguments.  [owns] accounts for what a piece
    of code has opened. *)

From S2P Require Import Prelude GoStd Keys Packet Fragment Auth Url Token Endpoint Path Bind Core H2Server.
From Stdlib Require Import Strings.Byte.

(** * Open resources *)

Record world : Type := World { w_next : nat; w_open : gset nat }.
Definition acquire (w : world) : nat * world := (w_next w, World (S (w_next w)) ({[w_next w]} ∪ w_open w)).
Definition release (i : nat) (w : world) : world := World (w_next w) (w_open w ∖ {[i]}).
Definition release_option (o : option nat) (w : world) : world :=
  match o with Some i => release i w | None => w end.
Definition option_set (o : option nat) : gset nat := match o with Some i => {[i]} | None => ∅ end.

(** Since [w0], exactly [l] has been opened and not closed. *)
Record owns (w0 w : world) (l : gset nat) : Prop := {
  ow_open : w_open w = w_open w0 ∪ l;
  ow_fresh : l ## w_open w0;
  ow_next : forall i, i ∈ w_open w -> (i < w_next w)%nat;
}.

Lemma owns_refl w : (forall i, i ∈ w_open w -> (i < w_next w)%nat) -> owns w w ∅.
Proof. intros H. split; [set_solver|set_solver|done]. Qed.

Lemma owns_acquire w0 w l i w' : owns w0 w l -> acquire w = (i, w') -> owns w0 w' ({[i]} ∪ l).
Proof.
  intros [Ho Hf Hn] [= <- <-]. assert (w_next w ∉ w_open w) as Hx by (intros Hx; apply Hn in Hx; lia).
  rewrite Ho in Hx. split; simpl; [rewrite Ho; set_solver|set_solver|].
  intros j [->%elem_of_singleton|Hj]%elem_of_union; [lia|]. apply Hn in Hj. lia.
Qed.

Lemma owns_release w0 w l i : owns w0 w l -> i ∉ w_open w0 -> owns w0 (release i w) (l ∖ {[i]}).
Proof.
  intros [Ho Hf Hn] Hi. split; simpl; [rewrite Ho; set_solver|set_solver|]. intros j Hj. apply Hn. set_solver.
Qed.

Lemma owns_release_option w0 w l o :
  owns w0 w l -> option_set o ## w_open w0 -> owns w0 (release_option o w) (l ∖ option_set o).
Proof.
  intros H Ho. destruct o as [i|]; simpl in *; [apply owns_release; [done|set_solver]|].
  by replace (l ∖ ∅) with l by set_solver.
Qed.

Lemma owns_eq w0 w l l' : owns w0 w l -> l = l' -> owns w0 w l'.
Proof. by intros ? <-. Qed.

Lemma owns_new w0 w l i w' : owns w0 w l -> acquire w = (i, w') -> i ∉ l.
Proof. intros [Ho _ Hn] [= <- _] Hi. assert (w_next w ∈ w_open w) as Hx%Hn by set_solver. lia. Qed.

(** * Core set-up and teardown *)

(** An error of a call that ends the function. *)
Local Notation "'check!' e 'or' r 'in' k" :=
  (match e with Some _ => r | None => k end)
  (at level 10, e at level 100, r at level 100, k at level 200).

(** The results of the fallible calls of [newMasqueCore]. *)
Record core_env : Type := CoreEnv {
  ce_CreateNIC : option gerror;
  ce_SetPromiscuousMode : option gerror;
  ce_SetSpoofing : option gerror;
  ce_v4Subnet : option gerror;
  ce_v6Subnet : option gerror;
  ce_AddAddress : option gerror;
  ce_AddPingAddress : option gerror;
  ce_IpcSet : option gerror;
  ce_Up : option gerror;
}.

(** What a core holds: its gVisor stack and WireGuard device; the link and the TUN
    belong to them. *)
Record core_res : Type := CoreRes { cr_stack : nat; cr_wg : nat }.
Definition held_core (c : core_res) : gset nat := {[cr_stack c; cr_wg c]}.

(** src/masquecat_core.go:363-414 [newMasqueCore], the gVisor stack: an error, or nothing *)
Definition setup_stack (env : core_env) (isServer : bool) : option gerror :=
  check! ce_CreateNIC env or Some (ErrNew "masquecat: create gVisor NIC: %v") in
  check! ce_SetPromiscuousMode env or Some (ErrNew "masquecat: enable gVisor promiscuous mode: %v") in
  check! ce_SetSpoofing env or Some (ErrNew "masquecat: enable gVisor spoofing mode: %v") in
  check! ce_v4Subnet env or Some (ErrNew "masquecat: create IPv4 default route: %v") in
  check! ce_v6Subnet env or Some (ErrNew "masquecat: create IPv6 default route: %v") in
  check! ce_AddAddress env or Some (ErrNew "masquecat: add local gVisor address: %v") in
  if isServer then
    check! ce_AddPingAddress env or Some (ErrNew "masquecat: add ping gVisor address: %v") in None
  else None.

(** src/masquecat_core.go:451-465 [newMasqueCore], the WireGuard device *)
Definition setup_device (env : core_env) : option gerror :=
  match ce_IpcSet env with
  | Some e => Some (ErrWrap "masquecat: configure WireGuard private key: %w" e)
  | None =>
      match ce_Up env with
      | Some e => Some (ErrWrap "masquecat: start WireGuard device: %w" e)
      | None => None
      end
  end.

Section cores.
Context `{K : KeyOps}.

(** src/masquecat_core.go:355-467 [newMasqueCore], with what it opens *)
Definition open_core (priv : NodePrivate) (opts : masqueCoreOptions) (env : core_env) (w : world)
    : result (masqueCore * core_res) * world :=
  if PrivIsZero priv then (Err (ErrNew "masquecat: zero WireGuard private key"), w)
  else
    let '(st, w) := acquire w in
    match setup_stack env (o_IsServer opts) with
    | Some e => (Err e, release st w)
    | None =>
        let '(wg, w) := acquire w in
        match setup_device env with
        | Some e => (Err e, release st (release wg w))
        | None =>
            match newMasqueCore priv opts None with
            | Err e => (Err e, w)
            | Ok c => (Ok (c, CoreRes st wg), w)
            end
        end
    end.

(** src/masquecat_core.go:786-800 [masqueCore.Close]; closing again does nothing, as
    [closeOnce] has it *)
Definition close_core (c : core_res) (w : world) : world := release (cr_stack c) (release (cr_wg c) w).

Lemma owns_open_core w0 w l priv opts env r w' :
  owns w0 w l -> open_core priv opts env w = (r, w') ->
  match r with
  | Ok (c, res) => owns w0 w' (held_core res ∪ l) /\ held_core res ## l /\ newMasqueCore priv opts None = Ok c
  | Err _ => owns w0 w' l
  end.
Proof.
  intros H Hc. unfold open_core in Hc. destruct (PrivIsZero priv) eqn:Hz; [by injection Hc as <- <-|].
  destruct (acquire w) as [st w1] eqn:H1. pose proof (owns_new _ _ _ _ _ H H1) as Hn1.
  apply (owns_acquire _ _ _ _ _ H) in H1. destruct (setup_stack _ _).
  { injection Hc as <- <-. pose proof (ow_fresh _ _ _ H1).
    eapply owns_eq; [eapply owns_release; [done|set_solver]|set_solver]. }
  destruct (acquire w1) as [wg w2] eqn:H2. pose proof (owns_new _ _ _ _ _ H1 H2) as Hn2.
  apply (owns_acquire _ _ _ _ _ H1) in H2.
  destruct (setup_device env).
  { injection Hc as <- <-. pose proof (ow_fresh _ _ _ H2).
    eapply owns_eq; [eapply owns_release; [eapply owns_release; [done|set_solver]|set_solver]|set_solver]. }
  unfold newMasqueCore in *. rewrite Hz in *. simpl in *. injection Hc as <- <-. unfold held_core. simpl.
  split_and!; [eapply owns_eq; [done|set_solver]|set_solver|done].
Qed.

Lemma owns_close_core w0 w l c :
  owns w0 w l -> held_core c ## w_open w0 -> owns w0 (close_core c w) (l ∖ held_core c).
Proof.
  intros H Hc. unfold held_core in *. unfold close_core.
  eapply owns_eq; [eapply owns_release; [eapply owns_release; [done|set_solver]|set_solver]|set_solver].
Qed.
End cores.

(** * Paths *)

Section paths.
Context `{K : KeyOps} `{ML : MasqueLib} {T : TokenOps K}.

(** src/masquecat_h2.go:186-237 [newMasquePathWithFallback]; [dial] is the first dial
    ([Path.dialWithFallback] of the two carriers), which the path holds when it succeeds *)
Definition newMasquePathWithFallback (dial : template -> tlsConfig -> result unit) (rawURL : gostring)
    (target : NodePublic) (local : NodePrivate) (insecureSkipVerify : bool) (w : world)
    : result nat * world :=
  if PrivIsZero local then (Err (ErrNew "masquecat: zero local node private key"), w)
  else if IsZero target then (Err (ErrNew "masquecat: zero MASQUE target node key"), w)
  else
    match masqueTemplateFor rawURL with
    | Err e => (Err e, w)
    | Ok tmpl =>
        match masqueTLSClientConfig rawURL insecureSkipVerify with
        | Err e => (Err e, w)
        | Ok conf =>
            match dial tmpl conf with
            | Err e => (Err e, w)
            | Ok _ => let '(p, w) := acquire w in (Ok p, w)
            end
        end
    end.

Lemma owns_path dial rawURL target local insecure w0 w l r w' :
  owns w0 w l -> newMasquePathWithFallback dial rawURL target local insecure w = (r, w') ->
  match r with
  | Ok p => owns w0 w' ({[p]} ∪ l) /\ (p ∉ l) /\
      exists tmpl conf, masqueTLSClientConfig rawURL insecure = Ok conf /\ dial tmpl conf = Ok tt
  | Err _ => owns w0 w' l
  end.
Proof.
  intros H Hp. unfold newMasquePathWithFallback in Hp.
  destruct (PrivIsZero local); [by injection Hp as <- <-|]. destruct (IsZero target); [by injection Hp as <- <-|].
  destruct (masqueTemplateFor rawURL) as [tmpl|]; [|by injection Hp as <- <-].
  destruct (masqueTLSClientConfig _ _) as [conf|]; [|by injection Hp as <- <-].
  destruct (dial tmpl conf) as [[]|] eqn:Hd; [|by injection Hp as <- <-].
  destruct (acquire w) as [p w1] eqn:Ha. injection Hp as <- <-.
  split_and!; [by eapply owns_acquire|by eapply owns_new|eauto].
Qed.
End paths.

(** * The HTTP/2 listener *)

(** src/masquecat_h2.go:1012-1016 [startMasqueHTTP2], the goroutine of the accept loop: when
    its [Accept] has failed, with [accept], the listener is no longer registered *)
Definition accept_loop (accept : option gerror) (srv : masqueHTTP2Server) (ln : nat) : masqueHTTP2Server :=
  match accept with Some e => accept_loop_ends srv ln e | None => srv end.

(** src/masquecat_h2.go:990-1022 [startMasqueHTTP2]: the server, registered with its
    listener, and its accept loop started; [listen] is the result of [net.Listen], [accept]
    the error of [Accept] when the loop fails before anybody looks at the server.  The
    other goroutine closes the server when the context ends, which whoever ends the
    context does as well. *)
Definition startMasqueHTTP2 (tls : option tls_config) (has_handler : bool) (listen accept : option gerror) (w : world)
    : result (masqueHTTP2Server * nat) * world :=
  match newMasqueHTTP2Server tls has_handler with
  | Err e => (Err e, w)
  | Ok (_, srv) =>
      match listen with
      | Some e => (Err (ErrWrap "listen for HTTP/2 MASQUE: %w" e), w)
      | None =>
          let '(ln, w) := acquire w in
          match registerListener srv ln with
          | (_, Some e) => (Err e, release ln w)
          | (srv, None) => (Ok (accept_loop accept srv ln, ln), w)
          end
      end
  end.

(** src/masquecat_h2.go:409-432 [masqueHTTP2Server.Close], the listener: it is closed when
    it is still registered ([H2Server.close_all]), which it no longer is after its accept
    loop ended *)
Definition close_http2 (h2 : masqueHTTP2Server * nat) (w : world) : world :=
  if bool_decide (h2.2 ∈ hs_listeners h2.1) && negb (hs_closed h2.1) then release h2.2 w else w.

(** A server's listener is registered while its accept loop runs. *)
Definition accepting (srv : masqueHTTP2Server) (ln : nat) : Prop :=
  hs_closed srv = false /\ (ln ∈ hs_listeners srv -> hs_serve srv !! ln = Some SAccept).

Lemma accept_loop_forgets srv ln e : accepting srv ln -> ln ∉ hs_listeners (accept_loop_ends srv ln e).
Proof.
  intros [_ Ha]. unfold accept_loop_ends. destruct (decide (ln ∈ hs_listeners srv)) as [Hin|Hn].
  - rewrite (Ha Hin). unfold serve_return. simpl. set_solver.
  - destruct (hs_serve srv !! ln) as [[]|]; [|done..]. unfold serve_return. simpl. set_solver.
Qed.

Lemma accept_loop_accepting accept srv ln : accepting srv ln -> accepting (accept_loop accept srv ln) ln.
Proof.
  intros Ha. destruct accept as [e|]; [|done]. pose proof (accept_loop_forgets srv ln e Ha). split; [|done].
  destruct Ha as [Hc _]. simpl. unfold accept_loop_ends. by destruct (hs_serve srv !! ln) as [[]|].
Qed.

Lemma owns_http2 tls has_handler listen accept w0 w l r w' :
  owns w0 w l -> startMasqueHTTP2 tls has_handler listen accept w = (r, w') ->
  match r with
  | Ok (srv, ln) => owns w0 w' ({[ln]} ∪ l) /\ (ln ∉ l) /\ accepting srv ln /\
      (accept = None -> ln ∈ hs_listeners srv)
  | Err _ => owns w0 w' l
  end.
Proof.
  intros H Hs. unfold startMasqueHTTP2 in Hs.
  destruct (newMasqueHTTP2Server tls has_handler) as [[conf srv]|e] eqn:Hn; [|by injection Hs as <- <-].
  destruct listen; [by injection Hs as <- <-|]. destruct (acquire w) as [ln w1] eqn:Ha.
  assert (hs_closed srv = false) as Hc.
  { unfold newMasqueHTTP2Server in Hn. destruct tls as [[? ? get]|]; [|done]. destruct has_handler; [|done].
    by injection Hn as _ <-. }
  unfold registerListener in Hs. rewrite Hc in Hs. injection Hs as <- <-. simpl.
  split_and!; [by eapply owns_acquire|by eapply owns_new| |intros ->; simpl; set_solver].
  apply accept_loop_accepting. split; [done|]. intros _. apply lookup_insert_eq.
Qed.

(** src/masquecat_h2.go:1027-1069 [ServeMasque]: [listenUDP] is the address of the UDP
    socket, [accept] the error of the HTTP/2 listener's [Accept] if that failed, [first]
    what the first of the two servers returned; the servers and the sockets are closed in
    reverse order. *)
Definition ServeMasque (addr : gostring) (has_certificate : bool) (tls : option tls_config) (has_handler : bool)
    (listenUDP : result gostring) (listenTCP accept first : option gerror) (w : world)
    : option gerror * world :=
  if negb has_certificate then (Some (ErrNew "MASQUE server requires a TLS certificate"), w)
  else
    match listenUDP with
    | Err e => (Some (ErrWrap "listen for HTTP/3 MASQUE: %w" e), w)
    | Ok localAddr =>
        let '(pc, w) := acquire w in
        match masqueHTTP2CompanionAddr addr localAddr with
        | Err e => (Some (ErrWrap "derive HTTP/2 MASQUE listen address: %w" e), release pc w)
        | Ok _ =>
            match newMasqueHTTP2Server tls has_handler with
            | Err e => (Some e, release pc w)
            | Ok (_, srv) =>
                match listenTCP with
                | Some e => (Some (ErrWrap "listen for HTTP/2 MASQUE: %w" e), release pc w)
                | None =>
                    let '(ln, w) := acquire w in
                    let '(h3, w) := acquire w in
                    let w := close_http2 (accept_loop accept (registerListener srv ln).1 ln, ln) w in
                    let err := match first with
                               | Some e => if errors_is is_server_closed e || errors_is is_net_closed e then None else Some e
                               | None => None
                               end in
                    (err, release pc (release ln (release h3 w)))
                end
            end
        end
    end.

(** A socket that is opened and closed again, and the two sockets and the server of a
    listener, closed in reverse order. *)
Lemma socket_closed w pc w1 :
  (forall i, i ∈ w_open w -> (i < w_next w)%nat) -> acquire w = (pc, w1) -> w_open (release pc w1) = w_open w.
Proof.
  intros Hf [= <- <-]. unfold release. simpl. assert (w_next w ∉ w_open w) by (intros H; specialize (Hf _ H); lia). set_solver.
Qed.
Lemma sockets_closed w pc w1 ln w2 h3 w3 srv :
  (forall i, i ∈ w_open w -> (i < w_next w)%nat) -> acquire w = (pc, w1) -> acquire w1 = (ln, w2) -> acquire w2 = (h3, w3) ->
  w_open (release pc (release ln (release h3 (close_http2 (srv, ln) w3)))) = w_open w.
Proof.
  intros Hf [= <- <-] [= <- <-] [= <- <-]. unfold close_http2, release. simpl.
  assert (forall n, (w_next w <= n)%nat -> n ∉ w_open w) as Hn by (intros n Hn H; specialize (Hf _ H); lia).
  pose proof (Hn (w_next w) ltac:(lia)). pose proof (Hn (S (w_next w)) ltac:(lia)). pose proof (Hn (S (S (w_next w))) ltac:(lia)).
  destruct (_ && _); simpl; set_solver.
Qed.

(** However it ends, [ServeMasque] leaves nothing open, and the orderly end of a server is
    no error. *)
Theorem serve_masque_closes addr has_certificate tls has_handler listenUDP listenTCP accept first w err w' :
  (forall i, i ∈ w_open w -> (i < w_next w)%nat) ->
  ServeMasque addr has_certificate tls has_handler listenUDP listenTCP accept first w = (err, w') ->
  w_open w' = w_open w /\ (is_ok listenUDP = true -> first = Some HTTPErrServerClosed ->
    err <> Some HTTPErrServerClosed).
Proof.
  intros Hf H. unfold ServeMasque in H. destruct (negb has_certificate); [by injection H as <- <-|].
  destruct listenUDP as [a|]; [|by injection H as <- <-]. destruct (acquire w) as [pc w1] eqn:H1.
  pose proof (socket_closed w pc w1 Hf H1) as Hpc. destruct (masqueHTTP2CompanionAddr addr a); [|by injection H as <- <-].
  destruct (newMasqueHTTP2Server tls has_handler) as [[conf srv]|e] eqn:Hn.
  2: { injection H as <- <-. split; [done|]. intros _ _. unfold newMasqueHTTP2Server in Hn.
       destruct tls as [[? ? ?]|]; [destruct has_handler|]; simplify_eq/=; done. }
  destruct listenTCP; [by injection H as <- <-|].
  destruct (acquire w1) as [ln w2] eqn:H2, (acquire w2) as [h3 w3] eqn:H3. injection H as <- <-.
  split; [by eapply sockets_closed|]. by intros _ ->.
Qed.

(** * The disco identity *)

(** HMAC-SHA-256 (key, message) and the key package's disco keys *)
Class DiscoKeyOps {K : KeyOps} : Type := {
  Raw32 : NodePrivate -> list byte;
  HMAC_SHA256 : list byte -> list byte -> list byte;
  DiscoPrivate : Type;
  DiscoPrivateFromRaw32 : list byte -> DiscoPrivate;
  DiscoPrivatePublic : DiscoPrivate -> DiscoPublic;
}.
Arguments DiscoKeyOps : clear implicits.

(** src/tailcat.go:1941-1945 [discoPrivateForNode]: the scalar, canonicalized *)
Definition canonical_scalar (raw : list byte) : list byte :=
  let raw := alter (fun b => z2b (Z.land (b2z b) 248)) 0%nat raw in
  let raw := alter (fun b => z2b (Z.land (b2z b) 127)) 31%nat raw in
  alter (fun b => z2b (Z.lor (b2z b) 64)) 31%nat raw.

Section disco.
Context `{K : KeyOps} {D : DiscoKeyOps K}.

(** src/tailcat.go:1937-1947 [discoPrivateForNode] *)
Definition discoPrivateForNode (k : NodePrivate) : DiscoPrivate :=
  DiscoPrivateFromRaw32
    (canonical_scalar (HMAC_SHA256 (Raw32 k) (B "github.com/tailscale/tailcat disco key v1"))).

(** src/tailcat.go:1952-1954 [DiscoPublicForNode] *)
Definition DiscoPublicForNode (k : NodePrivate) : DiscoPublic := DiscoPrivatePublic (discoPrivateForNode k).
End disco.

(** * The server *)

Section server.
Context `{K : KeyOps} `{ML : MasqueLib} {T : TokenOps K} {D : DiscoKeyOps K}.

(** The configuration of a direct endpoint's TLS. *)
Record server_tls : Type := ServerTLS {
  st_Certificates : Z;
  st_GetCertificate : bool;
  st_config : tls_config;
}.

(** src/masquecat.go:65-67 [hasMasqueServerCertificate] *)
Definition hasMasqueServerCertificate (conf : option server_tls) : bool :=
  match conf with
  | None => false
  | Some c =>
      negb (st_Certificates c =? 0) || st_GetCertificate c ||
      match st_config c with TLSConfig _ _ get => bool_decide (is_Some get) end
  end.

(** src/masquecat.go:34-53 [MasqueServer], its configuration *)
Record server_config : Type := ServerConfig {
  sv_Key : NodePrivate;
  sv_AllowedClients : list NodePublic;
  sv_ServedTCPPorts : option (list PortRange);
  sv_DirectListen : gostring;
  sv_DirectURL : gostring;
  sv_DirectTLSConfig : option server_tls;
  sv_RelayURL : gostring;
  sv_AutomaticDirect : bool;
  sv_InsecureSkipVerify : bool;
}.

(** src/masquecat.go:55-63 [MasqueServer], what a start leaves in it *)
Record runtime : Type := Runtime {
  rt_core : option (masqueCore * core_res);
  rt_relayPath : option nat;
  rt_directHTTP : option nat;
  rt_directH2 : option (masqueHTTP2Server * nat);
  rt_directPC : option nat;
  rt_cancel : option nat;
  rt_blob : gostring;
}.
Definition idle : runtime := Runtime None None None None None None [].

(** src/masquecat.go:34-63 [MasqueServer] *)
Record MasqueServer : Type := MkMasqueServer { ms_config : server_config; ms_rt : runtime }.

Definition with_key (c : server_config) (k : NodePrivate) : server_config :=
  ServerConfig k (sv_AllowedClients c) (sv_ServedTCPPorts c) (sv_DirectListen c) (sv_DirectURL c)
    (sv_DirectTLSConfig c) (sv_RelayURL c) (sv_AutomaticDirect c) (sv_InsecureSkipVerify c).
Definition with_clients (c : server_config) (l : list NodePublic) : server_config :=
  ServerConfig (sv_Key c) l (sv_ServedTCPPorts c) (sv_DirectListen c) (sv_DirectURL c)
    (sv_DirectTLSConfig c) (sv_RelayURL c) (sv_AutomaticDirect c) (sv_InsecureSkipVerify c).

(** The outside of one [Start]: the key [key.NewNode] draws, the core's set-up, the
    UDP socket's address, the TCP listener, whether its accept loop fails while the start
    is under way, the relay's first dial. *)
Record start_env : Type := StartEnv {
  se_newKey : NodePrivate;
  se_core : core_env;
  se_listenUDP : result gostring;
  se_listenTCP : option gerror;
  se_accept : option gerror;
  se_dial : template -> tlsConfig -> result unit;
}.

(** The closes that a failed start and [Close] share, in their order. *)
Definition close_runtime (rt : runtime) (w : world) : world :=
  let w := release_option (rt_cancel rt) w in
  let w := release_option (rt_directHTTP rt) w in
  let w := match rt_directH2 rt with Some h2 => close_http2 h2 w | None => w end in
  let w := release_option (rt_directPC rt) w in
  let w := release_option (rt_relayPath rt) w in
  match rt_core rt with Some (_, res) => close_core res w | None => w end.

(** src/masquecat.go:122-144 [MasqueServer.Start, cleanup] *)
Definition cleanup (c : server_config) (rt : runtime) (w : world) : MasqueServer * world :=
  (MkMasqueServer c idle, close_runtime rt w).

(** src/masquecat.go:272-302 [MasqueServer.Close] *)
Definition server_Close (s : MasqueServer) (w : world) : MasqueServer * world :=
  (MkMasqueServer (ms_config s) idle, close_runtime (ms_rt s) w).

(** src/masquecat.go:72-96 [MasqueServer.Start], the checks in front *)
Definition start_check (s : MasqueServer) : option gerror :=
  let c := ms_config s in
  if bool_decide (is_Some (rt_core (ms_rt s))) then Some (ErrNew "masquecat: MasqueServer.Start called twice")
  else if bool_decide (sv_DirectURL c = []) && bool_decide (sv_RelayURL c = []) then
    Some (ErrNew "masquecat: configure a direct or relay MASQUE endpoint")
  else if sv_AutomaticDirect c && (bool_decide (sv_DirectURL c = []) || negb (bool_decide (sv_RelayURL c = []))) then
    Some (ErrNew "masquecat: AutomaticDirect requires a direct-only endpoint")
  else
    let direct_err :=
      if bool_decide (sv_DirectURL c = []) then None
      else
        match validateMasqueURL direct (sv_DirectURL c) with
        | Some e => Some e
        | None =>
            if bool_decide (sv_DirectListen c = []) then Some (ErrNew "masquecat: DirectURL requires DirectListen")
            else if negb (hasMasqueServerCertificate (sv_DirectTLSConfig c)) then
              Some (ErrNew "masquecat: direct MASQUE requires a TLS certificate")
            else None
        end in
    match direct_err with
    | Some e => Some e
    | None => if bool_decide (sv_RelayURL c = []) then None else validateMasqueURL relay (sv_RelayURL c)
    end.

(** src/masquecat.go:147-182 [MasqueServer.Start], the direct endpoint: what it adds to
    the running parts, or its error with the world to clean up *)
Definition start_direct (c : server_config) (env : start_env) (rt : runtime) (w : world)
    : result runtime * world :=
  if bool_decide (sv_DirectURL c = []) then (Ok rt, w)
  else
    match se_listenUDP env with
    | Err e => (Err (ErrWrap "listen for direct MASQUE: %w" e), w)
    | Ok localAddr =>
        let '(pc, w) := acquire w in
        match masqueHTTP2CompanionAddr (sv_DirectListen c) localAddr with
        | Err e => (Err (ErrWrap "derive direct HTTP/2 MASQUE listen address: %w" e), release pc w)
        | Ok _ =>
            let '(h2, w) := startMasqueHTTP2 (st_config <$> sv_DirectTLSConfig c) true (se_listenTCP env)
                               (se_accept env) w in
            let '(h3, w) := acquire w in
            (Ok (Runtime (rt_core rt) (rt_relayPath rt) (Some h3)
                   (match h2 with Ok h2 => Some h2 | Err _ => None end) (Some pc) (rt_cancel rt) (rt_blob rt)), w)
        end
    end.

(** src/masquecat.go:184-203 [MasqueServer.Start], the relay path *)
Definition start_relay (c : server_config) (env : start_env) (rt : runtime) (w : world)
    : result runtime * world :=
  if bool_decide (sv_RelayURL c = []) then (Ok rt, w)
  else
    match newMasquePathWithFallback (se_dial env) (sv_RelayURL c) (Public (sv_Key c)) (sv_Key c)
            (sv_InsecureSkipVerify c) w with
    | (Err e, w) => (Err (ErrWrap "connect MASQUE relay: %w" e), w)
    | (Ok path, w) =>
        (Ok (Runtime (rt_core rt) (Some path) (rt_directHTTP rt) (rt_directH2 rt) (rt_directPC rt)
               (rt_cancel rt) (rt_blob rt)), w)
    end.

(** src/masquecat.go:207-214 [MasqueServer.Start], the token's contents *)
Definition server_info (c : server_config) : MasqueConnInfo :=
  ConnInfo 1 (Public (sv_Key c)) (DiscoPublicForNode (sv_Key c)) (sv_DirectURL c) (sv_RelayURL c)
    (sv_AutomaticDirect c).

(** src/masquecat.go:108-114 [MasqueServer.Start], the core's options *)
Definition server_options (c : server_config) : masqueCoreOptions :=
  CoreOptions true (sv_AllowedClients c) (sv_ServedTCPPorts c).

(** src/masquecat.go:69-221 [MasqueServer.Start] *)
Definition server_Start (s : MasqueServer) (env : start_env) (w : world) : MasqueServer * option gerror * world :=
  match start_check s with
  | Some e => (s, Some e, w)
  | None =>
      let c := ms_config s in
      let c := with_key c (if PrivIsZero (sv_Key c) then se_newKey env else sv_Key c) in
      let '(core, w) := open_core (sv_Key c) (server_options c) (se_core env) w in
      match core with
      | Err e => (MkMasqueServer c (ms_rt s), Some e, w)
      | Ok core =>
          let '(cancel, w) := acquire w in
          let rt := Runtime (Some core) (rt_relayPath (ms_rt s)) (rt_directHTTP (ms_rt s)) (rt_directH2 (ms_rt s))
                      (rt_directPC (ms_rt s)) (Some cancel) (rt_blob (ms_rt s)) in
          match start_direct c env rt w with
          | (Err e, w) => let '(s, w) := cleanup c rt w in (s, Some e, w)
          | (Ok rt, w) =>
              match start_relay c env rt w with
              | (Err e, w) => let '(s, w) := cleanup c rt w in (s, Some e, w)
              | (Ok rt, w) =>
                  match ConnBlob (server_info c) with
                  | Err e => let '(s, w) := cleanup c rt w in (s, Some e, w)
                  | Ok blob =>
                      (MkMasqueServer c (Runtime (rt_core rt) (rt_relayPath rt) (rt_directHTTP rt) (rt_directH2 rt)
                                           (rt_directPC rt) (rt_cancel rt) blob), None, w)
                  end
              end
          end
      end
  end.

(** src/masquecat.go:226-233 [MasqueServer.AddAllowedClient]; the embedded [Server] is
    never started, so its own method only appends *)
Definition server_AddAllowedClient (s : MasqueServer) (k : NodePublic) : MasqueServer :=
  let c := ms_config s in
  let rt := ms_rt s in
  MkMasqueServer (with_clients c (sv_AllowedClients c ++ [k]))
    (match rt_core rt with
     | None => rt
     | Some (core, res) =>
         Runtime (Some (AddAllowedClient core k, res)) (rt_relayPath rt) (rt_directHTTP rt) (rt_directH2 rt)
           (rt_directPC rt) (rt_cancel rt) (rt_blob rt)
     end).

(** src/masquecat.go:241-251 [MasqueServer.Addr] *)
Definition server_Addr (s : MasqueServer) : Netip.Addr :=
  match rt_core (ms_rt s) with
  | None => if negb (PrivIsZero (sv_Key (ms_config s))) then tcAddrForKey (Public (sv_Key (ms_config s))) else Netip.AddrZero
  | Some (core, _) => tcAddrForKey (c_pub core)
  end.
End server.

(** * What a server holds *)

Section server_facts.
Context `{K : KeyOps} `{ML : MasqueLib} {T : TokenOps K} {D : DiscoKeyOps K}.

(** All but the HTTP/2 listener. *)
Definition held_rest (rt : runtime) : gset nat :=
  option_set (rt_cancel rt) ∪ option_set (rt_directHTTP rt) ∪ option_set (rt_directPC rt) ∪ option_set (rt_relayPath rt) ∪
  match rt_core rt with Some (_, res) => held_core res | None => ∅ end.
Definition held (rt : runtime) : gset nat := option_set (snd <$> rt_directH2 rt) ∪ held_rest rt.

(** The listener, when its accept loop has ended. *)
Definition forgotten (rt : runtime) : gset nat :=
  match rt_directH2 rt with
  | Some (srv, ln) => if bool_decide (ln ∈ hs_listeners srv) then ∅ else {[ln]}
  | None => ∅
  end.

(** The HTTP/2 server of a runtime is not closed, and its listener is nothing else. *)
Definition wf_http2 (rt : runtime) : Prop :=
  forall srv ln, rt_directH2 rt = Some (srv, ln) -> accepting srv ln /\ ln ∉ held_rest rt.

Lemma forgotten_held rt : forgotten rt ⊆ option_set (snd <$> rt_directH2 rt).
Proof. unfold forgotten. destruct (rt_directH2 rt) as [[srv ln]|]; [|done]. simpl. by case_bool_decide. Qed.

Lemma forgotten_size rt : (size (forgotten rt) <= 1)%nat.
Proof.
  unfold forgotten. destruct (rt_directH2 rt) as [[srv ln]|]; [|by rewrite size_empty; lia].
  case_bool_decide; [rewrite size_empty; lia|by rewrite size_singleton].
Qed.

Lemma owns_close_runtime w0 w l rt :
  owns w0 w l -> wf_http2 rt -> held rt ⊆ l -> owns w0 (close_runtime rt w) (l ∖ held rt ∪ forgotten rt).
Proof.
  intros H Hw Hl. pose proof (ow_fresh _ _ _ H) as Hfr.
  assert (held rt ## w_open w0) as Hf by set_solver. clear Hfr.
  assert (forgotten rt ## held_rest rt) as Hap.
  { pose proof (forgotten_held rt). destruct (rt_directH2 rt) as [[srv ln]|] eqn:E; simpl in *; [|set_solver].
    destruct (Hw _ _ E). set_solver. }
  assert (forgotten rt ⊆ held rt) as Hsub by (unfold held; pose proof (forgotten_held rt); set_solver).
  unfold held, held_rest in *. unfold close_runtime.
  apply (owns_release_option _ _ _ (rt_cancel rt)) in H; [|set_solver].
  apply (owns_release_option _ _ _ (rt_directHTTP rt)) in H; [|set_solver].
  set (w2 := release_option (rt_directHTTP rt) _) in *.
  assert (owns w0 (match rt_directH2 rt with Some h2 => close_http2 h2 w2 | None => w2 end)
    ((l ∖ option_set (rt_cancel rt) ∖ option_set (rt_directHTTP rt)) ∖ option_set (snd <$> rt_directH2 rt) ∪ forgotten rt)) as H2.
  { unfold forgotten in *. destruct (rt_directH2 rt) as [[srv ln]|] eqn:E.
    - destruct (Hw _ _ E) as [[Hc _] _]. unfold close_http2. simpl in *. rewrite Hc, andb_true_r.
      case_bool_decide.
      + eapply owns_eq; [apply owns_release; [done|set_solver]|set_solver].
      + eapply owns_eq; [done|]. apply set_eq. intros i. destruct (decide (i = ln)); set_solver.
    - eapply owns_eq; [done|]. simpl. set_solver. }
  clear H. set (w3 := match rt_directH2 rt with Some h2 => _ | None => _ end) in *.
  apply (owns_release_option _ _ _ (rt_directPC rt)) in H2; [|set_solver].
  apply (owns_release_option _ _ _ (rt_relayPath rt)) in H2; [|set_solver].
  destruct (rt_core rt) as [[core res]|].
  - apply (owns_close_core _ _ _ res) in H2; [|set_solver]. eapply owns_eq; [done|]. set_solver.
  - eapply owns_eq; [done|]. set_solver.
Qed.

(** A runtime under construction, beside the listeners that were [lost]. *)
Record building (w0 w : world) (lost : gset nat) (rt : runtime) : Prop := {
  bu_owns : owns w0 w (held rt ∪ lost);
  bu_apart : held rt ## lost;
  bu_http2 : wf_http2 rt;
}.

(** Closing it leaves the lost listeners and its own, if that is forgotten. *)
Lemma owns_close_all w0 w lost rt : building w0 w lost rt -> owns w0 (close_runtime rt w) (lost ∪ forgotten rt).
Proof.
  intros [Ho Ha Hw]. eapply owns_eq; [apply owns_close_runtime; [done|done|set_solver]|].
  assert (forgotten rt ⊆ held rt) as Hsub by (unfold held; pose proof (forgotten_held rt); set_solver). set_solver.
Qed.

Lemma building_idle w0 w lost : owns w0 w lost -> building w0 w lost idle.
Proof. intros H. split; [eapply owns_eq; [done|]|..]; unfold held, held_rest; simpl; [set_solver|set_solver|done]. Qed.

(** The parts of a runtime after the HTTP/2 server was started: [h2] is its result. *)
Lemma building_direct w0 w lost rt (h2 : result (masqueHTTP2Server * nat)) pc w1 w2 h3 w3 (accept : option gerror) l :
  building w0 w lost rt -> rt_directHTTP rt = None -> rt_directH2 rt = None -> rt_directPC rt = None ->
  acquire w = (pc, w1) -> l = {[pc]} ∪ (held rt ∪ lost) ->
  match h2 with
  | Ok (srv, ln) => owns w0 w2 ({[ln]} ∪ l) /\ (ln ∉ l) /\ accepting srv ln /\ (accept = None -> ln ∈ hs_listeners srv)
  | Err _ => owns w0 w2 l
  end ->
  acquire w2 = (h3, w3) ->
  let rt' := Runtime (rt_core rt) (rt_relayPath rt) (Some h3) (match h2 with Ok h2 => Some h2 | Err _ => None end) (Some pc)
               (rt_cancel rt) (rt_blob rt) in
  building w0 w3 lost rt' /\ (accept = None -> forgotten rt' = ∅).
Proof.
  intros [Ho Ha Hw] E1 E2 E3 Hpc -> Hh2 Hh3 rt'. pose proof (owns_new _ _ _ _ _ Ho Hpc) as Npc.
  unfold held, held_rest in *. rewrite E1, E2, E3 in *. simpl in *.
  destruct h2 as [[srv ln]|e]; simpl in *.
  - destruct Hh2 as (Ho2 & Nln & Hc & Hacc). pose proof (owns_new _ _ _ _ _ Ho2 Hh3) as Nh3.
    apply (owns_acquire _ _ _ _ _ Ho2) in Hh3. split; [split; unfold held, held_rest; simpl|].
    + eapply owns_eq; [done|]. set_solver.
    + set_solver.
    + intros ? ? [= <- <-]. split; [done|]. unfold held_rest. simpl. set_solver.
    + intros ->. unfold forgotten. simpl. by rewrite bool_decide_eq_true_2 by auto.
  - pose proof (owns_new _ _ _ _ _ Hh2 Hh3) as Nh3. apply (owns_acquire _ _ _ _ _ Hh2) in Hh3.
    split; [split; unfold held, held_rest; simpl|done]; [eapply owns_eq; [done|]; set_solver|set_solver|done].
Qed.

Lemma start_direct_building c env rt w0 w lost r w' :
  building w0 w lost rt -> rt_directHTTP rt = None -> rt_directH2 rt = None -> rt_directPC rt = None ->
  start_direct c env rt w = (r, w') ->
  match r with
  | Ok rt' => building w0 w' lost rt' /\ rt_core rt' = rt_core rt /\ rt_cancel rt' = rt_cancel rt /\
      rt_relayPath rt' = rt_relayPath rt /\ (se_accept env = None -> forgotten rt' = ∅) /\
      (sv_DirectURL c <> [] -> is_Some (rt_directHTTP rt') /\ is_Some (rt_directPC rt'))
  | Err _ => building w0 w' lost rt
  end.
Proof.
  intros Hb H1 H2 H3 H. unfold start_direct in H.
  assert (forgotten rt = ∅) as Hf by (unfold forgotten; by rewrite H2).
  case_bool_decide; [by injection H as <- <-|].
  destruct (se_listenUDP env) as [addr|]; [|by injection H as <- <-].
  destruct (acquire w) as [pc w1] eqn:Ha. pose proof Hb as [Ho Hap Hw].
  pose proof (owns_acquire _ _ _ _ _ Ho Ha) as Ho1. pose proof (owns_new _ _ _ _ _ Ho Ha) as Hn1.
  destruct (masqueHTTP2CompanionAddr _ _).
  2: { injection H as <- <-. split; [|done|done]. pose proof (ow_fresh _ _ _ Ho1).
       eapply owns_eq; [apply owns_release; [done|set_solver]|set_solver]. }
  destruct (startMasqueHTTP2 _ _ _ _ w1) as [h2 w2] eqn:Hh2. apply (owns_http2 _ _ _ _ _ _ _ _ _ Ho1) in Hh2.
  destruct (acquire w2) as [h3 w3] eqn:Ha3. injection H as <- <-.
  destruct (building_direct _ _ _ _ h2 _ _ _ _ _ _ _ Hb H1 H2 H3 Ha eq_refl Hh2 Ha3) as [Hb' Hf'].
  split_and!; try done; intros _; split; by eexists.
Qed.

Lemma start_relay_building c env rt w0 w lost r w' :
  building w0 w lost rt -> rt_relayPath rt = None -> start_relay c env rt w = (r, w') ->
  match r with
  | Ok rt' => building w0 w' lost rt' /\ rt_core rt' = rt_core rt /\ rt_cancel rt' = rt_cancel rt /\
      rt_directHTTP rt' = rt_directHTTP rt /\ rt_directPC rt' = rt_directPC rt /\ rt_directH2 rt' = rt_directH2 rt /\
      (sv_RelayURL c <> [] -> is_Some (rt_relayPath rt'))
  | Err _ => building w0 w' lost rt
  end.
Proof.
  intros [Ho Ha Hw] H1 H. unfold start_relay in H. case_bool_decide; [by injection H as <- <-|].
  destruct (newMasquePathWithFallback _ _ _ _ _ w) as [[p|e] w1] eqn:Hp; apply (owns_path _ _ _ _ _ _ _ _ _ _ Ho) in Hp;
    injection H as <- <-; [|by split].
  destruct Hp as (Ho1 & Hn & _). split_and!; try done; try (by eexists).
  unfold held, held_rest in *. rewrite H1 in *. simpl in *.
  split; unfold held, held_rest; simpl; [eapply owns_eq; [done|]; set_solver|set_solver|].
  intros srv ln Hh. simpl in Hh. destruct (Hw srv ln Hh) as [Hc Hl]. split; [done|].
  unfold held_rest in *. rewrite Hh, H1 in *. simpl in *. set_solver.
Qed.
End server_facts.

(** * Properties of the server *)

Section server_properties.
Context `{K : KeyOps} `{ML : MasqueLib} {T : TokenOps K} {D : DiscoKeyOps K}.

(** What a successful start leaves. *)
Record started (c : server_config) (rt : runtime) : Prop := {
  sd_core : exists core res, rt_core rt = Some (core, res) /\
    newMasqueCore (sv_Key c) (server_options c) None = Ok core;
  sd_cancel : is_Some (rt_cancel rt);
  sd_blob : ConnBlob (server_info c) = Ok (rt_blob rt);
  sd_direct : sv_DirectURL c <> [] -> is_Some (rt_directHTTP rt) /\ is_Some (rt_directPC rt);
  sd_relay : sv_RelayURL c <> [] -> is_Some (rt_relayPath rt);
}.

Definition failures (accept : option gerror) : nat := match accept with Some _ => 1 | None => 0 end.

(** What a start makes of a world in which [lost] is open: it may add a listener to it. *)
Definition start_leaves (w0 w' : world) (lost : gset nat) (env : start_env) (err : option gerror) (rt : runtime) : Prop :=
  exists gone, building w0 w' (lost ∪ gone) rt /\
    (size gone + size (forgotten rt) <= failures (se_accept env))%nat /\ (err = None -> gone = ∅).

Lemma leaves_nothing w0 w lost env err : owns w0 w lost -> start_leaves w0 w lost env err idle.
Proof.
  intros H. exists ∅. rewrite (right_id_L ∅ (∪)). split_and!; [by apply building_idle| |done].
  change (forgotten idle) with (∅ : gset nat). rewrite !size_empty. lia.
Qed.

(** The clean-up of a failed start. *)
Lemma cleanup_leaves w0 w lost rt env e :
  building w0 w lost rt -> (se_accept env = None -> forgotten rt = ∅) ->
  start_leaves w0 (close_runtime rt w) lost env (Some e) idle.
Proof.
  intros Hb Hf. exists (forgotten rt). split_and!; [by apply building_idle, owns_close_all| |done].
  pose proof (forgotten_size rt). change (forgotten idle) with (∅ : gset nat). rewrite size_empty.
  destruct (se_accept env); simpl; [lia|]. rewrite Hf, size_empty by done. lia.
Qed.

Lemma server_Start_spec s env w0 w lost s' err w' :
  ms_rt s = idle -> owns w0 w lost -> server_Start s env w = (s', err, w') ->
  start_leaves w0 w' lost env err (ms_rt s') /\
  (ms_config s' = ms_config s \/
   ms_config s' = with_key (ms_config s)
     (if PrivIsZero (sv_Key (ms_config s)) then se_newKey env else sv_Key (ms_config s))) /\
  match err with
  | Some _ => ms_rt s' = idle
  | None => started (ms_config s') (ms_rt s')
  end.
Proof.
  intros Hi Ho H. unfold server_Start in H.
  destruct (start_check s). { injection H as <- <- <-. rewrite Hi. auto using leaves_nothing. }
  set (c := with_key _ _) in *. destruct (open_core _ _ _ w) as [[[core res]|e] w1] eqn:Hc;
    apply (owns_open_core _ _ _ _ _ _ _ _ Ho) in Hc.
  2: { injection H as <- <- <-. simpl. rewrite Hi. auto using leaves_nothing. }
  destruct Hc as (Ho1 & Hd1 & Hnew). destruct (acquire w1) as [cancel w2] eqn:Ha.
  pose proof (owns_new _ _ _ _ _ Ho1 Ha) as Nc.
  apply (owns_acquire _ _ _ _ _ Ho1) in Ha. rewrite Hi in H. cbn [idle rt_relayPath rt_directHTTP rt_directH2 rt_directPC rt_blob] in H.
  set (rt0 := Runtime _ _ _ _ _ _ _) in *.
  assert (building w0 w2 lost rt0) as Hb0.
  { unfold rt0. split; unfold held, held_rest; simpl; [eapply owns_eq; [done|]; set_solver|set_solver|done]. }
  destruct (start_direct c env rt0 w2) as [[rt1|e] w3] eqn:Hd;
    apply (start_direct_building _ _ _ _ _ _ _ _ Hb0) in Hd; try done.
  2: { injection H as <- <- <-. auto using cleanup_leaves. }
  destruct Hd as (Hb1 & Hcore1 & Hcan1 & Hrel1 & Hf1 & Hdir1).
  destruct (start_relay c env rt1 w3) as [[rt2|e] w4] eqn:Hr;
    apply (start_relay_building _ _ _ _ _ _ _ _ Hb1) in Hr; try done.
  2: { injection H as <- <- <-. auto using cleanup_leaves. }
  destruct Hr as (Hb2 & Hcore2 & Hcan2 & Hh2 & Hpc2 & HH2 & Hrel2).
  assert (forgotten rt2 = forgotten rt1) as Hf2 by (unfold forgotten; by rewrite HH2). rewrite <- Hf2 in Hf1.
  destruct (ConnBlob (server_info c)) as [blob|e] eqn:Hblob; injection H as <- <- <-; [|auto using cleanup_leaves].
  split_and!; [|by right|].
  - exists ∅. rewrite (right_id_L ∅ (∪)), size_empty. split_and!; [destruct Hb2; by split| |done].
    change (forgotten _) with (forgotten rt2). pose proof (forgotten_size rt2).
    destruct (se_accept env); simpl; [lia|]. rewrite Hf1, size_empty by done. lia.
  - constructor; simpl; [exists core, res; by rewrite Hcore2, Hcore1|rewrite Hcan2, Hcan1; by eexists|done| |done].
    rewrite Hh2, Hpc2. exact Hdir1.
Qed.

(** The calls of a server's owner, and the end of its HTTP/2 accept loop, when [Accept]
    fails with [e]. *)
Inductive server_op : Type :=
  | OStart (env : start_env)
  | OClose
  | OAllow (k : NodePublic)
  | OAcceptFails (e : gerror).

(** src/masquecat_h2.go:1012-1016 [startMasqueHTTP2], the goroutine of the accept loop, when
    it ends while the server runs *)
Definition server_accept_fails (s : MasqueServer) (e : gerror) : MasqueServer :=
  let rt := ms_rt s in
  match rt_directH2 rt with
  | None => s
  | Some (srv, ln) =>
      MkMasqueServer (ms_config s)
        (Runtime (rt_core rt) (rt_relayPath rt) (rt_directHTTP rt) (Some (accept_loop_ends srv ln e, ln)) (rt_directPC rt)
           (rt_cancel rt) (rt_blob rt))
  end.

Definition server_exec (sw : MasqueServer * world) (op : server_op) : MasqueServer * world :=
  let '(s, w) := sw in
  match op with
  | OStart env => let '(s, _, w) := server_Start s env w in (s, w)
  | OClose => server_Close s w
  | OAllow k => (server_AddAllowedClient s k, w)
  | OAcceptFails e => (server_accept_fails s e, w)
  end.

(** How often an accept loop failed. *)
Definition op_failures (op : server_op) : nat :=
  match op with OStart env => failures (se_accept env) | OAcceptFails _ => 1 | OClose | OAllow _ => 0 end.
Definition accept_failures (ops : list server_op) : nat := sum_list_with op_failures ops.

(** The keys that were configured or added. *)
Definition added (ops : list server_op) : list NodePublic :=
  omap (fun op => match op with OAllow k => Some k | _ => None end) ops.

(** The allowlist a list of keys stands for. *)
Definition allowlist (ks : list NodePublic) : option (gmap NodePublic unit) :=
  match ks with [] => None | _ => Some (list_to_map ((fun k => (k, tt)) <$> ks)) end.

Lemma allowlist_lookup ks k :
  (list_to_map ((fun k => (k, tt)) <$> ks) : gmap NodePublic unit) !! k = Some tt <-> k ∈ ks.
Proof.
  induction ks as [|k0 ks IH]; simpl; [rewrite lookup_empty; split; [done|by intros ?%elem_of_nil]|].
  rewrite lookup_insert_Some, elem_of_cons, IH. destruct (decide (k0 = k)); naive_solver.
Qed.

Lemma allowlist_snoc ks k : allowlist (ks ++ [k]) = Some (<[k := tt]> (default ∅ (allowlist ks))).
Proof.
  assert (allowlist (ks ++ [k]) = Some (list_to_map ((fun k => (k, tt)) <$> (ks ++ [k])))) as -> by (by destruct ks).
  assert (default ∅ (allowlist ks) = list_to_map ((fun k => (k, tt)) <$> ks)) as -> by (by destruct ks).
  f_equal. apply map_eq. intros k'. apply option_eq. intros [].
  rewrite allowlist_lookup, lookup_insert_Some, allowlist_lookup, elem_of_app, list_elem_of_singleton.
  destruct (decide (k = k')); naive_solver.
Qed.

(** The invariant of a server since [w0], configured with [ks], after [n] failures of
    accept loops. *)
Record wf_server (w0 w : world) (lost : gset nat) (s : MasqueServer) (ks : list NodePublic) (n : nat) : Prop := {
  ws_building : building w0 w lost (ms_rt s);
  ws_lost : (size lost + size (forgotten (ms_rt s)) <= n)%nat;
  ws_clients : sv_AllowedClients (ms_config s) = ks;
  ws_idle : rt_core (ms_rt s) = None -> ms_rt s = idle;
  ws_core : forall core res, rt_core (ms_rt s) = Some (core, res) ->
    c_pub core = Public (sv_Key (ms_config s)) /\ c_isServer core = true /\ c_allowed core = allowlist ks /\
    ConnBlob (server_info (ms_config s)) = Ok (rt_blob (ms_rt s)) /\ PrivIsZero (sv_Key (ms_config s)) = false;
}.

Lemma wf_server_idle w0 w lost c n :
  owns w0 w lost -> (size lost <= n)%nat -> wf_server w0 w lost (MkMasqueServer c idle) (sv_AllowedClients c) n.
Proof.
  intros H Hn. split; [by apply building_idle| |done..].
  change (forgotten (ms_rt _)) with (∅ : gset nat). rewrite size_empty. lia.
Qed.

Lemma size_union_le (X Y : gset nat) : (size (X ∪ Y) <= size X + size Y)%nat.
Proof. rewrite size_union_alt. pose proof (subseteq_size (Y ∖ X) Y ltac:(set_solver)). lia. Qed.

Lemma wf_server_start w0 s w lost ks n env s' err w' :
  wf_server w0 w lost s ks n -> server_Start s env w = (s', err, w') ->
  exists gone, wf_server w0 w' (lost ∪ gone) s' ks (n + failures (se_accept env)).
Proof.
  intros [Hb Hl Hk Hi Hc] Hs. destruct (rt_core (ms_rt s)) as [[core res]|] eqn:Hcore.
  { unfold server_Start, start_check in Hs. rewrite Hcore in Hs. simpl in Hs. injection Hs as <- _ <-.
    exists ∅. rewrite (right_id_L ∅ (∪)). split; [done|lia|done|congruence|].
    intros core' res' Hcr. apply (Hc core' res'). congruence. }
  specialize (Hi eq_refl). rewrite Hi in Hb, Hl. destruct Hb as [Ho _ _].
  apply (server_Start_spec _ _ w0 _ lost) in Hs; [|done|eapply owns_eq; [done|unfold held, held_rest; simpl; set_solver]].
  destruct Hs as ((gone & Hb' & Hsz & _) & Hconf & Hres).
  assert (sv_AllowedClients (ms_config s') = ks) as Hk' by (by destruct Hconf as [-> | ->]).
  assert (size (lost ∪ gone) + size (forgotten (ms_rt s')) <= n + failures (se_accept env))%nat as Hle.
  { pose proof (size_union_le lost gone). lia. }
  exists gone. destruct err.
  { split; [done|done|done|done|]. intros core res. by rewrite Hres. }
  destruct Hres as [(core0 & res0 & Hcore0 & Hnew) _ Hblob _ _].
  split; [done|done|done|congruence|]. intros core res Hcr. assert (core0 = core) as -> by congruence.
  unfold newMasqueCore in Hnew. destruct (PrivIsZero (sv_Key (ms_config s'))) eqn:Hz; [done|]. simpl in Hnew.
  injection Hnew as <-. simpl. split_and!; try done. rewrite Hk'. by destruct ks.
Qed.

Lemma wf_server_allow w0 s w lost ks n k :
  wf_server w0 w lost s ks n -> wf_server w0 w lost (server_AddAllowedClient s k) (ks ++ [k]) n.
Proof.
  intros [Hb Hl Hk Hi Hc]. unfold server_AddAllowedClient.
  assert (sv_AllowedClients (with_clients (ms_config s) (sv_AllowedClients (ms_config s) ++ [k])) = ks ++ [k])
    as Hk2 by (simpl; by rewrite Hk).
  destruct (rt_core (ms_rt s)) as [[core res]|] eqn:Hcore.
  - split; [|exact Hl|exact Hk2|done|]; simpl.
    + destruct Hb as [Ho Ha Hw]. unfold held, held_rest in *. rewrite Hcore in *.
      split; [exact Ho|exact Ha|]. intros srv ln Hh. simpl in Hh. destruct (Hw srv ln Hh) as [? Hn]. split; [done|].
      unfold held_rest in *. by rewrite Hcore in Hn.
    + intros core' res' [= <- <-]. simpl. destruct (Hc _ _ eq_refl) as (? & ? & Ha & ? & ?).
      split_and!; try done. rewrite allowlist_snoc. by rewrite Ha.
  - split; [done|exact Hl|exact Hk2|auto|]; simpl. intros core res. by rewrite Hcore.
Qed.

Lemma wf_server_accept_fails w0 s w lost ks n e :
  wf_server w0 w lost s ks n -> wf_server w0 w lost (server_accept_fails s e) ks (S n).
Proof.
  intros [Hb Hl Hk Hi Hc]. unfold server_accept_fails.
  destruct (rt_directH2 (ms_rt s)) as [[srv ln]|] eqn:Hh; [|split; [done|lia|done..]].
  destruct Hb as [Ho Ha Hw]. destruct (Hw _ _ Hh) as [Hcl Hn]. unfold held in *. rewrite Hh in *.
  split; [split; [exact Ho|exact Ha|]| |exact Hk| |exact Hc].
  - intros srv' ln' [= <- <-]. split; [|exact Hn]. by apply (accept_loop_accepting (Some e)).
  - cbn [ms_rt]. match goal with |- context [forgotten ?rt] => pose proof (forgotten_size rt) end. lia.
  - intros Hnone. simpl in Hnone. specialize (Hi Hnone). rewrite Hi in Hh. done.
Qed.

Lemma wf_server_exec w0 s w lost ks n op s' w' :
  wf_server w0 w lost s ks n -> server_exec (s, w) op = (s', w') ->
  exists lost', wf_server w0 w' lost' s' (ks ++ added [op]) (n + op_failures op).
Proof.
  intros Hwf H. destruct op as [env| |k|e]; simpl in *; rewrite ?app_nil_r, ?Nat.add_0_r.
  - destruct (server_Start s env w) as [[s1 err] w1] eqn:Hs. injection H as -> ->.
    destruct (wf_server_start _ _ _ _ _ _ _ _ _ _ Hwf Hs) as [gone ?]. eauto.
  - unfold server_Close in H. injection H as <- <-. destruct Hwf as [Hb Hl <- _ _].
    exists (lost ∪ forgotten (ms_rt s)). apply wf_server_idle; [by apply owns_close_all|].
    pose proof (size_union_le lost (forgotten (ms_rt s))). lia.
  - injection H as <- <-. exists lost. by apply wf_server_allow.
  - injection H as <- <-. exists lost. rewrite Nat.add_1_r. by apply wf_server_accept_fails.
Qed.

Lemma wf_server_run w0 s w lost ks n ops s' w' :
  wf_server w0 w lost s ks n -> foldl server_exec (s, w) ops = (s', w') ->
  exists lost', wf_server w0 w' lost' s' (ks ++ added ops) (n + accept_failures ops).
Proof.
  revert s w lost ks n. induction ops as [|op ops IH]; intros s w lost ks n Hwf H; cbn [foldl] in H.
  { injection H as <- <-. exists lost. unfold accept_failures. simpl. by rewrite app_nil_r, Nat.add_0_r. }
  destruct (server_exec (s, w) op) as [s1 w1] eqn:Hop.
  destruct (wf_server_exec _ _ _ _ _ _ _ _ _ Hwf Hop) as [lost1 Hwf1]. destruct (IH _ _ _ _ _ Hwf1 H) as [lost2 Hwf2].
  exists lost2. replace (ks ++ added (op :: ops)) with ((ks ++ added [op]) ++ added ops)
    by (rewrite <- app_assoc; f_equal; unfold added; by rewrite <- omap_app).
  replace (n + accept_failures (op :: ops))%nat with (n + op_failures op + accept_failures ops)%nat; [done|].
  unfold accept_failures. simpl. lia.
Qed.

Lemma wf_server_reached w0 c ops s w :
  (forall i, i ∈ w_open w0 -> (i < w_next w0)%nat) ->
  foldl server_exec (MkMasqueServer c idle, w0) ops = (s, w) ->
  exists lost, wf_server w0 w lost s (sv_AllowedClients c ++ added ops) (accept_failures ops).
Proof.
  intros Hfresh%owns_refl. apply (wf_server_run w0 _ _ ∅ _ 0), wf_server_idle; [done|by rewrite size_empty].
Qed.

(** When the accept loop fails, exactly the listener is forgotten. *)
Lemma accept_fails_forgets s e : wf_http2 (ms_rt s) -> forgotten (ms_rt (server_accept_fails s e)) = option_set (snd <$> rt_directH2 (ms_rt s)).
Proof.
  intros Hw. unfold server_accept_fails, forgotten. destruct (rt_directH2 (ms_rt s)) as [[srv ln]|] eqn:E; simpl; [|by rewrite E].
  destruct (Hw _ _ E) as [Ha _]. by rewrite bool_decide_eq_false_2 by by apply accept_loop_forgets.
Qed.

(** C26: a server accounts for everything it opens.  Whatever starts (failed at any
    point or not), closes and additions its owner makes, and whenever the accept loop of
    its HTTP/2 listener fails, the resources that are open beyond those of before are
    exactly the ones the server holds and [lost], which is at most one listener for each
    failure of an accept loop: a failed loop takes its listener off the registry, and the
    close that follows leaves exactly that one open, as the clean-up of a failed start
    may.  Without such a failure nothing is open after a failed start or after
    a close.  A second start of a running server is refused without any effect. *)
Theorem server_accounts_for_resources w0 c ops s w :
  (forall i, i ∈ w_open w0 -> (i < w_next w0)%nat) ->
  foldl server_exec (MkMasqueServer c idle, w0) ops = (s, w) ->
  exists lost,
  (size lost + size (forgotten (ms_rt s)) <= accept_failures ops)%nat /\
  w_open w = w_open w0 ∪ held (ms_rt s) ∪ lost /\ held (ms_rt s) ∪ lost ## w_open w0 /\ held (ms_rt s) ## lost /\
  (rt_core (ms_rt s) = None -> w_open w = w_open w0 ∪ lost) /\
  w_open (server_Close s w).2 = w_open w0 ∪ lost ∪ forgotten (ms_rt s) /\
  (forall e, w_open (server_Close (server_accept_fails s e) w).2 = w_open w0 ∪ lost ∪ option_set (snd <$> rt_directH2 (ms_rt s))) /\
  (accept_failures ops = 0%nat -> w_open w = w_open w0 ∪ held (ms_rt s) /\ w_open (server_Close s w).2 = w_open w0) /\
  (forall env, match server_Start s env w with
   | (s', Some e, w') =>
       (is_Some (rt_core (ms_rt s)) -> s' = s /\ w' = w) /\
       (rt_core (ms_rt s) = None -> exists gone, w_open w' = w_open w ∪ gone /\ (size gone <= failures (se_accept env))%nat)
   | (s', None, w') => rt_core (ms_rt s) = None /\ started (ms_config s') (ms_rt s')
   end).
Proof.
  intros Hfresh H. destruct (wf_server_reached _ _ _ _ _ Hfresh H) as [lost Hwf]. exists lost.
  pose proof Hwf as [Hb Hsz _ Hi _].
  assert (rt_core (ms_rt s) = None -> owns w0 w lost) as Hempty.
  { intros Hc%Hi. destruct Hb as [Ho _ _]. eapply owns_eq; [done|]. rewrite Hc. unfold held, held_rest. simpl. set_solver. }
  pose proof (owns_close_all _ _ _ _ Hb) as Hcl. pose proof Hb as [Ho Ha Hh].
  assert (w_open w = w_open w0 ∪ held (ms_rt s) ∪ lost) as Hw by (rewrite (ow_open _ _ _ Ho); set_solver).
  assert (w_open (server_Close s w).2 = w_open w0 ∪ lost ∪ forgotten (ms_rt s)) as Hw'
    by (unfold server_Close; simpl; rewrite (ow_open _ _ _ Hcl); set_solver).
  split_and!; [done|done|apply Ho|done|intros Hc; by rewrite (ow_open _ _ _ (Hempty Hc))|done| | |].
  { intros e. pose proof (owns_close_all _ _ _ _ (ws_building _ _ _ _ _ _ (wf_server_accept_fails _ _ _ _ _ _ e Hwf))) as Hce.
    unfold server_Close. cbn [snd]. rewrite (ow_open _ _ _ Hce), (accept_fails_forgets s e Hh). set_solver. }
  { intros H0. assert (lost = ∅) as -> by (apply leibniz_equiv, size_empty_inv; lia).
    assert (forgotten (ms_rt s) = ∅) as Hf by (apply leibniz_equiv, size_empty_inv; lia). rewrite Hw, Hw', Hf. set_solver. }
  intros env. destruct (server_Start s env w) as [[s' err] w'] eqn:Hs.
  destruct (rt_core (ms_rt s)) as [x|] eqn:Hcore.
  - unfold server_Start, start_check in Hs. rewrite Hcore in Hs. simpl in Hs. injection Hs as <- <- <-. by split.
  - apply (server_Start_spec _ _ w0 _ lost) in Hs as ((gone & [Ho' _ _] & Hg & _) & _ & Hr); [|by auto..].
    destruct err; [|done]. split; [by intros []|]. intros _. exists gone. split; [|lia].
    rewrite (ow_open _ _ _ Ho'), Hr, (ow_open _ _ _ (Hempty eq_refl)). unfold held, held_rest. simpl. set_solver.
Qed.

(** the admission policy survives.  In any running core, after any starts, closes
    and additions, a peer is admitted exactly when it was configured or added, or when
    no key ever was. *)
Theorem admission_policy_survives w0 c ops s w core res k :
  (forall i, i ∈ w_open w0 -> (i < w_next w0)%nat) ->
  foldl server_exec (MkMasqueServer c idle, w0) ops = (s, w) ->
  rt_core (ms_rt s) = Some (core, res) ->
  peerAllowed core k = true <->
    sv_AllowedClients c ++ added ops = [] \/ k ∈ sv_AllowedClients c ++ added ops.
Proof.
  intros Hfresh H Hcore. destruct (wf_server_reached _ _ _ _ _ Hfresh H) as [lost Hwf].
  destruct (ws_core _ _ _ _ _ _ Hwf _ _ Hcore) as (_ & Hs & Ha & _ & _).
  unfold peerAllowed. rewrite Hs, Ha. simpl. unfold allowlist.
  destruct (sv_AllowedClients c ++ added ops) as [|k0 ks]; [naive_solver|].
  rewrite bool_decide_eq_true, <- allowlist_lookup. split.
  - intros [[] Hx]. by right.
  - intros [|Hx]; [done|]. by eexists.
Qed.

(** the token of a running server leads to it.  While a server runs, its token
    parses to the public key its core and its [Addr] use, and to its endpoints; the
    key that the first start drew stays for all later ones. *)
Theorem token_leads_to_server {TL : TokenLaws T} w0 c ops s w core res :
  (forall i, i ∈ w_open w0 -> (i < w_next w0)%nat) ->
  foldl server_exec (MkMasqueServer c idle, w0) ops = (s, w) ->
  rt_core (ms_rt s) = Some (core, res) ->
  let c' := ms_config s in
  ascii (sv_DirectURL c') = true -> ascii (sv_RelayURL c') = true ->
  ParseMasqueConnBlob (rt_blob (ms_rt s)) = Ok (server_info c') /\
  ci_ServerPublic (server_info c') = c_pub core /\ server_Addr s = tcAddrForKey (c_pub core) /\
  forall env s' err w', server_Start (server_Close s w).1 env w = (s', err, w') -> sv_Key (ms_config s') = sv_Key c'.
Proof.
  intros Hfresh H Hcore c' Hd Hr. destruct (wf_server_reached _ _ _ _ _ Hfresh H) as [lost Hwf].
  destruct (ws_core _ _ _ _ _ _ Hwf _ _ Hcore) as (Hp & _ & _ & Hb & Hz). split_and!.
  - by apply blob_parses in Hb.
  - done.
  - unfold server_Addr. by rewrite Hcore.
  - intros env s' err w' Hs. unfold server_Start in Hs. cbn [server_Close ms_config fst] in Hs.
    destruct (start_check _); [by injection Hs as <- _ _|].
    rewrite Hz in Hs. fold c' in Hs. destruct (open_core _ _ _ w) as [[?|?] ?]; [|by injection Hs as <- _ _].
    destruct (acquire _). destruct (start_direct _ _ _ _) as [[?|?] ?]; [|by injection Hs as <- _ _].
    destruct (start_relay _ _ _ _) as [[?|?] ?]; [|by injection Hs as <- _ _].
    destruct (ConnBlob _); by injection Hs as <- _ _.
Qed.
End server_properties.

(** * Witnesses *)

Import ToyKeys ToyToken.

Definition toy_disco : DiscoKeyOps toy :=
  {| Raw32 := key_raw; HMAC_SHA256 _ m := take 32 (m ++ repeat x01 32); DiscoPrivate := key32;
     DiscoPrivateFromRaw32 := of_raw; DiscoPrivatePublic k := k |}.

Definition no_core_error : core_env := CoreEnv None None None None None None None None None.
Definition sample_server : server_config (K := toy) :=
  ServerConfig (K := toy) (nkey 0) [nkey 5] None (B "0.0.0.0:4433") sample_direct
    (Some (ServerTLS 1 false (TLSConfig 772 [] None))) [] true false.
(** The TCP port is taken, so there is no HTTP/2 fallback. *)
Definition sample_start : start_env (K := toy) (ML := toy_lib) :=
  StartEnv (K := toy) (ML := toy_lib) (nkey 9) no_core_error (Ok (B "0.0.0.0:4433")) (Some (ErrExt 1)) None (fun _ _ => Ok tt).
Definition world3 : world := World 3 {[1%nat]}.
Definition sample_server_ops : list (server_op (K := toy) (ML := toy_lib)) :=
  [OStart (K := toy) (ML := toy_lib) sample_start; OAllow (K := toy) (ML := toy_lib) (nkey 6)].
Definition sample_running : MasqueServer (K := toy) * world :=
  foldl (server_exec (K := toy) (ML := toy_lib) (T := toy_token) (D := toy_disco))
    (MkMasqueServer (K := toy) sample_server idle, world3) sample_server_ops.

Lemma world3_fresh i : i ∈ w_open world3 -> (i < w_next world3)%nat.
Proof. simpl. intros ->%elem_of_singleton. lia. Qed.

Lemma sample_running_core : exists core res, rt_core (ms_rt sample_running.1) = Some (core, res).
Proof.
  assert (match rt_core (ms_rt sample_running.1) with Some _ => true | None => false end = true) as H by vm_reflexivity.
  destruct (rt_core (ms_rt sample_running.1)) as [[core res]|]; [by exists core, res|done].
Qed.

(** A server with an HTTP/2 listener whose accept loop fails. *)
Definition sample_start2 : start_env (K := toy) (ML := toy_lib) :=
  StartEnv (K := toy) (ML := toy_lib) (nkey 9) no_core_error (Ok (B "0.0.0.0:4433")) None None (fun _ _ => Ok tt).
Definition sample_failing_ops : list (server_op (K := toy) (ML := toy_lib)) :=
  [OStart (K := toy) (ML := toy_lib) sample_start2; OAcceptFails (K := toy) (ML := toy_lib) (ErrExt 24)].
Definition sample_failing : MasqueServer (K := toy) * world :=
  foldl (server_exec (K := toy) (ML := toy_lib) (T := toy_token) (D := toy_disco))
    (MkMasqueServer (K := toy) sample_server idle, world3) sample_failing_ops.

(** The first server runs on five new resources; closing it leaves what was open before.
    Closing the second, which runs on six, leaves one more: its listener. *)
Lemma server_accounts_for_resources_witness :
  (w_open sample_running.2 = {[1%nat]} ∪ held (ms_rt sample_running.1) /\ size (held (ms_rt sample_running.1)) = 5%nat /\
   w_open (server_Close sample_running.1 sample_running.2).2 = {[1%nat]}) /\
  exists lost, (size lost + 1 <= 1)%nat /\ size (held (ms_rt sample_failing.1)) = 6%nat /\
   w_open (server_Close sample_failing.1 sample_failing.2).2 = {[1%nat]} ∪ lost ∪ forgotten (ms_rt sample_failing.1) /\
   size (forgotten (ms_rt sample_failing.1)) = 1%nat.
Proof.
  split.
  - destruct (server_accounts_for_resources (K := toy) (ML := toy_lib) (T := toy_token) (D := toy_disco)
      world3 sample_server sample_server_ops sample_running.1 sample_running.2 world3_fresh)
      as (lost & _ & _ & _ & _ & _ & _ & _ & H & _); [unfold sample_running; by destruct (foldl _ _ _)|].
    destruct (H eq_refl) as [H1 H2]. split_and!; [exact H1|vm_reflexivity|exact H2].
  - destruct (server_accounts_for_resources (K := toy) (ML := toy_lib) (T := toy_token) (D := toy_disco)
      world3 sample_server sample_failing_ops sample_failing.1 sample_failing.2 world3_fresh)
      as (lost & Hs & _ & _ & _ & _ & Hc & _ & _); [unfold sample_failing; by destruct (foldl _ _ _)|].
    assert (size (forgotten (ms_rt sample_failing.1)) = 1%nat) as Hf by vm_reflexivity. rewrite Hf in Hs.
    exists lost. split_and!; [exact Hs|vm_reflexivity|exact Hc|exact Hf].
Defined.

Lemma admission_policy_survives_witness :
  exists core res, rt_core (ms_rt sample_running.1) = Some (core, res) /\
    peerAllowed core (nkey 6) = true /\ peerAllowed core (nkey 7) <> true.
Proof.
  destruct sample_running_core as (core & res & Hc). exists core, res. split; [done|].
  assert (foldl (server_exec (K := toy) (ML := toy_lib) (T := toy_token) (D := toy_disco))
    (MkMasqueServer (K := toy) sample_server idle, world3) sample_server_ops = (sample_running.1, sample_running.2)) as Hr
    by (unfold sample_running; by destruct (foldl _ _ _)).
  split.
  - apply (admission_policy_survives (K := toy) (ML := toy_lib) (T := toy_token) (D := toy_disco)
      world3 sample_server sample_server_ops _ _ core res (nkey 6) world3_fresh Hr Hc). right. apply list_elem_of_further, list_elem_of_here.
  - rewrite (admission_policy_survives (K := toy) (ML := toy_lib) (T := toy_token) (D := toy_disco)
      world3 sample_server sample_server_ops _ _ core res (nkey 7) world3_fresh Hr Hc).
    intros [|Hin]; [done|]. simpl in Hin. apply (bool_decide_pack _) in Hin. by vm_compute in Hin.
Defined.

Lemma token_leads_to_server_witness :
  ParseMasqueConnBlob (O := toy_token) (rt_blob (ms_rt sample_running.1))
  = Ok (server_info (D := toy_disco) (ms_config sample_running.1)).
Proof.
  destruct sample_running_core as (core & res & Hc).
  apply (token_leads_to_server (K := toy) (ML := toy_lib) (T := toy_token) (D := toy_disco) (TL := toy_token_laws)
    world3 sample_server sample_server_ops _ sample_running.2 core res world3_fresh); [|exact Hc|vm_reflexivity|vm_reflexivity].
  unfold sample_running. by destruct (foldl _ _ _).
Defined.
