(* ===== verification/RelayServer.v ===== *)
(** RelayServer: the stand-alone relay and what its listeners accept.

    Models [ServeMasqueRelay] of src/masquecat_webtransport.go and [ServeMasqueHTTP3] of
    src/masquecat_h3_server.go over the ledger of open resources of Lifecycle, how a request
    reaches the native or the browser handler, how the HTTP/2 server accepts a connection
    (src/masquecat_h2.go), and the relay command (src/cmd/masquecat-relay/main.go) with its
    certificate.  TLS, X.509 and the HTTP servers are their results. *)

From S2P Require Import Prelude GoStd Keys Packet Fragment Auth Url Token Endpoint Path Bind Core H2Server Lifecycle.
From Stdlib Require Import Strings.Byte.

(** * Serving *)

(** src/masquecat_webtransport.go:227-285 [ServeMasqueRelay]; [listenUDP] is the address of
    the UDP socket, [accept] the error of the HTTP/2 listener's [Accept] if that failed,
    [first] what the first of the two servers returned *)
Definition ServeMasqueRelay (addr : gostring) (tlsConfig : option server_tls) (has_relay : bool)
    (listenUDP : result gostring) (listenTCP accept first : option gerror) (w : world) : option gerror * world :=
  if negb has_relay then (Some (ErrNew "masquecat: nil relay"), w)
  else if negb (hasMasqueServerCertificate tlsConfig) then (Some (ErrNew "MASQUE relay requires a TLS certificate"), w)
  else
    match listenUDP with
    | Err e => (Some (ErrWrap "listen for HTTP/3 MASQUE relay: %w" e), w)
    | Ok localAddr =>
        let '(pc, w) := acquire w in
        match masqueHTTP2CompanionAddr addr localAddr with
        | Err e => (Some (ErrWrap "derive HTTP/2 MASQUE relay listen address: %w" e), release pc w)
        | Ok _ =>
            match newMasqueHTTP2Server (st_config <$> tlsConfig) true with
            | Err e => (Some e, release pc w)
            | Ok (_, srv) =>
                match listenTCP with
                | Some e => (Some (ErrWrap "listen for HTTP/2 MASQUE relay: %w" e), release pc w)
                | None =>
                    let '(ln, w) := acquire w in
                    let '(wt, w) := acquire w in
                    let w := release wt (close_http2 (accept_loop accept (registerListener srv ln).1 ln, ln) w) in
                    (match first with
                     | Some e => if errors_is is_server_closed e || errors_is is_net_closed e then None else Some e
                     | None => None
                     end, release pc (release ln w))
                end
            end
        end
    end.

(** src/masquecat_h3_server.go:217-230 [ServeMasqueHTTP3]; [serve] is what the server's
    [ListenAndServe] returns *)
Definition ServeMasqueHTTP3 (tlsConfig : option server_tls) (serve : option gerror) : option gerror :=
  if negb (hasMasqueServerCertificate tlsConfig) then Some (ErrNew "MASQUE HTTP/3 server requires a TLS certificate") else serve.

(** The handlers of the relay's HTTP/3 server. *)
Inductive relay_handler : Type := NativeHandler | BrowserHandler.
(** src/masquecat_webtransport.go:264-272 [ServeMasqueRelay], the mux *)
Definition relay_route (path : gostring) : relay_handler :=
  if isMasqueBrowserWebTransportPath path then BrowserHandler else NativeHandler.

(** * A connection of the HTTP/2 server *)

Definition ClientPreface : list byte := B "PRI * HTTP/2.0" ++ [x0d; x0a; x0d; x0a] ++ B "SM" ++ [x0d; x0a; x0d; x0a].

(** An accepted connection: whether it is TLS, its handshake, the protocol that was agreed,
    whether a deadline can be set, all that the peer sends with the error that ends it, and
    whether the settings can be written. *)
Record accepted : Type := Accepted {
  ac_tls : bool;
  ac_handshake : option gerror;
  ac_protocol : gostring;
  ac_deadline : option gerror;
  ac_input : list byte;
  ac_end : gerror;
  ac_settings : option gerror;
}.

(** [io.ReadFull] *)
Definition ReadFull (n : nat) (input : list byte) (end_ : gerror) : result (list byte * list byte) :=
  if (length input <? n)%nat
  then Err (if errors_is is_eof end_ && negb (bool_decide (input = [])) then IOErrUnexpectedEOF else end_)
  else Ok (take n input, drop n input).

(** src/masquecat_h2.go:464-515 [masqueHTTP2Server.serveConn], up to the read loop: what it
    starts to read from *)
Definition serveConn_begins (c : accepted) : result (list byte) :=
  if negb (ac_tls c) then Err (ErrNew "masquecat: HTTP/2 listener accepted a non-TLS connection")
  else
    match ac_handshake c with
    | Some e => Err e
    | None =>
        if negb (bool_decide (ac_protocol c = NextProtoTLS)) then Err (ErrNew "masquecat: HTTP/2 listener negotiated %q")
        else
          match ac_deadline c with
          | Some e => Err e
          | None =>
              let? r := ReadFull (length ClientPreface) (ac_input c) (ac_end c) in
              if negb (bool_decide (r.1 = ClientPreface)) then Err (ErrNew "masquecat: invalid HTTP/2 client preface")
              else match ac_settings c with Some e => Err e | None => Ok r.2 end
          end
    end.

(** * The relay command *)

Section certificate.
(** A [tls.Certificate]. *)
Context (certificate : Type).

(** What the command finds: the answer on its terminal, or why it could not be read after
    what was; key pairs on disk; and a certificate it generates. *)
Record relay_env : Type := RelayEnv {
  re_interactive : bool;
  re_answer : gostring * option gerror;
  re_load : gostring -> gostring -> result certificate;
  re_generate : result certificate;
}.

(** src/cmd/masquecat-relay/main.go:55-91 [loadOrGenerateCertificate]: the certificate, and
    whether it was generated; standard input is there, as [main] passes it *)
Definition loadOrGenerateCertificate (env : relay_env) (certFile keyFile : gostring) : result (certificate * bool) :=
  if xorb (bool_decide (certFile = [])) (bool_decide (keyFile = [])) then Err (ErrNew "-cert and -key must be provided together")
  else if negb (bool_decide (certFile = [])) then
    match re_load env certFile keyFile with
    | Err e => Err (ErrWrap "load TLS certificate: %w" e)
    | Ok cert => Ok (cert, false)
    end
  else if negb (re_interactive env) then Err (ErrNew "-cert and -key are required in non-interactive mode; run interactively to generate an ephemeral self-signed certificate")
  else
    let '(answer, err) := re_answer env in
    match err with
    | Some e => if errors_is is_eof e then
                  if bool_decide (Strings.ToLower (Strings.TrimSpace answer) ∈ [B "y"; B "yes"])
                  then let? cert := re_generate env in Ok (cert, true)
                  else Err (ErrNew "TLS certificate required; provide -cert and -key")
                else Err (ErrWrap "read certificate prompt: %w" e)
    | None =>
        if bool_decide (Strings.ToLower (Strings.TrimSpace answer) ∈ [B "y"; B "yes"])
        then let? cert := re_generate env in Ok (cert, true)
        else Err (ErrNew "TLS certificate required; provide -cert and -key")
    end.

(** What can go wrong on the way to a generated certificate, in order; [X509KeyPair] is the
    last. *)
Record generate_env : Type := GenerateEnv {
  ge_key : option gerror;
  ge_serial : option gerror;
  ge_create : option gerror;
  ge_marshal : option gerror;
  ge_pair : result certificate;
}.
(** The template's names and validity. *)
Record cert_template : Type := CertTemplate {
  ct_NotBefore : Z;
  ct_NotAfter : Z;
  ct_DNSNames : list gostring;
  ct_IPAddresses : list gostring;
}.

Definition minute : Z := 60 * 1000000000.
(** src/cmd/masquecat-relay/main.go:27-27 [selfSignedValidity] *)
Definition selfSignedValidity : Z := 24 * 60 * minute.

(** src/cmd/masquecat-relay/main.go:104-117 [generateSelfSignedCertificate], the template *)
Definition selfSignedTemplate (hostname : result gostring) (now : Z) : cert_template :=
  CertTemplate (now - minute) (now + selfSignedValidity)
    (B "localhost" :: match hostname with
                      | Ok h => if bool_decide (h = []) || bool_decide (h = B "localhost") then [] else [h]
                      | Err _ => []
                      end)
    [B "127.0.0.1"; B "::1"].

(** src/cmd/masquecat-relay/main.go:93-134 [generateSelfSignedCertificate] *)
Definition generateSelfSignedCertificate (env : generate_env) : result certificate :=
  match ge_key env with
  | Some e => Err (ErrWrap "generate self-signed key: %w" e)
  | None =>
      match ge_serial env with
      | Some e => Err (ErrWrap "generate certificate serial: %w" e)
      | None =>
          match ge_create env with
          | Some e => Err (ErrWrap "create self-signed certificate: %w" e)
          | None =>
              match ge_marshal env with
              | Some e => Err (ErrWrap "marshal self-signed private key: %w" e)
              | None =>
                  match ge_pair env with
                  | Err e => Err (ErrWrap "load generated self-signed certificate: %w" e)
                  | Ok cert => Ok cert
                  end
              end
          end
      end
  end.

(** How the command ends. *)
Inductive relay_exit : Type := RelayReturns | RelayFatal (e : gerror).

(** src/cmd/masquecat-relay/main.go:29-48 [main] *)
Definition relay_main (env : relay_env) (listen certFile keyFile : gostring) (listenUDP : result gostring)
    (listenTCP accept first : option gerror) (w : world) : relay_exit * world :=
  match loadOrGenerateCertificate env certFile keyFile with
  | Err e => (RelayFatal e, w)
  | Ok _ =>
      let conf := ServerTLS 1 false (TLSConfig 0 [] None) in
      match ServeMasqueRelay listen (Some conf) true listenUDP listenTCP accept first w with
      | (Some e, w) => (RelayFatal e, w)
      | (None, w) => (RelayReturns, w)
      end
  end.
End certificate.

(** * Properties *)

(** However it ends, the relay leaves nothing open, and it never serves without a
    certificate. *)
Lemma relay_closes addr tls has_relay listenUDP listenTCP accept first w err w' :
  (forall i, i ∈ w_open w -> (i < w_next w)%nat) ->
  ServeMasqueRelay addr tls has_relay listenUDP listenTCP accept first w = (err, w') ->
  w_open w' = w_open w /\ (err = None -> has_relay = true /\ hasMasqueServerCertificate tls = true /\ is_ok listenUDP = true /\ listenTCP = None).
Proof.
  intros Hf H. unfold ServeMasqueRelay in H. destruct has_relay; cbn [negb] in H; [|by injection H as <- <-].
  destruct (hasMasqueServerCertificate tls); cbn [negb] in H; [|by injection H as <- <-].
  destruct listenUDP as [a|]; [|by injection H as <- <-]. destruct (acquire w) as [pc w1] eqn:H1.
  pose proof (socket_closed w pc w1 Hf H1) as Hpc. destruct (masqueHTTP2CompanionAddr addr a); [|by injection H as <- <-].
  destruct (newMasqueHTTP2Server (st_config <$> tls) true) as [[conf srv]|e]; [|by injection H as <- <-].
  destruct listenTCP; [by injection H as <- <-|].
  destruct (acquire w1) as [ln w2] eqn:H2, (acquire w2) as [h3 w3] eqn:H3. injection H as <- <-.
  split; [|by intros _]. by eapply sockets_closed.
Qed.

(** A connection reaches the read loop exactly when it is TLS with the protocol h2 and
    begins with the client's preface, and what is read then is what follows. *)
Lemma serveConn_reaches_loop c rest :
  serveConn_begins c = Ok rest <->
  ac_tls c = true /\ ac_handshake c = None /\ ac_protocol c = B "h2" /\ ac_deadline c = None /\ ac_settings c = None /\
  ac_input c = ClientPreface ++ rest.
Proof.
  unfold serveConn_begins, ReadFull. destruct (ac_tls c); cbn [negb]; [|split; [done|by intros [? _]]].
  destruct (ac_handshake c); [split; [done|by intros (_ & ? & _)]|].
  destruct (bool_decide_reflect (ac_protocol c = NextProtoTLS)) as [Hp|Hp]; cbn [negb]; [|split; [done|by intros (_ & _ & ? & _)]].
  destruct (ac_deadline c); [split; [done|by intros (_ & _ & _ & ? & _)]|].
  destruct (length (ac_input c) <? length ClientPreface)%nat eqn:El; cbn [rbind].
  { apply Nat.ltb_lt in El. split; [done|]. intros (_ & _ & _ & _ & _ & Hi). rewrite Hi, length_app in El. lia. }
  cbn [fst snd]. destruct (bool_decide_reflect (take (length ClientPreface) (ac_input c) = ClientPreface)) as [Ht|Ht]; cbn [negb].
  - destruct (ac_settings c); [split; [done|by intros (_ & _ & _ & _ & ? & _)]|].
    split.
    + intros [= <-]. split_and!; try done. rewrite <- Ht at 1. by rewrite take_drop.
    + intros (_ & _ & _ & _ & _ & ->). by rewrite drop_app_length.
  - split; [done|]. intros (_ & _ & _ & _ & _ & Hi). destruct Ht. by rewrite Hi, take_app_length.
Qed.

(** the relay's certificate is the operator's decision.  The command serves only with a
    certificate; one from disk is used exactly when both files are named, and one is made
    up exactly when neither is, the command runs on a terminal and the answer was yes.
    However it ends, nothing stays open. *)
Theorem relay_certificate_rule {certificate} (env : relay_env certificate) certFile keyFile listen listenUDP listenTCP accept first w ex w' :
  (forall i, i ∈ w_open w -> (i < w_next w)%nat) ->
  relay_main certificate env listen certFile keyFile listenUDP listenTCP accept first w = (ex, w') ->
  w_open w' = w_open w /\
  (forall cert generated, loadOrGenerateCertificate certificate env certFile keyFile = Ok (cert, generated) ->
     if generated
     then certFile = [] /\ keyFile = [] /\ re_interactive _ env = true /\ re_generate _ env = Ok cert /\
          Strings.ToLower (Strings.TrimSpace (re_answer _ env).1) ∈ [B "y"; B "yes"]
     else certFile <> [] /\ keyFile <> [] /\ re_load _ env certFile keyFile = Ok cert) /\
  (ex = RelayReturns -> is_ok (loadOrGenerateCertificate certificate env certFile keyFile) = true /\ is_ok listenUDP = true /\ listenTCP = None).
Proof.
  intros Hf H. split_and!.
  - unfold relay_main in H. destruct (loadOrGenerateCertificate _ _ _ _); [|by injection H as <- <-].
    destruct (ServeMasqueRelay _ _ _ _ _ _ _ _) as [err w1] eqn:Es. destruct (relay_closes _ _ _ _ _ _ _ _ _ _ Hf Es) as [Hw _].
    by destruct err; injection H as <- <-.
  - intros cert generated. unfold loadOrGenerateCertificate.
    destruct (bool_decide_reflect (certFile = [])) as [->|Hc], (bool_decide_reflect (keyFile = [])) as [->|Hk]; cbn [xorb negb]; try done.
    + destruct (re_interactive _ env) eqn:Hi; cbn [negb]; [|done]. destruct (re_answer _ env) as [answer [e|]]; cbn [fst].
      1: destruct (errors_is is_eof e); [|done].
      all: destruct (bool_decide_reflect (Strings.ToLower (Strings.TrimSpace answer) ∈ [B "y"; B "yes"])) as [Ha|]; [|done].
      all: destruct (re_generate _ env) as [c|] eqn:Eg; cbn [rbind]; [|done]; intros [= <- <-]; by split_and!.
    + destruct (re_load _ env certFile keyFile) as [c|]; [|done]. intros [= <- <-]. by split_and!.
  - intros ->. unfold relay_main in H. destruct (loadOrGenerateCertificate _ _ _ _); [|done].
    destruct (ServeMasqueRelay _ _ _ _ _ _ _ _) as [[e|] w1] eqn:Es; [done|]. destruct (relay_closes _ _ _ _ _ _ _ _ _ _ Hf Es) as [_ Hn].
    destruct (Hn eq_refl) as (_ & _ & ? & ?). done.
Qed.

(** A generated certificate is valid when it is made and for a day, under localhost and its
    addresses. *)
Lemma generated_certificate_is_valid hostname now t :
  now <= t <= now + selfSignedValidity -> let c := selfSignedTemplate hostname now in
  ct_NotBefore c <= t <= ct_NotAfter c /\ B "localhost" ∈ ct_DNSNames c /\ B "127.0.0.1" ∈ ct_IPAddresses c.
Proof.
  intros Ht c. unfold c, selfSignedTemplate. cbn. unfold minute in *. split_and!; [lia|lia|apply list_elem_of_here|apply list_elem_of_here].
Qed.

(** ** Witness *)

Definition ex_relay_env : relay_env nat := RelayEnv nat true (B " Yes", Some IOEOF) (fun _ _ => Err IOEOF) (Ok 7%nat).
Lemma relay_certificate_rule_witness :
  loadOrGenerateCertificate nat ex_relay_env [] [] = Ok (7%nat, true) /\
  Strings.ToLower (Strings.TrimSpace (B " Yes")) ∈ [B "y"; B "yes"].
Proof.
  set (w := World 0 ∅). destruct (relay_main nat ex_relay_env (B ":443") [] [] (Err IOEOF) None None None w) as [ex w'] eqn:H.
  assert (forall i, i ∈ w_open w -> (i < w_next w)%nat) as Hf by (intros i Hi; by apply not_elem_of_empty in Hi).
  destruct (relay_certificate_rule ex_relay_env [] [] (B ":443") (Err IOEOF) None None None w ex w' Hf H) as (_ & Hc & _).
  split; [vm_reflexivity|]. destruct (Hc 7%nat true) as (_ & _ & _ & _ & Ha); [vm_reflexivity|]. exact Ha.
Defined.
