(* ===== verification/Client.v ===== *)
(** Client: the client's lifecycle.

    Models [MasqueClient] of src/masquecat.go: the contexts a dial and an operation run
    under, the start with its choice of a path, and operations, [Close] and restarts
    interleaved.  Resources are accounted for as in Lifecycle. *)

From S2P Require Import Prelude GoStd Keys Packet Fragment Auth Url Token Endpoint Path Bind Core H2Server Lifecycle.
From Stdlib Require Import Strings.Byte.

(** * Contexts *)

(** The [context.AfterFunc] of a context: armed, started but not run yet, run, or
    stopped before it started. *)
Inductive after_func : Type := Armed | Fired | Ran | Stopped.
#[global] Instance after_func_eq_dec : EqDecision after_func.
Proof. solve_decision. Defined.

(** src/masquecat.go:337-347 [masqueDialContext]: the two parents, the child that the
    dial runs under, the function armed on the operation, and what [finish] returned. *)
Record dial_context : Type := DialContext {
  dc_lifecycle : bool;               (* done *)
  dc_operation : bool;
  dc_dial : bool;
  dc_after : after_func;
  dc_finished : option (bool * bool);  (* [keep] and the result *)
}.

(** src/masquecat.go:337-347 [masqueDialContext] on two contexts: a done operation
    starts the function at once. *)
Definition masqueDialContext (lifecycle operation : bool) : dial_context :=
  DialContext lifecycle operation lifecycle (if operation then Fired else Armed) None.

(** src/masquecat.go:340-346 [masqueDialContext, finish] *)
Definition finishDial (d : dial_context) (keep : bool) : dial_context * bool :=
  let operationActive := bool_decide (dc_after d = Armed) in
  (DialContext (dc_lifecycle d) (dc_operation d) (dc_dial d || negb keep || negb operationActive)
     (if operationActive then Stopped else dc_after d) (Some (keep, operationActive)), operationActive).

(** Either parent is cancelled, or a started function runs, or the dial finishes. *)
Inductive dial_context_step : dial_context -> dial_context -> Prop :=
  | dc_cancel_lifecycle l o d a f :
      dial_context_step (DialContext l o d a f) (DialContext true o true a f)
  | dc_cancel_operation l o d a f :
      dial_context_step (DialContext l o d a f)
        (DialContext l true d (if bool_decide (a = Armed) then Fired else a) f)
  | dc_run l o d f : dial_context_step (DialContext l o d Fired f) (DialContext l o true Ran f)
  | dc_finish d keep : dc_finished d = None -> dial_context_step d (finishDial d keep).1.

(** src/masquecat.go:349-356 [masqueOperationContext]: the operation, the lifecycle, the
    child that the operation runs under, and the function armed on the lifecycle. *)
Record operation_context : Type := OperationContext {
  oc_operation : bool;
  oc_lifecycle : bool;
  oc_child : bool;
  oc_after : after_func;
}.
(** src/masquecat.go:349-356 [masqueOperationContext], at first *)
Definition masqueOperationContext (operation lifecycle : bool) : operation_context :=
  OperationContext operation lifecycle operation (if lifecycle then Fired else Armed).

(** src/masquecat.go:352-355 [masqueOperationContext, stop] *)
Definition stopOperation (c : operation_context) : operation_context :=
  OperationContext (oc_operation c) (oc_lifecycle c) true
    (if bool_decide (oc_after c = Armed) then Stopped else oc_after c).

Inductive operation_step : operation_context -> operation_context -> Prop :=
  | oc_cancel_operation o l c a : operation_step (OperationContext o l c a) (OperationContext true l true a)
  | oc_cancel_lifecycle o l c a :
      operation_step (OperationContext o l c a)
        (OperationContext o true c (if bool_decide (a = Armed) then Fired else a))
  | oc_run o l c : operation_step (OperationContext o l c Fired) (OperationContext o l true Ran)
  | oc_stop c : operation_step c (stopOperation c).

(** * Ownership of a dial *)

Section contexts.

Record wf_dial (d : dial_context) : Prop := {
  wd_lifecycle : dc_lifecycle d = true -> dc_dial d = true;
  wd_armed : dc_after d = Armed -> dc_dial d = dc_lifecycle d /\ dc_operation d = false /\ dc_finished d = None;
  wd_stopped : dc_after d = Stopped -> exists keep, dc_finished d = Some (keep, true);
  wd_fired : dc_after d = Fired \/ dc_after d = Ran ->
    dc_operation d = true /\ (dc_finished d = None \/ exists keep, dc_finished d = Some (keep, false));
  wd_ran : dc_after d = Ran -> dc_dial d = true;
  wd_kept : dc_finished d = Some (true, true) -> dc_dial d = dc_lifecycle d /\ dc_after d = Stopped;
  wd_dropped : forall keep r, dc_finished d = Some (keep, r) -> keep && r = false -> dc_dial d = true;
}.

Lemma wf_dial_init l o : wf_dial (masqueDialContext l o).
Proof. destruct l, o; split; simpl; try done; naive_solver. Qed.

Lemma wf_dial_step d d' : wf_dial d -> dial_context_step d d' -> wf_dial d'.
Proof.
  intros [H1 H2 H3 H4 H5 H6 H7] Hst. destruct Hst as [l o d a f|l o d a f|l o d f|d keep Hf]; simpl in *.
  - split; simpl; naive_solver.
  - split; simpl; try done; destruct a; simpl; naive_solver.
  - assert (f <> Some (true, true)) as Hne by (intros ->; naive_solver). split; simpl; naive_solver.
  - destruct d as [l o d a f]. simpl in *. subst f. destruct a.
    + destruct (H2 eq_refl) as (-> & -> & _). destruct l, keep; split; simpl; naive_solver.
    + destruct H4 as (-> & _); [by left|]. destruct l, keep; split; simpl; rewrite ?orb_true_r; naive_solver.
    + destruct H4 as (-> & _); [by right|]. rewrite H5 by done. destruct l, keep; split; simpl; naive_solver.
    + by destruct (H3 eq_refl).
Qed.

(** the operation never owns the transport.  However the lifecycle, the operation,
    the function armed on it and the end of the dial interleave: while the dial runs,
    either cancellation reaches it; once [finish] kept it (and reported the operation
    active), its context ends exactly with the lifecycle, whatever becomes of the
    operation; in every other case it is cancelled. *)
Theorem dial_handover l o d :
  rtc dial_context_step (masqueDialContext l o) d ->
  match dc_finished d with
  | None => (dc_lifecycle d = true -> dc_dial d = true) /\
            (dc_operation d = true -> dc_dial d = true \/ dc_after d = Fired)
  | Some (true, true) => dc_dial d = dc_lifecycle d
  | Some _ => dc_dial d = true
  end.
Proof.
  intros Hr. assert (wf_dial d) as [H1 H2 H3 H4 H5 H6 H7].
  { pose proof (wf_dial_init l o) as H0. revert H0. induction Hr as [|d1 d2 d3 Hst _ IH]; [done|].
    intros H0. apply IH. by eapply wf_dial_step. }
  destruct (dc_finished d) as [[[] []]|]; [by apply H6|by eapply H7..|].
  split; [done|]. intros Ho. destruct (dc_after d); [|by right|left; by apply H5|].
  - destruct (H2 eq_refl) as (_ & Hx & _). congruence.
  - by destruct (H3 eq_refl).
Qed.

Record wf_operation (c : operation_context) : Prop := {
  wo_operation : oc_operation c = true -> oc_child c = true;
  wo_lifecycle : oc_lifecycle c = true -> oc_child c = true \/ oc_after c = Fired;
  wo_armed : oc_after c = Armed -> oc_lifecycle c = false;
  wo_ran : oc_after c = Ran \/ oc_after c = Stopped -> oc_child c = true;
}.

(** An operation runs until it, the lifecycle or its release ends it; the end of the
    lifecycle reaches it. *)
Lemma operation_bounded o l c :
  rtc operation_step (masqueOperationContext o l) c ->
  (oc_operation c = true -> oc_child c = true) /\
  (oc_lifecycle c = true -> oc_child c = true \/ oc_after c = Fired).
Proof.
  intros Hr. assert (wf_operation c) as []; [|done].
  assert (wf_operation (masqueOperationContext o l)) as H0 by (destruct o, l; split; simpl; naive_solver).
  revert H0. induction Hr as [|c1 c2 c3 Hst _ IH]; [done|]. intros [H1 H2 H3 H4]. apply IH.
  destruct Hst as [? ? ? a|? ? ? a| |[? ? ? a]]; simpl in *; try destruct a; split; simpl; intuition congruence.
Qed.
End contexts.

(** * The client *)

(** src/masquecat.go:23-28 [MasquePathType] *)
Inductive MasquePathType : Type := MasquePathDirect | MasquePathRelay.
#[global] Instance MasquePathType_eq_dec : EqDecision MasquePathType.
Proof. solve_decision. Defined.

Section client.
Context `{K : KeyOps} `{ML : MasqueLib} {T : TokenOps K}.

(** src/masquecat.go:307-323 [MasqueClient]; contexts are the resources of their
    cancel functions. *)
Record MasqueClient : Type := MkMasqueClient {
  mc_Server : gostring;
  mc_Key : NodePrivate;
  mc_InsecureSkipVerify : bool;
  mc_core : option (masqueCore * core_res);
  mc_serverPublic : NodePublic;
  mc_path : option nat;
  mc_pathType : option MasquePathType;
  mc_lifecycleCtx : option nat;
  mc_cancel : option nat;
  mc_started : bool;
}.

(** src/masquecat.go:325-325 [NewMasqueClient], with the key and flag set *)
Definition NewMasqueClient (server : gostring) (k : NodePrivate) (insecure : bool) : MasqueClient :=
  MkMasqueClient server k insecure None NodePublicZero None None None None false.

Definition client_with_key (c : MasqueClient) (k : NodePrivate) : MasqueClient :=
  MkMasqueClient (mc_Server c) k (mc_InsecureSkipVerify c) (mc_core c) (mc_serverPublic c) (mc_path c)
    (mc_pathType c) (mc_lifecycleCtx c) (mc_cancel c) (mc_started c).

(** The outside of one [dialPath]: [ctx.Err()] in front, the dial of a target in a mode,
    what [finishDial] reported, [ctx.Err()] behind. *)
Record path_env : Type := PathEnv {
  pe_ctx : option gerror;
  pe_dial : NodePublic -> gostring -> template -> tlsConfig -> result unit;
  pe_active : bool;
  pe_ctx_after : option gerror;
}.

(** src/masquecat.go:379-398 [MasqueClient.ensureStartedLocked, dialPath] *)
Definition dialPath (env : path_env) (priv : NodePrivate) (insecureSkipVerify : bool) (rawURL : gostring)
    (target : NodePublic) (mode : gostring) (w : world) : result nat * world :=
  match pe_ctx env with
  | Some e => (Err e, w)
  | None =>
      let '(p, w) := newMasquePathWithFallback (pe_dial env target mode) rawURL target priv insecureSkipVerify w in
      if negb (pe_active env) then
        let w := match p with Ok p => release p w | Err _ => w end in
        match pe_ctx_after env with
        | Some e => (Err e, w)
        | None => match p with Ok _ => (Err CtxCanceled, w) | Err e => (Err e, w) end
        end
      else (p, w)
  end.

(** The outside of one start. *)
Record ensure_env : Type := EnsureEnv {
  ee_newKey : NodePrivate;
  ee_direct : path_env;
  ee_relay : path_env;
  ee_core : core_env;
  ee_IpcSet : option gerror;
}.

(** src/masquecat.go:400-426 [MasqueClient.ensureStartedLocked], the choice of a path *)
Definition choose_path (env : ensure_env) (ci : MasqueConnInfo) (priv : NodePrivate) (insecure : bool) (w : world)
    : result (nat * MasquePathType) * world :=
  let '(directPath, w) :=
    if bool_decide (ci_DirectURL ci = []) then (None, w)
    else
      let '(r, w) := dialPath (ee_direct env) priv insecure (ci_DirectURL ci) (ci_ServerPublic ci) masqueModeDirect w in
      (Some r, w) in
  match directPath with
  | Some (Ok path) => (Ok (path, MasquePathDirect), w)
  | _ =>
      let directErr := match directPath with Some (Err e) => Some e | _ => None end in
      if negb (bool_decide (ci_RelayURL ci = [])) then
        match dialPath (ee_relay env) priv insecure (ci_RelayURL ci) (Public priv) masqueModeRelay w with
        | (Ok path, w) => (Ok (path, MasquePathRelay), w)
        | (Err e, w) =>
            (Err (match directErr with
                  | Some d => ErrJoin [ErrWrap "direct MASQUE: %w" d; ErrWrap "relay MASQUE: %w" e]
                  | None => ErrWrap "relay MASQUE: %w" e
                  end), w)
        end
      else
        (Err (match directErr with
              | Some d => ErrWrap "direct MASQUE: %w" d
              | None => ErrNew "no usable MASQUE path"
              end), w)
  end.

(** src/masquecat.go:358-461 [MasqueClient.ensureStartedLocked] *)
Definition ensureStartedLocked (c : MasqueClient) (env : ensure_env) (w : world)
    : MasqueClient * option gerror * world :=
  if mc_started c then (c, None, w)
  else
    match ParseMasqueConnBlob (mc_Server c) with
    | Err e => (c, Some e, w)
    | Ok ci =>
        let c := client_with_key c (if PrivIsZero (mc_Key c) then ee_newKey env else mc_Key c) in
        let priv := mc_Key c in
        let '(ctx, w) := acquire w in
        let insecureSkipVerify := mc_InsecureSkipVerify c || ci_AutomaticDirect ci in
        match choose_path env ci priv insecureSkipVerify w with
        | (Err e, w) => (c, Some e, release ctx w)
        | (Ok (path, pathType), w) =>
            match open_core priv (CoreOptions false [] None) (ee_core env) w with
            | (Err e, w) => (c, Some e, release path (release ctx w))
            | (Ok (core, res), w) =>
                match SetPath core (ee_IpcSet env) (ci_ServerPublic ci) path with
                | (_, Some e) => (c, Some e, close_core res (release path (release ctx w)))
                | (core, None) =>
                    (MkMasqueClient (mc_Server c) (mc_Key c) (mc_InsecureSkipVerify c) (Some (core, res))
                       (ci_ServerPublic ci) (Some path) (Some pathType) (Some ctx) (Some ctx) true, None, w)
                end
            end
        end
    end.

(** src/masquecat.go:469-476 [MasqueClient.PublicKey] *)
Definition PublicKey (c : MasqueClient) (newKey : NodePrivate) : MasqueClient * NodePublic :=
  let c := client_with_key c (if PrivIsZero (mc_Key c) then newKey else mc_Key c) in
  (c, Public (mc_Key c)).

(** src/masquecat.go:560-566 [MasqueClient.Close], up to the wait *)
Definition close_begin (c : MasqueClient) (w : world) : MasqueClient * world :=
  (MkMasqueClient (mc_Server c) (mc_Key c) (mc_InsecureSkipVerify c) (mc_core c) (mc_serverPublic c) (mc_path c)
     (mc_pathType c) (mc_lifecycleCtx c) None (mc_started c), release_option (mc_cancel c) w).

(** src/masquecat.go:568-581 [MasqueClient.Close], behind the wait *)
Definition close_end (c : MasqueClient) (w : world) : MasqueClient * world :=
  let w := release_option (mc_path c) w in
  let w := match mc_core c with Some (_, res) => close_core res w | None => w end in
  (MkMasqueClient (mc_Server c) (mc_Key c) (mc_InsecureSkipVerify c) None NodePublicZero None None None
     (mc_cancel c) false, w).

(** src/masquecat.go:449-455 [MasqueClient.ensureStartedLocked], a received packet: only
    the server's go into the core *)
Definition client_receive (c : MasqueClient) (core : masqueCore) (ipc : option gerror) (now : Z)
    (choice : select_choice) (src : NodePublic) (payload : list byte) : option (masqueCore * option gerror) :=
  if negb (bool_decide (src = mc_serverPublic c)) then Some (core, None)
  else core_Inject core ipc now choice src payload.
End client.

(** * The client's operations, interleaved

    [Ping], [Dial], [DialTCP], [DialTCPPort] and [DrainTCP] start the client and then
    take its core in a second critical section ([acquireCore]); [Status] only takes it.
    [Close] keeps the mutex while it waits for the operations. *)

(** An operation between its two critical sections, or holding a core and the
    lifecycle its context is bound to. *)
Inductive op_phase : Type := OpEnsured | OpHolding (core : core_res) (ctx : option nat).

Section client_steps.
Context `{K : KeyOps} `{ML : MasqueLib} {T : TokenOps K}.

Record client_world : Type := ClientWorld {
  cw_client : MasqueClient;
  cw_world : world;
  cw_ops : gmap nat op_phase;
  cw_activeOps : Z;
  cw_closing : bool;               (* [Close] holds the mutex and waits *)
}.

(** src/masquecat.go:478-499 [MasqueClient.acquireCore], its second critical section: the
    core and lifecycle the operation gets, if it gets them *)
Definition acquireCore (c : MasqueClient) : result (core_res * nat) :=
  match mc_core c, mc_lifecycleCtx c, mc_started c with
  | Some (_, core), Some ctx, true => Ok (core, ctx)
  | _, _, _ => Err (ErrNew "masquecat: client closed during startup")
  end.

(** src/masquecat.go:501-582 [MasqueClient.Ping], [Dial], [DialTCPPort], [DialTCP], [DrainTCP],
    [Status] and [Close]: one critical section of one of them, with [PublicKey] *)
Inductive client_op_step : client_world -> client_world -> Prop :=
  | co_ensure s op env c err w :
      cw_closing s = false -> cw_ops s !! op = None ->
      ensureStartedLocked (cw_client s) env (cw_world s) = (c, err, w) ->
      client_op_step s (ClientWorld c w
        (match err with None => <[op := OpEnsured]> (cw_ops s) | Some _ => cw_ops s end) (cw_activeOps s) false)
  | co_acquire s op core ctx :
      cw_closing s = false -> cw_ops s !! op = Some OpEnsured -> acquireCore (cw_client s) = Ok (core, ctx) ->
      client_op_step s (ClientWorld (cw_client s) (cw_world s) (<[op := OpHolding core (Some ctx)]> (cw_ops s))
        (cw_activeOps s + 1) false)
  | co_closed s op e :
      cw_closing s = false -> cw_ops s !! op = Some OpEnsured -> acquireCore (cw_client s) = Err e ->
      client_op_step s (ClientWorld (cw_client s) (cw_world s) (delete op (cw_ops s)) (cw_activeOps s) false)
  | co_status s op core res :
      cw_closing s = false -> cw_ops s !! op = None -> mc_core (cw_client s) = Some (core, res) ->
      client_op_step s (ClientWorld (cw_client s) (cw_world s) (<[op := OpHolding res None]> (cw_ops s))
        (cw_activeOps s + 1) false)
  | co_release s op core ctx :
      cw_ops s !! op = Some (OpHolding core ctx) ->
      client_op_step s (ClientWorld (cw_client s) (cw_world s) (delete op (cw_ops s)) (cw_activeOps s - 1) (cw_closing s))
  | co_key s k c pub :
      cw_closing s = false -> PublicKey (cw_client s) k = (c, pub) ->
      client_op_step s (ClientWorld c (cw_world s) (cw_ops s) (cw_activeOps s) false)
  | co_close_begin s c w :
      cw_closing s = false -> close_begin (cw_client s) (cw_world s) = (c, w) ->
      client_op_step s (ClientWorld c w (cw_ops s) (cw_activeOps s) true)
  | co_close_end s c w :
      cw_closing s = true -> cw_activeOps s = 0 -> close_end (cw_client s) (cw_world s) = (c, w) ->
      client_op_step s (ClientWorld c w (cw_ops s) 0 false).
End client_steps.

(** * What a client holds *)

Section client_facts.
Context `{K : KeyOps} `{ML : MasqueLib} {T : TokenOps K}.

Definition core_set (core : option (masqueCore * core_res)) : gset nat :=
  match core with Some (_, res) => held_core res | None => ∅ end.
Definition held_client (c : MasqueClient) : gset nat :=
  option_set (mc_cancel c) ∪ option_set (mc_path c) ∪ core_set (mc_core c).

(** A client that holds nothing; a client that runs. *)
Definition stopped (c : MasqueClient) : Prop :=
  mc_core c = None /\ mc_path c = None /\ mc_pathType c = None /\ mc_lifecycleCtx c = None /\ mc_cancel c = None.
Definition running (c : MasqueClient) : Prop :=
  is_Some (mc_core c) /\ is_Some (mc_path c) /\ is_Some (mc_pathType c) /\ is_Some (mc_lifecycleCtx c) /\ mc_cancel c = mc_lifecycleCtx c.

Lemma dialPath_owns env priv insecure rawURL target mode w0 w l r w' :
  owns w0 w l -> dialPath env priv insecure rawURL target mode w = (r, w') ->
  match r with
  | Ok p => owns w0 w' ({[p]} ∪ l) /\ (p ∉ l) /\ pe_ctx env = None /\ pe_active env = true /\
      exists tmpl conf, masqueTLSClientConfig rawURL insecure = Ok conf /\ pe_dial env target mode tmpl conf = Ok tt
  | Err _ => owns w0 w' l
  end.
Proof.
  intros H Hd. unfold dialPath in Hd. destruct (pe_ctx env); [by injection Hd as <- <-|].
  destruct (newMasquePathWithFallback _ _ _ _ _ w) as [p w1] eqn:Hp.
  apply (owns_path _ _ _ _ _ _ _ _ _ _ H) in Hp. destruct (pe_active env); simpl in Hd.
  - injection Hd as <- <-. destruct p; [|done]. by destruct Hp as (? & ? & ?).
  - assert (owns w0 (match p with Ok p => release p w1 | Err _ => w1 end) l) as Hrel.
    { destruct p as [p|e]; [|done]. destruct Hp as (Ho & Hn & _). pose proof (ow_fresh _ _ _ Ho).
      eapply owns_eq; [apply owns_release; [done|set_solver]|set_solver]. }
    destruct (pe_ctx_after env); [by injection Hd as <- <-|]. destruct p; by injection Hd as <- <-.
Qed.

Lemma choose_path_owns env ci priv insecure w0 w l r w' :
  owns w0 w l -> choose_path env ci priv insecure w = (r, w') ->
  match r with
  | Ok (p, _) => owns w0 w' ({[p]} ∪ l) /\ (p ∉ l)
  | Err _ => owns w0 w' l
  end.
Proof.
  intros H Hc. unfold choose_path in Hc.
  destruct (if bool_decide (ci_DirectURL ci = []) then _ else _) as [d w1] eqn:Hd.
  assert (match d with Some (Ok p) => owns w0 w1 ({[p]} ∪ l) /\ (p ∉ l) | _ => owns w0 w1 l end) as Hd1.
  { clear Hc. case_bool_decide; [by injection Hd as <- <-|].
    destruct (dialPath (ee_direct env) _ _ _ _ _ w) as [x w2] eqn:Hx. injection Hd as <- <-.
    apply (dialPath_owns _ _ _ _ _ _ _ _ _ _ _ H) in Hx. destruct x; naive_solver. }
  assert (forall (o : option gerror), owns w0 w1 l ->
    (if negb (bool_decide (ci_RelayURL ci = [])) then
       match dialPath (ee_relay env) priv insecure (ci_RelayURL ci) (Public priv) masqueModeRelay w1 with
       | (Ok path, w) => (Ok (path, MasquePathRelay), w)
       | (Err e, w) => (Err (match o with Some d => ErrJoin [ErrWrap "direct MASQUE: %w" d; ErrWrap "relay MASQUE: %w" e]
                             | None => ErrWrap "relay MASQUE: %w" e end), w)
       end
     else (Err (match o with Some d => ErrWrap "direct MASQUE: %w" d | None => ErrNew "no usable MASQUE path" end), w1))
    = (r, w') -> match r with Ok (p, _) => owns w0 w' ({[p]} ∪ l) /\ (p ∉ l) | Err _ => owns w0 w' l end) as Hrelay.
  { intros o Ho Hr. destruct (negb _); [|by injection Hr as <- <-].
    destruct (dialPath (ee_relay env) _ _ _ _ _ w1) as [x w2] eqn:Hx.
    apply (dialPath_owns _ _ _ _ _ _ _ _ _ _ _ Ho) in Hx. destruct x; injection Hr as <- <-; [by destruct Hx as (? & ? & _)|done]. }
  destruct d as [[p|e]|].
  - by injection Hc as <- <-.
  - by eapply (Hrelay (Some e)).
  - by eapply (Hrelay None).
Qed.

Lemma ensure_spec c env w0 w c' err w' :
  mc_started c = false -> stopped c -> owns w0 w ∅ -> ensureStartedLocked c env w = (c', err, w') ->
  match err with
  | Some _ => owns w0 w' ∅ /\ stopped c' /\ mc_started c' = false
  | None => owns w0 w' (held_client c') /\ running c' /\ mc_started c' = true /\
      option_set (mc_cancel c') ## option_set (mc_path c') ∪ core_set (mc_core c')
  end.
Proof.
  intros Hs Hst Ho H. unfold ensureStartedLocked in H. rewrite Hs in H.
  destruct (ParseMasqueConnBlob _) as [ci|]; [|by injection H as <- <- <-].
  set (c1 := client_with_key c _) in *. assert (stopped c1 /\ mc_started c1 = false) as [Hst1 Hs1] by done.
  destruct (acquire w) as [ctx w1] eqn:Ha. pose proof (owns_acquire _ _ _ _ _ Ho Ha) as H1.
  destruct (choose_path _ _ _ _ w1) as [[[p pt]|e] w2] eqn:Hc; apply (choose_path_owns _ _ _ _ _ _ _ _ _ H1) in Hc.
  2: { injection H as <- <- <-. split; [|by split]. pose proof (ow_fresh _ _ _ Hc).
       eapply owns_eq; [apply owns_release; [exact Hc|set_solver]|set_solver]. }
  destruct Hc as [Hc Hnp]. pose proof (ow_fresh _ _ _ Hc) as Hf2.
  destruct (open_core _ _ _ w2) as [[[core res]|e] w3] eqn:Hcore; apply (owns_open_core _ _ _ _ _ _ _ _ Hc) in Hcore.
  2: { injection H as <- <- <-. split; [|by split].
       eapply owns_eq; [apply owns_release; [apply owns_release; [exact Hcore|set_solver]|set_solver]|set_solver]. }
  destruct Hcore as (Ho3 & Hnc & _). pose proof (ow_fresh _ _ _ Ho3) as Hf3.
  destruct (SetPath _ _ _ _) as [core1 [e|]]; injection H as <- <- <-.
  - split; [|by split].
    eapply owns_eq; [apply owns_close_core; [apply owns_release; [apply owns_release; [exact Ho3|set_solver]|set_solver]|set_solver]|set_solver].
  - split_and!; try done; simpl.
    + eapply owns_eq; [done|]. unfold held_client. simpl. set_solver.
    + set_solver.
Qed.

(** The number of operations that hold a core. *)
Definition holding (ph : op_phase) : bool := match ph with OpHolding _ _ => true | OpEnsured => false end.
Definition holders (ops : gmap nat op_phase) : gmap nat op_phase := filter (fun x => holding x.2 = true) ops.

Lemma holders_insert ops op ph :
  (forall c x, ops !! op <> Some (OpHolding c x)) ->
  size (holders (<[op := ph]> ops)) = (if holding ph then S (size (holders ops)) else size (holders ops)).
Proof.
  intros Hn. assert (holders ops !! op = None) as Hno.
  { apply map_lookup_filter_None. right. intros x Hx. destruct x as [|c y]; [done|]. by destruct (Hn c y). }
  unfold holders. destruct (holding ph) eqn:E.
  - rewrite map_filter_insert_True by done. by rewrite map_size_insert_None.
  - rewrite map_filter_insert_False by (simpl; congruence). f_equal.
    rewrite map_filter_delete. by rewrite delete_id.
Qed.

Lemma holders_delete ops op ph :
  ops !! op = Some ph ->
  Z.of_nat (size (holders (delete op ops))) = Z.of_nat (size (holders ops)) - (if holding ph then 1 else 0).
Proof.
  intros Hop. unfold holders. rewrite map_filter_delete. destruct (holding ph) eqn:E.
  - assert (holders ops !! op = Some ph) as Hh by (by apply map_lookup_filter_Some_2).
    rewrite map_size_delete_Some by (by eexists). unfold holders in Hh.
    assert (size (filter (fun x => holding x.2 = true) ops) <> 0%nat) as Hz.
    { intros Hz%map_size_empty_inv. by rewrite Hz in Hh. }
    lia.
  - rewrite delete_id; [lia|]. apply map_lookup_filter_None. right. intros x Hx. simpl. congruence.
Qed.
End client_facts.

(** * Properties of the client *)

Section client_properties.
Context `{K : KeyOps} `{ML : MasqueLib} {T : TokenOps K}.

Record wf_cworld (w0 : world) (s : client_world) : Prop := {
  cx_owns : owns w0 (cw_world s) (held_client (cw_client s));
  cx_distinct : option_set (mc_cancel (cw_client s)) ## option_set (mc_path (cw_client s)) ∪ core_set (mc_core (cw_client s));
  cx_stopped : mc_started (cw_client s) = false -> stopped (cw_client s);
  cx_running : mc_started (cw_client s) = true -> is_Some (mc_core (cw_client s)) /\
    is_Some (mc_lifecycleCtx (cw_client s)) /\
    mc_cancel (cw_client s) = if cw_closing s then None else mc_lifecycleCtx (cw_client s);
  cx_cancelled : cw_closing s = true -> forall ctx, mc_lifecycleCtx (cw_client s) = Some ctx -> ctx ∉ w_open (cw_world s);
  cx_ops : forall op core ctx, cw_ops s !! op = Some (OpHolding core ctx) ->
    (exists c, mc_core (cw_client s) = Some (c, core)) /\
    (forall x, ctx = Some x -> mc_lifecycleCtx (cw_client s) = Some x);
  cx_count : cw_activeOps s = Z.of_nat (size (holders (cw_ops s)));
}.

(** A client before its first operation. *)
Definition client0 (server : gostring) (k : NodePrivate) (insecure : bool) (w : world) : client_world :=
  ClientWorld (NewMasqueClient server k insecure) w ∅ 0 false.

Lemma wf_client0 server k insecure w0 :
  (forall i, i ∈ w_open w0 -> (i < w_next w0)%nat) -> wf_cworld w0 (client0 server k insecure w0).
Proof.
  intros H%owns_refl. assert (held_client (cw_client (client0 server k insecure w0)) = ∅) as Hh.
  { unfold held_client. simpl. set_solver. }
  constructor; rewrite ?Hh; done.
Qed.

Lemma close_begin_owns w0 w c c' w' :
  owns w0 w (held_client c) -> option_set (mc_cancel c) ## option_set (mc_path c) ∪ core_set (mc_core c) ->
  close_begin c w = (c', w') -> owns w0 w' (held_client c').
Proof.
  intros H Hd [= <- <-]. pose proof (ow_fresh _ _ _ H) as Hf. unfold held_client in *. simpl.
  eapply owns_eq; [eapply (owns_release_option _ _ _ (mc_cancel c)); [exact H|set_solver]|set_solver].
Qed.

Lemma close_end_owns w0 w c c' w' :
  owns w0 w (held_client c) -> mc_cancel c = None -> close_end c w = (c', w') ->
  owns w0 w' ∅ /\ stopped c' /\ mc_started c' = false.
Proof.
  intros H Hc [= <- <-]. split; [|by split]. pose proof (ow_fresh _ _ _ H) as Hf. unfold held_client in *. rewrite Hc in *.
  apply (owns_release_option _ _ _ (mc_path c)) in H; [|set_solver].
  destruct (mc_core c) as [[core res]|]; simpl in *.
  - eapply owns_eq; [apply owns_close_core; [done|set_solver]|set_solver].
  - eapply owns_eq; [done|set_solver].
Qed.

(** An operation that holds a core keeps the mutex's owner waiting. *)
Lemma holders_positive s w0 op core ctx :
  wf_cworld w0 s -> cw_ops s !! op = Some (OpHolding core ctx) -> 0 < cw_activeOps s.
Proof.
  intros Hwf Hop. rewrite (cx_count _ _ Hwf).
  assert (size (holders (cw_ops s)) <> 0%nat); [|lia]. intros Hz%map_size_empty_inv.
  assert (holders (cw_ops s) !! op = Some (OpHolding core ctx)) as Hh by (by apply map_lookup_filter_Some_2).
  by rewrite Hz in Hh.
Qed.

Lemma wf_cworld_step w0 s s' : wf_cworld w0 s -> client_op_step s s' -> wf_cworld w0 s'.
Proof.
  intros Hwf Hst. pose proof Hwf as [Ho Hd Hs Hr Hc Hops Hn].
  destruct Hst as [s op env c err w Hcl Hop He|s op core ctx Hcl Hop He|s op e Hcl Hop He|s op core res Hcl Hop Hcore
    |s op core ctx Hop|s k c pub Hcl Hp|s c w Hcl He|s c w Hcl Hz He].
  - destruct (mc_started (cw_client s)) eqn:Est.
    + unfold ensureStartedLocked in He. rewrite Est in He. injection He as <- <- <-. rewrite Hcl in *.
      split; simpl; try done; [congruence|by intros _; apply Hr| |].
      * intros op' core ctx [[_ ?]|[_ Hx]]%lookup_insert_Some; [done|by eapply Hops].
      * rewrite holders_insert by congruence. done.
    + apply (ensure_spec _ _ w0) in He; [|done|by apply Hs|].
      2: { eapply owns_eq; [exact Ho|]. destruct (Hs eq_refl) as (Hcn & Hpn & _ & _ & Hkn).
           unfold held_client. rewrite Hcn, Hpn, Hkn. simpl. set_solver. }
      assert (forall op core ctx, cw_ops s !! op <> Some (OpHolding core ctx)) as Hno.
      { intros op' core ctx Hx. destruct (Hops _ _ _ Hx) as [[c0 Hc0] _]. destruct (Hs eq_refl). congruence. }
      destruct err.
      * destruct He as (Hw & Hstop & Hst'). destruct Hstop as (H1 & H2 & H3 & H4 & H5).
        assert (held_client c = ∅) as Hh by (unfold held_client; rewrite H1, H2, H5; simpl; set_solver).
        split; simpl; rewrite ?Hh, ?H1, ?H2, ?H5, ?Hst'; try done. intros op' core ctx Hx. by destruct (Hno op' core ctx).
      * destruct He as (Hw & (H1 & _ & _ & H4 & H5) & Hst' & Hdis). split; simpl; try done; [congruence| |].
        -- intros op' core ctx [[_ ?]|[_ Hx]]%lookup_insert_Some; [done|]. by destruct (Hno op' core ctx).
        -- rewrite holders_insert by (intros; congruence). done.
  - unfold acquireCore in He. destruct (mc_core (cw_client s)) as [[c0 core0]|] eqn:E1; [|done].
    destruct (mc_lifecycleCtx (cw_client s)) as [ctx0|] eqn:E2; [|done].
    destruct (mc_started (cw_client s)) eqn:E3; [|done]. injection He as -> ->. rewrite Hcl in *.
    split; simpl; rewrite ?E1, ?E2, ?E3; try done.
    + intros op' core' ctx' [[_ [= <- <-]]|[_ Hx]]%lookup_insert_Some; [by eauto|]. destruct (Hops _ _ _ Hx) as [? ?]. by split; [congruence|].
    + rewrite holders_insert by congruence. simpl. lia.
  - rewrite Hcl in *. split; simpl; try done.
    + intros op' core ctx [_ Hx]%lookup_delete_Some. by eapply Hops.
    + rewrite (holders_delete _ _ _ Hop). simpl. lia.
  - rewrite Hcl in *. split; simpl; try done.
    + intros op' core' ctx' [[_ [= <- <-]]|[_ Hx]]%lookup_insert_Some; [by split; [eauto|]|by eapply Hops].
    + rewrite holders_insert by congruence. simpl. lia.
  - split; simpl; try done.
    + intros op' core' ctx' [_ Hx]%lookup_delete_Some. by eapply Hops.
    + rewrite (holders_delete _ _ _ Hop). simpl. lia.
  - injection Hp as <- _. rewrite Hcl in *. by split.
  - pose proof (close_begin_owns _ _ _ _ _ Ho Hd He) as Hw. injection He as <- <-. rewrite Hcl in *.
    split; simpl; try done.
    + intros Hx. by destruct (Hs Hx) as (? & ? & ? & ? & ?).
    + intros Hx. by destruct (Hr Hx) as (? & ? & _).
    + intros _ ctx Hx. destruct (mc_started (cw_client s)) eqn:E.
      * destruct (Hr eq_refl) as (_ & _ & ->). rewrite Hx. simpl. clear. set_solver.
      * destruct (Hs eq_refl) as (_ & _ & _ & ? & _). congruence.
  - assert (mc_cancel (cw_client s) = None) as Hcan.
    { destruct (mc_started (cw_client s)) eqn:E; [by destruct (Hr eq_refl) as (_ & _ & ->); rewrite Hcl|by apply Hs]. }
    destruct (close_end_owns _ _ _ _ _ Ho Hcan He) as (Hw & (H1 & H2 & H3 & H4 & H5) & Hst').
    assert (held_client c = ∅) as Hh by (unfold held_client; rewrite H1, H2, H5; simpl; set_solver).
    split; simpl; rewrite ?Hh, ?H1, ?H2, ?H5, ?Hst'; try done.
    + intros op core ctx Hx. pose proof (holders_positive _ _ _ _ _ Hwf Hx). lia.
    + congruence.
Qed.

Lemma wf_cworld_reachable w0 s s' : wf_cworld w0 s -> rtc client_op_step s s' -> wf_cworld w0 s'.
Proof.
  intros H0 Hr. revert H0. induction Hr as [|s1 s2 s3 Hst _ IH]; [done|]. intros H0. apply IH. by eapply wf_cworld_step.
Qed.

(** C25: no operation outlives its core.  However starts, operations, [Status] and closes
    interleave, while an operation holds a core that is the client's core, its stack
    and its device are open, the client cannot finish closing, and once a close began
    the lifecycle that the operation's context is bound to is cancelled. *)
Theorem client_no_use_after_close server k insecure w0 s op core ctx :
  (forall i, i ∈ w_open w0 -> (i < w_next w0)%nat) ->
  rtc client_op_step (client0 server k insecure w0) s ->
  cw_ops s !! op = Some (OpHolding core ctx) ->
  (exists c, mc_core (cw_client s) = Some (c, core)) /\ held_core core ⊆ w_open (cw_world s) /\
  0 < cw_activeOps s /\
  (cw_closing s = true -> forall x, ctx = Some x -> x ∉ w_open (cw_world s)).
Proof.
  intros Hf Hr Hop. pose proof (wf_cworld_reachable _ _ _ (wf_client0 server k insecure _ Hf) Hr) as Hwf.
  destruct (cx_ops _ _ Hwf _ _ _ Hop) as [[c Hc] Hx]. split_and!; [by eexists| | |].
  - rewrite (ow_open _ _ _ (cx_owns _ _ Hwf)). unfold held_client. rewrite Hc. simpl. clear. set_solver.
  - by eapply holders_positive.
  - intros Hcl x ->. by eapply (cx_cancelled _ _ Hwf Hcl), Hx.
Qed.

(** A close that waits can finish: the operations release one after the other. *)
Lemma close_drains n w0 s :
  wf_cworld w0 s -> cw_closing s = true -> size (holders (cw_ops s)) = n ->
  exists s', rtc client_op_step s s' /\ cw_closing s' = false /\ mc_started (cw_client s') = false.
Proof.
  revert s. induction n as [|n IH]; intros s Hwf Hcl Hn.
  - destruct (close_end (cw_client s) (cw_world s)) as [c w] eqn:He.
    exists (ClientWorld c w (cw_ops s) 0 false). split_and!; [|done|by injection He as <- _].
    apply rtc_once. eapply co_close_end; [done| |done]. rewrite (cx_count _ _ Hwf), Hn. done.
  - assert (exists op ph, holders (cw_ops s) !! op = Some ph) as (op & ph & Hop).
    { assert (holders (cw_ops s) <> ∅) as (op & ph & ?)%map_choose by (intros Hz; by rewrite Hz in Hn). eauto. }
    apply map_lookup_filter_Some in Hop as [Hop Hh]. simpl in Hh. destruct ph as [|core ctx]; [done|].
    pose proof (co_release _ _ _ _ Hop) as Hst. pose proof (wf_cworld_step _ _ _ Hwf Hst) as Hwf'.
    destruct (IH _ Hwf') as (s' & Hr & Hs'); [done| |].
    + simpl. pose proof (holders_delete _ _ _ Hop) as Hd. simpl in Hd. lia.
    + exists s'. split; [by eapply rtc_l|done].
Qed.

(** a client leaks nothing and a close ends.  At every point what is open beyond the
    resources of before is exactly what the client holds, which is nothing before a
    start, after a failed start and after a close; and a close that waits can always
    finish, after which nothing is left open. *)
Theorem client_leaks_nothing server k insecure w0 s :
  (forall i, i ∈ w_open w0 -> (i < w_next w0)%nat) ->
  rtc client_op_step (client0 server k insecure w0) s ->
  w_open (cw_world s) = w_open w0 ∪ held_client (cw_client s) /\
  (mc_started (cw_client s) = false -> w_open (cw_world s) = w_open w0) /\
  (cw_closing s = true -> exists s', rtc client_op_step s s' /\ cw_closing s' = false /\
     mc_started (cw_client s') = false /\ w_open (cw_world s') = w_open w0).
Proof.
  intros Hf Hr. pose proof (wf_cworld_reachable _ _ _ (wf_client0 server k insecure _ Hf) Hr) as Hwf.
  assert (forall s, wf_cworld w0 s -> mc_started (cw_client s) = false -> w_open (cw_world s) = w_open w0) as Hnone.
  { intros s1 H1 Hs1. rewrite (ow_open _ _ _ (cx_owns _ _ H1)).
    destruct (cx_stopped _ _ H1 Hs1) as (Hc & Hp & _ & _ & Hk). unfold held_client. rewrite Hc, Hp, Hk. simpl.
    clear. set_solver. }
  split_and!; [apply (cx_owns _ _ Hwf)|by apply Hnone|].
  intros Hcl. destruct (close_drains _ _ _ Hwf Hcl eq_refl) as (s' & Hr' & ? & ?). exists s'. split_and!; try done.
  apply Hnone; [by eapply wf_cworld_reachable|done].
Qed.

(** Whether a TLS configuration authenticates the server: through the PKI or a pin. *)
Definition verified (conf : tlsConfig) : bool := negb (tls_InsecureSkipVerify conf) || bool_decide (is_Some (tls_pin conf)).

(** An outside that refuses to dial without authentication. *)
Definition only_verified (env : path_env) : path_env :=
  PathEnv (pe_ctx env)
    (fun target mode tmpl conf => if verified conf then pe_dial env target mode tmpl conf else Err (ErrExt 0))
    (pe_active env) (pe_ctx_after env).
Definition only_verified_env (env : ensure_env) : ensure_env :=
  EnsureEnv (ee_newKey env) (only_verified (ee_direct env)) (only_verified (ee_relay env)) (ee_core env) (ee_IpcSet env).

Lemma dialPath_verified env priv insecure rawURL target mode w :
  (forall conf, masqueTLSClientConfig rawURL insecure = Ok conf -> verified conf = true) ->
  dialPath (only_verified env) priv insecure rawURL target mode w = dialPath env priv insecure rawURL target mode w.
Proof.
  intros Hv. unfold dialPath. simpl. destruct (pe_ctx env); [done|].
  assert (newMasquePathWithFallback (pe_dial (only_verified env) target mode) rawURL target priv insecure w
          = newMasquePathWithFallback (pe_dial env target mode) rawURL target priv insecure w) as Heq.
  { unfold newMasquePathWithFallback. simpl. destruct (PrivIsZero priv), (IsZero target); try done.
    destruct (masqueTemplateFor rawURL); [|done]. destruct (masqueTLSClientConfig rawURL insecure) eqn:Hc; [|done].
    by rewrite (Hv _ eq_refl). }
  simpl in Heq. by rewrite Heq.
Qed.

Lemma config_verified ci rawURL insecure conf :
  valid_info ci -> masqueTLSClientConfig rawURL (insecure || ci_AutomaticDirect ci) = Ok conf ->
  insecure = false -> (ci_AutomaticDirect ci = true -> rawURL = ci_DirectURL ci) -> verified conf = true.
Proof.
  intros Hv Hc -> Ha. unfold masqueTLSClientConfig in Hc. destruct (Url.Parse rawURL) as [u|]; [|done].
  destruct (bool_decide _ && _); [|done]. simpl in Hc.
  destruct (masqueTLSCertPinFromURL rawURL) as [[pin|]|] eqn:Hp; [|injection Hc as <-|done].
  - injection Hc as <-. done.
  - unfold verified. simpl. destruct (ci_AutomaticDirect ci) eqn:E; [|done].
    destruct (vi_automatic _ Hv E) as (_ & _ & pin & Hpin & _). rewrite Ha in Hp by done. congruence.
Qed.

(** C24: no unauthenticated connection behind the user's back.  Unless the user asked for
    it, a start behaves exactly as if every dial without PKI verification or a
    certificate pin were refused: it never makes one, for no token, even though the
    automatic-direct marker turns ordinary verification off. *)
Theorem client_never_dials_unverified c env w :
  mc_InsecureSkipVerify c = false ->
  ensureStartedLocked c env w = ensureStartedLocked c (only_verified_env env) w.
Proof.
  intros Hi. unfold ensureStartedLocked. destruct (mc_started c); [done|].
  destruct (ParseMasqueConnBlob (mc_Server c)) as [ci|] eqn:Hp; [|done]. apply parsed_token_is_valid in Hp.
  cbn [client_with_key mc_InsecureSkipVerify ee_newKey only_verified_env]. rewrite Hi.
  destruct (acquire w) as [ctx w1].
  set (priv := mc_Key _).
  assert (choose_path (only_verified_env env) ci priv (false || ci_AutomaticDirect ci) w1
          = choose_path env ci priv (false || ci_AutomaticDirect ci) w1) as Heq; [|by rewrite Heq].
  unfold choose_path. cbn [only_verified_env ee_direct ee_relay].
  rewrite dialPath_verified by (intros conf Hc; by eapply config_verified).
  destruct (if bool_decide (ci_DirectURL ci = []) then _ else _) as [d w2].
  destruct (negb (bool_decide (ci_RelayURL ci = []))) eqn:Er; [|done].
  rewrite dialPath_verified; [done|]. intros conf Hc. eapply config_verified; [done..|].
  intros Ha. destruct (vi_automatic _ Hp Ha) as (Hr & _). by rewrite bool_decide_eq_true_2 in Er.
Qed.
End client_properties.

(** * The chosen path *)

Section path_choice.
Context `{K : KeyOps} `{ML : MasqueLib} {T : TokenOps K}.

(** A dial that succeeded while its operation was active. *)
Definition dialled (env : path_env) (insecure : bool) (rawURL : gostring) (target : NodePublic) (mode : gostring) : Prop :=
  pe_ctx env = None /\ pe_active env = true /\
  exists tmpl conf, masqueTLSClientConfig rawURL insecure = Ok conf /\ pe_dial env target mode tmpl conf = Ok tt.

Lemma dialPath_dialled env priv insecure rawURL target mode w p w' :
  dialPath env priv insecure rawURL target mode w = (Ok p, w') -> dialled env insecure rawURL target mode.
Proof.
  unfold dialPath, dialled, newMasquePathWithFallback. intros H. destruct (pe_ctx env); [done|].
  destruct (PrivIsZero priv); [by destruct (pe_active env), (pe_ctx_after env)|].
  destruct (IsZero target); [by destruct (pe_active env), (pe_ctx_after env)|].
  destruct (masqueTemplateFor rawURL) as [tmpl|]; [|by destruct (pe_active env), (pe_ctx_after env)].
  destruct (masqueTLSClientConfig rawURL insecure) as [conf|]; [|by destruct (pe_active env), (pe_ctx_after env)].
  destruct (pe_dial env target mode tmpl conf) as [[]|] eqn:Hd; [|by destruct (pe_active env), (pe_ctx_after env)].
  destruct (acquire w), (pe_active env); [split_and!; eauto|]. by destruct (pe_ctx_after env).
Qed.

Lemma choose_path_spec env ci priv insecure w p pt w' :
  choose_path env ci priv insecure w = (Ok (p, pt), w') ->
  match pt with
  | MasquePathDirect => ci_DirectURL ci <> [] /\
      dialled (ee_direct env) insecure (ci_DirectURL ci) (ci_ServerPublic ci) masqueModeDirect
  | MasquePathRelay => ci_RelayURL ci <> [] /\
      dialled (ee_relay env) insecure (ci_RelayURL ci) (Public priv) masqueModeRelay /\
      (ci_DirectURL ci = [] \/ exists e,
         (dialPath (ee_direct env) priv insecure (ci_DirectURL ci) (ci_ServerPublic ci) masqueModeDirect w).1 = Err e)
  end.
Proof.
  unfold choose_path. intros H.
  destruct (if bool_decide (ci_DirectURL ci = []) then _ else _) as [d w1] eqn:Hd.
  assert (match d with
          | Some r => ci_DirectURL ci <> [] /\
              dialPath (ee_direct env) priv insecure (ci_DirectURL ci) (ci_ServerPublic ci) masqueModeDirect w = (r, w1)
          | None => ci_DirectURL ci = []
          end) as Hd1.
  { clear H. case_bool_decide; [by injection Hd as <- <-|].
    destruct (dialPath (ee_direct env) _ _ _ _ _ w) as [x w2]. by injection Hd as <- <-. }
  destruct d as [[p0|e]|].
  - injection H as <- <- <-. destruct Hd1 as [Hu Hd1]. split; [done|]. by eapply dialPath_dialled.
  - destruct (negb _) eqn:Er; [|done]. bool_to_prop.
    destruct (dialPath (ee_relay env) _ _ _ _ _ w1) as [[p1|e1] w2] eqn:Hr; [|done]. injection H as <- <- <-.
    split_and!; [done|by eapply dialPath_dialled|]. right. exists e. by destruct Hd1 as [_ ->].
  - destruct (negb _) eqn:Er; [|done]. bool_to_prop.
    destruct (dialPath (ee_relay env) _ _ _ _ _ w1) as [[p1|e1] w2] eqn:Hr; [|done]. injection H as <- <- <-.
    split_and!; [done|by eapply dialPath_dialled|by left].
Qed.

(** what a successful start set up.  The path is the direct one when its dial, to the
    server's key in direct mode, succeeded while the caller still waited; it is the
    relay's, dialled to the client's own key in relay mode, only when there was no
    direct endpoint or its dial failed.  The core's only peer is the server, on that
    path; only packets that name the server as their source reach it. *)
Theorem client_start_outcome c env w c' w' :
  mc_started c = false -> ensureStartedLocked c env w = (c', None, w') ->
  exists ci core res path, ParseMasqueConnBlob (mc_Server c) = Ok ci /\ mc_serverPublic c' = ci_ServerPublic ci /\
    mc_core c' = Some (core, res) /\ mc_path c' = Some path /\
    c_peers core = {[ ci_ServerPublic ci := tt ]} /\ c_pub core = Public (mc_Key c') /\
    (let insecure := mc_InsecureSkipVerify c || ci_AutomaticDirect ci in
     (mc_pathType c' = Some MasquePathDirect /\ ci_DirectURL ci <> [] /\
        dialled (ee_direct env) insecure (ci_DirectURL ci) (ci_ServerPublic ci) masqueModeDirect) \/
     (mc_pathType c' = Some MasquePathRelay /\ ci_RelayURL ci <> [] /\
        dialled (ee_relay env) insecure (ci_RelayURL ci) (Public (mc_Key c')) masqueModeRelay /\
        (ci_DirectURL ci = [] \/ exists e w1,
           (dialPath (ee_direct env) (mc_Key c') insecure (ci_DirectURL ci) (ci_ServerPublic ci) masqueModeDirect w1).1 = Err e))) /\
    (forall ipc now choice src payload, src <> ci_ServerPublic ci ->
       client_receive c' core ipc now choice src payload = Some (core, None)).
Proof.
  intros Hs H. unfold ensureStartedLocked in H. rewrite Hs in H.
  destruct (ParseMasqueConnBlob (mc_Server c)) as [ci|] eqn:Hp; [|done].
  set (c1 := client_with_key c _) in *. destruct (acquire w) as [ctx w1].
  destruct (choose_path _ _ _ _ w1) as [[[p pt]|e] w2] eqn:Hc; [|done]. apply choose_path_spec in Hc.
  destruct (open_core _ _ _ w2) as [[[core res]|e] w3] eqn:Hcore; [|done].
  assert (newMasqueCore (mc_Key c1) (CoreOptions false [] None) None = Ok core) as Hnew.
  { unfold open_core in Hcore. destruct (PrivIsZero (mc_Key c1)); [by injection Hcore|]. destruct (acquire w2) as [st w4].
    destruct (setup_stack _ _); [done|]. destruct (acquire w4) as [wg w5]. destruct (setup_device _); [done|].
    destruct (newMasqueCore (mc_Key c1) _ None); [by injection Hcore as <- _ _|done]. }
  destruct (SetPath _ _ _ _) as [core1 [e|]] eqn:Hset; [done|]. injection H as <- <-.
  unfold newMasqueCore in Hnew. destruct (negb (PrivIsZero (mc_Key c1))); [|done]. injection Hnew as <-.
  assert (c_peers core1 = {[ ci_ServerPublic ci := tt ]} /\ c_pub core1 = Public (mc_Key c1)) as [Hpeers Hpub].
  { unfold SetPath in Hset. destruct (IsZero _); [done|]. unfold addPeerLocked, peerAllowed in Hset. simpl in Hset.
    rewrite lookup_empty in Hset. simpl in Hset. destruct (ee_IpcSet env); [done|]. by injection Hset as <-. }
  exists ci, core1, res, p. split_and!; try done.
  - destruct pt; simpl; [left|right]; [by destruct Hc|]. destruct Hc as (? & ? & Hd). split_and!; try done.
    destruct Hd as [|[e He]]; [by left|right]. by exists e, w1.
  - intros ipc now choice src payload Hne. unfold client_receive. simpl. by rewrite bool_decide_eq_false_2.
Qed.
End path_choice.

(** * Witnesses *)

Import ToyKeys ToyToken.

(** The caller gives up and the finish finds its function started: the dial is dropped. *)
Lemma dial_handover_witness :
  dc_dial (DialContext false true true Ran (Some (true, false))) = true /\
  dc_dial (DialContext false true false Stopped (Some (true, true))) = false.
Proof.
  split.
  - apply (dial_handover false false (DialContext false true true Ran (Some (true, false)))).
    eapply rtc_l; [apply dc_cancel_operation|]. eapply rtc_l; [by apply (dc_finish _ true)|].
    eapply rtc_l; [apply dc_run|]. apply rtc_refl.
  - apply (dial_handover false false (DialContext false true false Stopped (Some (true, true)))).
    eapply rtc_l; [by apply (dc_finish _ true)|]. eapply rtc_l; [apply dc_cancel_operation|]. apply rtc_refl.
Defined.

(** A direct dial that succeeds; no relay. *)
Definition sample_path_env : path_env (K := toy) (ML := toy_lib) :=
  PathEnv (K := toy) (ML := toy_lib) None (fun _ _ _ _ => Ok tt) true None.
Definition sample_ensure : ensure_env (K := toy) (ML := toy_lib) :=
  EnsureEnv (K := toy) (ML := toy_lib) (nkey 8) sample_path_env sample_path_env no_core_error None.
Definition sample_client : MasqueClient (K := toy) := NewMasqueClient (K := toy) sample_blob (nkey 0) false.
Definition sample_started : MasqueClient (K := toy) * option gerror * world :=
  ensureStartedLocked (K := toy) (ML := toy_lib) (T := toy_token) sample_client sample_ensure world3.

Lemma sample_started_ok : exists c w, sample_started = (c, None, w) /\ mc_pathType c = Some MasquePathDirect.
Proof.
  assert (match sample_started with (c, None, w) => bool_decide (mc_pathType c = Some MasquePathDirect) | _ => false end = true)
    as H by vm_reflexivity.
  destruct sample_started as [[c [e|]] w]; [done|]. exists c, w. split; [done|]. by apply bool_decide_eq_true in H.
Qed.

(** An operation that holds the core of the started client while a close waits. *)
Lemma sample_closing :
  exists s core ctx,
    rtc (client_op_step (K := toy) (ML := toy_lib) (T := toy_token))
      (client0 (K := toy) sample_blob (nkey 0) false world3) s /\
    cw_ops s !! 0%nat = Some (OpHolding core (Some ctx)) /\ cw_closing s = true.
Proof.
  destruct sample_started_ok as (c & w & Hs & _).
  assert (stopped sample_client) as Hstop by by split_and!.
  pose proof (ensure_spec (K := toy) (ML := toy_lib) (T := toy_token) sample_client sample_ensure world3 world3 c None w
    eq_refl Hstop (owns_refl _ world3_fresh) Hs) as (_ & ([[core res] Hc] & _ & _ & [ctx Hx] & _) & Hst & _).
  eexists _, res, ctx. split.
  - eapply rtc_l; [eapply (co_ensure _ 0 sample_ensure); [done|done|exact Hs]|].
    eapply rtc_l; [eapply (co_acquire _ 0 res ctx); [done|apply lookup_insert_eq|]|].
    { unfold acquireCore. simpl. by rewrite Hc, Hx, Hst. }
    eapply rtc_l; [eapply co_close_begin; [done|reflexivity]|]. apply rtc_refl.
  - simpl. split; [apply lookup_insert_eq|done].
Qed.

Lemma client_no_use_after_close_witness :
  exists s core ctx, cw_closing s = true /\ cw_ops (K := toy) s !! 0%nat = Some (OpHolding core (Some ctx)) /\
    (held_core core ⊆ w_open (cw_world s)) /\ ctx ∉ w_open (cw_world s).
Proof.
  destruct sample_closing as (s & core & ctx & Hr & Hop & Hc). exists s, core, ctx.
  destruct (client_no_use_after_close (K := toy) (ML := toy_lib) (T := toy_token) sample_blob (nkey 0) false world3
    s 0 core (Some ctx) world3_fresh Hr Hop) as (_ & H1 & _ & H2).
  split_and!; [done|done|done|by apply H2].
Defined.

Lemma client_leaks_nothing_witness :
  exists s, rtc (client_op_step (K := toy) (ML := toy_lib) (T := toy_token))
      (client0 (K := toy) sample_blob (nkey 0) false world3) s /\
    mc_started (cw_client s) = false /\ w_open (cw_world s) = {[1%nat]}.
Proof.
  destruct sample_closing as (s & core & ctx & Hr & Hop & Hc).
  destruct (client_leaks_nothing (K := toy) (ML := toy_lib) (T := toy_token) sample_blob (nkey 0) false world3
    s world3_fresh Hr) as (_ & _ & H). destruct (H Hc) as (s' & Hr' & _ & ? & ?).
  exists s'. split_and!; [by etrans|done|done].
Defined.

Lemma client_never_dials_unverified_witness :
  ensureStartedLocked (K := toy) (ML := toy_lib) (T := toy_token) sample_client sample_ensure world3
  = ensureStartedLocked (K := toy) (ML := toy_lib) (T := toy_token) sample_client (only_verified_env sample_ensure) world3.
Proof. apply client_never_dials_unverified. reflexivity. Defined.

Lemma client_start_outcome_witness :
  exists c w core res, sample_started = (c, None, w) /\ mc_core c = Some (core, res) /\
    mc_serverPublic c = nkey 1 /\ c_peers core = {[ nkey 1 := tt ]}.
Proof.
  destruct sample_started_ok as (c & w & Hs & _).
  destruct (client_start_outcome (K := toy) (ML := toy_lib) (T := toy_token) sample_client sample_ensure world3 c w)
    as (ci & core & res & path & Hp & Hk & Hc & _ & Hpeers & _); [done|exact Hs|].
  assert (Ok ci = Ok (with_version sample_info)) as [= ->] by (rewrite <- Hp; exact sample_blob_parses).
  exists c, w, core, res. split_and!; [done|done|exact Hk|exact Hpeers].
Defined.
