(* ===== verification/Files.v ===== *)
(** Files: the rooted SFTP file service.

    Models src/tailcat_sftp.go and src/tailcat_files.go: the access modes and the
    request handlers [rootedFiles].  [os.Root] is the operating system's: a handler
    is given the answers to its calls and yields the calls it made with its reply, so
    a property of the calls holds on any file system. *)

From S2P Require Import Prelude GoStd Filepath.
From Stdlib Require Import Strings.Byte.

(** * Paths *)

(** src/tailcat_sftp.go:115-121 [rel] *)
Definition rel (requestPath : gostring) : gostring :=
  let p := Strings.TrimPrefix (Path.Clean requestPath) [Path.slash] in
  if bool_decide (p = []) then Path.dot else p.

(** * Requests and calls *)

(** src/tailcat_files.go:13-28 [FileServeMode] *)
Inductive FileServeMode : Type := FileServeRO | FileServeRW | FileServeWO.
#[global] Instance FileServeMode_eq_dec : EqDecision FileServeMode.
Proof. solve_decision. Defined.

(** The open flags and attribute flags of an SFTP request. *)
Record pflags : Type := PFlags {
  pf_Read : bool; pf_Write : bool; pf_Append : bool; pf_Creat : bool; pf_Trunc : bool; pf_Excl : bool }.
Record attrs : Type := Attrs {
  at_Permissions : option Z; at_Acmodtime : option (Z * Z); at_Size : option Z }.

(** An [sftp.Request]. *)
Record sftp_request : Type := SftpRequest {
  sr_Method : gostring;
  sr_Filepath : gostring;
  sr_Target : gostring;
  sr_Pflags : pflags;
  sr_Attrs : attrs;
}.

(** The flags of [os.OpenFile]. *)
Inductive access : Type := O_WRONLY | O_RDWR.
Record open_flags : Type := OpenFlags {
  of_access : access; of_append : bool; of_create : bool; of_trunc : bool; of_excl : bool }.

(** A call of the [os.Root], or of a file it opened. *)
Inductive root_call : Type :=
  | CallOpen (p : gostring)
  | CallReaddir (p : gostring)
  | CallOpenFile (p : gostring) (flags : open_flags) (perm : Z)
  | CallTruncate (p : gostring) (size : Z)
  | CallMkdir (p : gostring) (perm : Z)
  | CallRename (p target : gostring)
  | CallRemove (p : gostring)
  | CallLink (p target : gostring)
  | CallSymlink (p target : gostring)
  | CallChmod (p : gostring) (mode : Z)
  | CallChtimes (p : gostring) (atime mtime : Z)
  | CallStat (lstat : bool) (p : gostring)
  | CallReadlink (p : gostring).

(** An [os.FileInfo] as far as it is looked at: whether it is a directory, and the rest. *)
Record file_info : Type := FileInfo { fi_IsDir : bool; fi_rest : list byte }.

(** The answers to the calls of one request. *)
Record answers : Type := Answers {
  an_err : root_call -> option gerror;
  an_stat : bool -> gostring -> result file_info;
  an_readdir : gostring -> list file_info;
  an_readlink : gostring -> gostring;
}.

(** What a handler replies. *)
Inductive reply : Type :=
  | RepErr (e : gerror)
  | RepOk
  | RepReader (p : gostring)
  | RepWriter (p : gostring) (flags : open_flags)
  | RepInfos (l : list file_info)
  | RepLink (target : gostring).

(** * The handlers *)

(** src/tailcat_sftp.go:105-111 [rootedFiles] *)
Record rootedFiles : Type := RootedFiles { rf_mode : FileServeMode; rf_wrote : gset gostring }.

(** src/tailcat_sftp.go:125-132 [rootedFiles.markOwn] *)
Definition markOwn (h : rootedFiles) (p : gostring) : rootedFiles := RootedFiles (rf_mode h) ({[p]} ∪ rf_wrote h).
(** src/tailcat_sftp.go:136-140 [rootedFiles.isOwn] *)
Definition isOwn (h : rootedFiles) (p : gostring) : bool := bool_decide (p ∈ rf_wrote h).

(** The state, the calls in order and the reply. *)
Definition outcome : Type := rootedFiles * list root_call * reply.
Definition denied (h : rootedFiles) : outcome := (h, [], RepErr SFTPErrPermissionDenied).
(** One call whose error is the reply. *)
Definition just (h : rootedFiles) (an : answers) (c : root_call) : outcome :=
  (h, [c], match an_err an c with Some e => RepErr e | None => RepOk end).

(** src/tailcat_sftp.go:143-148 [rootedFiles.Fileread] *)
Definition Fileread (h : rootedFiles) (an : answers) (r : sftp_request) : outcome :=
  if bool_decide (rf_mode h = FileServeWO) then denied h
  else
    let p := rel (sr_Filepath r) in
    (h, [CallOpen p], match an_err an (CallOpen p) with Some e => RepErr e | None => RepReader p end).

(** src/tailcat_sftp.go:156-175 [rootedFiles.Filewrite], the flags *)
Definition write_flags (pf : pflags) : open_flags :=
  OpenFlags (if pf_Read pf && pf_Write pf then O_RDWR else O_WRONLY) (pf_Append pf) (pf_Creat pf) (pf_Trunc pf) (pf_Excl pf).

(** src/tailcat_sftp.go:152-185 [rootedFiles.Filewrite] *)
Definition Filewrite (h : rootedFiles) (an : answers) (r : sftp_request) : outcome :=
  if bool_decide (rf_mode h = FileServeRO) then denied h
  else if pf_Read (sr_Pflags r) && bool_decide (rf_mode h = FileServeWO) then denied h
  else
    let flags := write_flags (sr_Pflags r) in
    let p := rel (sr_Filepath r) in
    let c := CallOpenFile p flags 420 (* 0644 *) in
    match an_err an c with
    | Some e => (h, [c], RepErr e)
    | None => (if bool_decide (rf_mode h = FileServeWO) then markOwn h p else h, [c], RepWriter p flags)
    end.

(** Calls in order until one fails. *)
Fixpoint calls_until (an : answers) (cs : list root_call) : list root_call * option gerror :=
  match cs with
  | [] => ([], None)
  | c :: cs =>
      match an_err an c with
      | Some e => ([c], Some e)
      | None => let '(l, e) := calls_until an cs in (c :: l, e)
      end
  end.

(** src/tailcat_sftp.go:234-263 [rootedFiles.setstat] *)
Definition setstat (h : rootedFiles) (an : answers) (r : sftp_request) (p : gostring) : outcome :=
  let a := sr_Attrs r in
  let cs :=
    match at_Permissions a with Some mode => [CallChmod p (Z.land mode 511 (* 0777 *))] | None => [] end ++
    match at_Acmodtime a with Some (atime, mtime) => [CallChtimes p atime mtime] | None => [] end ++
    match at_Size a with
    | Some size => [CallOpenFile p (OpenFlags O_WRONLY false false false false) 0; CallTruncate p size]
    | None => []
    end in
  let '(l, e) := calls_until an cs in
  (h, l, match e with Some e => RepErr e | None => RepOk end).

(** src/tailcat_sftp.go:189-231 [rootedFiles.Filecmd] *)
Definition Filecmd (h : rootedFiles) (an : answers) (r : sftp_request) : outcome :=
  let p := rel (sr_Filepath r) in
  let method (m : string) := bool_decide (sr_Method r = B m) in
  match rf_mode h with
  | FileServeRO => denied h
  | FileServeWO =>
      if method "Mkdir" then
        match an_err an (CallMkdir p 493) with
        | Some e => (h, [CallMkdir p 493], RepErr e)
        | None => (markOwn h p, [CallMkdir p 493], RepOk)
        end
      else if method "Setstat" then if negb (isOwn h p) then denied h else setstat h an r p
      else denied h
  | FileServeRW =>
      if method "Setstat" then setstat h an r p
      else if method "Rename" then just h an (CallRename p (rel (sr_Target r)))
      else if method "Rmdir" || method "Remove" then just h an (CallRemove p)
      else if method "Mkdir" then just h an (CallMkdir p 493)
      else if method "Link" then just h an (CallLink p (rel (sr_Target r)))
      else if method "Symlink" then just h an (CallSymlink p (rel (sr_Target r)))
      else (h, [], RepErr SFTPErrOpUnsupported)
  end.

(** src/tailcat_sftp.go:316-325 [rootedFiles.stat] *)
Definition stat (h : rootedFiles) (an : answers) (lstat : bool) (p : gostring) : result file_info :=
  let res := an_stat an lstat p in
  if negb (bool_decide (rf_mode h = FileServeWO)) || isOwn h p then res
  else
    match res with
    | Ok fi => if fi_IsDir fi then Ok fi else Err SFTPErrNoSuchFile
    | Err _ => Err SFTPErrNoSuchFile
    end.
Definition stat_reply (h : rootedFiles) (an : answers) (lstat : bool) (p : gostring) : outcome :=
  (h, [CallStat lstat p], match stat h an lstat p with Ok fi => RepInfos [fi] | Err e => RepErr e end).

(** src/tailcat_sftp.go:267-292 [rootedFiles.Filelist] *)
Definition Filelist (h : rootedFiles) (an : answers) (r : sftp_request) : outcome :=
  let p := rel (sr_Filepath r) in
  if bool_decide (sr_Method r = B "List") then
    if bool_decide (rf_mode h = FileServeWO) then denied h
    else
      let '(l, e) := calls_until an [CallOpen p; CallReaddir p] in
      (h, l, match e with Some e => RepErr e | None => RepInfos (an_readdir an p) end)
  else if bool_decide (sr_Method r = B "Stat") then stat_reply h an false p
  else (h, [], RepErr SFTPErrOpUnsupported).

(** src/tailcat_sftp.go:295-301 [rootedFiles.Lstat] *)
Definition Lstat (h : rootedFiles) (an : answers) (r : sftp_request) : outcome :=
  stat_reply h an true (rel (sr_Filepath r)).

(** src/tailcat_sftp.go:304-309 [rootedFiles.Readlink] *)
Definition Readlink (h : rootedFiles) (an : answers) (requestPath : gostring) : outcome :=
  if bool_decide (rf_mode h = FileServeWO) then denied h
  else
    let c := CallReadlink (rel requestPath) in
    (h, [c], match an_err an c with Some e => RepErr e | None => RepLink (an_readlink an (rel requestPath)) end).

(** src/tailcat_sftp.go:330-339 [listerAt.ListAt]: what is copied into a buffer of [n]
    entries from offset [off], and whether the end was reached. *)
Definition ListAt (l : list file_info) (n : nat) (off : Z) : list file_info * bool :=
  if zlen l <=? off then ([], true)
  else
    let got := take n (drop (Z.to_nat off) l) in
    (got, (length got <? n)%nat).

(** A request as the SFTP server dispatches it. *)
Inductive sftp_op : Type :=
  | OpRead (r : sftp_request)
  | OpWrite (r : sftp_request)
  | OpCmd (r : sftp_request)
  | OpList (r : sftp_request)
  | OpLstat (r : sftp_request)
  | OpReadlink (p : gostring).

Definition files_exec (h : rootedFiles) (an : answers) (op : sftp_op) : outcome :=
  match op with
  | OpRead r => Fileread h an r
  | OpWrite r => Filewrite h an r
  | OpCmd r => Filecmd h an r
  | OpList r => Filelist h an r
  | OpLstat r => Lstat h an r
  | OpReadlink p => Readlink h an p
  end.

(** src/tailcat_sftp.go:87-100 [newRootedSFTPServer], the handlers of a new session *)
Definition newRootedFiles (mode : FileServeMode) : rootedFiles := RootedFiles mode ∅.

(** A session: its requests with the answers to their calls; the calls and replies. *)
Fixpoint session (h : rootedFiles) (ops : list (sftp_op * answers)) : rootedFiles * list root_call * list reply :=
  match ops with
  | [] => (h, [], [])
  | (op, an) :: ops =>
      let '(h, cs, rep) := files_exec h an op in
      let '(h, cs', reps) := session h ops in
      (h, cs ++ cs', rep :: reps)
  end.

(** * The subsystem *)

(** What a session's handler does with the channel. *)
Inductive session_event : Type := SessExit (code : Z) | SessServe | SessCloseServer | SessCloseRoot.

(** src/tailcat_sftp.go:30-70 [Server.sftpSubsystemHandler]: [None] when nothing is
    registered; [open] tells whether the server could be made, [served] is what [Serve]
    returned. *)
Definition sftpSubsystemHandler (has_files shell : bool) (open : option gerror) (served : option gerror)
    : option (list session_event) :=
  if negb has_files && negb shell then None
  else
    match open with
    | Some _ => Some [SessExit 1]
    | None =>
        let err := match served with Some e => if errors_is is_eof e then None else Some e | None => None end in
        Some ([SessServe; SessExit (match err with Some _ => 1 | None => 0 end); SessCloseServer] ++
              (if has_files then [SessCloseRoot] else []))
    end.

(** * Properties *)

Section policy.

(** What cannot change anything. *)
Definition read_only_call (c : root_call) : bool :=
  match c with CallOpen _ | CallReaddir _ | CallStat _ _ | CallReadlink _ => true | _ => false end.

Definition call_path (c : root_call) : gostring :=
  match c with
  | CallOpen p | CallReaddir p | CallOpenFile p _ _ | CallTruncate p _ | CallMkdir p _ | CallRename p _ | CallRemove p
  | CallLink p _ | CallSymlink p _ | CallChmod p _ | CallChtimes p _ _ | CallStat _ p | CallReadlink p => p
  end.

(** What a drop box may call: write-only opens, new directories, lookups, and
    adjustments of the paths in [own]. *)
Definition drop_box_call (own : gset gostring) (c : root_call) : Prop :=
  match c with
  | CallOpenFile _ flags _ => of_access flags = O_WRONLY
  | CallMkdir _ _ | CallStat _ _ => True
  | CallTruncate p _ | CallChmod p _ | CallChtimes p _ _ => p ∈ own
  | _ => False
  end.

(** What a drop box may say: no listing, no file contents, no link; an information only
    on a directory or on a path in [own]. *)
Definition drop_box_reply (an : answers) (own : gset gostring) (rep : reply) : Prop :=
  match rep with
  | RepErr _ | RepOk => True
  | RepWriter p flags => of_access flags = O_WRONLY
  | RepInfos l => exists fi lstat p, l = [fi] /\ an_stat an lstat p = Ok fi /\ (fi_IsDir fi = true \/ p ∈ own)
  | _ => False
  end.

Lemma calls_until_incl an cs l e : calls_until an cs = (l, e) -> l ⊆ cs.
Proof.
  revert l e. induction cs as [|c cs IH]; intros l e; simpl; [by intros [= <- _]|].
  destruct (an_err an c); [intros [= <- _]; set_solver|].
  destruct (calls_until an cs) as [l1 e1]. intros [= <- _]. specialize (IH _ _ eq_refl). set_solver.
Qed.

Lemma setstat_calls h an r p h' l rep own :
  setstat h an r p = (h', l, rep) -> p ∈ own -> Forall (drop_box_call own) l /\ h' = h /\ (rep = RepOk \/ exists e, rep = RepErr e).
Proof.
  unfold setstat. set (cs := _ ++ _). intros H Hp. destruct (calls_until an cs) as [l1 e] eqn:Hc.
  injection H as <- <- <-. split_and!; [|done|destruct e; eauto].
  apply calls_until_incl in Hc. apply Forall_forall. intros c Hin%Hc. unfold cs in Hin.
  destruct (at_Permissions _), (at_Acmodtime _) as [[? ?]|], (at_Size _); set_unfold in Hin;
    repeat (destruct Hin as [Hin|Hin]); subst; done.
Qed.

Lemma exec_mode h an op h' l rep : files_exec h an op = (h', l, rep) -> rf_mode h' = rf_mode h.
Proof.
  destruct op as [r|r|r|r|r|p]; simpl; unfold Fileread, Filewrite, Filecmd, Filelist, Lstat, Readlink, denied, just, stat_reply, setstat;
    intros H; repeat (case_match; simplify_eq/=; try done).
Qed.

Lemma read_only_exec h an op h' l rep :
  rf_mode h = FileServeRO -> files_exec h an op = (h', l, rep) -> h' = h /\ Forall (fun c => read_only_call c = true) l.
Proof.
  intros Hm. destruct op as [r|r|r|r|r|p]; simpl.
  - unfold Fileread. rewrite Hm. intros [= <- <- <-]. by repeat constructor.
  - unfold Filewrite. rewrite Hm. intros [= <- <- <-]. by repeat constructor.
  - unfold Filecmd. rewrite Hm. intros [= <- <- <-]. by repeat constructor.
  - unfold Filelist. rewrite Hm. destruct (bool_decide (sr_Method r = B "List")).
    + intros H. destruct (calls_until _ _) as [l1 e] eqn:Hc. injection H as <- <- <-. split; [done|].
      apply calls_until_incl in Hc. apply Forall_forall. intros c Hin%Hc. set_unfold in Hin. destruct Hin as [-> | [-> |[]]]; done.
    + destruct (bool_decide _); intros [= <- <- <-]; by repeat constructor.
  - intros [= <- <- <-]. by repeat constructor.
  - unfold Readlink. rewrite Hm. intros [= <- <- <-]. by repeat constructor.
Qed.

Lemma drop_box_exec h an op h' l rep :
  rf_mode h = FileServeWO -> files_exec h an op = (h', l, rep) ->
  rf_wrote h ⊆ rf_wrote h' /\ Forall (drop_box_call (rf_wrote h)) l /\ drop_box_reply an (rf_wrote h) rep /\
  (forall p, p ∈ rf_wrote h' -> p ∈ rf_wrote h \/
     exists c, c ∈ l /\ call_path c = p /\ an_err an c = None /\
       match c with CallOpenFile _ _ _ | CallMkdir _ _ => True | _ => False end).
Proof.
  intros Hm. destruct op as [r|r|r|r|r|p]; simpl.
  - unfold Fileread. rewrite Hm. intros [= <- <- <-]. split_and!; [done|by constructor|done|by left].
  - unfold Filewrite. rewrite Hm. simpl. destruct (pf_Read (sr_Pflags r)) eqn:Hr; simpl.
    { intros [= <- <- <-]. split_and!; [done|by constructor|done|by left]. }
    set (c := CallOpenFile _ _ _). destruct (an_err an c) eqn:Hc; intros [= <- <- <-].
    { split_and!; [done| |done|by left]. repeat constructor. simpl. by rewrite Hr. }
    assert (of_access (write_flags (sr_Pflags r)) = O_WRONLY) as Ha by (unfold write_flags; by rewrite Hr).
    split_and!; [simpl; set_solver|by repeat constructor|done|].
    intros p. simpl. intros [->%elem_of_singleton|?]%elem_of_union; [right|by left].
    exists c. split_and!; try done. set_solver.
  - unfold Filecmd. rewrite Hm. destruct (bool_decide (sr_Method r = B "Mkdir")).
    { set (c := CallMkdir _ _). destruct (an_err an c) eqn:Hc; intros [= <- <- <-].
      - split_and!; [done|by repeat constructor|done|by left].
      - split_and!; [simpl; set_solver|by repeat constructor|done|].
        intros p. simpl. intros [->%elem_of_singleton|?]%elem_of_union; [right|by left].
        exists c. split_and!; try done. set_solver. }
    destruct (bool_decide (sr_Method r = B "Setstat")).
    2: { intros [= <- <- <-]. split_and!; [done|by constructor|done|by left]. }
    unfold isOwn. case_bool_decide as Ho; simpl.
    2: { intros [= <- <- <-]. split_and!; [done|by constructor|done|by left]. }
    intros H. destruct (setstat_calls _ _ _ _ _ _ _ _ H Ho) as (Hl & -> & Hrep).
    split_and!; [done|done|by destruct Hrep as [-> |[e ->]]|by left].
  - unfold Filelist. rewrite Hm. destruct (bool_decide (sr_Method r = B "List")).
    { intros [= <- <- <-]. split_and!; [done|by constructor|done|by left]. }
    destruct (bool_decide (sr_Method r = B "Stat")); intros [= <- <- <-].
    2: { split_and!; [done|by constructor|done|by left]. }
    split_and!; [done|by repeat constructor| |by left]. unfold stat. rewrite Hm. simpl. unfold isOwn.
    case_bool_decide; destruct (an_stat _ _ _) as [fi|] eqn:Hs; simpl; [by eauto 10|done| |done].
    destruct (fi_IsDir fi) eqn:Hd; simpl; [by eauto 10|done].
  - intros [= <- <- <-]. split_and!; [done|by repeat constructor| |by left]. unfold stat. rewrite Hm. simpl. unfold isOwn.
    case_bool_decide; destruct (an_stat _ _ _) as [fi|] eqn:Hs; simpl; [by eauto 10|done| |done].
    destruct (fi_IsDir fi) eqn:Hd; simpl; [by eauto 10|done].
  - unfold Readlink. rewrite Hm. intros [= <- <- <-]. split_and!; [done|by constructor|done|by left].
Qed.

Lemma session_app h ops1 ops2 :
  session h (ops1 ++ ops2) =
  let '(h1, cs1, reps1) := session h ops1 in
  let '(h2, cs2, reps2) := session h1 ops2 in
  (h2, cs1 ++ cs2, reps1 ++ reps2).
Proof.
  revert h. induction ops1 as [|[op an] ops1 IH]; intros h; simpl.
  { by destruct (session h ops2) as [[h2 cs2] reps2]. }
  destruct (files_exec h an op) as [[h1 l] rep]. rewrite IH.
  destruct (session h1 ops1) as [[h2 cs1] reps1], (session h2 ops2) as [[h3 cs2] reps2]. by rewrite <- app_assoc.
Qed.

Lemma session_mode h ops h' cs reps : session h ops = (h', cs, reps) -> rf_mode h' = rf_mode h.
Proof.
  revert h h' cs reps. induction ops as [|[op an] ops IH]; intros h h' cs reps H; simpl in H; [by injection H as <- <- <-|].
  destruct (files_exec h an op) as [[h1 l] rep] eqn:He. destruct (session h1 ops) as [[h2 cs2] reps2] eqn:Hs.
  injection H as <- <- <-. rewrite (IH _ _ _ _ Hs). by eapply exec_mode.
Qed.

(** A drop-box session owns only what it opened or made. *)
Lemma drop_box_owned h ops h' cs reps p :
  rf_mode h = FileServeWO -> session h ops = (h', cs, reps) -> p ∈ rf_wrote h' ->
  p ∈ rf_wrote h \/ exists c, c ∈ cs /\ call_path c = p /\ match c with CallOpenFile _ _ _ | CallMkdir _ _ => True | _ => False end.
Proof.
  revert h h' cs reps. induction ops as [|[op an] ops IH]; intros h h' cs reps Hm H Hp; simpl in H.
  { injection H as <- <- <-. by left. }
  destruct (files_exec h an op) as [[h1 l] rep] eqn:He. destruct (session h1 ops) as [[h2 cs2] reps2] eqn:Hs.
  injection H as <- <- <-. destruct (drop_box_exec _ _ _ _ _ _ Hm He) as (_ & _ & _ & Hown).
  destruct (IH h1 _ _ _ ltac:(by rewrite (exec_mode _ _ _ _ _ _ He)) Hs Hp) as [Hp1|(c & ? & ? & ?)].
  - destruct (Hown _ Hp1) as [|(c & ? & ? & _ & ?)]; [by left|right]. exists c. split_and!; [set_solver|done|done].
  - right. exists c. split_and!; [set_solver|done|done].
Qed.
End policy.

Section files_properties.

(** a read-only service never modifies anything: whatever a session asks, and whatever
    the file system answers, every call it makes is a lookup. *)
Theorem read_only_never_modifies ops h cs reps :
  session (newRootedFiles FileServeRO) ops = (h, cs, reps) ->
  h = newRootedFiles FileServeRO /\ Forall (fun c => read_only_call c = true) cs.
Proof.
  assert (forall h0, rf_mode h0 = FileServeRO -> forall h cs reps, session h0 ops = (h, cs, reps) ->
            h = h0 /\ Forall (fun c => read_only_call c = true) cs) as Hgen; [|by apply Hgen].
  clear. intros h0 Hm. induction ops as [|[op an] ops IH]; intros h cs reps H; simpl in H.
  { injection H as <- <- <-. by split. }
  destruct (files_exec h0 an op) as [[h1 l] rep] eqn:He. destruct (read_only_exec _ _ _ _ _ _ Hm He) as [-> Hl].
  destruct (session h0 ops) as [[h2 cs2] reps2] eqn:Hs. injection H as <- <- <-.
  destruct (IH _ _ _ eq_refl) as [-> ?]. split; [done|by apply Forall_app].
Qed.

(** C27: a drop box takes and does not give.  Every request of a write-only session only
    opens for writing, makes directories, looks up, or adjusts a path that an earlier
    request of the session opened or made; and its reply never lists, reads or resolves
    anything, and describes nothing but directories and those paths. *)
Theorem drop_box_confined pre op an post h cs reps h1 cs1 reps1 :
  session (newRootedFiles FileServeWO) (pre ++ (op, an) :: post) = (h, cs, reps) ->
  session (newRootedFiles FileServeWO) pre = (h1, cs1, reps1) ->
  exists h2 l rep, files_exec h1 an op = (h2, l, rep) /\ l ⊆ cs /\ rep ∈ reps /\
    Forall (drop_box_call (rf_wrote h1)) l /\ drop_box_reply an (rf_wrote h1) rep /\
    (forall p, p ∈ rf_wrote h1 -> exists c, c ∈ cs1 /\ call_path c = p /\
       match c with CallOpenFile _ _ _ | CallMkdir _ _ => True | _ => False end).
Proof.
  intros H H1. rewrite session_app, H1 in H. simpl in H.
  destruct (files_exec h1 an op) as [[h2 l] rep] eqn:He. destruct (session h2 post) as [[h3 cs3] reps3].
  injection H as <- <- <-. exists h2, l, rep.
  assert (rf_mode h1 = FileServeWO) as Hm by (by rewrite (session_mode _ _ _ _ _ H1)).
  destruct (drop_box_exec _ _ _ _ _ _ Hm He) as (_ & Hl & Hrep & _).
  split_and!; [done|set_solver|set_solver|done|done|].
  intros p Hp. destruct (drop_box_owned (newRootedFiles FileServeWO) _ _ _ _ _ eq_refl H1 Hp) as [Hx|Hx]; [set_solver|done].
Qed.

(** Two file systems that a drop box should not tell apart, in one request: calls
    succeed or fail alike, and lookups agree except on paths that are not the
    session's own and are no directory in either. *)
Definition agree (own : gset gostring) (an1 an2 : answers) : Prop :=
  (forall c, an_err an1 c = an_err an2 c) /\
  forall lstat p, an_stat an1 lstat p = an_stat an2 lstat p \/
    (p ∉ own) /\ (forall fi, an_stat an1 lstat p = Ok fi -> fi_IsDir fi = false) /\
    (forall fi, an_stat an2 lstat p = Ok fi -> fi_IsDir fi = false).

Fixpoint agreeing (h : rootedFiles) (ops : list (sftp_op * answers * answers)) : Prop :=
  match ops with
  | [] => True
  | (op, an1, an2) :: ops => agree (rf_wrote h) an1 an2 /\ agreeing (files_exec h an1 op).1.1 ops
  end.

Lemma calls_until_agree an1 an2 cs : (forall c, an_err an1 c = an_err an2 c) -> calls_until an1 cs = calls_until an2 cs.
Proof. intros H. induction cs as [|c cs IH]; simpl; [done|]. by rewrite H, IH. Qed.

Lemma stat_agree h an1 an2 lstat p :
  rf_mode h = FileServeWO -> agree (rf_wrote h) an1 an2 -> stat h an1 lstat p = stat h an2 lstat p.
Proof.
  intros Hm [_ Hs]. unfold stat. rewrite Hm. simpl. destruct (Hs lstat p) as [-> |(Ho & H1 & H2)]; [done|].
  unfold isOwn. rewrite bool_decide_eq_false_2 by done.
  destruct (an_stat an1 lstat p) as [fi1|], (an_stat an2 lstat p) as [fi2|]; try done;
    rewrite ?(H1 _ eq_refl), ?(H2 _ eq_refl); done.
Qed.

Lemma exec_agree h an1 an2 op :
  rf_mode h = FileServeWO -> agree (rf_wrote h) an1 an2 -> files_exec h an1 op = files_exec h an2 op.
Proof.
  intros Hm Ha. pose proof (fun ls p => stat_agree h an1 an2 ls p Hm Ha) as Hst. destruct Ha as [He _].
  destruct op; simpl.
  - unfold Fileread. by rewrite Hm.
  - unfold Filewrite. by rewrite He.
  - unfold Filecmd, setstat. rewrite Hm, He. destruct (bool_decide _); [done|]. destruct (bool_decide _); [|done].
    destruct (negb _); [done|]. by rewrite (calls_until_agree an1 an2).
  - unfold Filelist, stat_reply. rewrite Hm, Hst. done.
  - unfold Lstat, stat_reply. by rewrite Hst.
  - unfold Readlink. by rewrite Hm.
Qed.

(** a drop box hides what it holds: on file systems that differ only in what other
    files exist, and in listings and links, a write-only session sees the same. *)
Theorem drop_box_hides_files ops :
  agreeing (newRootedFiles FileServeWO) ops ->
  session (newRootedFiles FileServeWO) ((fun x => (x.1.1, x.1.2)) <$> ops) =
  session (newRootedFiles FileServeWO) ((fun x => (x.1.1, x.2)) <$> ops).
Proof.
  generalize (newRootedFiles FileServeWO) (eq_refl : rf_mode (newRootedFiles FileServeWO) = FileServeWO).
  induction ops as [|[[op an1] an2] ops IH]; intros h Hm; [done|]. intros [Ha Hr].
  cbn [fmap list_fmap session fst snd]. rewrite <- (exec_agree h an1 an2 op Hm Ha).
  destruct (files_exec h an1 op) as [[h1 l] rep] eqn:He. simpl in Hr.
  rewrite (IH h1); [done|by rewrite (exec_mode _ _ _ _ _ _ He)|done].
Qed.

Lemma isOwn_markOwn h p : isOwn (markOwn h p) p = true.
Proof. unfold isOwn, markOwn. simpl. apply bool_decide_eq_true_2. set_solver. Qed.

(** A request for [p]. *)
Definition open_existing (p : gostring) : sftp_request :=
  SftpRequest (B "Open") p [] (PFlags false true false false false false) (Attrs None None None).
Definition truncate_request (p : gostring) : sftp_request :=
  SftpRequest (B "Setstat") p [] (PFlags false false false false false false) (Attrs None None (Some 0)).

(** a drop box can destroy and detect what it did not write.  Opening a path for
    writing, without creating anything, succeeds on a file of someone else and not on a
    missing one, and makes it the session's own; it may then be emptied. *)
Theorem drop_box_adopts_existing_files p an missing e :
  (forall c, an_err an c = None) ->
  an_err missing (CallOpenFile (rel p) (OpenFlags O_WRONLY false false false false) 420) = Some e ->
  session (newRootedFiles FileServeWO) [(OpWrite (open_existing p), missing)]
  = (newRootedFiles FileServeWO, [CallOpenFile (rel p) (OpenFlags O_WRONLY false false false false) 420], [RepErr e]) /\
  (session (newRootedFiles FileServeWO)
    [(OpWrite (open_existing p), an); (OpCmd (truncate_request p), an)]).1.2
  = [CallOpenFile (rel p) (OpenFlags O_WRONLY false false false false) 420;
     CallOpenFile (rel p) (OpenFlags O_WRONLY false false false false) 0; CallTruncate (rel p) 0] /\
  (session (newRootedFiles FileServeWO)
    [(OpWrite (open_existing p), an); (OpCmd (truncate_request p), an)]).2
  = [RepWriter (rel p) (OpenFlags O_WRONLY false false false false); RepOk].
Proof.
  intros Han Hmiss. set (h := newRootedFiles FileServeWO). set (c := CallOpenFile (rel p) _ 420) in *.
  assert (forall an, Filewrite h an (open_existing p) =
    match an_err an c with
    | Some e => (h, [c], RepErr e)
    | None => (markOwn h (rel p), [c], RepWriter (rel p) (OpenFlags O_WRONLY false false false false))
    end) as Hopen by done.
  assert (Filecmd (markOwn h (rel p)) an (truncate_request p) = setstat (markOwn h (rel p)) an (truncate_request p) (rel p)) as Hset.
  { pose proof (isOwn_markOwn h (rel p)) as Ho. unfold Filecmd. cbn [truncate_request sr_Filepath sr_Method].
    change (rf_mode (markOwn h (rel p))) with FileServeWO. cbv iota. rewrite Ho.
    by rewrite bool_decide_eq_false_2, bool_decide_eq_true_2 by done. }
  cbn [session files_exec]. rewrite !Hopen, Hmiss, Han, Hset. unfold setstat. cbn -[rel markOwn]. by rewrite !Han.
Qed.
End files_properties.

(** * Confinement of paths *)

Section paths.

(** A path that stays below the root it is resolved against. *)
Definition local (p : gostring) : Prop :=
  p = Path.dot \/ p <> [] /\ Forall good_elem (Strings.SplitByte p Path.slash).

Lemma rel_is_local req : Strings.HasPrefix req [Path.slash] = true -> local (rel req).
Proof.
  intros Hr. unfold rel, Path.Clean. pose proof (elems_good req Hr) as Hg. unfold Path.rooted. rewrite Hr.
  set (elems := Path.Elems req) in *. change (Path.slash :: ?x) with ([Path.slash] ++ x).
  unfold Strings.TrimPrefix. rewrite cut_prefix_app. cbn [fst].
  case_bool_decide as Hb; [by left|right]. split; [done|].
  destruct elems as [|e es]; [done|]. rewrite split_join; [done|].
  eapply Forall_impl; [exact Hg|]. by intros x (_ & _ & _ & ?).
Qed.

Definition call_paths (c : root_call) : list gostring :=
  match c with CallRename p t | CallLink p t | CallSymlink p t => [p; t] | c => [call_path c] end.

(** Requests carry rooted paths, which is what the SFTP server passes on. *)
Definition op_rooted (op : sftp_op) : Prop :=
  match op with
  | OpRead r | OpWrite r | OpCmd r | OpList r | OpLstat r =>
      Strings.HasPrefix (sr_Filepath r) [Path.slash] = true /\ Strings.HasPrefix (sr_Target r) [Path.slash] = true
  | OpReadlink p => Strings.HasPrefix p [Path.slash] = true
  end.

(** The paths of a list of calls, each known to be local. *)
Ltac local_calls := repeat first [assumption | apply Forall_nil_2 | apply Forall_cons_2; cbn [call_paths call_path]].

Lemma setstat_local h an r p h' l rep :
  setstat h an r p = (h', l, rep) -> local p -> Forall (fun c => Forall local (call_paths c)) l.
Proof.
  unfold setstat. set (cs := _ ++ _). intros H Hp. destruct (calls_until an cs) as [l1 e] eqn:Hc.
  injection H as _ <- _. apply calls_until_incl in Hc. apply Forall_forall. intros c Hin%Hc. unfold cs in Hin.
  destruct (at_Permissions _), (at_Acmodtime _) as [[? ?]|], (at_Size _); set_unfold in Hin;
    repeat (destruct Hin as [Hin|Hin]); subst; try done; cbn [call_paths call_path]; local_calls.
Qed.

Lemma exec_local h an op h' l rep :
  op_rooted op -> files_exec h an op = (h', l, rep) -> Forall (fun c => Forall local (call_paths c)) l.
Proof.
  destruct op as [r|r|r|r|r|p]; simpl; [intros [Hp%rel_is_local Ht%rel_is_local]..|intros Hp%rel_is_local].
  - unfold Fileread. case_match; intros [= _ <- _]; local_calls.
  - unfold Filewrite. repeat case_match; intros [= _ <- _]; local_calls.
  - unfold Filecmd, just, denied. repeat case_match; try (intros Hout; by eapply setstat_local); intros [=]; subst; local_calls.
  - unfold Filelist, stat_reply. destruct (bool_decide _).
    + case_match; [intros [= _ <- _]; constructor|]. intros Hout. destruct (calls_until _ _) as [l1 e] eqn:Hc. injection Hout as _ <- _.
      apply calls_until_incl in Hc. apply Forall_forall. intros c Hin%Hc. set_unfold in Hin.
      repeat (destruct Hin as [Hin|Hin]); subst; try done; cbn [call_paths call_path]; local_calls.
    + case_match; intros [= _ <- _]; local_calls.
  - intros [= _ <- _]. local_calls.
  - unfold Readlink. case_match; intros [= _ <- _]; local_calls.
Qed.

(** every path a session passes to the file system, in any mode and as a target too,
    stays below the served root: it is the root itself or a sequence of names without
    empty, dot or dot-dot elements. *)
Theorem sftp_paths_are_confined mode ops h cs reps :
  Forall (fun x => op_rooted x.1) ops -> session (newRootedFiles mode) ops = (h, cs, reps) ->
  Forall (fun c => Forall local (call_paths c)) cs.
Proof.
  intros Hr. generalize (newRootedFiles mode). intros h0. revert h0 h cs reps.
  induction Hr as [|[op an] ops Hop _ IH]; intros h0 h cs reps H; simpl in H; [by injection H as _ <- _|].
  destruct (files_exec h0 an op) as [[h1 l] rep] eqn:He. destruct (session h1 ops) as [[h2 cs2] reps2] eqn:Hs.
  injection H as _ <- _. apply Forall_app. split; [by eapply exec_local|by eapply IH].
Qed.
End paths.

(** * Witnesses *)

Definition sample_answers (names : list gostring) : answers :=
  Answers (fun _ => None)
    (fun _ p => if bool_decide (p ∈ names) then Ok (FileInfo false p)
                else if bool_decide (p = B "inbox") then Ok (FileInfo true p) else Err (ErrExt 2))
    (fun _ => []) (fun p => p).
Definition sample_op (method path : string) : sftp_request :=
  SftpRequest (B method) (B path) (B "/") (PFlags false true false true true false) (Attrs None None None).

Lemma read_only_never_modifies_witness :
  session (newRootedFiles FileServeRO)
    [(OpCmd (sample_op "Remove" "/a"), sample_answers []); (OpRead (sample_op "Get" "/../a"), sample_answers [])]
  = (newRootedFiles FileServeRO, [CallOpen (B "a")], [RepErr SFTPErrPermissionDenied; RepReader (B "a")]) /\
  Forall (fun c => read_only_call c = true) [CallOpen (B "a")].
Proof.
  split; [vm_reflexivity|].
  apply (read_only_never_modifies
    [(OpCmd (sample_op "Remove" "/a"), sample_answers []); (OpRead (sample_op "Get" "/../a"), sample_answers [])]
    (newRootedFiles FileServeRO) _ [RepErr SFTPErrPermissionDenied; RepReader (B "a")]). vm_reflexivity.
Defined.

(** A session that uploads a file, then adjusts it. *)
Lemma drop_box_confined_witness :
  exists h2 l rep,
    files_exec (RootedFiles FileServeWO {[B "new"]}) (sample_answers []) (OpCmd (truncate_request (B "/new"))) = (h2, l, rep) /\
    Forall (drop_box_call {[B "new"]}) l.
Proof.
  set (pre := [(OpWrite (sample_op "Put" "/new"), sample_answers [])]).
  destruct (session (newRootedFiles FileServeWO) pre) as [[h1 cs1] reps1] eqn:H1.
  assert (h1 = RootedFiles FileServeWO {[B "new"]}) as Hh by (revert H1; vm_compute; by intros [= <- _ _]).
  destruct (session (newRootedFiles FileServeWO) (pre ++ [(OpCmd (truncate_request (B "/new")), sample_answers [])]))
    as [[h cs] reps] eqn:H.
  destruct (drop_box_confined pre _ _ [] _ _ _ _ _ _ H H1) as (h2 & l & rep & He & _ & _ & Hl & _).
  exists h2, l, rep. subst h1. by split.
Defined.

(** The same session on a file system with another's upload and on one without. *)
Definition sample_lookups : list (sftp_op * answers * answers) :=
  (fun path => (OpList (sample_op "Stat" path), sample_answers [B "secret"], sample_answers [])) <$>
    ["/secret"; "/inbox"; "/nothing"]%string.

Lemma drop_box_hides_files_witness :
  session (newRootedFiles FileServeWO) ((fun x => (x.1.1, x.1.2)) <$> sample_lookups) =
  session (newRootedFiles FileServeWO) ((fun x => (x.1.1, x.2)) <$> sample_lookups) /\
  (session (newRootedFiles FileServeWO) ((fun x => (x.1.1, x.2)) <$> sample_lookups)).2 =
  [RepErr SFTPErrNoSuchFile; RepInfos [FileInfo true (B "inbox")]; RepErr SFTPErrNoSuchFile].
Proof.
  split; [|vm_reflexivity]. apply drop_box_hides_files.
  assert (agree ∅ (sample_answers [B "secret"]) (sample_answers [])) as Ha.
  { split; [done|]. intros lstat p. simpl. destruct (decide (p = B "secret")) as [->|Hne].
    - right. split_and!; [set_solver| |]; intros fi; vm_compute; [by intros [= <-]|done].
    - left. rewrite bool_decide_eq_false_2 by set_solver. done. }
  repeat (split; [exact Ha|]). done.
Defined.

Lemma drop_box_adopts_existing_files_witness :
  (session (newRootedFiles FileServeWO)
    [(OpWrite (open_existing (B "/theirs")), sample_answers []);
     (OpCmd (truncate_request (B "/theirs")), sample_answers [])]).2
  = [RepWriter (B "theirs") (OpenFlags O_WRONLY false false false false); RepOk].
Proof.
  apply (drop_box_adopts_existing_files (B "/theirs") (sample_answers [])
    (Answers (fun _ => Some (ErrExt 2)) (fun _ _ => Err (ErrExt 2)) (fun _ => []) (fun p => p)) (ErrExt 2)); done.
Defined.

Lemma sftp_paths_are_confined_witness : Forall (fun c => Forall local (call_paths c)) [CallRemove (B "etc/passwd")].
Proof.
  apply (sftp_paths_are_confined FileServeRW [(OpCmd (sample_op "Remove" "/a/../../etc//./passwd"), sample_answers [])]
    (newRootedFiles FileServeRW) _ [RepOk]); [by repeat constructor|vm_reflexivity].
Defined.
