(* ===== verification/Cli.v ===== *)
(** Cli: what the command line of a server and of the SOCKS proxy means.

    Models src/cmd/tailcat: the --serve specification and how it reaches the core
    ([parsePortSet], [portRanges], the handlers of [masqueServer] and of the DERP transport's
    [server], which hand out the same), --files, --allow, --listen and the classification
    of SOCKS destinations.  The resolver, net/netip's parser, the file system and build
    tags are arguments. *)

From S2P Require Import Prelude GoStd Keys Packet Fragment Token Bind Core Files.
From Stdlib Require Import Strings.Byte.
Import Netip.

(** * Ports and services *)

(** The ports of a closed range. *)
Definition port_range (lo hi : Z) : gset Z := list_to_set (seqZ lo (hi - lo + 1)).

(** src/cmd/tailcat/tailcat.go:1341-1341 [numRx] *)
Definition numRx (r : gostring) : bool := negb (bool_decide (r = [])) && forallb Strings.is_digit r.
(** src/cmd/tailcat/tailcat.go:1340-1340 [portRangeRx] *)
Definition portRangeRx (r : gostring) : bool :=
  let '(a, b, found) := Strings.CutByte r "-"%byte in found && numRx a && numRx b.

(** src/cmd/tailcat/tailcat.go:1353-1394 [parsePortSet], one element *)
Definition parse_port_item (sshEnabled : bool) (acc : gset Z * gset gostring) (r : gostring)
    : result (gset Z * gset gostring) :=
  let '(ports, services) := acc in
  let r := Strings.TrimSpace r in
  if bool_decide (r = B "all") then Ok (ports ∪ port_range 1 65535, services)
  else if bool_decide (r = B "no-auth-ssh") || bool_decide (r = B "files") then
    guard! sshEnabled or ErrNew "SSH support not included in binary per build tags" in
    Ok (ports, {[r]} ∪ services)
  else if bool_decide (r = B "exit-node") then Ok (ports, {[r]} ∪ services)
  else
    guard! numRx r || portRangeRx r or ErrNew "%q is not a known named service" in
    let '(a, b) := if portRangeRx r then (Strings.CutByte r "-"%byte).1 else (r, []) in
    match Strconv.ParseUint16 a with
    | Err _ => Err (ErrNew "%q is not a valid port")
    | Ok lo =>
        match (if bool_decide (b = []) then Ok lo else Strconv.ParseUint16 b) with
        | Err _ => Err (ErrNew "%q is not a valid port number")
        | Ok hi =>
            let '(lo, hi) := if hi <? lo then (hi, lo) else (lo, hi) in
            Ok (ports ∪ port_range lo hi, services)
        end
    end.

Fixpoint parse_port_items (sshEnabled : bool) (acc : gset Z * gset gostring) (rs : list gostring)
    : result (gset Z * gset gostring) :=
  match rs with
  | [] => Ok acc
  | r :: rs => let? acc := parse_port_item sshEnabled acc r in parse_port_items sshEnabled acc rs
  end.

(** src/cmd/tailcat/tailcat.go:1344-1397 [parsePortSet]; a nil set is the empty one *)
Definition parsePortSet (sshEnabled : bool) (s : gostring) : result (gset Z * gset gostring) :=
  if bool_decide (s = []) then Ok (∅, ∅)
  else parse_port_items sshEnabled (∅, ∅) (Strings.SplitByte (Strings.TrimSpace s) ","%byte).

(** src/cmd/tailcat/tailcat.go:1402-1408 [portRanges], one port; the ranges so far, last first *)
Definition range_step (ret : list PortRange) (p : Z) : list PortRange :=
  match ret with
  | pr :: ret' => if u16 (pr_last pr + 1) =? p then MkPortRange (pr_first pr) p :: ret' else MkPortRange p p :: ret
  | [] => [MkPortRange p p]
  end.

(** src/cmd/tailcat/tailcat.go:1401-1410 [portRanges] *)
Definition portRanges (sorted : list Z) : list PortRange := rev (foldl range_step [] sorted).

(** [slices.Sorted(maps.Keys(ports))] *)
Definition sorted_ports (ports : gset Z) : list Z := merge_sort Z.le (elements ports).

(** * Files, --listen and the destination of a client *)

(** src/cmd/tailcat/tailcat.go:1312-1337 [parseFilesFlag]; [abs] is [filepath.Abs], [isdir]
    whether [os.Stat] finds a directory *)
Definition parseFilesFlag (abs : gostring -> result gostring) (isdir : gostring -> result bool) (v : gostring)
    : result (gostring * FileServeMode) :=
  let '(dir, mode) :=
    match Strings.CutSuffix v (B ":ro"), Strings.CutSuffix v (B ":rw"), Strings.CutSuffix v (B ":wo") with
    | (d, true), _, _ => (d, FileServeRO)
    | _, (d, true), _ => (d, FileServeRW)
    | _, _, (d, true) => (d, FileServeWO)
    | _, _, _ => (v, FileServeRO)
    end in
  let dir := if bool_decide (dir = []) then B "." else dir in
  let? abs := abs dir in
  match isdir abs with
  | Err e => Err (ErrWrap "--files: %w" e)
  | Ok false => Err (ErrNew "--files: %v is not a directory")
  | Ok true => Ok (abs, mode)
  end.

(** src/cmd/tailcat/tailcat.go:861-872 [normalizeListenAddrPort] *)
Definition normalizeListenAddrPort (s : gostring) : gostring :=
  match Net.SplitHostPort s with
  | Ok (host, port) => Net.JoinHostPort host (if bool_decide (port = []) then B "0" else port)
  | Err _ =>
      match Strconv.ParseUint16 s with
      | Ok port => Net.JoinHostPort (B "127.0.0.1") (Strconv.Itoa port)
      | Err _ => s ++ B ":0"
      end
  end.

(** src/cmd/tailcat/masquecat_cli.go:64-64 [isMasqueBlob] *)
Definition isMasqueBlob (blob : gostring) : bool := Strings.HasPrefix blob (B "mc").

(** src/cmd/tailcat/masquecat_cli.go:55-62 [envTruthy], on the variable's value *)
Definition envTruthy (value : gostring) : bool :=
  bool_decide (Strings.ToLower (Strings.TrimSpace value) ∈ [B "1"; B "t"; B "true"; B "y"; B "yes"; B "on"]).

(** src/cmd/tailcat/tailcat.go:974-979 [socksTarget] *)
Inductive socksTarget : Type :=
  | ToServer (port : Z)
  | ToBlob (blob : gostring) (port : Z)
  | ToDst (dst : Addr) (port : Z).

Section socks.
Context `{K : KeyOps} {T : TokenOps K}.
(** [tailcat.ParseConnBlob] succeeds; [netip.ParseAddr]; the resolver. *)
Context (ParseConnBlobOk : gostring -> bool) (ParseAddr : gostring -> option Addr).

(** src/cmd/tailcat/transport_client.go:52-59 [validCLIConnBlob] *)
Definition validCLIConnBlob (blob : gostring) : bool :=
  if isMasqueBlob blob then is_ok (ParseMasqueConnBlob blob) else ParseConnBlobOk blob.

(** src/cmd/tailcat/tailcat.go:1022-1028 [classifySOCKSAddr], the preferred address *)
Definition prefer_ipv4 (ips : list Addr) : option Addr :=
  match List.find (fun a => Is4 (Unmap a)) ips with
  | Some a => Some a
  | None => head ips
  end.

(** src/cmd/tailcat/tailcat.go:995-1031 [classifySOCKSAddr] *)
Definition classifySOCKSAddr (lookup : gostring -> result (list Addr)) (addr : gostring) : result socksTarget :=
  let? (host, port) := Net.SplitHostPort addr in
  let? portNum := Strconv.ParseUint16 port in
  if bool_decide (host = B "server.tailcat") || bool_decide (host = []) then Ok (ToServer portNum)
  else if (Strings.HasPrefix host (B "tc") || Strings.HasPrefix host (B "mc")) &&
          negb (Strings.ContainsByte host "."%byte) && validCLIConnBlob host then
    Ok (ToBlob host portNum)
  else
    match ParseAddr host with
    | Some ip => Ok (ToDst (Unmap ip) portNum)
    | None =>
        let? ips := lookup host in
        match prefer_ipv4 ips with
        | None => Err (ErrNew "no addresses found for %q")
        | Some ip => Ok (ToDst (Unmap ip) portNum)
        end
    end.
End socks.

(** * A server's plan *)

(** What happens to a connection to one of the server's own ports. *)
Inductive local_handler : Type := HSSH | HForward (port : Z) | HStdout.

(** What the --serve and --files flags come to. *)
Record serve_plan : Type := ServePlan {
  pl_ports : gset Z;
  pl_services : gset gostring;
  pl_oneShot : bool;
  pl_ssh : bool;
  pl_files : option (gostring * FileServeMode);
}.

(** src/cmd/tailcat/masquecat_cli.go:224-237 [masqueServer], the endpoint flags *)
Definition check_endpoint_flags (relayURL directURL directListen tlsCert tlsKey : gostring) : option gerror :=
  let unset (s : gostring) := bool_decide (s = []) in
  if unset relayURL && unset directURL then Some (ErrNew "MasqueCat server needs an explicit endpoint")
  else if unset directURL && (negb (unset directListen) || negb (unset tlsCert) || negb (unset tlsKey)) then
    Some (ErrNew "--direct-listen/--tls-cert/--tls-key require --direct-url")
  else if negb (unset directURL) then
    if unset directListen then Some (ErrNew "--direct-url requires --direct-listen")
    else if unset tlsCert || unset tlsKey then Some (ErrNew "--direct-url requires --tls-cert and --tls-key")
    else None
  else None.

(** src/cmd/tailcat/masquecat_cli.go:239-333 [masqueServer], the services: [supported] is
    [SupportsSSHServer], [files] what [parseFilesFlag] gives *)
Definition serve_services (sshEnabled supported : bool) (files : result (gostring * FileServeMode))
    (flagFiles serveSpec : gostring) : result serve_plan :=
  match parsePortSet sshEnabled serveSpec with
  | Err e => Err (ErrWrap "invalid port or service to serve: %w" e)
  | Ok (ports, services) =>
      guard! bool_decide (flagFiles = []) || sshEnabled or ErrNew "--files requires SSH support" in
      let services := if bool_decide (flagFiles = []) then services else {[B "files"]} ∪ services in
      let oneShot := bool_decide (ports = ∅) && bool_decide (services = ∅) in
      let ssh := bool_decide (B "no-auth-ssh" ∈ services) || bool_decide (B "files" ∈ services) in
      guard! negb ssh || supported or ErrNew "Tailscale SSH server not supported on this platform" in
      if bool_decide (B "files" ∈ services) then
        let? f := files in Ok (ServePlan ports services oneShot ssh (Some f))
      else Ok (ServePlan ports services oneShot ssh None)
  end.

(** src/cmd/tailcat/masquecat_cli.go:285-291 [masqueServer], the ports the core serves *)
Definition plan_served (p : serve_plan) : option (list PortRange) :=
  if negb (pl_oneShot p) && negb (bool_decide (B "exit-node" ∈ pl_services p)) then
    let ports := sorted_ports (pl_ports p) in
    Some (portRanges (if pl_ssh p && negb (bool_decide (22 ∈ pl_ports p)) then 22 :: ports else ports))
  else None.

(** src/cmd/tailcat/masquecat_cli.go:335-359 [masqueServer, OnTCP] *)
Definition plan_OnTCP (p : serve_plan) (port : Z) : option local_handler :=
  if (port =? 22) && pl_ssh p then Some HSSH
  else if bool_decide (B "exit-node" ∈ pl_services p) then Some (HForward port)
  else if pl_oneShot p then Some HStdout
  else if negb (bool_decide (port ∈ pl_ports p)) then None
  else Some (HForward port).

(** src/cmd/tailcat/masquecat_cli.go:317-319 [masqueServer, OnTCPForward]: the address and
    port that are dialled *)
Definition plan_OnTCPForward (p : serve_plan) : option (Addr * Z -> option (Addr * Z)) :=
  if bool_decide (B "exit-node" ∈ pl_services p) then Some Some else None.

Section allow.
Context `{K : KeyOps}.

(** src/cmd/tailcat/masquecat_cli.go:292-304 [masqueServer], the --allow flag: the keys in
    the order they are added *)
Fixpoint parse_allow_items (ks : list gostring) : result (list NodePublic) :=
  match ks with
  | [] => Ok []
  | s :: ks =>
      let? k := (if bool_decide (s = B "none") then Ok NodePublicZero
                 else match UnmarshalText s with
                      | Ok k => Ok k
                      | Err e => Err (ErrWrap "invalid key %q in --allow: %w" e)
                      end) in
      let? rest := parse_allow_items ks in
      Ok (k :: rest)
  end.
Definition parseAllow (flag : gostring) : result (list NodePublic) :=
  if bool_decide (flag = []) then Ok [] else parse_allow_items (Strings.SplitByte flag ","%byte).
End allow.

(** * The DERP transport's server *)

(** src/cmd/tailcat/tailcat.go:1073-1088 [server]: the ports, the services, and whether one
    connection is printed *)
Definition legacy_flags (sshEnabled : bool) (flagFiles serveSpec : gostring) : result (gset Z * gset gostring * bool) :=
  match parsePortSet sshEnabled serveSpec with
  | Err e => Err (ErrWrap "invalid port or service to serve: %v" e)
  | Ok (ports, services) =>
      guard! bool_decide (flagFiles = []) || sshEnabled or ErrNew "--files requires SSH support" in
      let services := if bool_decide (flagFiles = []) then services else services ∪ {[B "files"]} in
      Ok (ports, services, (size ports =? 0)%nat && (size services =? 0)%nat)
  end.

(** src/cmd/tailcat/tailcat.go:1158-1161 [server] *)
Definition legacy_ssh (supported : bool) (services : gset gostring) : result bool :=
  let sshServices := bool_decide (B "no-auth-ssh" ∈ services) || bool_decide (B "files" ∈ services) in
  if sshServices && negb supported then Err (ErrNew "Tailscale SSH server not supported on %v") else Ok sshServices.

(** src/cmd/tailcat/tailcat.go:1165-1171 [server], [ServedTCPPorts] *)
Definition legacy_served (ports : gset Z) (services : gset gostring) (oneShotStdout sshServices : bool) : option (list PortRange) :=
  if negb oneShotStdout && negb (bool_decide (B "exit-node" ∈ services)) then
    let sorted := sorted_ports ports in
    let sorted := if sshServices && negb (bool_decide (22 ∈ ports)) then 22 :: sorted else sorted in
    Some (portRanges sorted)
  else None.

(** src/cmd/tailcat/tailcat.go:1204-1216 [server]: the file service of the SSH handler *)
Definition legacy_files (services : gset gostring) (sshServices : bool) (files : result (gostring * FileServeMode))
    : result (option (gostring * FileServeMode)) :=
  if sshServices && bool_decide (B "files" ∈ services) then let? f := files in Ok (Some f) else Ok None.

(** src/cmd/tailcat/tailcat.go:1218-1255 [server, OnTCP] *)
Definition legacy_OnTCP (ports : gset Z) (services : gset gostring) (oneShotStdout sshServices : bool) (port : Z) : option local_handler :=
  if (port =? 22) && sshServices then Some HSSH
  else if bool_decide (B "exit-node" ∈ services) then Some (HForward port)
  else if oneShotStdout then Some HStdout
  else if bool_decide (port ∈ ports) then Some (HForward port)
  else None.

(** src/cmd/tailcat/tailcat.go:1198-1202 [server, OnTCPForward] *)
Definition legacy_OnTCPForward (services : gset gostring) : option (Addr * Z -> option (Addr * Z)) :=
  if bool_decide (B "exit-node" ∈ services) then Some Some else None.

(** What a server hands out: its filter's ports, its handlers, and the files it serves. *)
Record handouts : Type := Handouts {
  ho_served : option (list PortRange);
  ho_OnTCP : Z -> option local_handler;
  ho_exit : bool;
  ho_files : option (gostring * FileServeMode);
}.
Definition masque_handouts (sshEnabled supported : bool) (files : result (gostring * FileServeMode)) (flagFiles serveSpec : gostring)
    : result handouts :=
  let? p := serve_services sshEnabled supported files flagFiles serveSpec in
  Ok (Handouts (plan_served p) (plan_OnTCP p) (bool_decide (is_Some (plan_OnTCPForward p))) (pl_files p)).
Definition legacy_handouts (sshEnabled supported : bool) (files : result (gostring * FileServeMode)) (flagFiles serveSpec : gostring)
    : result handouts :=
  let? (ports, services, oneShotStdout) := legacy_flags sshEnabled flagFiles serveSpec in
  let? sshServices := legacy_ssh supported services in
  let? f := legacy_files services sshServices files in
  Ok (Handouts (legacy_served ports services oneShotStdout sshServices) (legacy_OnTCP ports services oneShotStdout sshServices)
        (bool_decide (is_Some (legacy_OnTCPForward services))) f).

(** * Port ranges *)

Section ranges.

Definition in_ranges (prs : list PortRange) (p : Z) : Prop := exists pr, pr ∈ prs /\ pr_first pr <= p <= pr_last pr.

(** Port 65535 is never directly followed by port 0: the successor would wrap. *)
Fixpoint no_wrap (l : list Z) : Prop :=
  match l with
  | a :: (b :: _) as l' => ~ (a = 65535 /\ b = 0) /\ no_wrap l'
  | _ => True
  end.

(** The port behind which the next one follows. *)
Definition last_port (ret : list PortRange) : list Z := match ret with pr :: _ => [pr_last pr] | [] => [] end.

Lemma no_wrap_tail a l : no_wrap (a :: l) -> no_wrap l.
Proof. destruct l; [done|]. by intros [_ ?]. Qed.

Lemma ranges_member l ret p :
  Forall (fun q => 0 <= q <= 65535) l -> Forall (fun pr => 0 <= pr_first pr <= pr_last pr /\ pr_last pr <= 65535) ret ->
  no_wrap (last_port ret ++ l) ->
  in_ranges (foldl range_step ret l) p <-> in_ranges ret p \/ p ∈ l.
Proof.
  intros Hl. revert ret. induction Hl as [|q l Hq _ IH]; intros ret Hret Hw; cbn [foldl].
  { rewrite elem_of_nil. tauto. }
  assert (Forall (fun pr => 0 <= pr_first pr <= pr_last pr /\ pr_last pr <= 65535) (range_step ret q) /\
    last_port (range_step ret q) = [q] /\ (in_ranges (range_step ret q) p <-> in_ranges ret p \/ p = q)) as (H1 & H2 & H3).
  { destruct ret as [|pr ret]; cbn [range_step].
    - split_and!; [by repeat constructor; simpl; lia|done|].
      unfold in_ranges. split.
      + intros (x & ->%list_elem_of_singleton & Hx). simpl in Hx. right. lia.
      + intros [(x & Hx & _)| ->]; [by apply elem_of_nil in Hx|]. exists (MkPortRange q q). split; [by apply list_elem_of_singleton|simpl; lia].
    - apply Forall_cons in Hret as [Hpr Hret]. destruct (u16 (pr_last pr + 1) =? q) eqn:E; bool_to_prop.
      + assert (q = pr_last pr + 1) as Hnext.
        { unfold u16 in E. destruct (decide (pr_last pr = 65535)) as [Hx|Hx].
          - rewrite Hx in E. simpl in Hw. destruct Hw as [Hn _]. exfalso. apply Hn. split; [done|]. rewrite <- E. by vm_compute.
          - rewrite Z.mod_small in E by lia. lia. }
        split_and!; [constructor; simpl; [lia|done]|done|]. unfold in_ranges. split.
        * intros (x & [-> |Hx]%elem_of_cons & Hp); [simpl in Hp|left; exists x; split; [set_solver|done]].
          destruct (decide (p = q)); [by right|left]. exists pr. split; [set_solver|lia].
        * intros [(x & [-> |Hx]%elem_of_cons & Hp)| ->].
          -- eexists. split; [apply list_elem_of_here|]. simpl. lia.
          -- exists x. split; [by apply list_elem_of_further|done].
          -- eexists. split; [apply list_elem_of_here|]. simpl. lia.
      + split_and!; [constructor; simpl; [lia|by constructor]|done|]. unfold in_ranges. split.
        * intros (x & [-> |Hx]%elem_of_cons & Hp); [simpl in Hp; right; lia|left; by exists x].
        * intros [(x & Hx & Hp)| ->]; [exists x; split; [by apply list_elem_of_further|done]|].
          eexists. split; [apply list_elem_of_here|]. simpl. lia. }
  rewrite IH; [|done|].
  - rewrite H3, elem_of_cons. tauto.
  - rewrite H2. destruct ret; [done|]. simpl in Hw. by destruct Hw.
Qed.

Lemma elem_of_rev {A} (x : A) l : x ∈ rev l <-> x ∈ l.
Proof. rewrite !list_elem_of_In. symmetry. apply in_rev. Qed.

(** The ranges of a list cover exactly its ports. *)
Lemma portRanges_member l p :
  Forall (fun q => 0 <= q <= 65535) l -> no_wrap l -> in_ranges (portRanges l) p <-> p ∈ l.
Proof.
  intros Hl Hw. pose proof (ranges_member l [] p Hl (Forall_nil_2 _) Hw) as H.
  assert (in_ranges (portRanges l) p <-> in_ranges (foldl range_step [] l) p) as ->.
  { unfold portRanges, in_ranges. split; intros (x & Hx & ?); exists x; by rewrite elem_of_rev in *. }
  rewrite H. unfold in_ranges. split; [|by right]. intros [(x & Hx & _)|?]; [by apply elem_of_nil in Hx|done].
Qed.

(** Ascending and apart: between two neighbours at least one port is missing. *)
Fixpoint apart (prs : list PortRange) : Prop :=
  match prs with
  | a :: (b :: _) as l => pr_last a + 1 < pr_first b /\ apart l
  | _ => True
  end.

Lemma apart_snoc prs a b : apart (prs ++ [a]) -> pr_last a + 1 < pr_first b -> apart (prs ++ [a; b]).
Proof.
  intros H Hab. induction prs as [|x prs IH]; [done|]. destruct prs as [|y prs]; simpl in *; [naive_solver|].
  destruct H. split; [done|]. by apply IH.
Qed.

Lemma apart_last prs a a' : apart (prs ++ [a]) -> pr_first a' = pr_first a -> apart (prs ++ [a']).
Proof.
  intros H Ha. induction prs as [|x prs IH]; [done|]. destruct prs as [|y prs]; simpl in *; [|naive_solver].
  destruct H as [H _]. split; [lia|done].
Qed.

Lemma ranges_canonical l ret :
  Forall (fun q => 0 <= q <= 65535) l -> StronglySorted Z.lt (last_port ret ++ l) ->
  Forall (fun pr => 0 <= pr_first pr <= pr_last pr /\ pr_last pr <= 65535) ret -> apart (rev ret) ->
  Forall (fun pr => 0 <= pr_first pr <= pr_last pr /\ pr_last pr <= 65535) (foldl range_step ret l) /\
  apart (rev (foldl range_step ret l)).
Proof.
  intros Hl. revert ret. induction Hl as [|q l Hq _ IH]; intros ret Hs Hr Ha; cbn [foldl]; [done|].
  destruct ret as [|pr ret]; cbn [range_step last_port app] in *.
  - apply IH; [done|by repeat constructor; simpl; lia|done].
  - apply StronglySorted_inv in Hs as [Hs Hall]. apply Forall_cons in Hall as [Hlt _].
    apply Forall_cons in Hr as [Hpr Hr]. simpl in Ha.
    assert (u16 (pr_last pr + 1) = pr_last pr + 1) as Hu by (unfold u16; rewrite Z.mod_small; lia).
    destruct (u16 (pr_last pr + 1) =? q) eqn:E; bool_to_prop.
    + apply IH; [done|constructor; simpl; [lia|done]|]. simpl. eapply apart_last; [exact Ha|done].
    + apply IH; [done|constructor; simpl; [lia|by constructor]|]. simpl. rewrite <- app_assoc.
      apply apart_snoc; [done|]. simpl. lia.
Qed.
End ranges.

(** * From the --serve flag to the core *)

Section serving.
Context `{K : KeyOps} {KL : KeyLaws K}.

Lemma elem_of_port_range lo hi p : p ∈ port_range lo hi <-> lo <= p <= hi.
Proof. unfold port_range. rewrite elem_of_list_to_set, elem_of_seqZ. lia. Qed.

Lemma parse_uint16_range s n : Strconv.ParseUint16 s = Ok n -> 0 <= n <= 65535.
Proof.
  unfold Strconv.ParseUint16. destruct (_ || _) eqn:E; [done|]. destruct (65535 <? _) eqn:El; [done|].
  intros [= <-]. bool_to_prop. split; [|lia].
  assert (forall l a, 0 <= a -> forallb Strings.is_digit l = true -> 0 <= foldl (fun acc b => acc * 10 + (b2z b - 48)) a l) as Hge.
  { intros l. induction l as [|b l IH]; intros a Ha Hl; simpl in *; [done|]. apply andb_true_iff in Hl as [Hb Hl].
    apply IH; [|done]. unfold Strings.is_digit in Hb. apply andb_true_iff in Hb as [Hb _]. bool_to_prop. lia. }
  unfold Strconv.digits_value. apply Hge; [lia|]. by destruct (forallb Strings.is_digit s).
Qed.

(** Every port that is asked for is a port. *)
Definition in_range (ports : gset Z) : Prop := forall p, p ∈ ports -> 0 <= p <= 65535.

Lemma parse_port_item_range ssh ports services r ports' services' :
  in_range ports -> parse_port_item ssh (ports, services) r = Ok (ports', services') -> in_range ports'.
Proof.
  intros Hp H. unfold parse_port_item in H. set (r' := Strings.TrimSpace r) in *.
  assert (forall lo hi, 0 <= lo -> hi <= 65535 -> in_range (ports ∪ port_range lo hi)) as Hu.
  { intros lo hi Hlo Hhi p [?|Hx%elem_of_port_range]%elem_of_union; [by apply Hp|lia]. }
  destruct (bool_decide (r' = B "all")); [injection H as <- <-; by apply Hu|].
  destruct (bool_decide (r' = B "no-auth-ssh") || _); [destruct ssh; [|done]; by injection H as <- <-|].
  destruct (bool_decide (r' = B "exit-node")); [by injection H as <- <-|].
  destruct (numRx r' || portRangeRx r'); [|done]. simpl in H.
  destruct (if portRangeRx r' then _ else _) as [a b].
  destruct (Strconv.ParseUint16 a) as [lo|] eqn:Hlo; [|done]. apply parse_uint16_range in Hlo.
  destruct (if bool_decide (b = []) then _ else _) as [hi|] eqn:Hhi; [|done].
  assert (0 <= hi <= 65535).
  { destruct (bool_decide (b = [])); [injection Hhi as <-; done|by apply parse_uint16_range in Hhi]. }
  destruct (hi <? lo); injection H as <- <-; apply Hu; lia.
Qed.

Lemma parsePortSet_range ssh s ports services : parsePortSet ssh s = Ok (ports, services) -> in_range ports.
Proof.
  unfold parsePortSet. case_bool_decide; [intros [= <- <-] p Hp; by apply elem_of_empty in Hp|].
  assert (forall rs acc, in_range acc.1 -> parse_port_items ssh acc rs = Ok (ports, services) -> in_range ports) as Hgen.
  { intros rs. induction rs as [|r rs IH]; intros [ps ss] Hr Hx; cbn [parse_port_items] in Hx; [by injection Hx as <- <-|].
    destruct (parse_port_item ssh (ps, ss) r) as [[ps' ss']|] eqn:Hi; [|done]. apply (IH (ps', ss')); [|done].
    by eapply parse_port_item_range. }
  intros Hx. eapply Hgen; [|exact Hx]. intros p Hp. by apply elem_of_empty in Hp.
Qed.

Lemma sorted_ports_spec ports :
  StronglySorted Z.lt (sorted_ports ports) /\ (forall p, p ∈ sorted_ports ports <-> p ∈ ports).
Proof.
  assert (sorted_ports ports ≡ₚ elements ports) as Hperm by apply merge_sort_Permutation. split.
  - assert (StronglySorted Z.le (sorted_ports ports)) as Hs.
    { apply StronglySorted_merge_sort; [intros x y z; lia|intros x y; lia]. }
    assert (NoDup (sorted_ports ports)) as Hn by (rewrite Hperm; apply NoDup_elements).
    clear Hperm. induction Hs as [|a l _ IH Hall]; [by apply SSorted_nil|].
    apply NoDup_cons in Hn as [Ha Hn]. apply SSorted_cons; [by apply IH|].
    rewrite Forall_forall in *. intros x Hx. assert (a <> x) by (intros ->; done). specialize (Hall x Hx). lia.
  - intros p. by rewrite Hperm, elem_of_elements.
Qed.

Lemma no_wrap_sorted l : StronglySorted Z.lt l -> no_wrap l.
Proof.
  induction 1 as [|a l Hs IH Hall]; [done|]. destruct l as [|b l]; [done|]. simpl. split; [|done].
  apply Forall_cons in Hall as [? _]. lia.
Qed.

(** the core is told exactly the ports that were asked for: the ranges of a port set
    contain a port exactly when the set does, and they are ascending and never touch,
    so there are as few of them as possible. *)
Theorem port_ranges_exact ports :
  in_range ports ->
  (forall p, in_ranges (portRanges (sorted_ports ports)) p <-> p ∈ ports) /\
  Forall (fun pr => 0 <= pr_first pr <= pr_last pr /\ pr_last pr <= 65535) (portRanges (sorted_ports ports)) /\
  apart (portRanges (sorted_ports ports)).
Proof.
  intros Hr. destruct (sorted_ports_spec ports) as [Hs Hm].
  assert (Forall (fun q => 0 <= q <= 65535) (sorted_ports ports)) as Hall.
  { apply Forall_forall. intros q Hq%Hm. by apply Hr. }
  split; [intros p; rewrite portRanges_member by (done || by apply no_wrap_sorted); apply Hm|].
  destruct (ranges_canonical (sorted_ports ports) [] Hall Hs (Forall_nil_2 _) I) as [H1 H2].
  split; [|exact H2]. unfold portRanges. by apply Forall_rev.
Qed.

(** The connection [h] that the plan gives to a local port. *)
Definition plan_table (pl : serve_plan) (port : Z) (h : local_handler) : Prop :=
  if (port =? 22) && pl_ssh pl then h = HSSH
  else if bool_decide (B "exit-node" ∈ pl_services pl) then h = HForward port
  else if pl_oneShot pl then h = HStdout
  else port ∈ pl_ports pl /\ h = HForward port.

Lemma plan_OnTCP_table pl port h : plan_OnTCP pl port = Some h <-> plan_table pl port h.
Proof.
  unfold plan_OnTCP, plan_table. destruct ((port =? 22) && pl_ssh pl); [naive_solver|].
  destruct (bool_decide (B "exit-node" ∈ pl_services pl)); [naive_solver|].
  destruct (pl_oneShot pl); [naive_solver|]. case_bool_decide; simpl; naive_solver.
Qed.

Lemma plan_served_table ssh supported files flagFiles spec pl port h :
  serve_services ssh supported files flagFiles spec = Ok pl -> plan_table pl port h ->
  match plan_served pl with None => True | Some prs => in_ranges prs port end.
Proof.
  intros H Ht. assert (in_range (pl_ports pl)) as Hr.
  { unfold serve_services in H. destruct (parsePortSet ssh spec) as [[ports services]|] eqn:Hp; [|done].
    apply parsePortSet_range in Hp. destruct (bool_decide (flagFiles = []) || ssh); [|done]. simpl in H.
    destruct (negb _ || supported); [|done]. simpl in H. destruct (bool_decide (B "files" ∈ _)) in H; [|by injection H as <-].
    destruct files; [|done]. by injection H as <-. }
  unfold plan_served. destruct (negb (pl_oneShot pl)) eqn:E1; [|done].
  destruct (negb (bool_decide (B "exit-node" ∈ pl_services pl))) eqn:E2; [|done]. simpl.
  unfold plan_table in Ht. destruct (bool_decide (B "exit-node" ∈ pl_services pl)); [done|]. destruct (pl_oneShot pl); [done|].
  destruct (sorted_ports_spec (pl_ports pl)) as [Hs Hm].
  assert (Forall (fun q => 0 <= q <= 65535) (sorted_ports (pl_ports pl))) as Hall.
  { apply Forall_forall. intros q Hq%Hm. by apply Hr. }
  apply portRanges_member.
  - destruct (pl_ssh pl && _); [constructor; [lia|done]|done].
  - pose proof (no_wrap_sorted _ Hs). destruct (pl_ssh pl && _); [|done]. destruct (sorted_ports _); [done|]. split; [lia|done].
  - destruct (pl_ssh pl); simpl in *; [|rewrite andb_false_r in Ht; apply Hm, Ht]. rewrite andb_true_r in Ht.
    case_bool_decide as H22; simpl.
    + destruct (port =? 22) eqn:E22; bool_to_prop; [subst; by apply Hm|apply Hm, Ht].
    + destruct (port =? 22) eqn:E22; bool_to_prop; [subst; apply list_elem_of_here|]. apply list_elem_of_further, Hm, Ht.
Qed.

(** C28: --serve governs what a server answers.  With the plan of its flags a server hands
    a connection to its own address to SSH on port 22 when that was asked for, else to
    the same port of localhost for every port of an exit node, else to standard output
    when nothing was asked for, else to localhost exactly for the ports asked for; and
    it connects elsewhere only as an exit node. *)
Theorem serve_spec_governs_ports ssh supported files flagFiles spec pl (c : masqueCore) port :
  serve_services ssh supported files flagFiles spec = Ok pl -> c_served c = plan_served pl ->
  let handle := handleTCPForward (H := local_handler + Addr * Z) c (Some (fun p => option_map inl (plan_OnTCP pl p)))
                  (option_map (fun f x => option_map inr (f x)) (plan_OnTCPForward pl)) true in
  (forall h, handle (AsSlice (tcAddrForKey (c_pub c))) port = TCPServe h <->
     exists lh, h = inl lh /\ plan_table pl port lh) /\
  (forall local h, handle local port = TCPServe (inr h) -> B "exit-node" ∈ pl_services pl).
Proof.
  intros Hpl Hserved handle. split.
  - intros h. unfold handle. rewrite local_port_gate. split.
    + intros (f & [= <-] & Hf & _). cbv beta in Hf. destruct (plan_OnTCP pl port) as [lh|] eqn:Ho; [|done]. injection Hf as <-.
      exists lh. split; [done|]. by apply plan_OnTCP_table.
    + intros (lh & -> & Ht). eexists. split_and!; [done| |].
      * apply plan_OnTCP_table in Ht. cbv beta. by rewrite Ht.
      * rewrite Hserved. pose proof (plan_served_table _ _ _ _ _ _ _ _ Hpl Ht) as Hx.
        by destruct (plan_served pl).
  - intros local h Hh. unfold handle, handleTCPForward, plan_OnTCPForward in Hh.
    destruct (decide (B "exit-node" ∈ pl_services pl)) as [He|He]; [done|].
    rewrite (bool_decide_eq_false_2 _ He) in Hh. simpl in Hh. destruct (AddrFromSlice local); [|done].
    destruct (bool_decide (_ = masqueCorePingAddr) && _); [done|]. destruct (bool_decide _); [|done].
    destruct (localPortAllowed c port); [|done]. by destruct (plan_OnTCP pl port).
Qed.
End serving.

Lemma size_zero {A} `{Countable A} (X : gset A) : (size X =? 0)%nat = bool_decide (X = ∅).
Proof.
  destruct (bool_decide_reflect (X = ∅)) as [->|Hne]; [by rewrite size_empty|]. apply Nat.eqb_neq. intros Hs. apply Hne.
  by apply size_empty_inv, leibniz_equiv in Hs.
Qed.

(** The two transports' servers hand out the same: for the same flags both fail, or both
    admit the same ports, answer every port with the same handler, forward to other
    addresses or do not, and serve the same files. *)
Theorem servers_hand_out_alike sshEnabled supported files flagFiles serveSpec :
  match legacy_handouts sshEnabled supported files flagFiles serveSpec, masque_handouts sshEnabled supported files flagFiles serveSpec with
  | Ok a, Ok b => ho_served a = ho_served b /\ (forall port, ho_OnTCP a port = ho_OnTCP b port) /\ ho_exit a = ho_exit b /\ ho_files a = ho_files b
  | Err _, Err _ => True
  | _, _ => False
  end.
Proof.
  unfold legacy_handouts, masque_handouts, legacy_flags, serve_services.
  destruct (parsePortSet sshEnabled serveSpec) as [[ports services]|e]; cbn [rbind]; [|done].
  destruct (bool_decide (flagFiles = []) || sshEnabled); cbn [rbind]; [|done]. rewrite !size_zero.
  assert ((if bool_decide (flagFiles = []) then services else services ∪ {[B "files"]}) =
          (if bool_decide (flagFiles = []) then services else {[B "files"]} ∪ services)) as -> by (destruct (bool_decide _); set_solver).
  set (svc := if bool_decide (flagFiles = []) then services else _). unfold legacy_ssh, legacy_files.
  set (ssh := bool_decide (B "no-auth-ssh" ∈ svc) || bool_decide (B "files" ∈ svc)).
  assert (ssh && bool_decide (B "files" ∈ svc) = bool_decide (B "files" ∈ svc)) as Hf.
  { unfold ssh. destruct (bool_decide (B "files" ∈ svc)); [by rewrite orb_true_r|by rewrite andb_false_r]. }
  clearbody ssh svc. generalize dependent (bool_decide (B "files" ∈ svc)). intros fs Hf.
  assert (forall f, let p := ServePlan ports svc (bool_decide (ports = ∅) && bool_decide (svc = ∅)) ssh f in
    legacy_served ports svc (bool_decide (ports = ∅) && bool_decide (svc = ∅)) ssh = plan_served p /\
    forall port, legacy_OnTCP ports svc (bool_decide (ports = ∅) && bool_decide (svc = ∅)) ssh port = plan_OnTCP p port) as Hplan.
  { intros f p. split; [done|]. intros port. unfold legacy_OnTCP, plan_OnTCP. cbn. by destruct (bool_decide (port ∈ ports)). }
  destruct ssh; cbn [andb negb] in *; [destruct supported; cbn [negb rbind orb]; [|done]|cbn [rbind]].
  2: subst fs; cbn [rbind]; destruct (Hplan None); by split_and!.
  destruct fs; cbn [rbind]; [|destruct (Hplan None); by split_and!].
  destruct files as [f|e]; cbn [rbind]; [|done]. destruct (Hplan (Some f)); by split_and!.
Qed.

(** [--listen] of a bare IPv6 host does not come out as a host and a port. *)
Lemma bare_ipv6_listen_is_rejected :
  normalizeListenAddrPort (B "example.org") = B "example.org:0" /\
  normalizeListenAddrPort (B "8080") = B "127.0.0.1:8080" /\
  is_ok (Net.SplitHostPort (normalizeListenAddrPort (B "::1"))) = false.
Proof. split_and!; by vm_compute. Qed.

(** * Witnesses *)

Definition ex_ports : gset Z := {[80; 443; 81; 8080; 82]}.

Example ex_portRanges :
  portRanges (sorted_ports ex_ports) = [MkPortRange 80 82; MkPortRange 443 443; MkPortRange 8080 8080].
Proof. by vm_compute. Qed.

Lemma port_ranges_exact_witness :
  in_range ex_ports /\ (in_ranges (portRanges (sorted_ports ex_ports)) 81 <-> 81 ∈ ex_ports).
Proof.
  assert (in_range ex_ports) as H.
  { intros p. unfold ex_ports. rewrite !elem_of_union, !elem_of_singleton. lia. }
  split; [exact H|]. apply (port_ranges_exact ex_ports H).
Defined.

Import ToyKeys.

Definition ex_serve : result serve_plan := serve_services true true (Err (ErrNew "no files")) [] (B "8080,no-auth-ssh").
Definition ex_core (pl : serve_plan) : masqueCore :=
  Core (Public (KeyOps := toy) (nkey 9)) true None (plan_served pl) ∅ (newMasqueBind (K := toy) (nkey 9)) [].

Lemma serve_spec_governs_ports_witness :
  match ex_serve with
  | Ok pl => forall h,
      handleTCPForward (K := toy) (H := local_handler + Addr * Z) (ex_core pl)
        (Some (fun p => option_map inl (plan_OnTCP pl p)))
        (option_map (fun f x => option_map inr (f x)) (plan_OnTCPForward pl)) true
        (AsSlice (tcAddrForKey (K := toy) (c_pub (ex_core pl)))) 22 = TCPServe h <->
      exists lh, h = inl lh /\ plan_table pl 22 lh
  | Err _ => False
  end.
Proof.
  destruct ex_serve as [pl|e] eqn:E; [|revert E; by vm_compute].
  apply (serve_spec_governs_ports (K := toy) (KL := toy_laws) true true (Err (ErrNew "no files")) []
           (B "8080,no-auth-ssh") pl (ex_core pl) 22 E). done.
Defined.

Example ex_plan :
  match ex_serve with
  | Ok pl => (plan_OnTCP pl 22, plan_OnTCP pl 8080, plan_OnTCP pl 80, plan_served pl)
  | Err _ => (None, None, None, None)
  end = (Some HSSH, Some (HForward 8080), None, Some [MkPortRange 22 22; MkPortRange 8080 8080]).
Proof. by vm_compute. Qed.
