(* ===== verification/Derp.v ===== *)
(** Derp: connection blobs of the DERP transport and the DERP map.

    Models src/wire.go and the part of src/tailcat.go that makes and reads tc-prefixed
    connection blobs ([ConnBlob], [ParseConnBlob], [Resolve]), fetches the DERP map under
    its freshness policy ([fetchDERPMap]) and chooses a region ([Expand], with
    [PickBestRegion] of src/pickregion.go).  The CBOR and JSON codecs, HTTP and netcheck
    are parameters.  A region or node is a value; where Go shares a region between a
    [ConnInfo] and the caller's DERP map, the changed map is a result. *)

From S2P Require Import Prelude GoStd Keys.
From Stdlib Require Import Strings.Byte.

(** * Data *)

(** The fields of [tailcfg.DERPNode] that the wire form keeps; [n_extra] stands for the
    others, empty when all are zero. *)
Record DERPNode : Type := MkDERPNode {
  n_Name : gostring;
  n_RegionID : Z;
  n_HostName : gostring;
  n_CertName : gostring;
  n_IPv4 : gostring;
  n_IPv6 : gostring;
  n_STUNPort : Z;
  n_DERPPort : Z;
  n_InsecureForTests : bool;
  n_STUNOnly : bool;
  n_extra : list byte;
}.

(** [tailcfg.DERPRegion], likewise. *)
Record DERPRegion : Type := MkDERPRegion {
  r_RegionID : Z;
  r_RegionCode : gostring;
  r_RegionName : gostring;
  r_Nodes : list DERPNode;
  r_extra : list byte;
}.

(** [tailcfg.DERPMap] *)
Abbreviation DERPMap := (gmap Z DERPRegion).

(** src/wire.go:45-62 [wireNode] *)
Record wireNode : Type := WireNode {
  wn_Name : gostring;
  wn_RegionID : Z;
  wn_HostName : gostring;
  wn_CertName : gostring;
  wn_IPv4 : gostring;
  wn_IPv6 : gostring;
  wn_STUNPort : Z;
  wn_DERPPort : Z;
  wn_InsecureForTests : bool;
}.

(** src/wire.go:36-42 [wireRegion]; a nil pointer is [None] *)
Record wireRegion : Type := WireRegion {
  wr_RegionID : Z;
  wr_RegionCode : gostring;
  wr_RegionName : gostring;
  wr_Nodes : list (option wireNode);
}.

#[global] Instance DERPNode_eq_dec : EqDecision DERPNode.
Proof. solve_decision. Defined.
#[global] Instance DERPRegion_eq_dec : EqDecision DERPRegion.
Proof. solve_decision. Defined.
#[global] Instance wireNode_eq_dec : EqDecision wireNode.
Proof. solve_decision. Defined.
#[global] Instance wireRegion_eq_dec : EqDecision wireRegion.
Proof. solve_decision. Defined.

(** src/wire.go:69-92 [wireRegionOf], one node *)
Definition wireNodeOf (n : DERPNode) : option wireNode :=
  if n_STUNOnly n then None
  else Some (WireNode (n_Name n) (n_RegionID n) (n_HostName n) (n_CertName n) (n_IPv4 n) (n_IPv6 n)
               (n_STUNPort n) (n_DERPPort n) (n_InsecureForTests n)).

(** src/wire.go:69-92 [wireRegionOf] *)
Definition wireRegionOf (r : DERPRegion) : wireRegion :=
  WireRegion (r_RegionID r) (r_RegionCode r) (r_RegionName r) (Some <$> omap wireNodeOf (r_Nodes r)).

(** src/wire.go:101-111 [wireRegion.derpRegion], one node *)
Definition derpNode (n : wireNode) : DERPNode :=
  MkDERPNode (wn_Name n) (wn_RegionID n) (wn_HostName n) (wn_CertName n) (wn_IPv4 n) (wn_IPv6 n)
    (wn_STUNPort n) (wn_DERPPort n) (wn_InsecureForTests n) false [].

Section blob.
Context `{K : KeyOps}.

(** src/tailcat.go:144-169 [ConnInfo] *)
Record ConnInfo : Type := MkConnInfo {
  ci_ServerPublic : NodePublic;
  ci_ServerDiscoPublic : DiscoPublic;
  ci_Region : list DERPRegion;
  ci_RegionID : Z;
}.

(** src/wire.go:28-33 [wireConnInfo] *)
Record wireConnInfo : Type := WireConnInfo {
  wc_ServerPublic : NodePublic;
  wc_ServerDiscoPublic : option DiscoPublic;
  wc_Region : list (option wireRegion);
  wc_RegionID : Z;
}.

(** The binary form of the keys in the blob. *)

(** src/tailcat.go:204-206 [NodePublic.MarshalBinary] *)
Definition NodePublic_MarshalBinary (p : NodePublic) : list byte := Raw p.
(** src/tailcat.go:209-215 [NodePublic.UnmarshalBinary] *)
Definition NodePublic_UnmarshalBinary (x : list byte) : result NodePublic :=
  guard! zlen x =? NodePublicRawLen or ErrNew "invalid node public key length %d, want %d" in
  Ok (NodePublicFromRaw32 x).
(** src/tailcat.go:189-191 [DiscoPublic.MarshalBinary] *)
Definition DiscoPublic_MarshalBinary (p : DiscoPublic) : list byte := DiscoRaw p.
(** src/tailcat.go:194-200 [DiscoPublic.UnmarshalBinary] *)
Definition DiscoPublic_UnmarshalBinary (x : list byte) : result DiscoPublic :=
  guard! zlen x =? DiscoPublicRawLen or ErrNew "invalid disco public key length %d, want %d" in
  Ok (DiscoPublicFromRaw32 x).
End blob.

(** * The codecs *)

Definition int64 (z : Z) : bool := (- 2 ^ 63 <=? z) && (z <? 2 ^ 63).

Definition encodable_node (n : wireNode) : bool :=
  ascii (wn_Name n) && int64 (wn_RegionID n) && ascii (wn_HostName n) && ascii (wn_CertName n) &&
  ascii (wn_IPv4 n) && ascii (wn_IPv6 n) && int64 (wn_STUNPort n) && int64 (wn_DERPPort n).
Definition encodable_region (r : wireRegion) : bool :=
  int64 (wr_RegionID r) && ascii (wr_RegionCode r) && ascii (wr_RegionName r) &&
  (zlen (wr_Nodes r) <=? 131072) && forallb (fun n => from_option encodable_node true n) (wr_Nodes r).
(** What CBOR represents: text that is valid UTF-8 (here ASCII), 64-bit integers and
    arrays within the decoder's default limit. *)
Definition encodable `{K : KeyOps} (w : wireConnInfo) : bool :=
  int64 (wc_RegionID w) && (zlen (wc_Region w) <=? 131072) &&
  forallb (fun r => from_option encodable_region true r) (wc_Region w).

Class BlobOps {K : KeyOps} : Type := {
  (** [cbor.Marshal] ([None]: the error that makes [ConnBlob] panic) and
      [cbor.Unmarshal], at [wireConnInfo] *)
  MarshalConn : wireConnInfo -> option (list byte);
  UnmarshalConn : list byte -> result wireConnInfo;
  (** [json.Unmarshal] at [tailcfg.DERPMap]; maps with null regions or nodes, which the
      map service does not serve, are outside the model *)
  UnmarshalMap : list byte -> option DERPMap;
}.
Arguments BlobOps : clear implicits.

Class BlobLaws {K : KeyOps} (O : BlobOps K) : Prop := {
  cbor_roundtrip w b : encodable w = true -> MarshalConn w = Some b -> UnmarshalConn b = Ok w;
}.

(** src/tailcat.go:917-921 [memDERPMapEntry] *)
Record memDERPMapEntry : Type := MemDERPMapEntry { me_data : list byte; me_etag : gostring; me_storedAt : Z }.
Abbreviation memDERPMapCache := (gmap gostring memDERPMapEntry).

Section conn_blob.
Context {K : KeyOps} {O : BlobOps K}.

(** src/tailcat.go:759-764 [ConnInfo.ConnBlob], one node *)
Definition elide_node (n : wireNode) : wireNode :=
  WireNode (if negb (bool_decide (wn_HostName n = [])) then [] else wn_Name n) 0 (wn_HostName n)
    (wn_CertName n) (wn_IPv4 n) (wn_IPv6 n) (wn_STUNPort n) (wn_DERPPort n) (wn_InsecureForTests n).

(** src/tailcat.go:751-766 [ConnInfo.ConnBlob], one region *)
Definition elide_region (wr : wireRegion) : wireRegion :=
  WireRegion 0 [] [] (option_map elide_node <$> wr_Nodes wr).

(** src/tailcat.go:744-766 [ConnInfo.ConnBlob], the wire form *)
Definition wireOf (ci : ConnInfo) : wireConnInfo :=
  WireConnInfo (ci_ServerPublic ci)
    (if DiscoIsZero (ci_ServerDiscoPublic ci) then None else Some (ci_ServerDiscoPublic ci))
    ((fun r => Some (elide_region (wireRegionOf r))) <$> ci_Region ci) (ci_RegionID ci).

(** src/tailcat.go:743-777 [ConnInfo.ConnBlob]; [None] is the panic *)
Definition ConnBlob (ci : ConnInfo) : option gostring :=
  x ← MarshalConn (wireOf ci); Some (B "tc" ++ Base64.EncodeToString x).

(** src/tailcat.go:807-821 [parseWire] *)
Definition parseWire (cb : gostring) : result wireConnInfo :=
  match Strings.CutPrefix cb (B "tc") with
  | (_, false) => Err (ErrNew "server address doesn't start with tc")
  | (rest, true) =>
      match Base64.DecodeString rest with
      | Err e => Err (ErrWrap "base64 decode: %w" e)
      | Ok x =>
          match UnmarshalConn x with
          | Err _ => Err (ErrNew "CBOR unmarshal: %v")
          | Ok w => Ok w
          end
      end
  end.

(** src/tailcat.go:869-878 [ParseConnBlob], one node *)
Definition restore_node (rid : Z) (n : DERPNode) : DERPNode :=
  MkDERPNode (if bool_decide (n_Name n = []) then n_HostName n else n_Name n)
    (if n_RegionID n =? 0 then rid else n_RegionID n) (n_HostName n) (n_CertName n) (n_IPv4 n) (n_IPv6 n)
    (n_STUNPort n) (n_DERPPort n) (n_InsecureForTests n) (n_STUNOnly n) (n_extra n).

(** src/tailcat.go:862-879 [ParseConnBlob], the region at index [ri] *)
Definition restore_region (ri : nat) (r : DERPRegion) : DERPRegion :=
  let rid := if r_RegionID r =? 0 then Z.of_nat ri + 1 else r_RegionID r in
  MkDERPRegion rid (if bool_decide (r_RegionCode r = []) then Strconv.Itoa rid else r_RegionCode r)
    (r_RegionName r) (restore_node rid <$> r_Nodes r) (r_extra r).

(** src/wire.go:95-112 [wireRegion.derpRegion], behind the null checks of
    [ParseConnBlob] *)
Definition derpRegion (wr : option wireRegion) : result DERPRegion :=
  match wr with
  | None => Err (ErrNew "invalid connection blob: region %d is null")
  | Some w =>
      match mapM id (wr_Nodes w) with
      | None => Err (ErrNew "invalid connection blob: region %d node %d is null")
      | Some ns => Ok (MkDERPRegion (wr_RegionID w) (wr_RegionCode w) (wr_RegionName w) (derpNode <$> ns) [])
      end
  end.

Fixpoint derpRegions (ws : list (option wireRegion)) : result (list DERPRegion) :=
  match ws with
  | [] => Ok []
  | wr :: ws => let? r := derpRegion wr in let? rs := derpRegions ws in Ok (r :: rs)
  end.

(** src/tailcat.go:835-881 [ParseConnBlob] *)
Definition ParseConnBlob (cb : gostring) : result ConnInfo :=
  let? w := parseWire cb in
  let? rs := derpRegions (wc_Region w) in
  Ok (MkConnInfo (wc_ServerPublic w) (default DiscoPublicZero (wc_ServerDiscoPublic w))
        (imap restore_region rs) (wc_RegionID w)).

(** * The DERP map *)

(** src/tailcat.go:1011-1020 [decodeDERPMap] *)
Definition decodeDERPMap (data : list byte) : option DERPMap :=
  if zlen data =? 0 then None else UnmarshalMap data.

(** src/tailcat.go:925-930 [memDERPMapCache.Get] *)
Definition cache_Get (c : memDERPMapCache) (url : gostring) : option memDERPMapEntry := c !! url.
(** src/tailcat.go:932-937 [memDERPMapCache.Put] *)
Definition cache_Put (c : memDERPMapCache) (now : Z) (url : gostring) (data : list byte) (etag : gostring)
    : memDERPMapCache :=
  <[url := MemDERPMapEntry data etag now]> c.

Definition derpMapCacheMaxAge : Z := 3600 * Second.

(** What the map service answers: a status, the body or the error reading it, and the
    Etag header. *)
Record map_response : Type := MapResponse { mp_status : Z; mp_body : result (list byte); mp_etag : gostring }.

(** The world of one fetch: the clock, whether [http.NewRequest] takes the URL, and the
    answer to the request for a mode and an If-None-Match header. *)
Record fetch_env : Type := FetchEnv {
  fe_now : Z;
  fe_request : option gerror;
  fe_do : gostring -> option gostring -> result map_response;
}.

Definition maxDERPMapBody : Z := Z.shiftl 8 20.
(** [io.ReadAll(io.LimitReader(r, n))] *)
Definition LimitReader (n : Z) (b : list byte) : list byte := if n <? zlen b then take (Z.to_nat n) b else b.
#[local] Arguments LimitReader : simpl never.

(** src/tailcat.go:994-1006 [fetchDERPMap], a response that is not a revalidation *)
Definition fetch_body (staleOr : gerror -> result DERPMap) (res : map_response)
    : result DERPMap * option (list byte * gostring) * bool :=
  if negb (mp_status res =? 200) then (staleOr (ErrNew "fetching %v: %v"), None, true)
  else
    match mp_body res with
    | Err e => (staleOr e, None, true)
    | Ok body =>
        let body := LimitReader maxDERPMapBody body in
        match decodeDERPMap body with
        | None => (staleOr (ErrNew "invalid DERP map JSON from %v"), None, true)
        | Some dm => (Ok dm, Some (body, mp_etag res), true)
        end
    end.

(** src/tailcat.go:964-1006 [fetchDERPMap], past the freshness check; [stale] is the
    stored copy, if one is usable. *)
Definition fetch_network (env : fetch_env) (stale : option (memDERPMapEntry * DERPMap)) (mode : gostring)
    : result DERPMap * option (list byte * gostring) * bool :=
  let staleOr e := match stale with Some (_, dm) => Ok dm | None => Err e end in
  match fe_request env with
  | Some e => (Err e, None, false)
  | None =>
      let etag := match stale with Some (e, _) => me_etag e | None => [] end in
      match fe_do env mode (if bool_decide (etag = []) then None else Some etag) with
      | Err e => (staleOr e, None, true)
      | Ok res =>
          match stale with
          | Some (e, dm) =>
              if mp_status res =? 304 then (Ok dm, Some (me_data e, me_etag e), true)
              else fetch_body staleOr res
          | None => fetch_body staleOr res
          end
      end
  end.

(** src/tailcat.go:949-1007 [fetchDERPMap] on what [cache.Get] found: the result, what is
    given to [cache.Put], and whether a request was made. *)
Definition fetchDERPMap (env : fetch_env) (stored : option memDERPMapEntry) (mode : gostring)
    : result DERPMap * option (list byte * gostring) * bool :=
  let usable := e ← stored; dm ← decodeDERPMap (me_data e); Some (e, dm) in
  match usable with
  | Some (e, dm) =>
      if fe_now env - me_storedAt e <? derpMapCacheMaxAge then (Ok dm, None, false)
      else fetch_network env (Some (e, dm)) mode
  | None => fetch_network env None mode
  end.

(** The whole call with the in-memory cache. *)
Definition fetch_with_memory (env : fetch_env) (c : memDERPMapCache) (url mode : gostring)
    : result DERPMap * memDERPMapCache * bool :=
  let '(r, put, asked) := fetchDERPMap env (cache_Get c url) mode in
  (r, match put with Some (data, etag) => cache_Put c (fe_now env) url data etag | None => c end, asked).

(** The options of [Expand] and [FetchDERPMap]. *)
Inductive expand_opt : Type :=
  | OptDERPMapURL (url : gostring)
  | OptDERPMap (dm : DERPMap)
  | OptExpandForServer
  | OptDERPMapCache
  | OptUnknown.

Record expand_opts : Type := ExpandOpts {
  eo_url : gostring;
  eo_mode : gostring;
  eo_map : option DERPMap;
  eo_cache : bool;
}.

Definition DefaultDERPMapURL : gostring := B "https://tailcat.dev/derpmap.json".

(** src/tailcat.go:1036-1053 [ConnInfo.Expand], one option *)
Definition expand_option (o : expand_opts) (opt : expand_opt) : option expand_opts :=
  match opt with
  | OptDERPMapURL url => Some (ExpandOpts url (eo_mode o) (eo_map o) (eo_cache o))
  | OptDERPMap dm => Some (ExpandOpts (eo_url o) (eo_mode o) (Some dm) (eo_cache o))
  | OptExpandForServer => Some (ExpandOpts (eo_url o) (B "server") (eo_map o) (eo_cache o))
  | OptDERPMapCache => Some (ExpandOpts (eo_url o) (eo_mode o) (eo_map o) true)
  | OptUnknown => None
  end.

Definition expand_options (opts : list expand_opt) : option expand_opts :=
  foldl (fun o opt => o ← o; expand_option o opt) (Some (ExpandOpts DefaultDERPMapURL (B "client") None false)) opts.

(** src/tailcat.go:891-908 [FetchDERPMap]; [fetch] is [fetchDERPMap] with the chosen cache *)
Definition FetchDERPMap (fetch : gostring -> gostring -> bool -> result DERPMap) (opts : list expand_opt)
    : result DERPMap :=
  match expand_options opts with
  | None => Err (ErrNew "unknown FetchDERPMap option type %T")
  | Some o =>
      match eo_map o with
      | Some _ => Err (ErrNew "unknown FetchDERPMap option type %T")
      | None => fetch (eo_url o) (eo_mode o) (eo_cache o)
      end
  end.

(** src/pickregion.go:44-54 [PickBestRegion], one region of the report *)
Definition best_step (dm : DERPMap) (best : Z * Z) (l : Z * Z) : Z * Z :=
  match dm !! l.1 with
  | None => best
  | Some _ => if l.2 <? best.2 then l else best
  end.

(** src/pickregion.go:22-55 [PickBestRegion]: [report] is netcheck's list of regions and
    latencies, in the order of iteration *)
Definition PickBestRegion (dm : DERPMap) (report : result (list (Z * Z))) : result Z :=
  let? latencies := report in
  Ok (foldl (best_step dm) (0, 3600 * Second) latencies).1.

(** src/tailcat.go:1054-1063 [ConnInfo.Expand], the defaults of embedded regions *)
Definition expand_region (r : DERPRegion) : DERPRegion :=
  let rid := if r_RegionID r =? 0 then 1 else r_RegionID r in
  MkDERPRegion rid (r_RegionCode r) (r_RegionName r)
    ((fun n => if n_RegionID n =? 0
               then MkDERPNode (n_Name n) rid (n_HostName n) (n_CertName n) (n_IPv4 n) (n_IPv6 n) (n_STUNPort n)
                      (n_DERPPort n) (n_InsecureForTests n) (n_STUNOnly n) (n_extra n)
               else n) <$> r_Nodes r) (r_extra r).

Definition with_region (ci : ConnInfo) (rs : list DERPRegion) (rid : Z) : ConnInfo :=
  MkConnInfo (ci_ServerPublic ci) (ci_ServerDiscoPublic ci) rs rid.

(** The world of an expansion: the fetch, the shuffle of a region's nodes, netcheck's
    report and [rand.Intn]. *)
Record expand_env : Type := ExpandEnv {
  ee_fetch : gostring -> gostring -> bool -> result DERPMap;
  ee_shuffle : Z -> list DERPNode -> list DERPNode;
  ee_report : DERPMap -> result (list (Z * Z));
  ee_intn : nat -> nat;
}.

Definition shuffled (env : expand_env) (dm : DERPMap) : DERPMap :=
  map_imap (fun rid r => Some (MkDERPRegion (r_RegionID r) (r_RegionCode r) (r_RegionName r)
                                 (ee_shuffle env rid (r_Nodes r)) (r_extra r))) dm.

(** [slices.Sorted(maps.Keys(dm.Regions))] *)
Definition region_ids (dm : DERPMap) : list Z := merge_sort Z.le (map_to_list dm).*1.

(** src/tailcat.go:1080-1108 [ConnInfo.Expand], RegionID -1, the map with its nodes
    shuffled; with the ID of the region that is shared with the map *)
Definition expand_auto (env : expand_env) (ci : ConnInfo) (dm : DERPMap) : ConnInfo * result (option Z) :=
  match PickBestRegion dm (ee_report env dm) with
  | Err e => (ci, Err e)
  | Ok rid =>
      let choose rid := match dm !! rid with
                        | Some r => (with_region ci [r] 0, Ok (Some rid))
                        | None => (ci, Ok None)
                        end in
      if negb (rid =? 0) then choose rid
      else
        let ids := region_ids dm in
        match ids with
        | [] => (ci, Err (ErrNew "failed to auto-detect any regions"))
        | _ => match ids !! ee_intn env (length ids) with
               | Some rid => choose rid
               | None => (ci, Ok None)
               end
        end
  end.

(** src/tailcat.go:1035-1115 [ConnInfo.Expand]: the new [ci], the map that was used as it
    is afterwards, and the ID under which its region is shared with [ci] *)
Definition Expand (env : expand_env) (ci : ConnInfo) (opts : list expand_opt)
    : ConnInfo * option DERPMap * result (option Z) :=
  match expand_options opts with
  | None => (ci, None, Err (ErrNew "unknown Expand option type %T"))
  | Some o =>
      let ci := with_region ci (expand_region <$> ci_Region ci) (ci_RegionID ci) in
      if negb (bool_decide (ci_Region ci = [])) || (ci_RegionID ci =? 0) then (ci, eo_map o, Ok None)
      else
        match (match eo_map o with
               | Some dm => Ok dm
               | None => ee_fetch env (eo_url o) (eo_mode o) (eo_cache o)
               end) with
        | Err e => (ci, None, Err (ErrWrap "fetching DERPMap for region %v: %w" e))
        | Ok dm =>
            if ci_RegionID ci =? -1 then
              let dm := shuffled env dm in
              let '(ci, r) := expand_auto env ci dm in (ci, Some dm, r)
            else
              match dm !! ci_RegionID ci with
              | None => (ci, Some dm, Err (ErrNew "connection string said only DERP RegionID %v but no such region in %v"))
              | Some r => (with_region ci [r] (ci_RegionID ci), Some dm, Ok (Some (ci_RegionID ci)))
              end
        end
  end.

Definition two_nodes (r : DERPRegion) : DERPRegion :=
  MkDERPRegion (r_RegionID r) (r_RegionCode r) (r_RegionName r) (take 2 (r_Nodes r)) (r_extra r).

(** src/tailcat.go:786-803 [ConnBlob.Resolve]: the resolved blob ([Ok None] is the panic of
    [ConnBlob]) and the map afterwards, whose shared region is cut as well *)
Definition Resolve (env : expand_env) (b : gostring) (opts : list expand_opt)
    : result (option gostring) * option DERPMap :=
  match ParseConnBlob b with
  | Err e => (Err e, None)
  | Ok ci =>
      if negb (bool_decide (ci_Region ci = [])) then (Ok (Some b), None)
      else
        match Expand env ci opts with
        | (_, dm, Err e) => (Err e, dm)
        | (ci, dm, Ok shared) =>
            let ci := with_region ci (two_nodes <$> ci_Region ci) 0 in
            (Ok (ConnBlob ci),
             match shared with Some rid => alter two_nodes rid <$> dm | None => dm end)
        end
  end.
End conn_blob.

(** * The round trip *)

Section blob_properties.
Context {K : KeyOps} {O : BlobOps K} {BL : BlobLaws O}.

(** What of a node survives a blob: the fields a relay client uses, and a name. *)
Definition canonical_node (rid : Z) (n : DERPNode) : option DERPNode :=
  if n_STUNOnly n then None
  else Some (MkDERPNode (if bool_decide (n_HostName n = []) then n_Name n else n_HostName n) rid (n_HostName n)
               (n_CertName n) (n_IPv4 n) (n_IPv6 n) (n_STUNPort n) (n_DERPPort n) (n_InsecureForTests n) false []).
Definition canonical_region (i : nat) (r : DERPRegion) : DERPRegion :=
  MkDERPRegion (Z.of_nat i + 1) (Strconv.Itoa (Z.of_nat i + 1)) []
    (omap (canonical_node (Z.of_nat i + 1)) (r_Nodes r)) [].
Definition canonical (ci : ConnInfo) : ConnInfo :=
  with_region ci (imap canonical_region (ci_Region ci)) (ci_RegionID ci).

Lemma omap_cons {A B} (f : A -> option B) x (l : list A) :
  omap f (x :: l) = match f x with Some y => y :: omap f l | None => omap f l end.
Proof. done. Qed.

Lemma mapM_id_some {A B} (f : A -> B) (l : list A) : mapM id (option_map f <$> (Some <$> l)) = Some (f <$> l).
Proof. unfold fmap in *. induction l as [|x l IH]; [done|]. simpl. by rewrite IH. Qed.

Lemma derp_region_wire r :
  derpRegion (Some (elide_region (wireRegionOf r))) =
  Ok (MkDERPRegion 0 [] [] ((fun n => derpNode (elide_node n)) <$> omap wireNodeOf (r_Nodes r)) []).
Proof.
  unfold derpRegion, elide_region, wireRegionOf. cbn [wr_Nodes wr_RegionID wr_RegionCode wr_RegionName].
  rewrite mapM_id_some. by rewrite <- list_fmap_compose.
Qed.

Lemma derp_regions_wire rs :
  derpRegions ((fun r => Some (elide_region (wireRegionOf r))) <$> rs) =
  Ok ((fun r => MkDERPRegion 0 [] [] ((fun n => derpNode (elide_node n)) <$> omap wireNodeOf (r_Nodes r)) []) <$> rs).
Proof.
  induction rs as [|r rs IH]; [done|]. rewrite !fmap_cons. cbn [derpRegions].
  rewrite derp_region_wire. cbn [rbind]. by rewrite IH.
Qed.

Lemma restore_wire_node rid n :
  rid <> 0 ->
  (fun m => restore_node rid (derpNode (elide_node m))) <$> wireNodeOf n = canonical_node rid n.
Proof.
  intros Hr. unfold wireNodeOf, canonical_node. destruct (n_STUNOnly n); [done|]. simpl. f_equal.
  unfold restore_node, elide_node. simpl. f_equal.
  destruct (bool_decide (n_HostName n = [])) eqn:Eh; simpl; [|done]. apply bool_decide_eq_true in Eh.
  case_bool_decide as En; [by rewrite Eh, En|done].
Qed.

Lemma restore_wire_nodes rid (l : list DERPNode) :
  rid <> 0 ->
  restore_node rid <$> ((fun n => derpNode (elide_node n)) <$> omap wireNodeOf l) = omap (canonical_node rid) l.
Proof.
  intros Hr. induction l as [|n l IH]; [done|]. rewrite !omap_cons, <- IH, <- (restore_wire_node rid n Hr).
  by destruct (wireNodeOf n).
Qed.

Lemma restore_wire_region i r :
  restore_region i (MkDERPRegion 0 [] [] ((fun n => derpNode (elide_node n)) <$> omap wireNodeOf (r_Nodes r)) [])
  = canonical_region i r.
Proof.
  unfold restore_region, canonical_region. simpl. f_equal. apply restore_wire_nodes. lia.
Qed.

(** Making the wire form again from what was parsed gives the same wire form. *)
Lemma wire_canonical_nodes rid (l : list DERPNode) :
  elide_node <$> omap wireNodeOf (omap (canonical_node rid) l) = elide_node <$> omap wireNodeOf l.
Proof.
  induction l as [|n l IH]; [done|]. rewrite !omap_cons. unfold canonical_node at 1, wireNodeOf at 2.
  destruct (n_STUNOnly n); [done|]. rewrite omap_cons. unfold wireNodeOf at 1.
  cbn [n_STUNOnly n_Name n_RegionID n_HostName n_CertName n_IPv4 n_IPv6 n_STUNPort n_DERPPort n_InsecureForTests].
  rewrite !fmap_cons, IH. f_equal. unfold elide_node. simpl. f_equal.
  by destruct (bool_decide (n_HostName n = [])).
Qed.

Lemma wire_canonical_region i r :
  elide_region (wireRegionOf (canonical_region i r)) = elide_region (wireRegionOf r).
Proof.
  unfold elide_region, wireRegionOf. simpl. f_equal. rewrite <- !list_fmap_compose.
  pose proof (wire_canonical_nodes (Z.of_nat i + 1) (r_Nodes r)) as H.
  apply (f_equal (fmap Some)) in H. by rewrite <- !list_fmap_compose in H.
Qed.

Lemma wire_canonical ci : wireOf (canonical ci) = wireOf ci.
Proof.
  unfold wireOf, canonical. simpl. f_equal. rewrite fmap_imap.
  apply list_eq. intros i. rewrite list_lookup_imap, list_lookup_fmap.
  destruct (ci_Region ci !! i) as [r|]; [|done]. simpl. by rewrite wire_canonical_region.
Qed.

Lemma parse_wire_blob w x : MarshalConn w = Some x -> encodable w = true ->
  parseWire (B "tc" ++ Base64.EncodeToString x) = Ok w.
Proof.
  intros Hx He. unfold parseWire. rewrite cut_prefix_app, base64_decode_encode. by rewrite (cbor_roundtrip w x He Hx).
Qed.

Lemma parse_conn_blob ci blob :
  encodable (wireOf ci) = true -> ConnBlob ci = Some blob -> ParseConnBlob blob = Ok (canonical ci).
Proof.
  intros He H. unfold ConnBlob in H. destruct (MarshalConn (wireOf ci)) as [x|] eqn:Hx; [|done].
  assert (blob = B "tc" ++ Base64.EncodeToString x) as -> by (by injection H).
  unfold ParseConnBlob. rewrite (parse_wire_blob _ _ Hx He). cbn [rbind].
  unfold wireOf. cbn [wc_Region wc_ServerPublic wc_ServerDiscoPublic wc_RegionID].
  rewrite derp_regions_wire. cbn [rbind]. unfold canonical, with_region. do 2 f_equal.
  - unfold DiscoIsZero. case_bool_decide as Hz; [by rewrite Hz|done].
  - apply list_eq. intros i. rewrite !list_lookup_imap, list_lookup_fmap.
    destruct (ci_Region ci !! i) as [r|]; [|done]. simpl. f_equal. apply restore_wire_region.
Qed.

(** C32: a tc-prefixed blob parses back to the server's keys and region number it was made
    from, and to its regions in order with exactly their relay nodes, numbered from one;
    and what was parsed makes the same blob again. *)
Theorem conn_blob_roundtrip ci blob :
  encodable (wireOf ci) = true -> ConnBlob ci = Some blob ->
  ParseConnBlob blob = Ok (canonical ci) /\ ConnBlob (canonical ci) = Some blob.
Proof.
  intros He H. split; [by apply parse_conn_blob|]. unfold ConnBlob in *. by rewrite wire_canonical.
Qed.
End blob_properties.

(** * The freshness policy *)

Section map_properties.
Context {K : KeyOps} {O : BlobOps K}.

(** The stored map for a URL, when it decodes. *)
Definition usable (c : memDERPMapCache) (url : gostring) (e : memDERPMapEntry) (dm : DERPMap) : Prop :=
  c !! url = Some e /\ decodeDERPMap (me_data e) = Some dm.
Definition fresh (env : fetch_env) (e : memDERPMapEntry) : Prop :=
  fe_now env - me_storedAt e < derpMapCacheMaxAge.

(** What one fetch does to the stored entry, by what was usable. *)
Lemma fetch_body_spec (stale : option (memDERPMapEntry * DERPMap)) (r0 : gerror -> result DERPMap) res r put asked :
  (forall e, r0 e = match stale with Some (_, dm) => Ok dm | None => Err e end) ->
  fetch_body r0 res = (r, put, asked) ->
  asked = true /\ (is_Some stale -> exists dm, r = Ok dm) /\
  (forall data etag, put = Some (data, etag) -> exists dm, r = Ok dm /\ decodeDERPMap data = Some dm).
Proof.
  intros Hr0 H. unfold fetch_body in H. destruct (negb (mp_status res =? 200)).
  { injection H as <- <- <-. split_and!; [done| |done]. intros [[e dm] ->]. exists dm. by rewrite Hr0. }
  destruct (mp_body res) as [body|e].
  - destruct (decodeDERPMap _) as [dm|] eqn:Hd; injection H as <- <- <-.
    + split_and!; [done|by eexists|]. intros data etag [= <- <-]. by exists dm.
    + split_and!; [done| |done]. intros [[e dm] ->]. exists dm. by rewrite Hr0.
  - injection H as <- <- <-. split_and!; [done| |done]. intros [[e' dm] ->]. exists dm. by rewrite Hr0.
Qed.

Lemma fetch_network_spec env stale mode r put asked :
  (forall e dm, stale = Some (e, dm) -> decodeDERPMap (me_data e) = Some dm) ->
  fetch_network env stale mode = (r, put, asked) ->
  (fe_request env = None -> asked = true /\ (is_Some stale -> exists dm, r = Ok dm)) /\
  (forall data etag, put = Some (data, etag) -> exists dm, r = Ok dm /\ decodeDERPMap data = Some dm).
Proof.
  intros Hst H. unfold fetch_network in H. destruct (fe_request env) as [e0|]; [by injection H as <- <- <-|].
  destruct (fe_do env mode _) as [res|e1].
  - destruct stale as [[e dm]|].
    + destruct (mp_status res =? 304).
      * injection H as <- <- <-. split; [split; [done|by eexists]|]. intros data etag [= <- <-].
        exists dm. split; [done|]. by apply (Hst e).
      * apply (fetch_body_spec (Some (e, dm))) in H as (-> & Hs & Hp); [|done]. split; [done|exact Hp].
    + apply (fetch_body_spec None) in H as (-> & Hs & Hp); [|done]. split; [done|exact Hp].
  - injection H as <- <- <-. split; [|done]. split; [done|]. intros [[e dm] ->]. by exists dm.
Qed.

(** the freshness policy of the DERP map.  A usable stored map younger than an hour is
    the answer without any network traffic, and only that; a usable stored map of any age
    makes the fetch succeed whatever the service answers; other URLs' entries are left
    alone; and whatever is stored anew is the answer of every fetch of the next hour,
    again without network traffic. *)
Theorem derp_map_freshness env c url mode r c' asked :
  fe_request env = None -> fetch_with_memory env c url mode = (r, c', asked) ->
  (asked = false <-> exists e dm, usable c url e dm /\ fresh env e) /\
  (asked = false -> c' = c /\ exists e dm, usable c url e dm /\ r = Ok dm) /\
  (forall e dm, usable c url e dm -> exists dm', r = Ok dm') /\
  (forall url', url' <> url -> c' !! url' = c !! url') /\
  (c' <> c -> exists dm, r = Ok dm /\
     forall env' mode', fe_now env' - fe_now env < derpMapCacheMaxAge ->
       fetch_with_memory env' c' url mode' = (Ok dm, c', false)).
Proof.
  intros Hreq H. unfold fetch_with_memory in H. destruct (fetchDERPMap env (cache_Get c url) mode) as [[r0 put] a0] eqn:Hf.
  injection H as -> <- ->. unfold fetchDERPMap, cache_Get in Hf.
  set (u := e ← c !! url; dm ← decodeDERPMap (me_data e); Some (e, dm)) in *.
  assert (forall e dm, u = Some (e, dm) <-> usable c url e dm) as Hu.
  { intros e dm. unfold u, usable. destruct (c !! url) as [e0|]; simpl; [|naive_solver].
    destruct (decodeDERPMap (me_data e0)) as [dm0|] eqn:Hd; simpl; split; [intros [= <- <-]; by rewrite Hd|naive_solver|done|].
    intros [[= ->] ?]. congruence. }
  assert (forall data etag, put = Some (data, etag) -> exists dm, r = Ok dm /\ decodeDERPMap data = Some dm) as Hput.
  { destruct u as [[e dm]|] eqn:Eu.
    - destruct (_ <? _); [by injection Hf as <- <- <-|].
      eapply fetch_network_spec; [|exact Hf]. intros ? ? [= <- <-]. by apply Hu.
    - eapply fetch_network_spec; [|exact Hf]. done. }
  assert ((asked = false -> put = None) /\ (asked = false <-> exists e dm, u = Some (e, dm) /\ fresh env e) /\
          (asked = false -> exists e dm, u = Some (e, dm) /\ r = Ok dm) /\ (is_Some u -> exists dm, r = Ok dm))
    as (Hp & Hfr & Hr & Hok).
  { destruct u as [[e dm]|] eqn:Eu; unfold fresh.
    - destruct (fe_now env - me_storedAt e <? derpMapCacheMaxAge) eqn:Ea; bool_to_prop.
      + injection Hf as <- <- <-. split_and!; [done|naive_solver|naive_solver|naive_solver].
      + apply fetch_network_spec in Hf as [Hf _]; [|intros ? ? [= <- <-]; by apply Hu].
        destruct (Hf Hreq) as [-> Hs]. split_and!; [done| |done|done].
        split; [done|]. intros (? & ? & [= <- <-] & ?). lia.
    - apply fetch_network_spec in Hf as [Hf _]; [|done]. destruct (Hf Hreq) as [-> Hs].
      split_and!; [done| |done|done]. split; [done|]. by intros (? & ? & ? & ?). }
  clear Hf. split_and!.
  - rewrite Hfr. split; intros (e & dm & Hx & ?); exists e, dm; (split; [by apply Hu|done]).
  - intros Ha. rewrite (Hp Ha). split; [done|]. destruct (Hr Ha) as (e & dm & Hx & ?). exists e, dm.
    split; [by apply Hu|done].
  - intros e dm Hx%Hu. apply Hok. by rewrite Hx.
  - intros url' Hne. destruct put as [[data etag]|]; [|done]. apply lookup_insert_ne. done.
  - destruct put as [[data etag]|]; [|done]. intros _. destruct (Hput _ _ eq_refl) as (dm & -> & Hd). exists dm.
    split; [done|]. intros env' mode' Hage. set (m := cache_Put c (fe_now env) url data etag).
    assert (m !! url = Some (MemDERPMapEntry data etag (fe_now env))) as Hm by apply lookup_insert_eq.
    unfold fetch_with_memory, cache_Get, fetchDERPMap. rewrite Hm.
    cbn [mbind option_bind me_data me_storedAt]. rewrite Hd. cbn [mbind option_bind me_storedAt].
    by rewrite (proj2 (Z.ltb_lt _ _) Hage).
Qed.
End map_properties.

(** * Choosing a region *)

Section expand_properties.
Context {K : KeyOps} {O : BlobOps K}.

Lemma best_fold dm l b :
  let b' := foldl (best_step dm) b l in
  (b' = b \/ (b' ∈ l /\ is_Some (dm !! b'.1))) /\ b'.2 <= b.2 /\
  (forall x, x ∈ l -> is_Some (dm !! x.1) -> b'.2 <= x.2).
Proof.
  revert b. induction l as [|x l IH]; intros b; simpl.
  { split_and!; [by left|lia|]. intros x Hx. by apply not_elem_of_nil in Hx. }
  destruct (IH (best_step dm b x)) as (Hin & Hle & Hall). set (b' := foldl _ _ l) in *.
  assert ((best_step dm b x = b \/ (best_step dm b x = x /\ is_Some (dm !! x.1))) /\ (best_step dm b x).2 <= b.2 /\
          (is_Some (dm !! x.1) -> (best_step dm b x).2 <= x.2)) as (Hb & Hb1 & Hb2).
  { unfold best_step. destruct (dm !! x.1) as [r|].
    - destruct (x.2 <? b.2) eqn:E; bool_to_prop; split_and!; try done; try lia; [right; split; [done|by eexists]|by left].
    - split_and!; [by left|lia|]. by intros [? ?]. }
  split_and!; [|lia|].
  - destruct Hin as [->|[Hin Hs]]; [|right; split; [by apply list_elem_of_further|done]].
    destruct Hb as [->|[-> Hs]]; [by left|right; split; [apply list_elem_of_here|done]].
  - intros y [->|Hy]%elem_of_cons Hs; [|by apply Hall]. specialize (Hb2 Hs). lia.
Qed.

(** The region that netcheck prefers is one of the map's, and no other is nearer. *)
Lemma best_region_nearest dm latencies rid :
  PickBestRegion dm (Ok latencies) = Ok rid ->
  (rid <> 0 -> is_Some (dm !! rid)) /\
  (forall rid' d', (rid', d') ∈ latencies -> is_Some (dm !! rid') -> d' < 3600 * Second -> dm !! 0 = None ->
     exists d, (rid, d) ∈ latencies /\ rid <> 0 /\ d <= d').
Proof.
  unfold PickBestRegion. cbn [rbind]. intros [= <-]. destruct (best_fold dm latencies (0, 3600 * Second)) as (Hin & Hle & Hall).
  set (b := foldl _ _ _) in *. split.
  - intros Hb. destruct Hin as [->|[_ ?]]; [done|done].
  - intros rid' d' Hl Hs Hd H0. specialize (Hall _ Hl Hs). simpl in Hall, Hle.
    destruct Hin as [Hb|[Hb Hs']]; [rewrite Hb in Hall; simpl in Hall; lia|]. exists b.2. split_and!; [by destruct b| |lia].
    intros Hz. rewrite Hz, H0 in Hs'. by destruct Hs'.
Qed.

(** The map that an expansion starts from. *)
Definition expand_source (env : expand_env) (o : expand_opts) : result DERPMap :=
  match eo_map o with Some dm => Ok dm | None => ee_fetch env (eo_url o) (eo_mode o) (eo_cache o) end.

Definition same_region (r r' : DERPRegion) : Prop :=
  r_RegionID r = r_RegionID r' /\ r_RegionCode r = r_RegionCode r' /\ r_RegionName r = r_RegionName r' /\
  r_extra r = r_extra r' /\ r_Nodes r ≡ₚ r_Nodes r'.

Lemma shuffled_lookup env (dm : DERPMap) rid :
  shuffled env dm !! rid =
  (fun r => MkDERPRegion (r_RegionID r) (r_RegionCode r) (r_RegionName r) (ee_shuffle env rid (r_Nodes r)) (r_extra r))
    <$> dm !! rid.
Proof. unfold shuffled. rewrite map_lookup_imap. by destruct (dm !! rid). Qed.

(** What the choice by latency makes of a map. *)
Lemma expand_auto_spec env ci dm ci' res :
  (forall n, n <> 0%nat -> (ee_intn env n < n)%nat) ->
  expand_auto env ci dm = (ci', Ok res) ->
  exists rid r, res = Some rid /\ dm !! rid = Some r /\ ci' = with_region ci [r] 0 /\
    forall latencies rid' d', ee_report env dm = Ok latencies -> (rid', d') ∈ latencies -> is_Some (dm !! rid') ->
      d' < 3600 * Second -> dm !! 0 = None -> exists d, (rid, d) ∈ latencies /\ d <= d'.
Proof.
  intros Hintn H. unfold expand_auto in H. destruct (ee_report env dm) as [lat|e]; [|done].
  destruct (PickBestRegion dm (Ok lat)) as [rid|e] eqn:Hp; [|done]. apply best_region_nearest in Hp as [Hs Hbest].
  destruct (negb (rid =? 0)) eqn:Ez; bool_to_prop.
  - destruct (Hs Ez) as [r Hr]. rewrite Hr in H. injection H as <- <-. exists rid, r. split_and!; [done..|].
    intros lat' rid' d' [= <-] Hl Hm Hd H0. destruct (Hbest _ _ Hl Hm Hd H0) as (d & ? & _ & ?). by exists d.
  - destruct (region_ids dm) as [|i ids] eqn:Hids; [done|].
    assert (exists rid' r, (i :: ids) !! ee_intn env (length (i :: ids)) = Some rid' /\ dm !! rid' = Some r) as (rid' & r & Hl & Hr).
    { destruct (lookup_lt_is_Some_2 (i :: ids) (ee_intn env (length (i :: ids)))) as [rid' Hl]; [by apply Hintn|].
      exists rid'. assert (rid' ∈ region_ids dm) as Hin by (rewrite Hids; by eapply list_elem_of_lookup_2).
      unfold region_ids in Hin. rewrite merge_sort_Permutation in Hin. apply list_elem_of_fmap in Hin as ([k r] & -> & Hin).
      exists r. split; [done|]. by apply elem_of_map_to_list. }
    rewrite Hl, Hr in H. injection H as <- <-. exists rid', r. split_and!; [done..|].
    intros lat' rid'' d' [= <-] Hl' Hm Hd H0. subst. destruct (Hbest _ _ Hl' Hm Hd H0) as (d & _ & Hz & _). done.
Qed.

(** expansion embeds exactly what it should.  A region that is there already stays; of
    a region number the map's region is taken; and for -1 a region of the map, with the
    least latency of all measured within the hour if there is one.  The embedded region is
    the map's up to the order of its nodes; the server's keys never change. *)
Theorem expand_chooses_region env ci opts ci' dm shared :
  (forall rid l, ee_shuffle env rid l ≡ₚ l) -> (forall n, n <> 0%nat -> (ee_intn env n < n)%nat) ->
  Expand env ci opts = (ci', dm, Ok shared) ->
  ci_ServerPublic ci' = ci_ServerPublic ci /\ ci_ServerDiscoPublic ci' = ci_ServerDiscoPublic ci /\
  (ci_Region ci <> [] -> shared = None /\ ci_Region ci' = expand_region <$> ci_Region ci) /\
  (ci_Region ci = [] -> ci_RegionID ci <> 0 -> exists o m0 m rid r0 r,
     expand_options opts = Some o /\ expand_source env o = Ok m0 /\ m0 !! rid = Some r0 /\ same_region r r0 /\
     dm = Some m /\ m !! rid = Some r /\ shared = Some rid /\ ci_Region ci' = [r] /\
     (ci_RegionID ci <> -1 -> rid = ci_RegionID ci) /\
     (ci_RegionID ci = -1 -> forall latencies rid' d', ee_report env m = Ok latencies -> (rid', d') ∈ latencies ->
        is_Some (m !! rid') -> d' < 3600 * Second -> m !! 0 = None -> exists d, (rid, d) ∈ latencies /\ d <= d')).
Proof.
  intros Hshuf Hintn H. unfold Expand in H. destruct (expand_options opts) as [o|] eqn:Ho; [|done].
  cbn [with_region ci_Region ci_RegionID ci_ServerPublic ci_ServerDiscoPublic] in H.
  destruct (ci_Region ci) as [|r1 rs] eqn:Er; cbn [negb orb] in H; cycle 1.
  { injection H as <- <- <-. split_and!; [done..| |done]. intros _. by split. }
  rewrite bool_decide_eq_true_2 in H by done. cbn [negb orb] in H.
  destruct (ci_RegionID ci =? 0) eqn:E0; bool_to_prop.
  { injection H as <- <- <-. by split_and!. }
  fold (expand_source env o) in H. destruct (expand_source env o) as [m0|e] eqn:Hsrc; [|done].
  destruct (ci_RegionID ci =? -1) eqn:E1; bool_to_prop.
  - destruct (expand_auto env _ (shuffled env m0)) as [ci1 res] eqn:Ha. injection H as <- <- ->.
    apply expand_auto_spec in Ha as (rid & r & -> & Hr & -> & Hbest); [|done]. split_and!; [done..|].
    intros _ _. pose proof (shuffled_lookup env m0 rid) as Hl. rewrite Hr in Hl. destruct (m0 !! rid) as [r0|] eqn:Hr0; [|done].
    simpl in Hl. exists o, m0, (shuffled env m0), rid, r0, r. split_and!; try done.
    injection Hl as ->. unfold same_region. split_and!; [done..|apply Hshuf].
  - destruct (m0 !! ci_RegionID ci) as [r|] eqn:Hr; [|done]. injection H as <- <- <-. split_and!; [done..|].
    intros _ _. exists o, m0, m0, (ci_RegionID ci), r, r. unfold same_region. by split_and!.
Qed.
End expand_properties.

(** * Resolved blobs *)

Section resolve_properties.
Context {K : KeyOps} {O : BlobOps K} {BL : BlobLaws O}.

(** A map that the blob's codec can carry. *)
Definition encodable_map (m : DERPMap) : Prop :=
  forall rid r, m !! rid = Some r -> encodable_region (elide_region (wireRegionOf r)) = true.

(** Nothing is left to look up: expanding does not depend on the network. *)
Definition self_contained (ci : ConnInfo) : Prop :=
  forall env1 env2 opts, Expand env1 ci opts = Expand env2 ci opts.

Lemma self_contained_intro ci : ci_Region ci <> [] \/ ci_RegionID ci = 0 -> self_contained ci.
Proof.
  intros H env1 env2 opts. unfold Expand. destruct (expand_options opts) as [o|]; [|done].
  cbn [with_region ci_Region ci_RegionID].
  destruct H as [H| ->]; [|by rewrite Z.eqb_refl, orb_true_r].
  rewrite bool_decide_eq_false_2; [done|]. by destruct (ci_Region ci).
Qed.

Lemma encodable_resolved ci r :
  encodable_region (elide_region (wireRegionOf r)) = true -> encodable (wireOf (with_region ci [r] 0)) = true.
Proof.
  intros H. unfold encodable, wireOf. cbn [with_region ci_Region ci_RegionID wc_Region wc_RegionID fmap list_fmap].
  cbn [forallb from_option]. by rewrite H.
Qed.

(** a resolved blob is self-contained.  It names the same server as the original and
    using it never looks anything up; when the original names its relay, by region or by
    number, so does the resolved one; a blob that embeds its relay is left as it is; and
    an embedded region is the map's, as it is afterwards, with two nodes at most. *)
Theorem resolved_blob_is_self_contained env b opts b' dm ci :
  (forall rid l, ee_shuffle env rid l ≡ₚ l) -> (forall n, n <> 0%nat -> (ee_intn env n < n)%nat) ->
  ParseConnBlob b = Ok ci -> Resolve env b opts = (Ok (Some b'), dm) ->
  (forall m, dm = Some m -> encodable_map m) ->
  (ci_Region ci <> [] -> b' = b) /\
  exists ci', ParseConnBlob b' = Ok ci' /\ ci_ServerPublic ci' = ci_ServerPublic ci /\
    ci_ServerDiscoPublic ci' = ci_ServerDiscoPublic ci /\ self_contained ci' /\
    (ci_Region ci <> [] \/ ci_RegionID ci <> 0 -> ci_Region ci' <> []) /\
    (ci_Region ci = [] -> ci_RegionID ci <> 0 -> exists m rid r, dm = Some m /\ m !! rid = Some r /\
       ci_Region ci' = [canonical_region 0 r] /\ (length (r_Nodes r) <= 2)%nat).
Proof.
  intros Hshuf Hintn Hp H Henc. unfold Resolve in H. rewrite Hp in H.
  destruct (decide (ci_Region ci = [])) as [Hr|Hr]; cycle 1.
  { rewrite bool_decide_eq_false_2 in H by done. injection H as <- <-. split; [done|]. exists ci.
    split_and!; [done..|apply self_contained_intro; by left|done|done]. }
  rewrite bool_decide_eq_true_2 in H by done. cbn [negb] in H.
  destruct (Expand env ci opts) as [[ci1 dm1] [shared|e]] eqn:He; [|done].
  injection H as Hb Hdm. split; [done|].
  destruct (expand_chooses_region env ci opts ci1 dm1 shared Hshuf Hintn He) as (Hk1 & Hk2 & Hsame & Hnew).
  destruct (decide (ci_RegionID ci = 0)) as [Hz|Hz].
  - assert (ci1 = with_region ci [] 0) as ->.
    { unfold Expand in He. destruct (expand_options opts); [|done]. cbn [with_region ci_Region ci_RegionID] in He.
      rewrite Hz, Hr, orb_true_r in He. by injection He as <- _ _. }
    apply parse_conn_blob in Hb; [|done]. eexists. split; [exact Hb|]. cbn [canonical with_region ci_Region ci_RegionID
      ci_ServerPublic ci_ServerDiscoPublic]. split_and!; [done..|apply self_contained_intro; by right|naive_solver|done].
  - destruct (Hnew Hr Hz) as (o & m0 & m1 & rid & r0 & r & _ & _ & _ & _ & -> & Hl & -> & Hci1 & _). rewrite Hci1 in Hb.
    cbn [fmap list_fmap option_fmap option_map] in Hdm, Hb. subst dm.
    assert (alter two_nodes rid m1 !! rid = Some (two_nodes r)) as Hl'.
    { rewrite lookup_alter_eq. by rewrite Hl. }
    apply parse_conn_blob in Hb; [|by eapply encodable_resolved, Henc].
    eexists. split; [exact Hb|]. cbn [canonical with_region ci_Region ci_RegionID ci_ServerPublic ci_ServerDiscoPublic].
    split_and!; [done..|apply self_contained_intro; by left|done|].
    intros _ _. exists (alter two_nodes rid m1), rid, (two_nodes r). split_and!; [done..|].
    unfold two_nodes. cbn [r_Nodes]. rewrite length_take. lia.
Qed.

(** resolving can lose the relay.  The cut to two nodes comes before the nodes that
    only answer STUN are left out, so when those come first the resolved blob's region has
    no node at all, whatever relays the region has; and the cut is made in the caller's
    map too. *)
Theorem resolve_loses_relays env b b' dm ci m r :
  ParseConnBlob b = Ok ci -> ci_Region ci = [] -> ci_RegionID ci <> 0 -> ci_RegionID ci <> -1 ->
  m !! ci_RegionID ci = Some r -> Forall (fun n => n_STUNOnly n = true) (take 2 (r_Nodes r)) ->
  Resolve env b [OptDERPMap m] = (Ok (Some b'), dm) ->
  (exists ci' r', ParseConnBlob b' = Ok ci' /\ ci_Region ci' = [r'] /\ r_Nodes r' = []) /\
  dm = Some (<[ci_RegionID ci := two_nodes r]> m).
Proof.
  intros Hp Hr H0 H1 Hm Hstun H. unfold Resolve in H. rewrite Hp, bool_decide_eq_true_2 in H by done. cbn [negb] in H.
  unfold Expand in H. cbn [expand_options foldl mbind option_bind expand_option eo_map with_region ci_Region ci_RegionID] in H.
  rewrite Hr in H. cbn [fmap list_fmap] in H. rewrite bool_decide_eq_true_2 in H by done.
  rewrite (proj2 (Z.eqb_neq _ _) H0), (proj2 (Z.eqb_neq _ _) H1) in H. cbn [negb orb] in H. rewrite Hm in H.
  cbn [with_region ci_Region fmap list_fmap option_fmap option_map ci_ServerPublic ci_ServerDiscoPublic] in H.
  assert (forall f : DERPNode -> option wireNode, (forall n, n_STUNOnly n = true -> f n = None) -> omap f (take 2 (r_Nodes r)) = []) as Hnil.
  { intros f Hf. induction Hstun as [|n l Hn _ IH]; [done|]. rewrite omap_cons, (Hf n Hn). done. }
  injection H as Hb <-. apply parse_conn_blob in Hb; cycle 1.
  { apply (encodable_resolved ci). unfold elide_region, wireRegionOf, two_nodes. cbn [r_Nodes].
    rewrite Hnil; [done|]. intros n Hn. unfold wireNodeOf. by rewrite Hn. }
  split.
  - eexists _, _. split_and!; [exact Hb|done|]. simpl. clear Hnil.
    induction Hstun as [|n l Hn _ IH]; [done|]. rewrite omap_cons. unfold canonical_node at 1. by rewrite Hn.
  - f_equal. apply map_eq. intros i. destruct (decide (i = ci_RegionID ci)) as [->|Hne].
    + rewrite lookup_alter_eq, lookup_insert_eq. by rewrite Hm.
    + by rewrite lookup_alter_ne, lookup_insert_ne.
Qed.
End resolve_properties.

(** * Witnesses *)

Module ToyBlob.
Import ToyKeys.

#[global] Program Instance wireNode_countable : Countable wireNode :=
  inj_countable' (fun n => (wn_Name n, wn_RegionID n, wn_HostName n, wn_CertName n,
                            (wn_IPv4 n, wn_IPv6 n, wn_STUNPort n, wn_DERPPort n, wn_InsecureForTests n)))
    (fun '(a, b, c, d, (e, f, g, h, i)) => WireNode a b c d e f g h i) _.
Next Obligation. by intros []. Qed.
#[global] Program Instance wireRegion_countable : Countable wireRegion :=
  inj_countable' (fun r => (wr_RegionID r, wr_RegionCode r, wr_RegionName r, wr_Nodes r))
    (fun '(a, b, c, d) => WireRegion a b c d) _.
Next Obligation. by intros []. Qed.
#[global] Instance wireConnInfo_eq_dec : EqDecision (wireConnInfo (K := toy)).
Proof. solve_decision. Defined.
#[global] Program Instance wireConnInfo_countable : Countable (wireConnInfo (K := toy)) :=
  inj_countable' (fun w => (wc_ServerPublic (K := toy) w, wc_ServerDiscoPublic (K := toy) w, wc_Region w, wc_RegionID w))
    (fun '(a, b, c, d) => WireConnInfo a b c d) _.
Next Obligation. by intros []. Qed.

(** The bits of a positive as bytes. *)
Fixpoint pos_bytes (p : positive) : list byte :=
  match p with xH => [] | xO p => x00 :: pos_bytes p | xI p => x01 :: pos_bytes p end.
Fixpoint bytes_pos (l : list byte) : positive :=
  match l with [] => xH | b :: l => if bool_decide (b = x01) then xI (bytes_pos l) else xO (bytes_pos l) end.
Lemma bytes_pos_bytes p : bytes_pos (pos_bytes p) = p.
Proof. induction p as [p IH|p IH|]; simpl; [by rewrite IH|by rewrite IH|done]. Qed.

Definition node (name : string) (stun : bool) : DERPNode :=
  MkDERPNode (B name) 7 (B name) [] (B "192.0.2.1") [] 3478 443 false stun [].
Definition ex_region : DERPRegion :=
  MkDERPRegion 7 (B "sfo") (B "San Francisco") [node "s1" true; node "s2" true; node "relay" false] [].
Definition ex_map : DERPMap := {[7 := ex_region]}.

#[global] Instance toy_blob : BlobOps toy := {|
  MarshalConn := fun w => Some (pos_bytes (encode w));
  UnmarshalConn := fun b => match decode (bytes_pos b) with Some w => Ok w | None => Err (ErrNew "invalid CBOR") end;
  UnmarshalMap := fun b => if bool_decide (b = [x7b]) then Some ex_map else None;
|}.
#[global] Instance toy_blob_laws : BlobLaws toy_blob.
Proof. split. intros w b _ [= <-]. simpl. by rewrite bytes_pos_bytes, decode_encode. Qed.
End ToyBlob.
Import ToyKeys ToyBlob.

Definition ex_info (regions : list DERPRegion) (rid : Z) : ConnInfo (K := toy) :=
  MkConnInfo (K := toy) (nkey 1) (nkey 2) regions rid.

Lemma conn_blob_roundtrip_witness :
  match ConnBlob (K := toy) (ex_info [ex_region] 0) with
  | Some blob => ParseConnBlob (K := toy) blob = Ok (canonical (K := toy) (ex_info [ex_region] 0)) /\
                 ConnBlob (K := toy) (canonical (K := toy) (ex_info [ex_region] 0)) = Some blob
  | None => False
  end.
Proof.
  destruct (ConnBlob (K := toy) (ex_info [ex_region] 0)) as [blob|] eqn:E; [|done].
  apply (conn_blob_roundtrip (K := toy) (BL := toy_blob_laws)); [by vm_compute|exact E].
Defined.

Definition ex_fetch : fetch_env :=
  FetchEnv 0 None (fun mode etag => Ok (MapResponse 200 (Ok [x7b]) (B "v1"))).

Lemma derp_map_freshness_witness :
  match fetch_with_memory (O := toy_blob) ex_fetch ∅ (B "u") (B "client") with
  | (r, c', asked) =>
      asked = true /\ exists dm, r = Ok dm /\
        fetch_with_memory (O := toy_blob) (FetchEnv (3599 * Second) None (fun _ _ => Err (ErrNew "offline"))) c' (B "u")
          (B "server") = (Ok dm, c', false)
  end.
Proof.
  destruct (fetch_with_memory (O := toy_blob) ex_fetch ∅ (B "u") (B "client")) as [[r c'] asked] eqn:H.
  destruct (derp_map_freshness (O := toy_blob) ex_fetch ∅ (B "u") (B "client") r c' asked eq_refl H) as (H1 & _ & _ & _ & H5).
  assert (asked = true) as ->.
  { destruct asked; [done|]. destruct (proj1 H1 eq_refl) as (e & dm & [He _] & _). by rewrite lookup_empty in He. }
  split; [done|]. destruct H5 as (dm & -> & Hnext).
  - intros ->.
    assert (bool_decide (is_Some ((fetch_with_memory (O := toy_blob) ex_fetch ∅ (B "u") (B "client")).1.2 !! B "u")) = true)
      as Hs by vm_reflexivity.
    rewrite H in Hs. apply bool_decide_eq_true in Hs as [e He]. cbn [fst snd] in He. by rewrite lookup_empty in He.
  - exists dm. split; [done|]. by apply Hnext.
Defined.

(** A blob that names its region by number, and the map whose region starts with two nodes
    that only answer STUN. *)
Definition ex_blob : gostring := default [] (ConnBlob (K := toy) (ex_info [] 7)).
Definition ex_env : expand_env :=
  ExpandEnv (fun _ _ _ => Err (ErrNew "offline")) (fun _ l => l) (fun _ => Err (ErrNew "no netcheck")) pred.

Lemma ex_blob_parses : ParseConnBlob (K := toy) ex_blob = Ok (ex_info [] 7).
Proof. apply (parse_conn_blob (K := toy) (BL := toy_blob_laws) (ex_info [] 7)); [by vm_compute|done]. Qed.

Definition ex_resolved : result (option gostring) * option DERPMap :=
  Resolve (K := toy) ex_env ex_blob [OptDERPMap ex_map].

Lemma resolve_loses_relays_witness :
  match ex_resolved with
  | (Ok (Some b'), dm) =>
      (exists ci' r', ParseConnBlob (K := toy) b' = Ok ci' /\ ci_Region ci' = [r'] /\ r_Nodes r' = []) /\
      dm = Some (<[7 := two_nodes ex_region]> ex_map)
  | _ => False
  end.
Proof.
  destruct ex_resolved as [[[b'|]|e] dm] eqn:E.
  - apply (resolve_loses_relays (K := toy) (BL := toy_blob_laws) ex_env ex_blob b' dm (ex_info [] 7) ex_map ex_region);
      [exact ex_blob_parses|done|done|done|done| |exact E].
    constructor; [done|]. constructor; [done|]. constructor.
  - unfold ex_resolved, Resolve in E. rewrite ex_blob_parses in E. done.
  - unfold ex_resolved, Resolve in E. rewrite ex_blob_parses in E. done.
Defined.

Lemma resolved_blob_is_self_contained_witness :
  match ex_resolved with
  | (Ok (Some b'), _) => exists ci', ParseConnBlob (K := toy) b' = Ok ci' /\ self_contained (K := toy) ci'
  | _ => False
  end.
Proof.
  destruct ex_resolved as [[[b'|]|e] dm] eqn:E.
  - destruct (resolved_blob_is_self_contained (K := toy) (BL := toy_blob_laws) ex_env ex_blob [OptDERPMap ex_map] b' dm
                (ex_info [] 7)) as (_ & ci' & Hp & _ & _ & Hs & _); [intros rid l; reflexivity| |exact ex_blob_parses|exact E| |exists ci'; split; [exact Hp|exact Hs]].
    + intros n Hn. simpl. lia.
    + unfold ex_resolved, Resolve in E. rewrite ex_blob_parses in E. injection E as _ <-.
      intros m [= <-] rid r Hr. apply lookup_alter_Some in Hr as [(_ & r' & Hr' & ->)|[_ Hr']];
        unfold ex_map in Hr'; apply lookup_singleton_Some in Hr' as [_ <-]; by vm_compute.
  - unfold ex_resolved, Resolve in E. rewrite ex_blob_parses in E. done.
  - unfold ex_resolved, Resolve in E. rewrite ex_blob_parses in E. done.
Defined.
