(* ===== verification/Loco.v ===== *)
(** Loco: the DERP transport's backend, its server and its client.

    Models src/disco.go (meow packets) and [locoBackend], [Server] and [Client] of
    src/tailcat.go: who is admitted as a peer, the network map, addressing, the packet
    filter, the set-up of both sides and the meow handshake.  Tailscale's engine, netstack,
    magicsock, the packet filter and disco sealing are parameters: errors of their set-up
    are arguments, and what is sent through them is a result. *)

From S2P Require Import Prelude GoStd Keys Packet Fragment Bind Core Lifecycle Derp.
From Stdlib Require Import Strings.Byte.
Import Netip.

(** * Meow packets *)

Definition meowMagic : list byte := B "meow".
Definition meowTypePing : byte := x01.
Definition meowTypePong : byte := x02.

Section meow.
Context `{K : KeyOps}.

(** src/disco.go:26-28 [IsMeowPacket] *)
Definition IsMeowPacket (pkt : list byte) : bool := (4 <=? zlen pkt) && bool_decide (take 4 pkt = meowMagic).

(** src/disco.go:32-39 [EncodeMeowPing] *)
Definition EncodeMeowPing (nodeKey : NodePublic) (discoKey : DiscoPublic) : list byte :=
  meowMagic ++ [meowTypePing] ++ Raw nodeKey ++ DiscoRaw discoKey.

(** src/disco.go:42-47 [EncodeMeowed] *)
Definition EncodeMeowed : list byte := meowMagic ++ [meowTypePong].

(** src/disco.go:52-65 [ParseMeowPing] *)
Definition ParseMeowPing (pkt : list byte) : option (NodePublic * DiscoPublic) :=
  if zlen pkt <? 4 + 1 + NodePublicRawLen + DiscoPublicRawLen then None
  else if negb (bool_decide (pkt !! 4%nat = Some meowTypePing)) then None
  else
    let discoKey := DiscoPublicFromRaw32 (slice (5 + NodePublicRawLen) (5 + NodePublicRawLen + DiscoPublicRawLen) pkt) in
    if DiscoIsZero discoKey then None
    else Some (NodePublicFromRaw32 (slice 5 (5 + NodePublicRawLen) pkt), discoKey).

(** src/disco.go:68-70 [IsMeowedPacket] *)
Definition IsMeowedPacket (pkt : list byte) : bool :=
  (5 <=? zlen pkt) && bool_decide (take 4 pkt = meowMagic) && bool_decide (pkt !! 4%nat = Some meowTypePong).
End meow.

(** * Addresses *)

(** src/tailcat.go:1889-1891 [pfxOf] *)
Definition pfxOf (a : Addr) : Prefix6 := MkPrefix6 (AsSlice a).
(** src/tailcat.go:1117-1117 [allIPv6] *)
Definition allIPv6 : Prefix6 := MkPrefix6 [].
(** [pfx.Addr()] *)
Definition pfx_Addr (p : Prefix6) : Addr := A6 (pfx_bytes p ++ replicate (16 - length (pfx_bytes p)) x00) [].

(** [netip.AddrPort.Compare]: by the length of the address, its bytes, its zone, the port. *)
Fixpoint bytes_compare (a b : list byte) : comparison :=
  match a, b with
  | [], [] => Eq
  | [], _ => Lt
  | _, [] => Gt
  | x :: a, y :: b => match b2z x ?= b2z y with Eq => bytes_compare a b | c => c end
  end.
Definition zone_of (a : Addr) : gostring := match a with A6 _ z => z | _ => [] end.
Definition addrport_compare (a b : Addr * Z) : comparison :=
  match BitLen a.1 ?= BitLen b.1 with
  | Eq => match bytes_compare (AsSlice a.1) (AsSlice b.1) with
          | Eq => match bytes_compare (zone_of a.1) (zone_of b.1) with
                  | Eq => a.2 ?= b.2
                  | c => c
                  end
          | c => c
          end
  | c => c
  end.
Definition addrport_le (a b : Addr * Z) : Prop := addrport_compare a b <> Gt.
#[global] Instance addrport_le_dec : RelDecision addrport_le.
Proof. intros a b. unfold addrport_le. solve_decision. Defined.

(** [slices.Compact] *)
Fixpoint Compact {A} `{EqDecision A} (l : list A) : list A :=
  match l with
  | x :: l' => match l' with
               | y :: _ => if bool_decide (x = y) then Compact l' else x :: Compact l'
               | [] => [x]
               end
  | [] => []
  end.

(** * The backend *)

(** disco.CallMeMaybe's encoding and the sealing with a shared key *)
Class SealOps {K : KeyOps} (D : DiscoKeyOps K) : Type := {
  CallMeMaybe : list (Addr * Z) -> list byte;
  SharedSeal : DiscoPrivate -> DiscoPublic -> list byte -> list byte;
}.

Section loco.
Context `{K : KeyOps} {D : DiscoKeyOps K}.
(** The region ID under which iterating a DERP map starts. *)
Context (first_region : DERPMap -> option Z).

(** [tailcfg.Node], the fields the program sets *)
Record tsNode : Type := TSNode {
  nd_ID : Z;
  nd_StableID : gostring;
  nd_Name : gostring;
  nd_Key : NodePublic;
  nd_DiscoKey : DiscoPublic;
  nd_Addresses : list Prefix6;
  nd_AllowedIPs : list Prefix6;
  nd_HomeDERP : Z;
}.

(** [netmap.NetworkMap] *)
Record netMap : Type := NetMap { nm_SelfNode : tsNode; nm_Peers : list tsNode }.

(** src/tailcat.go:246-274 [locoBackend], without its subsystems *)
Record locoBackend : Type := LocoBackend {
  lb_priv : NodePrivate;
  lb_pub : NodePublic;
  lb_addr : Addr;
  lb_dm : DERPMap;
  lb_serverPub : NodePublic;
  lb_serverDiscoPub : DiscoPublic;
  lb_isServer : bool;
  lb_clients : gmap NodePublic tsNode;
  lb_nm : option netMap;
  lb_allowedClients : option (gmap NodePublic unit);
  lb_eps : list (Addr * Z);
}.

Definition addrPrefix (b : locoBackend) : Prefix6 := pfxOf (lb_addr b).
Definition discoPublic (b : locoBackend) : DiscoPublic := DiscoPublicForNode (lb_priv b).

Definition with_clients (b : locoBackend) (m : gmap NodePublic tsNode) (nm : netMap) : locoBackend :=
  LocoBackend (lb_priv b) (lb_pub b) (lb_addr b) (lb_dm b) (lb_serverPub b) (lb_serverDiscoPub b) (lb_isServer b)
    m (Some nm) (lb_allowedClients b) (lb_eps b).
Definition with_nm (b : locoBackend) (nm : netMap) : locoBackend := with_clients b (lb_clients b) nm.
Definition with_allowed (b : locoBackend) (m : option (gmap NodePublic unit)) : locoBackend :=
  LocoBackend (lb_priv b) (lb_pub b) (lb_addr b) (lb_dm b) (lb_serverPub b) (lb_serverDiscoPub b) (lb_isServer b)
    (lb_clients b) (lb_nm b) m (lb_eps b).
Definition with_eps (b : locoBackend) (eps : list (Addr * Z)) : locoBackend :=
  LocoBackend (lb_priv b) (lb_pub b) (lb_addr b) (lb_dm b) (lb_serverPub b) (lb_serverDiscoPub b) (lb_isServer b)
    (lb_clients b) (lb_nm b) (lb_allowedClients b) eps.
Definition with_dm (b : locoBackend) (dm : DERPMap) : locoBackend :=
  LocoBackend (lb_priv b) (lb_pub b) (lb_addr b) dm (lb_serverPub b) (lb_serverDiscoPub b) (lb_isServer b)
    (lb_clients b) (lb_nm b) (lb_allowedClients b) (lb_eps b).
Definition with_server (b : locoBackend) (pub : NodePublic) (disco : DiscoPublic) : locoBackend :=
  LocoBackend (lb_priv b) (lb_pub b) (lb_addr b) (lb_dm b) pub disco (lb_isServer b)
    (lb_clients b) (lb_nm b) (lb_allowedClients b) (lb_eps b).
Definition as_server (b : locoBackend) : locoBackend :=
  LocoBackend (lb_priv b) (lb_pub b) (lb_addr b) (lb_dm b) (lb_serverPub b) (lb_serverDiscoPub b) true
    (lb_clients b) (lb_nm b) (lb_allowedClients b) (lb_eps b).

(** src/tailcat.go:701-714 [newLocoBackend] *)
Definition newLocoBackend (priv : NodePrivate) : locoBackend :=
  let pub := Public priv in
  LocoBackend priv pub (tcAddrForKey pub) ∅ NodePublicZero DiscoPublicZero false ∅ None None [].

(** src/tailcat.go:276-284 [locoBackend.derpRegionID]; [None] is the panic *)
Definition derpRegionID (b : locoBackend) : option Z :=
  rid ← first_region (lb_dm b); r ← lb_dm b !! rid; Some (r_RegionID r).

(** src/tailcat.go:1122-1138 [locoBackend.peerAllowedIPs] *)
Definition peerAllowedIPs (b : locoBackend) (k : NodePublic) : option (list Prefix6) :=
  if negb (IsZero (lb_serverPub b)) then
    if bool_decide (k = lb_serverPub b) then Some [pfxOf (tcAddrForKey k); allIPv6] else None
  else nd_AllowedIPs <$> lb_clients b !! k.

(** src/tailcat.go:1143-1156 [locoBackend.peerByIP]; [order] is the order in which the
    clients are visited *)
Definition peerByIP (b : locoBackend) (order : list NodePublic) (dst : Addr) : option NodePublic :=
  if negb (IsZero (lb_serverPub b)) then Some (lb_serverPub b)
  else List.find (fun k => bool_decide (is_Some (lb_clients b !! k)) && bool_decide (tcAddrForKey k = dst)) order.

(** src/tailcat.go:1251-1261 [nodeHasAddr], of a valid node *)
Definition nodeHasAddr (n : tsNode) (ip : Addr) : bool :=
  existsb (fun p => bool_decide (pfx_Addr p = ip)) (nd_Addresses n).

(** src/tailcat.go:1161-1177 [locoBackend.peerForIP]: the node, and whether it is ours *)
Definition peerForIP (b : locoBackend) (ip : Addr) : option (tsNode * bool) :=
  nm ← lb_nm b;
  if nodeHasAddr (nm_SelfNode nm) ip then Some (nm_SelfNode nm, true)
  else (fun p => (p, false)) <$> List.find (fun p => nodeHasAddr p ip) (nm_Peers nm).

(** src/tailcat.go:1185-1204 [locoBackend.onEngineStatus]: whether endpoints are to be
    advertised; [None] is an error or a nil status *)
Definition onEngineStatus (b : locoBackend) (st : option (list (Addr * Z))) : locoBackend * bool :=
  match st with
  | None => (b, false)
  | Some addrs =>
      let eps := Compact (merge_sort addrport_le addrs) in
      let changed := negb (bool_decide (eps = lb_eps b)) in
      (if changed then with_eps b eps else b, changed && negb (bool_decide (eps = [])))
  end.

(** A packet for a peer in a region. *)
Record derp_packet : Type := DerpPacket { dp_dst : NodePublic; dp_region : Z; dp_bytes : list byte }.

(** src/tailcat.go:1213-1248 [locoBackend.advertiseEndpoints]: the packets it sends, one
    per peer; [js] is a browser build, [None] the panic of a backend without a map *)
Definition advertiseEndpoints {S : SealOps D} (js : bool) (b : locoBackend) : option (list derp_packet) :=
  let peers := match lb_nm b with Some nm => nm_Peers nm | None => [] end in
  if js then Some []
  else if bool_decide (lb_eps b = []) then Some []
  else match peers with
       | [] => Some []
       | _ =>
           let payload := CallMeMaybe (lb_eps b) in
           let discoPriv := discoPrivateForNode (lb_priv b) in
           regionID ← derpRegionID b;
           Some ((fun p => DerpPacket (nd_Key p) regionID
                             (DiscoMagic ++ DiscoRaw (discoPublic b) ++ SharedSeal discoPriv (nd_DiscoKey p) payload)) <$> peers)
       end.

(** src/tailcat.go:1282-1292 [locoBackend.Start], the server's own node *)
Definition server_node (b : locoBackend) (region : Z) : tsNode :=
  TSNode 1 (B "1") (B "server.tailcat.") (lb_pub b) (discoPublic b) [addrPrefix b] [addrPrefix b; allIPv6] region.
(** src/tailcat.go:1298-1307 [locoBackend.Start], the client's own node *)
Definition client_node (b : locoBackend) (region : Z) : tsNode :=
  TSNode 2 (B "2") (B "client.tailcat.") (lb_pub b) (discoPublic b) [addrPrefix b] [] region.
(** src/tailcat.go:1295-1318 [locoBackend.Start], the server as the client's peer *)
Definition server_peer (b : locoBackend) (region : Z) : tsNode :=
  let p := pfxOf (tcAddrForKey (lb_serverPub b)) in
  TSNode 1 (B "1") (B "server.tailcat.") (lb_serverPub b) (lb_serverDiscoPub b) [p] [p; allIPv6] region.

(** src/tailcat.go:1263-1356 [locoBackend.Start]: the backend, WireGuard's addresses and
    the error, for the errors of the netstack and of the engine; [None] is a panic *)
Definition lb_Start (b : locoBackend) (netstack engine : option gerror)
    : option (locoBackend * list Prefix6 * option gerror) :=
  match netstack with
  | Some e => Some (b, [], Some (ErrWrap "failed to start netstack: %w" e))
  | None =>
      derpRegion ← derpRegionID b;
      let server := IsZero (lb_serverPub b) in
      let nm := if server then NetMap (server_node b derpRegion) []
                else NetMap (client_node b derpRegion) [server_peer b derpRegion] in
      let addresses := addrPrefix b :: (if server then [allIPv6] else []) in
      Some (with_nm b nm, addresses, (fun e => ErrWrap "e.Reconfig: %w" e) <$> engine)
  end.

Definition node_le (a b : tsNode) : Prop := nd_ID a <= nd_ID b.
#[export] Instance node_le_dec : RelDecision node_le.
Proof. intros a b. unfold node_le. apply _. Defined.


(** src/tailcat.go:1374-1386 [locoBackend.onMeow], the new client's node *)
Definition meow_node (b : locoBackend) (src : NodePublic) (discoPub : DiscoPublic) (region : Z) : tsNode :=
  let id := Z.of_nat (size (lb_clients b)) + 2 in
  let p := pfxOf (tcAddrForKey src) in
  TSNode id (Strconv.Itoa id) (B "client" ++ Strconv.Itoa id ++ B ".tailcat.") src discoPub [p] [p] region.

(** src/tailcat.go:1362-1422 [locoBackend.onMeow]: whether the client is a peer now, and
    whether endpoints are to be advertised; [None] is a panic *)
Definition onMeow (b : locoBackend) (src : NodePublic) (discoPub : DiscoPublic)
    : option (locoBackend * bool * bool) :=
  if match lb_allowedClients b with Some m => negb (bool_decide (is_Some (m !! src))) | None => false end then
    Some (b, false, false)
  else if bool_decide (is_Some (lb_clients b !! src)) then Some (b, true, false)
  else
    derpRegion ← derpRegionID b;
    let clients := <[src := meow_node b src discoPub derpRegion]> (lb_clients b) in
    let peers := merge_sort node_le (map_to_list clients).*2 in
    Some (with_clients b clients (NetMap (server_node b derpRegion) peers), true, true).

(** src/tailcat.go:454-474 [Server.Start, onDERPRecv]: whether the packet was taken, and the
    handshake that is started for it *)
Definition server_onDERPRecv (pkt : list byte) : bool * option DiscoPublic :=
  if negb (IsMeowPacket pkt) then (false, None)
  else if IsMeowedPacket pkt then (true, None)
  else match ParseMeowPing pkt with
       | Some (_, discoPub) => (true, Some discoPub)
       | None => (false, None)
       end.

(** src/tailcat.go:463-470 [Server.Start, onDERPRecv], the goroutine: the reply *)
Definition meow_goroutine (b : locoBackend) (src : NodePublic) (region : Z) (discoPub : DiscoPublic)
    : option (locoBackend * option derp_packet * bool) :=
  match onMeow b src discoPub with
  | None => None
  | Some (b, ok, advertise) => Some (b, if ok then Some (DerpPacket src region EncodeMeowed) else None, advertise)
  end.

(** src/tailcat.go:682-691 [Server.AddAllowedClient], of a server that was started *)
Definition lb_AddAllowedClient (b : locoBackend) (k : NodePublic) : locoBackend :=
  with_allowed b (Some (<[k := tt]> (default ∅ (lb_allowedClients b)))).

(** * The server *)

(** src/tailcat.go:315-388 [Server]; the handlers are what they return *)
Record Server {H : Type} : Type := MkServer {
  s_Key : NodePrivate;
  s_Region : option DERPRegion;
  s_RegionID : Z;
  s_DERPMapURL : gostring;
  s_DERPMapCache : bool;
  s_AllowedClients : list NodePublic;
  s_lb : option locoBackend;
  s_OnTCP : option (Z -> option H);
  s_OnTCPForward : option (Addr * Z -> option H);
  s_ServedTCPPorts : option (list PortRange);
}.
#[global] Arguments Server : clear implicits.
#[global] Arguments MkServer {H}.

Definition with_lb {H} (s : Server H) (lb : option locoBackend) : Server H :=
  MkServer (s_Key s) (s_Region s) (s_RegionID s) (s_DERPMapURL s) (s_DERPMapCache s) (s_AllowedClients s) lb
    (s_OnTCP s) (s_OnTCPForward s) (s_ServedTCPPorts s).

(** What the packet filter is made from: the destinations of new TCP connections that
    match, and the addresses that are local. *)
Record filter_config : Type := FilterConfig { f_dsts : list (Prefix6 * PortRange); f_local : list Prefix6 }.

(** src/tailcat.go:531-531 [allTCPPorts] *)
Definition allTCPPorts : PortRange := MkPortRange 0 65535.

(** src/tailcat.go:540-569 [Server.buildFilter] *)
Definition buildFilter {H} (s : Server H) (lb : locoBackend) : filter_config :=
  let selfPorts := default [allTCPPorts] (s_ServedTCPPorts s) in
  let selfDsts := (fun pr => (addrPrefix lb, pr)) <$> selfPorts in
  match s_OnTCPForward s with
  | None => FilterConfig selfDsts [addrPrefix lb]
  | Some _ => FilterConfig (selfDsts ++ [(allIPv6, allTCPPorts)]) [addrPrefix lb; allIPv6]
  end.

(** src/tailcat.go:487-504 [Server.Start, GetTCPHandlerForFlow]; [None] is a reset *)
Definition GetTCPHandlerForFlow {H} (s : Server H) (lb : locoBackend) (dst : Addr) (port : Z) : option H :=
  if bool_decide (dst = lb_addr lb) then f ← s_OnTCP s; f port
  else
    f ← s_OnTCPForward s;
    let dst := if Contains nat64Prefix dst then A4 (slice 12 16 (As16 dst)) else dst in
    f (dst, port).

(** The subsystems of a start, each with its error if it fails, and a fresh key. *)
Record start_env : Type := StartEnv {
  se_newKey : NodePrivate;
  se_netmon : option gerror;
  se_engine : option gerror;
  se_newNetstack : option gerror;
  se_netstack : option gerror;
  se_reconfig : option gerror;
}.

(** The first subsystem that fails, as the starts report it. *)
Definition setup_error (e : start_env) : option gerror :=
  match se_netmon e with
  | Some x => Some (ErrWrap "netmon.New: %w" x)
  | None => match se_engine e with
            | Some x => Some (ErrWrap "createEngine: %w" x)
            | None => (fun x => ErrWrap "newNetstack: %w" x) <$> se_newNetstack e
            end
  end.

(** src/tailcat.go:406-420 [Server.Start], the region *)
Definition server_region {O : BlobOps K} {H} (s : Server H) (env : expand_env) : result DERPRegion :=
  match s_Region s with
  | Some r => Ok r
  | None =>
      let ci := MkConnInfo NodePublicZero DiscoPublicZero [] (if s_RegionID s =? 0 then -1 else s_RegionID s) in
      let opts := OptExpandForServer :: (if bool_decide (s_DERPMapURL s = []) then [] else [OptDERPMapURL (s_DERPMapURL s)])
                    ++ (if s_DERPMapCache s then [OptDERPMapCache] else []) in
      match Expand env ci opts with
      | (_, _, Err e) => Err e
      | (ci, _, Ok _) => match ci_Region ci with
                         | r :: _ => Ok r
                         | [] => Err (ErrNew "index out of range")   (* a panic; Expand gives a region here *)
                         end
      end
  end.

(** src/tailcat.go:394-529 [Server.Start]; [None] is a panic.  The backend that is
    abandoned on an error has been closed. *)
Definition server_Start {O : BlobOps K} {H} (s : Server H) (env : start_env) (xenv : expand_env)
    : option (Server H * option gerror) :=
  match s_lb s with
  | Some _ => Some (s, Some (ErrNew "tailcat: Server.Start called twice"))
  | None =>
      let priv := if PrivIsZero (s_Key s) then se_newKey env else s_Key s in
      match server_region s xenv with
      | Err e => Some (s, Some e)
      | Ok reg =>
          if r_RegionID reg =? 0 then Some (s, Some (ErrNew "missing RegionID in %v"))
          else
            let lb := with_dm (newLocoBackend priv) {[r_RegionID reg := reg]} in
            let lb := with_allowed lb (match s_AllowedClients s with
                                       | [] => None
                                       | ks => Some (list_to_map ((fun k => (k, tt)) <$> ks))
                                       end) in
            match setup_error env with
            | Some e => Some (s, Some e)
            | None =>
                match lb_Start (as_server lb) (se_netstack env) (se_reconfig env) with
                | None => None
                | Some (_, _, Some e) => Some (s, Some e)
                | Some (lb, _, None) => Some (with_lb s (Some lb), None)
                end
            end
      end
  end.

(** src/tailcat.go:682-691 [Server.AddAllowedClient] *)
Definition server_AddAllowedClient {H} (s : Server H) (k : NodePublic) : Server H :=
  match s_lb s with
  | None => MkServer (s_Key s) (s_Region s) (s_RegionID s) (s_DERPMapURL s) (s_DERPMapCache s)
              (s_AllowedClients s ++ [k]) None (s_OnTCP s) (s_OnTCPForward s) (s_ServedTCPPorts s)
  | Some lb => with_lb s (Some (lb_AddAllowedClient lb k))
  end.

(** * The client *)

(** src/tailcat.go:1501-1537 [Client] *)
Record Client : Type := MkClient {
  cl_Server : gostring;
  cl_Key : NodePrivate;
  cl_DERPMapURL : gostring;
  cl_DERPMapCache : bool;
  cl_lb : option locoBackend;
  cl_ci : ConnInfo;
  cl_meowed : bool;                 (* [meowWait] is closed *)
  cl_serverAddr : Addr;
  cl_key : NodePrivate;
  cl_started : bool;
  cl_upDone : bool;
}.

(** src/tailcat.go:1557-1559 [NewClient] *)
Definition NewClient (server : gostring) : Client :=
  MkClient server NodePrivateZero [] false None (MkConnInfo NodePublicZero DiscoPublicZero [] 0) false AddrZero
    NodePrivateZero false false.

Definition with_key (c : Client) (k : NodePrivate) : Client :=
  MkClient (cl_Server c) (cl_Key c) (cl_DERPMapURL c) (cl_DERPMapCache c) (cl_lb c) (cl_ci c) (cl_meowed c)
    (cl_serverAddr c) k (cl_started c) (cl_upDone c).
Definition with_stack (c : Client) (lb : locoBackend) (ci : ConnInfo) : Client :=
  MkClient (cl_Server c) (cl_Key c) (cl_DERPMapURL c) (cl_DERPMapCache c) (Some lb) ci false
    (tcAddrForKey (ci_ServerPublic ci)) (cl_key c) (cl_started c) (cl_upDone c).
Definition with_backend (c : Client) (lb : locoBackend) (ci : ConnInfo) (started : bool) : Client :=
  MkClient (cl_Server c) (cl_Key c) (cl_DERPMapURL c) (cl_DERPMapCache c) (Some lb) ci (cl_meowed c)
    (cl_serverAddr c) (cl_key c) started (cl_upDone c).
Definition with_meowed (c : Client) : Client :=
  MkClient (cl_Server c) (cl_Key c) (cl_DERPMapURL c) (cl_DERPMapCache c) (cl_lb c) (cl_ci c) true
    (cl_serverAddr c) (cl_key c) (cl_started c) (cl_upDone c).
Definition with_up (c : Client) : Client :=
  MkClient (cl_Server c) (cl_Key c) (cl_DERPMapURL c) (cl_DERPMapCache c) (cl_lb c) (cl_ci c) (cl_meowed c)
    (cl_serverAddr c) (cl_key c) (cl_started c) true.

(** src/tailcat.go:1542-1551 [Client.nodeKeyLocked]; [fresh] is what [key.NewNode] draws *)
Definition nodeKeyLocked (c : Client) (fresh : NodePrivate) : Client * NodePrivate :=
  if PrivIsZero (cl_key c) then
    let k := if negb (PrivIsZero (cl_Key c)) then cl_Key c else fresh in (with_key c k, k)
  else (c, cl_key c).

(** src/tailcat.go:1671-1675 [Client.PublicKey] *)
Definition client_PublicKey (c : Client) (fresh : NodePrivate) : Client * NodePublic :=
  let '(c, k) := nodeKeyLocked c fresh in (c, Public k).

(** src/tailcat.go:1565-1667 [Client.initLocked] *)
Definition initLocked {O : BlobOps K} (c : Client) (env : start_env) : Client * option gerror :=
  match cl_lb c with
  | Some _ => (c, None)
  | None =>
      match ParseConnBlob (cl_Server c) with
      | Err e => (c, Some e)
      | Ok ci =>
          if DiscoIsZero (ci_ServerDiscoPublic ci) then
            (c, Some (ErrNew "legacy server address lacks a separate disco key; generate a new address with an updated tailcat server"))
          else
            let '(c, k) := nodeKeyLocked c (se_newKey env) in
            let lb := with_server (newLocoBackend k) (ci_ServerPublic ci) (ci_ServerDiscoPublic ci) in
            match setup_error env with
            | Some e => (c, Some e)
            | None => (with_stack c lb ci, None)
            end
      end
  end.

(** src/tailcat.go:1649-1649 [Client.initLocked], the client's filter *)
Definition client_filter (b : locoBackend) : filter_config := FilterConfig [] [addrPrefix b].

(** src/tailcat.go:1614-1623 [Client.initLocked, onDERPRecv]: whether the packet was taken,
    and whether it lets [meowWait] go *)
Definition client_onDERPRecv (pkt : list byte) : bool * bool :=
  if negb (IsMeowPacket pkt) then (false, false)
  else if IsMeowedPacket pkt then (true, true)
  else (true, false).

Definition client_receive_derp (c : Client) (src : NodePublic) (pkt : list byte) : Client :=
  if (client_onDERPRecv pkt).2 then with_meowed c else c.

(** src/tailcat.go:1700-1730 [Client.ensureStarted]; [None] is a panic *)
Definition ensureStarted {O : BlobOps K} (c : Client) (env : start_env) (xenv : expand_env)
    : option (Client * option gerror) :=
  if cl_started c then Some (c, None)
  else
    match initLocked c env with
    | (c, Some e) => Some (c, Some e)
    | (c, None) =>
        lb ← cl_lb c;
        let opts := (if bool_decide (cl_DERPMapURL c = []) then [] else [OptDERPMapURL (cl_DERPMapURL c)])
                      ++ (if cl_DERPMapCache c then [OptDERPMapCache] else []) in
        match Expand xenv (cl_ci c) opts with
        | (ci, _, Err e) => Some (with_backend c lb ci false, Some e)
        | (ci, _, Ok _) =>
            match ci_Region ci with
            | [] => Some (with_backend c lb ci false, Some (ErrNew "no DERP regions in ConnBlob"))
            | rs =>
                let dm := foldl (fun (m : DERPMap) r => <[r_RegionID r := r]> m) (lb_dm lb) rs in
                match lb_Start (with_dm lb dm) (se_netstack env) (se_reconfig env) with
                | None => None
                | Some (lb, _, Some e) => Some (with_backend c lb ci false, Some e)
                | Some (lb, _, None) => Some (with_backend c lb ci true, None)
                end
            end
        end
    end.

(** What the wait for the acknowledgment takes: the acknowledgment, or the context's
    error, which may be there at once. *)
Inductive meow_wait : Type := Meowed | WaitDone (e : gerror) (at_once : bool).

(** src/tailcat.go:1766-1792 [Client.ping]: the packet, and the outcome; [sent] is the
    result of [SendDERPPacketTo].  Once [meowWait] is closed the wait ends at once, with the
    context's error only if that is there at once too. *)
Definition ping (c : Client) (sent : result bool) (wait : meow_wait)
    : option (option derp_packet * Client * option gerror) :=
  lb ← cl_lb c;
  derpRegion ← derpRegionID lb;
  let pkt := DerpPacket (ci_ServerPublic (cl_ci c)) derpRegion (EncodeMeowPing (lb_pub lb) (discoPublic lb)) in
  match sent with
  | Err e => Some (Some pkt, c, Some (ErrWrap "sending meow: %w" e))
  | Ok false => Some (Some pkt, c, Some (ErrNew "meow not sent"))
  | Ok true =>
      match wait with
      | Meowed => Some (Some pkt, with_meowed c, None)
      | WaitDone e at_once =>
          if cl_meowed c && negb at_once then Some (Some pkt, c, None) else Some (Some pkt, c, Some e)
      end
  end.

(** src/tailcat.go:1752-1762 [Client.Ping] *)
Definition Ping {O : BlobOps K} (c : Client) (env : start_env) (xenv : expand_env) (sent : result bool)
    (wait : meow_wait) : option (option derp_packet * Client * option gerror) :=
  match ensureStarted c env xenv with
  | None => None
  | Some (c, Some e) => Some (None, c, Some e)
  | Some (c, None) =>
      match ping c sent wait with
      | None => None
      | Some (pkt, c, None) => Some (pkt, with_up c, None)
      | Some (pkt, c, Some e) => Some (pkt, c, Some e)
      end
  end.

(** src/tailcat.go:1737-1743 [Client.up] *)
Definition up {O : BlobOps K} (c : Client) (env : start_env) (xenv : expand_env) (sent : result bool)
    (wait : meow_wait) : option (option derp_packet * Client * option gerror) :=
  if cl_upDone c then Some (None, c, None) else Ping c env xenv sent wait.
End loco.

(** * The server's history *)

Section history.
Context `{K : KeyOps} {D : DiscoKeyOps K}.
Context (first_region : DERPMap -> option Z).

(** A running server: its backend, the handshakes that were started, the packets sent. *)
Record server_state : Type := ServerState {
  ss_lb : locoBackend;
  ss_pending : list (NodePublic * Z * DiscoPublic);
  ss_sent : list derp_packet;
}.

Inductive server_step : server_state -> server_state -> Prop :=
  | ss_packet lb pending sent src region pkt d :
      server_onDERPRecv pkt = (true, Some d) ->
      server_step (ServerState lb pending sent) (ServerState lb (pending ++ [(src, region, d)]) sent)
  | ss_meow lb pending sent i src region d lb' reply adv :
      pending !! i = Some (src, region, d) ->
      meow_goroutine first_region lb src region d = Some (lb', reply, adv) ->
      server_step (ServerState lb pending sent) (ServerState lb' (delete i pending) (sent ++ option_list reply))
  | ss_allow lb pending sent k :
      server_step (ServerState lb pending sent) (ServerState (lb_AddAllowedClient lb k) pending sent)
  | ss_status lb pending sent st :
      server_step (ServerState lb pending sent) (ServerState (onEngineStatus lb st).1 pending sent).
End history.

(** * Properties *)

Section loco_properties.
Context `{K : KeyOps} {KL : KeyLaws K} {D : DiscoKeyOps K}.
Context (first_region : DERPMap -> option Z).
Abbreviation derpRegionID := (derpRegionID first_region).
Abbreviation onMeow := (onMeow first_region).
Abbreviation meow_goroutine := (meow_goroutine first_region).

Lemma parse_meow_ping k d :
  DiscoIsZero d = false -> ParseMeowPing (EncodeMeowPing k d) = Some (k, d).
Proof.
  intros Hd. unfold ParseMeowPing, EncodeMeowPing. pose proof (raw_length k) as Hk. pose proof (disco_raw_length d) as Hdl.
  rewrite (proj2 (Z.ltb_ge _ _)); cycle 1.
  { rewrite !zlen_app. change (zlen meowMagic) with 4. change (zlen [meowTypePing]) with 1. lia. }
  rewrite bool_decide_eq_true_2 by done. cbn [negb].
  assert (slice (5 + NodePublicRawLen) (5 + NodePublicRawLen + DiscoPublicRawLen)
            (meowMagic ++ [meowTypePing] ++ Raw k ++ DiscoRaw d) = DiscoRaw d) as ->.
  { rewrite !app_assoc, <- (app_nil_r (DiscoRaw d)) at 1. rewrite <- !app_assoc, (app_assoc meowMagic), (app_assoc (_ ++ _)).
    apply slice_app_mid; [|rewrite Hdl; lia]. rewrite !zlen_app, Hk. done. }
  rewrite disco_from_raw_raw, Hd. do 2 f_equal. rewrite (app_assoc meowMagic).
  rewrite (slice_app_mid 5 (5 + NodePublicRawLen)); [apply from_raw_raw|done|rewrite Hk; lia].
Qed.

Lemma ping_is_taken k d :
  DiscoIsZero d = false -> server_onDERPRecv (EncodeMeowPing k d) = (true, Some d).
Proof.
  intros Hd. unfold server_onDERPRecv, IsMeowPacket, IsMeowedPacket.
  assert ((4 <=? zlen (EncodeMeowPing k d)) = true) as ->.
  { unfold EncodeMeowPing. rewrite !zlen_app. change (zlen meowMagic) with 4. pose proof (zlen_nonneg (Raw k)).
    pose proof (zlen_nonneg (DiscoRaw d)). apply Z.leb_le. change (zlen [meowTypePing]) with 1. lia. }
  change (take 4 (EncodeMeowPing k d)) with meowMagic. change (EncodeMeowPing k d !! 4%nat) with (Some meowTypePing).
  rewrite (bool_decide_eq_true_2 (meowMagic = meowMagic)) by done. cbn [negb andb].
  rewrite (bool_decide_eq_false_2 (Some meowTypePing = Some meowTypePong)) by done. rewrite andb_false_r.
  by rewrite parse_meow_ping.
Qed.

(** Who may become a peer. *)
Definition admits (b : locoBackend) (k : NodePublic) : Prop :=
  match lb_allowedClients b with Some m => is_Some (m !! k) | None => True end.

(** What holds of a server's backend once it is started. *)
Record wf_loco (b : locoBackend) : Prop := {
  wl_server : IsZero (lb_serverPub b) = true;
  wl_region : is_Some (derpRegionID b);
  (** a client's node is its own, and it may send from its own address only *)
  wl_node k n : lb_clients b !! k = Some n ->
    nd_Key n = k /\ nd_Addresses n = [pfxOf (tcAddrForKey k)] /\ nd_AllowedIPs n = [pfxOf (tcAddrForKey k)] /\
    2 <= nd_ID n < Z.of_nat (size (lb_clients b)) + 2;
  wl_ids k1 k2 n1 n2 : lb_clients b !! k1 = Some n1 -> lb_clients b !! k2 = Some n2 -> nd_ID n1 = nd_ID n2 -> k1 = k2;
  (** the network map lists exactly the clients, by number *)
  wl_netmap : exists nm, lb_nm b = Some nm /\ nd_Key (nm_SelfNode nm) = lb_pub b /\
    nm_Peers nm ≡ₚ (map_to_list (lb_clients b)).*2 /\ StronglySorted node_le (nm_Peers nm);
}.

Lemma sorted_by_id l : StronglySorted node_le (merge_sort node_le l) /\ merge_sort node_le l ≡ₚ l.
Proof.
  split; [|apply merge_sort_Permutation].
  apply StronglySorted_merge_sort; [intros a b c; unfold node_le; lia|intros a b; unfold node_le; lia].
Qed.

Lemma onMeow_spec b src d b' ok adv :
  wf_loco b -> onMeow b src d = Some (b', ok, adv) ->
  wf_loco b' /\ lb_allowedClients b' = lb_allowedClients b /\
  (ok = true -> admits b src /\ is_Some (lb_clients b' !! src)) /\ (ok = false -> ~ admits b src /\ b' = b) /\
  (forall k, is_Some (lb_clients b' !! k) <-> is_Some (lb_clients b !! k) \/ (ok = true /\ k = src)) /\
  (forall k n, lb_clients b !! k = Some n -> lb_clients b' !! k = Some n).
Proof.
  intros Hwf H. unfold onMeow, Loco.onMeow in H.
  destruct (match lb_allowedClients b with Some m => negb (bool_decide (is_Some (m !! src))) | None => false end) eqn:Ha.
  { injection H as <- <- <-. split_and!; [done|done|done| |naive_solver|done]. intros _. split; [|done].
    unfold admits. destruct (lb_allowedClients b) as [m|]; [|done]. bool_to_prop. done. }
  assert (admits b src) as Hadm.
  { unfold admits. destruct (lb_allowedClients b) as [m|]; [|done]. bool_to_prop. done. }
  destruct (decide (is_Some (lb_clients b !! src))) as [Hs|Hs].
  { rewrite bool_decide_eq_true_2 in H by done. injection H as <- <- <-. split_and!; [done|done|done|done| |done].
    intros k. split; [by left|]. by intros [?|[_ ->]]. }
  rewrite bool_decide_eq_false_2 in H by done. destruct (derpRegionID b) as [region|] eqn:Hreg; [|done].
  injection H as <- <- <-. destruct Hwf as [Hsrv _ Hn Hids Hnm].
  assert (lb_clients b !! src = None) as Hnone by (by apply eq_None_not_Some).
  set (n0 := meow_node b src d region).
  assert (forall k n, <[src := n0]> (lb_clients b) !! k = Some n ->
            (k = src /\ n = n0) \/ (k <> src /\ lb_clients b !! k = Some n)) as Hlk.
  { intros k n. rewrite lookup_insert_Some. naive_solver. }
  split_and!; [|done|intros _; split; [done|by eexists; apply lookup_insert_eq]|done| |].
  - split; cbn [lb_serverPub lb_clients lb_nm lb_pub with_clients]; [done|by exists region| | |].
    + intros k n Hx. rewrite map_size_insert_None by done. destruct (Hlk k n Hx) as [[-> ->]|[_ Hk]].
      * split_and!; [done..|simpl; lia|simpl; lia].
      * destruct (Hn k n Hk) as (? & ? & ? & ?). split_and!; [done..|lia|lia].
    + intros k1 k2 n1 n2 H1 H2 Heq. destruct (Hlk _ _ H1) as [[-> ->]|[_ Hk1]], (Hlk _ _ H2) as [[-> ->]|[_ Hk2]].
      * done.
      * destruct (Hn _ _ Hk2) as (_ & _ & _ & ?). simpl in Heq. lia.
      * destruct (Hn _ _ Hk1) as (_ & _ & _ & ?). simpl in Heq. lia.
      * by eapply Hids.
    + eexists. split; [done|]. cbn [nm_SelfNode nm_Peers server_node nd_Key]. split; [done|].
      destruct (sorted_by_id (map_to_list (<[src := n0]> (lb_clients b))).*2) as [? Hperm]. by split.
  - intros k. cbn [lb_clients with_clients]. rewrite lookup_insert_is_Some. split; [intros [->|[? ?]]; [by right|by left]|].
    destruct (decide (src = k)) as [->|Hne]; [by left|]. intros [?|[_ ->]]; [by right|done].
  - intros k n Hk. cbn [lb_clients with_clients]. rewrite lookup_insert_ne; [done|]. intros <-. by rewrite Hnone in Hk.
Qed.

(** The parts of a backend that [wf_loco] reads. *)
Lemma wf_loco_eq b b' :
  lb_serverPub b' = lb_serverPub b -> lb_dm b' = lb_dm b -> lb_clients b' = lb_clients b -> lb_nm b' = lb_nm b ->
  lb_pub b' = lb_pub b -> wf_loco b -> wf_loco b'.
Proof.
  intros H1 H2 H3 H4 H5 [Hs Hr Hn Hi Hm]. split; unfold Loco.derpRegionID in *; rewrite ?H1, ?H2, ?H3, ?H4, ?H5; done.
Qed.

Lemma lb_start_server b netstack engine b' addrs :
  IsZero (lb_serverPub b) = true -> lb_clients b = ∅ -> lb_Start first_region b netstack engine = Some (b', addrs, None) ->
  wf_loco b' /\ lb_clients b' = ∅ /\ lb_pub b' = lb_pub b /\ lb_allowedClients b' = lb_allowedClients b.
Proof.
  intros Hz Hc H. unfold lb_Start in H. destruct netstack; [done|].
  destruct (derpRegionID b) as [region|] eqn:Hreg; cbn [mbind option_bind] in H; [|done].
  destruct engine; cbn [fmap option_fmap option_map] in H; [done|]. rewrite Hz in H. injection H as <- _.
  split_and!; [|done|done|done]. split; [done|by exists region| | |].
  - intros k n. cbn [lb_clients with_nm with_clients]. by rewrite Hc, lookup_empty.
  - intros k1 k2 n1 n2. cbn [lb_clients with_nm with_clients]. by rewrite Hc, lookup_empty.
  - eexists. split; [done|]. split_and!; [done| |constructor]. cbn [lb_clients with_nm with_clients].
    by rewrite Hc, map_to_list_empty.
Qed.

Lemma server_start_lb {O : BlobOps K} {H} (s s' : Server H) env xenv lb :
  server_Start first_region s env xenv = Some (s', None) -> s_lb s' = Some lb ->
  wf_loco lb /\ lb_clients lb = ∅ /\ lb_pub lb = Public (if PrivIsZero (s_Key s) then se_newKey env else s_Key s) /\
  lb_allowedClients lb =
    match s_AllowedClients s with [] => None | ks => Some (list_to_map ((fun k => (k, tt)) <$> ks)) end.
Proof.
  intros Hs Hlb. unfold server_Start in Hs. destruct (s_lb s); [done|].
  destruct (server_region s xenv) as [reg|]; [|done]. destruct (r_RegionID reg =? 0) eqn:Ez; [done|].
  destruct (setup_error env); [done|].
  destruct (lb_Start _ _ _ _) as [[[lb1 addrs] [e|]]|] eqn:Hst; [done| |done].
  apply lb_start_server in Hst as (? & ? & ? & ?); [|by apply bool_decide_eq_true_2|done].
  assert (s' = with_lb s (Some lb1)) as -> by congruence. assert (lb1 = lb) as -> by (by injection Hlb). by split_and!.
Qed.

Record wf_server_state (s : server_state) : Prop := {
  ws_lb : wf_loco (ss_lb s);
  ws_sent p : p ∈ ss_sent s -> is_Some (lb_clients (ss_lb s) !! dp_dst p) /\ dp_bytes p = EncodeMeowed;
}.

Lemma wf_server_step s s' : server_step first_region s s' -> wf_server_state s -> wf_server_state s'.
Proof.
  intros Hst [Hwf Hsent]. destruct Hst as [lb pending sent src region pkt d Hp|lb pending sent i src region d lb' reply adv Hi Hg
    |lb pending sent k|lb pending sent st]; simpl in *.
  - by split.
  - unfold Loco.meow_goroutine in Hg. destruct (onMeow lb src d) as [[[lb1 ok] adv1]|] eqn:Hm; [|done].
    injection Hg as <- <- <-. destruct (onMeow_spec _ _ _ _ _ _ Hwf Hm) as (Hwf' & _ & Hok & _ & Hk & _).
    split; simpl; [done|]. intros p [Hp|Hp]%elem_of_app.
    + destruct (Hsent p Hp) as [? ?]. split; [|done]. apply Hk. by left.
    + destruct ok; [|by apply not_elem_of_nil in Hp]. apply list_elem_of_singleton in Hp as ->. split; [|done].
      by apply Hok.
  - split; simpl; [|done]. by eapply wf_loco_eq, Hwf.
  - assert (lb_clients (onEngineStatus lb st).1 = lb_clients lb /\ wf_loco (onEngineStatus lb st).1) as [Hc ?].
    { unfold onEngineStatus. destruct st as [addrs|]; [|done]. cbn [fst].
      destruct (negb _); split; try done. by eapply wf_loco_eq, Hwf. }
    split; simpl; [done|]. intros p Hp. rewrite Hc. by apply Hsent.
Qed.

(** A server that starts with an allowlist has one for ever, it only grows by what is
    added, and every client is on it. *)
Definition closed (b : locoBackend) : Prop :=
  exists m, lb_allowedClients b = Some m /\ forall k, is_Some (lb_clients b !! k) -> is_Some (m !! k).

Lemma closed_step s s' :
  server_step first_region s s' -> wf_server_state s -> closed (ss_lb s) -> closed (ss_lb s').
Proof.
  intros Hst [Hwf _] (m & Hm & Hall). destruct Hst as [lb pending sent src region pkt d Hp|lb pending sent i src region d lb' reply adv Hi Hg
    |lb pending sent k|lb pending sent st]; simpl in *.
  - by exists m.
  - unfold Loco.meow_goroutine in Hg. destruct (onMeow lb src d) as [[[lb1 ok] adv1]|] eqn:Ho; [|done].
    injection Hg as <- <- <-. destruct (onMeow_spec _ _ _ _ _ _ Hwf Ho) as (_ & Ha & Hok & _ & Hk & _).
    exists m. rewrite Ha. split; [done|]. intros k [?|[-> ->]]%Hk; [by apply Hall|].
    destruct (Hok eq_refl) as [Hadm _]. unfold admits in Hadm. by rewrite Hm in Hadm.
  - exists (<[k := tt]> m). unfold lb_AddAllowedClient. simpl. rewrite Hm. split; [done|]. intros k' Hk'%Hall.
    rewrite lookup_insert_is_Some. destruct (decide (k = k')); [by left|by right].
  - exists m. unfold onEngineStatus. destruct st as [addrs|]; [|done]. cbn [fst]. by destruct (negb _).
Qed.

(** C33: whatever packets arrive, handshakes interleave and keys are added after a server
    started: every client has its own number and may send from its own address only; the
    network map lists exactly the clients, in order; an acknowledgment goes to clients
    only; and when an allowlist was configured every client is on it. *)
Theorem derp_server_invariant {O : BlobOps K} {H} (s s' : Server H) env xenv lb st :
  server_Start first_region s env xenv = Some (s', None) -> s_lb s' = Some lb ->
  rtc (server_step first_region) (ServerState lb [] []) st ->
  wf_loco (ss_lb st) /\
  (forall p, p ∈ ss_sent st -> is_Some (lb_clients (ss_lb st) !! dp_dst p) /\ dp_bytes p = EncodeMeowed) /\
  (s_AllowedClients s <> [] -> closed (ss_lb st)).
Proof.
  intros Hs Hlb Hr. destruct (server_start_lb _ _ _ _ _ Hs Hlb) as (Hwf & Hc & _ & Ha).
  assert (wf_server_state (ServerState lb [] [])) as H0.
  { split; [done|]. intros p Hp. by apply not_elem_of_nil in Hp. }
  assert (s_AllowedClients s <> [] -> closed (ss_lb (ServerState lb [] []))) as H1.
  { intros Hne. destruct (s_AllowedClients s) as [|k ks]; [done|]. eexists. split; [exact Ha|].
    intros k'. simpl. rewrite Hc, lookup_empty. by intros []. }
  revert H0 H1. generalize (ServerState lb [] []) Hr. clear. intros s0 Hr.
  induction Hr as [x|x y z Hxy _ IH]; intros H0 H1.
  - destruct H0 as [? ?]. by split_and!.
  - apply IH; [by eapply wf_server_step|]. intros Hne. eapply closed_step; [done|done|by apply H1].
Qed.

(** the meow handshake.  The ping a client sends registers it: a server that admits it
    takes the packet, has the client as a peer with its address afterwards, and answers
    with the acknowledgment that ends the client's wait; a server that does not admit it
    takes the packet and neither answers nor changes. *)
Theorem meow_handshake b c pkt c' region :
  wf_loco b -> ping first_region c (Ok true) Meowed = Some (Some pkt, c', None) ->
  (forall lbc, cl_lb c = Some lbc -> DiscoIsZero (discoPublic lbc) = false) ->
  exists lbc, cl_lb c = Some lbc /\ dp_dst pkt = ci_ServerPublic (cl_ci c) /\
    server_onDERPRecv (dp_bytes pkt) = (true, Some (discoPublic lbc)) /\
    (admits b (lb_pub lbc) -> exists b' adv,
       meow_goroutine b (lb_pub lbc) region (discoPublic lbc) =
         Some (b', Some (DerpPacket (lb_pub lbc) region EncodeMeowed), adv) /\
       peerAllowedIPs b' (lb_pub lbc) = Some [pfxOf (tcAddrForKey (lb_pub lbc))] /\
       cl_meowed (client_receive_derp c (lb_pub b) EncodeMeowed) = true) /\
    (~ admits b (lb_pub lbc) ->
       meow_goroutine b (lb_pub lbc) region (discoPublic lbc) = Some (b, None, false)).
Proof.
  intros Hwf Hp Hd. unfold ping in Hp. destruct (cl_lb c) as [lbc|]; [|done]. exists lbc. split; [done|].
  cbn [mbind option_bind] in Hp. destruct (derpRegionID lbc); cbn [mbind option_bind] in Hp; [|done].
  injection Hp as <- _. split; [done|]. split; [by apply ping_is_taken, Hd|]. split.
  - intros Hadm. unfold Loco.meow_goroutine.
    assert (exists b' adv, onMeow b (lb_pub lbc) (discoPublic lbc) = Some (b', true, adv)) as (b' & adv & Ho).
    { unfold Loco.onMeow. unfold admits in Hadm.
      assert (match lb_allowedClients b with Some m => negb (bool_decide (is_Some (m !! lb_pub lbc))) | None => false end = false) as ->.
      { destruct (lb_allowedClients b); [|done]. by rewrite bool_decide_eq_true_2. }
      case_bool_decide; [by eexists _, _|]. destruct (wl_region _ Hwf) as [r Hr]. rewrite Hr. by eexists _, _. }
    rewrite Ho. exists b', adv. split; [done|].
    destruct (onMeow_spec _ _ _ _ _ _ Hwf Ho) as (Hwf' & _ & Hok & _). destruct (Hok eq_refl) as [_ [n Hn]].
    split; [|done]. unfold peerAllowedIPs. rewrite (wl_server _ Hwf'), Hn. cbn [negb fmap option_fmap option_map].
    by destruct (wl_node _ Hwf' _ _ Hn) as (_ & _ & -> & _).
  - intros Hadm. unfold Loco.meow_goroutine, Loco.onMeow. unfold admits in Hadm.
    destruct (lb_allowedClients b) as [m|]; [|done]. by rewrite bool_decide_eq_false_2.
Qed.

(** outbound packets find their owner.  With the clients visited in any order, an
    address leads to a client exactly when it is the address of one, and the client it
    leads to may use that address; a client's packets all go to its server. *)
Theorem derp_addressing b order dst :
  wf_loco b -> (forall k, is_Some (lb_clients b !! k) -> k ∈ order) ->
  (forall k, peerByIP b order dst = Some k -> peerAllowedIPs b k = Some [pfxOf dst]) /\
  (peerByIP b order dst = None <-> forall k, is_Some (lb_clients b !! k) -> tcAddrForKey k <> dst) /\
  (forall k, is_Some (lb_clients b !! k) -> is_Some (peerForIP b (tcAddrForKey k))).
Proof.
  intros Hwf Hord. unfold peerByIP, peerAllowedIPs. rewrite (wl_server _ Hwf). cbn [negb]. split_and!.
  - intros k Hk. apply List.find_some in Hk as [_ Hk]. bool_to_prop. destruct H as [n Hn]. rewrite Hn. cbn [fmap option_fmap option_map].
    destruct (wl_node _ Hwf _ _ Hn) as (_ & _ & -> & _). by subst.
  - split.
    + intros Hnone k Hk Hd. eapply List.find_none in Hnone; [|by apply list_elem_of_In, Hord].
      rewrite bool_decide_eq_true_2 in Hnone by done. by rewrite bool_decide_eq_true_2 in Hnone.
    + intros Hall. destruct (List.find _ order) as [k|] eqn:Hf; [|done]. apply List.find_some in Hf as [_ Hk]. bool_to_prop.
      by destruct (Hall k).
  - intros k [n Hn]. unfold peerForIP. destruct (wl_netmap _ Hwf) as (nm & -> & _ & Hperm & _). cbn [mbind option_bind].
    destruct (nodeHasAddr (nm_SelfNode nm) (tcAddrForKey k)); [by eexists|].
    destruct (List.find _ (nm_Peers nm)) as [p|] eqn:Hf; [by eexists|].
    exfalso. assert (n ∈ nm_Peers nm) as Hin.
    { rewrite Hperm. apply list_elem_of_fmap. exists (k, n). split; [done|]. by apply elem_of_map_to_list. }
    apply list_elem_of_In in Hin. eapply List.find_none in Hf; [|exact Hin]. revert Hf. unfold nodeHasAddr.
    destruct (wl_node _ Hwf _ _ Hn) as (_ & -> & _). cbn [existsb].
    rewrite bool_decide_eq_true_2; [done|]. unfold pfx_Addr, pfxOf, tcAddrForKey, AsSlice. cbn [pfx_bytes].
    assert (length ([xfd; x7a; x11; x5c; xa1; xe0] ++ take 10 (Raw k)) = 16%nat) as ->.
    { rewrite length_app, length_take, length_raw. done. }
    by rewrite app_nil_r.
Qed.

(** only the first acknowledgment is waited for.  Before one has arrived a ping that
    gets no answer fails; but an acknowledgment from anyone, whoever the server is, counts
    for good: every later ping succeeds without an answer. *)
Theorem only_first_ping_waits {O : BlobOps K} c src pkt env xenv :
  cl_started c = true -> is_Some (lb ← cl_lb c; derpRegionID lb) -> IsMeowedPacket pkt = true ->
  (cl_meowed c = false -> forall e at_once, exists sent,
     Ping first_region c env xenv (Ok true) (WaitDone e at_once) = Some (Some sent, c, Some e)) /\
  let c' := client_receive_derp c src pkt in
  forall e, exists sent, Ping first_region c' env xenv (Ok true) (WaitDone e false) = Some (Some sent, with_up c', None).
Proof.
  intros Hst [r Hr] Hpkt. destruct (cl_lb c) as [lb|] eqn:Hlb; cbn [mbind option_bind] in Hr; [|done]. split.
  - intros Hm e at_once. unfold Ping, ensureStarted, ping. rewrite Hst, Hlb. cbn [mbind option_bind].
    rewrite Hr. cbn [mbind option_bind]. rewrite Hm. by eexists.
  - intros c' e. assert (c' = with_meowed c) as ->.
    { unfold c', client_receive_derp, client_onDERPRecv. rewrite Hpkt. unfold IsMeowedPacket in Hpkt.
      apply andb_true_iff in Hpkt as [[Hl%Z.leb_le Hm]%andb_true_iff _].
      unfold IsMeowPacket. rewrite Hm. by rewrite (proj2 (Z.leb_le 4 _)) by lia. }
    assert (cl_started (with_meowed c) = true /\ cl_lb (with_meowed c) = Some lb /\ cl_meowed (with_meowed c) = true)
      as (Hst' & Hlb' & Hm') by done.
    unfold Ping, ensureStarted, ping. rewrite Hst', Hlb', Hm'. cbn [mbind option_bind]. rewrite Hr. by eexists.
Qed.
End loco_properties.

(** * The packet filter *)

(** Tailscale's filter on a new TCP connection to an address and port: whether it passes. *)
Class FilterOps : Type := { passes : filter_config -> Addr -> Z -> bool }.
Class FilterLaws (F : FilterOps) : Prop := {
  (** the destination is local and one of the ranges of the matches *)
  passes_spec f b port : zlen b = 16 ->
    passes f (A6 b []) port =
    existsb (fun p => Contains p (A6 b [])) (f_local f) &&
    existsb (fun d => Contains d.1 (A6 b []) && port_contains d.2 port) (f_dsts f);
}.

Section filter_properties.
Context `{K : KeyOps} {KL : KeyLaws K} {F : FilterOps} {FL : FilterLaws F}.

Lemma tcAddr_bytes k : exists b, tcAddrForKey k = A6 b [] /\ zlen b = 16.
Proof. eexists. split; [done|]. rewrite zlen_app. unfold zlen at 2. rewrite length_take, length_raw. done. Qed.

Lemma contains_own (b b' : list byte) : length b = length b' -> Contains (MkPrefix6 b) (A6 b' []) = bool_decide (b = b').
Proof.
  intros Hl. unfold Contains. cbn [pfx_bytes]. rewrite bool_decide_eq_true_2 by done. cbn [andb].
  apply eq_bool_prop_intro. rewrite !Is_true_true, bool_decide_eq_true, has_prefix_spec. split; [|by intros ->].
  intros [l ->]. rewrite length_app in Hl. destruct l; [by rewrite app_nil_r|simpl in Hl; lia].
Qed.

(** the packet filter and the handlers.  On the server's own address a connection
    passes exactly for the served ports, or on any port when forwarding is on; on another
    address exactly when forwarding is on; nothing passes at a client.  A handler gets own
    connections from [OnTCP] and the others from [OnTCPForward] only, IPv4 destinations
    unpacked from the NAT64 prefix. *)
Theorem filter_and_handlers {H} (s : Server H) lb k b port :
  lb_addr lb = tcAddrForKey k -> zlen b = 16 -> 0 <= port <= 65535 ->
  (passes (buildFilter s lb) (lb_addr lb) port = true <->
     is_Some (s_OnTCPForward s) \/ exists pr, pr ∈ default [allTCPPorts] (s_ServedTCPPorts s) /\ pr_first pr <= port <= pr_last pr) /\
  (A6 b [] <> lb_addr lb -> passes (buildFilter s lb) (A6 b []) port = true <-> is_Some (s_OnTCPForward s)) /\
  passes (client_filter lb) (A6 b []) port = false /\
  (forall h, GetTCPHandlerForFlow s lb (lb_addr lb) port = Some h <-> exists f, s_OnTCP s = Some f /\ f port = Some h) /\
  (forall h, A6 b [] <> lb_addr lb -> GetTCPHandlerForFlow s lb (A6 b []) port = Some h <->
     exists f, s_OnTCPForward s = Some f /\
       f (if has_prefix (pfx_bytes nat64Prefix) b then A4 (drop 12 b) else A6 b [], port) = Some h).
Proof.
  intros Ha Hb Hport. destruct (tcAddr_bytes k) as (a & Hk & Hal). rewrite Hk in Ha.
  assert (port_contains allTCPPorts port = true) as Hall by (unfold port_contains; simpl; apply andb_true_iff; lia).
  assert (forall x, Contains allIPv6 (A6 x []) = true) as Hany by done.
  assert (Contains (addrPrefix lb) (A6 a []) = true) as Hself.
  { unfold addrPrefix, pfxOf. rewrite Ha. cbn [AsSlice]. rewrite contains_own by done. by rewrite bool_decide_eq_true_2. }
  assert (A6 b [] <> lb_addr lb -> Contains (addrPrefix lb) (A6 b []) = false) as Hother.
  { intros Hne. unfold addrPrefix, pfxOf. rewrite Ha. cbn [AsSlice]. rewrite contains_own by (unfold zlen in *; lia).
    apply bool_decide_eq_false_2. intros ->. by rewrite Ha in Hne. }
  set (prs := default [allTCPPorts] (s_ServedTCPPorts s)).
  assert (existsb (fun d => Contains d.1 (A6 a []) && port_contains d.2 port) ((fun pr => (addrPrefix lb, pr)) <$> prs) = true <->
          exists pr, pr ∈ prs /\ pr_first pr <= port <= pr_last pr) as Hserved.
  { rewrite existsb_exists. split.
    - intros (d & Hin%list_elem_of_In & Hd). apply list_elem_of_fmap in Hin as (pr & -> & Hin). exists pr. split; [done|].
      unfold port_contains in Hd. bool_to_prop. simpl in *. lia.
    - intros (pr & Hin & ?). exists (addrPrefix lb, pr). split; [apply list_elem_of_In, list_elem_of_fmap; by exists pr|].
      cbn [fst snd]. rewrite Hself. unfold port_contains. apply andb_true_iff. split; [done|]. apply andb_true_iff. lia. }
  split_and!.
  - rewrite Ha, passes_spec by done. unfold buildFilter. fold prs. destruct (s_OnTCPForward s) as [f|]; cbn [f_local f_dsts existsb].
    + rewrite Hself. cbn [orb andb]. rewrite existsb_app. cbn [existsb fst snd]. rewrite Hany, Hall, orb_true_r.
      split; [|done]. intros _. left. by eexists.
    + rewrite Hself. cbn [orb andb]. rewrite Hserved. split; [by right|]. intros [[]|?]; done.
  - intros Hne. rewrite passes_spec by done. unfold buildFilter. fold prs.
    destruct (s_OnTCPForward s) as [f|]; cbn [f_local f_dsts existsb].
    + rewrite Hany, orb_true_r. cbn [andb]. rewrite existsb_app. cbn [existsb fst snd]. rewrite Hany, Hall, orb_true_r.
      split; [|done]. intros _. by eexists.
    + rewrite Hother by done. split; [done|]. by intros [].
  - rewrite passes_spec by done. apply andb_false_r.
  - intros h. unfold GetTCPHandlerForFlow. rewrite bool_decide_eq_true_2 by done.
    destruct (s_OnTCP s) as [f|]; cbn [mbind option_bind]; naive_solver.
  - intros h Hne. unfold GetTCPHandlerForFlow. rewrite bool_decide_eq_false_2 by done.
    assert (Contains nat64Prefix (A6 b []) = has_prefix (pfx_bytes nat64Prefix) b) as ->.
    { unfold Contains. by rewrite bool_decide_eq_true_2. }
    assert (slice 12 16 (As16 (A6 b [])) = drop 12 b) as ->.
    { unfold slice, As16. rewrite take_ge; [done|]. rewrite length_drop. unfold zlen in Hb. lia. }
    destruct (s_OnTCPForward s) as [f|]; cbn [mbind option_bind]; [|naive_solver].
    split; [intros Hf; by exists f|]. by intros (? & [= <-] & ?).
Qed.
End filter_properties.

(** * Witnesses *)

Import ToyKeys ToyBlob.

Definition first_of (dm : DERPMap) : option Z := head (map_to_list dm).*1.

Definition ex_server : Server (K := toy) Z :=
  MkServer (K := toy) (nkey 9) (Some ex_region) 0 [] false [nkey 3] None (Some Some) None (Some [MkPortRange 80 90]).
Definition no_error : start_env (K := toy) := StartEnv (K := toy) (nkey 8) None None None None None.
Definition ex_started : option (Server (K := toy) Z * option gerror) :=
  server_Start (K := toy) (D := toy_disco) first_of ex_server no_error ex_env.

(** The server's backend once it runs, and after a client's handshake. *)
Definition ex_lb : locoBackend (K := toy) :=
  default (newLocoBackend (K := toy) (nkey 9)) ('(s, _) ← ex_started; s_lb s).
Definition ex_meowed : option (locoBackend (K := toy) * option derp_packet * bool) :=
  meow_goroutine (K := toy) (D := toy_disco) first_of ex_lb (nkey 3) 7 (nkey 4).

Lemma ex_started_lb : exists s', ex_started = Some (s', None) /\ s_lb s' = Some ex_lb.
Proof.
  unfold ex_lb. assert (match ex_started with Some (s, None) => bool_decide (is_Some (s_lb s)) | _ => false end = true) as H by vm_reflexivity.
  destruct ex_started as [[s' [e|]]|]; [done| |done]. exists s'. split; [done|].
  apply bool_decide_eq_true in H as [lb Hlb]. cbn [mbind option_bind]. by rewrite Hlb.
Qed.

Lemma ex_lb_wf : wf_loco (K := toy) first_of ex_lb.
Proof. destruct ex_started_lb as (s' & Hs & Hlb). by destruct (server_start_lb _ _ _ _ _ _ Hs Hlb). Qed.

Lemma derp_server_invariant_witness :
  match ex_meowed with
  | Some (lb', Some reply, _) =>
      wf_loco (K := toy) first_of lb' /\ is_Some (lb_clients lb' !! dp_dst reply) /\ closed (K := toy) lb'
  | _ => False
  end.
Proof.
  destruct ex_started_lb as (s' & Hs & Hlb).
  destruct ex_meowed as [[[lb' [reply|]] adv]|] eqn:E; cycle 1.
  - assert (match ex_meowed with Some (_, Some _, _) => true | _ => false end = true) as H by vm_reflexivity. by rewrite E in H.
  - assert (match ex_meowed with Some (_, Some _, _) => true | _ => false end = true) as H by vm_reflexivity. by rewrite E in H.
  - destruct (derp_server_invariant (K := toy) (D := toy_disco) first_of ex_server s' no_error ex_env ex_lb
                (ServerState (K := toy) lb' [] [reply]) Hs Hlb) as (Hwf & Hsent & Hclosed).
    + eapply rtc_l; [apply (ss_packet (K := toy) (D := toy_disco) first_of ex_lb [] [] (nkey 3) 7
                             (EncodeMeowPing (K := toy) (nkey 3) (nkey 4)) (nkey 4)); vm_reflexivity|].
      eapply rtc_l; [|apply rtc_refl].
      apply (ss_meow (K := toy) (D := toy_disco) first_of ex_lb [(nkey 3, 7, nkey 4)] [] 0%nat (nkey 3) 7 (nkey 4) lb' (Some reply) adv);
        [done|exact E].
    + split_and!; [exact Hwf|apply Hsent; apply list_elem_of_here|by apply Hclosed].
Defined.

Definition ex_client : Client (K := toy) :=
  with_backend (K := toy) (NewClient (K := toy) ex_blob)
    (with_dm (with_server (newLocoBackend (K := toy) (nkey 3)) (nkey 9) (nkey 2)) ex_map) (ex_info [ex_region] 0) true.

Lemma meow_handshake_witness :
  match ping (K := toy) (D := toy_disco) first_of ex_client (Ok true) Meowed with
  | Some (Some pkt, _, None) =>
      exists lbc, cl_lb ex_client = Some lbc /\
        (admits (K := toy) ex_lb (lb_pub lbc) -> exists b' adv,
           meow_goroutine (K := toy) (D := toy_disco) first_of ex_lb (lb_pub lbc) 7 (discoPublic (D := toy_disco) lbc) =
             Some (b', Some (DerpPacket (lb_pub lbc) 7 EncodeMeowed), adv))
  | _ => False
  end.
Proof.
  destruct (ping (K := toy) (D := toy_disco) first_of ex_client (Ok true) Meowed) as [[[[pkt|] c'] [e|]]|] eqn:E;
    try (exfalso; assert (match ping (K := toy) (D := toy_disco) first_of ex_client (Ok true) Meowed with
                          | Some (Some _, _, None) => true | _ => false end = true) as H by vm_reflexivity; by rewrite E in H).
  destruct (meow_handshake (K := toy) (KL := toy_laws) (D := toy_disco) first_of ex_lb ex_client pkt c' 7 ex_lb_wf E)
    as (lbc & Hl & _ & _ & Hok & _).
  - intros lbc [= <-]. vm_reflexivity.
  - exists lbc. split; [exact Hl|]. intros Hadm. destruct (Hok Hadm) as (b' & adv & Hg & _). by exists b', adv.
Defined.

Lemma derp_addressing_witness :
  match ex_meowed with
  | Some (lb', _, _) =>
      peerByIP (K := toy) lb' [nkey 3] (tcAddrForKey (K := toy) (nkey 3)) = Some (nkey 3) /\
      peerAllowedIPs (K := toy) lb' (nkey 3) = Some [pfxOf (tcAddrForKey (K := toy) (nkey 3))]
  | None => False
  end.
Proof.
  assert (match ex_meowed with
          | Some (lb', _, _) => bool_decide (peerByIP (K := toy) lb' [nkey 3] (tcAddrForKey (K := toy) (nkey 3)) = Some (nkey 3))
          | None => false end = true) as Hby by vm_reflexivity.
  unfold ex_meowed, meow_goroutine in *.
  destruct (onMeow (K := toy) (D := toy_disco) first_of ex_lb (nkey 3) (nkey 4)) as [[[lb' ok] adv]|] eqn:E; [|done].
  destruct (onMeow_spec (K := toy) (D := toy_disco) first_of ex_lb (nkey 3) (nkey 4) lb' ok adv ex_lb_wf E)
    as (Hwf & _ & _ & _ & Hk & _).
  apply bool_decide_eq_true in Hby. split; [exact Hby|].
  apply (derp_addressing (K := toy) (KL := toy_laws) first_of lb' [nkey 3] (tcAddrForKey (K := toy) (nkey 3)) Hwf); [|exact Hby].
  intros k [[n Hn]|[_ ->]]%Hk; [|apply list_elem_of_here].
  exfalso. destruct ex_started_lb as (s' & Hs & Hlb). destruct (server_start_lb _ _ _ _ _ _ Hs Hlb) as (_ & Hc & _).
  by rewrite Hc, lookup_empty in Hn.
Defined.

Lemma only_first_ping_waits_witness :
  exists sent, Ping (K := toy) (D := toy_disco) (O := toy_blob) first_of
                 (client_receive_derp (K := toy) ex_client (nkey 66) EncodeMeowed) no_error ex_env (Ok true)
                 (WaitDone CtxDeadlineExceeded false) =
               Some (Some sent, with_up (client_receive_derp (K := toy) ex_client (nkey 66) EncodeMeowed), None).
Proof.
  apply (only_first_ping_waits (K := toy) (D := toy_disco) (O := toy_blob) first_of ex_client (nkey 66) EncodeMeowed no_error ex_env);
    [done| |vm_reflexivity].
  by exists 7.
Defined.

(** The filter that the documentation describes, on 16-byte addresses. *)
Definition toy_filter : FilterOps := {| passes := fun f dst port =>
  existsb (fun p => Contains p dst) (f_local f) &&
  existsb (fun d => Contains d.1 dst && port_contains d.2 port) (f_dsts f) |}.
#[local] Instance toy_filter_laws : FilterLaws toy_filter.
Proof. by split. Qed.

Lemma filter_and_handlers_witness :
  passes (FilterOps := toy_filter) (buildFilter (K := toy) ex_server ex_lb) (lb_addr ex_lb) 85 = true <->
  is_Some (s_OnTCPForward ex_server) \/
  exists pr, pr ∈ default [allTCPPorts] (s_ServedTCPPorts ex_server) /\ pr_first pr <= 85 <= pr_last pr.
Proof.
  apply (filter_and_handlers (K := toy) (KL := toy_laws) (FL := toy_filter_laws) ex_server ex_lb (nkey 9) (replicate 16 x00) 85);
    [vm_reflexivity|done|lia].
Defined.
