(* ===== verification/Reach.v ===== *)
(** Reach: what the nodes of the DERP transport do once they are set up.

    Models the rest of src/tailcat.go's [Server] and [Client]: the subsystems a start opens
    and [locoBackend.Close] closes, draining TCP connections, [DiscoPing] and the dial
    methods, and a client's history of operations.  gVisor, the engine, magicsock and the
    dialer are their results; a constructor that fails has left nothing open. *)

From S2P Require Import Prelude GoStd Keys Packet Core Lifecycle Derp Loco.
From Stdlib Require Import Strings.Byte.
Import Netip.

(** * The subsystems *)

(** The subsystems of a [locoBackend] that have a [Close], each once it is set, and
    [closeOnce]. *)
Record subsystems : Type := Subsystems {
  ss_ns : option nat;
  ss_Engine : option nat;
  ss_NetMon : option nat;
  ss_Dialer : option nat;
  ss_Bus : option nat;
  ss_closed : bool;
}.

(** src/tailcat.go:286-305 [locoBackend.Close] *)
Definition lb_Close (s : subsystems) (w : world) : subsystems * world :=
  if ss_closed s then (s, w)
  else
    let w := release_option (ss_ns s) w in
    let w := release_option (ss_Engine s) w in
    let w := release_option (ss_NetMon s) w in
    let w := release_option (ss_Dialer s) w in
    let w := release_option (ss_Bus s) w in
    (Subsystems (ss_ns s) (ss_Engine s) (ss_NetMon s) (ss_Dialer s) (ss_Bus s) true, w).

Section reach.
Context `{K : KeyOps} {D : DiscoKeyOps K} {O : BlobOps K}.
Context (first_region : DERPMap -> option Z).

(** src/tailcat.go:433-506 [Server.Start] and, from line 1587 on, [Client.initLocked]: the
    subsystems in the order in which they are opened.  On an error they have been closed. *)
Definition open_subsystems (e : start_env) (w : world) : subsystems * option gerror * world :=
  let '(bus, w) := acquire w in
  match se_netmon e with
  | Some x => let '(s, w) := lb_Close (Subsystems None None None None (Some bus) false) w in
              (s, Some (ErrWrap "netmon.New: %w" x), w)
  | None =>
      let '(netMon, w) := acquire w in
      let '(dialer, w) := acquire w in
      match se_engine e with
      | Some x => let '(s, w) := lb_Close (Subsystems None None (Some netMon) (Some dialer) (Some bus) false) w in
                  (s, Some (ErrWrap "createEngine: %w" x), w)
      | None =>
          let '(engine, w) := acquire w in
          match se_newNetstack e with
          | Some x => let '(s, w) := lb_Close (Subsystems None (Some engine) (Some netMon) (Some dialer) (Some bus) false) w in
                      (s, Some (ErrWrap "newNetstack: %w" x), w)
          | None =>
              let '(ns, w) := acquire w in
              (Subsystems (Some ns) (Some engine) (Some netMon) (Some dialer) (Some bus) false, None, w)
          end
      end
  end.

(** A node's subsystems, and the world they are part of. *)
Definition ledger : Type := option subsystems * world.

(** Whether a call gets as far as opening subsystems. *)
Definition server_opens {H} (s : Server H) (xenv : expand_env) : bool :=
  match s_lb s, server_region s xenv with
  | None, Ok reg => negb (r_RegionID reg =? 0)
  | _, _ => false
  end.
Definition client_opens (c : Client) : bool :=
  match cl_lb c, ParseConnBlob (cl_Server c) with
  | None, Ok ci => negb (cl_started c) && negb (DiscoIsZero (ci_ServerDiscoPublic ci))
  | _, _ => false
  end.

(** src/tailcat.go:433-528 [Server.Start] with its subsystems, which are closed when it
    fails *)
Definition server_Start_opens {H} (s : Server H) (env : start_env) (xenv : expand_env) (l : ledger)
    : option (Server H * option gerror * ledger) :=
  match server_Start first_region s env xenv with
  | None => None
  | Some (s', err) =>
      if server_opens s xenv then
        match open_subsystems env l.2 with
        | (_, Some _, w) => Some (s', err, (l.1, w))
        | (ss, None, w) =>
            match err with
            | Some _ => let '(_, w) := lb_Close ss w in Some (s', err, (l.1, w))
            | None => Some (s', err, (Some ss, w))
            end
        end
      else Some (s', err, l)
  end.

(** Closing what a node has set up. *)
Definition close_ledger (l : ledger) : ledger :=
  match l with
  | (None, _) => l
  | (Some ss, w) => let '(ss, w) := lb_Close ss w in (Some ss, w)
  end.

(** src/tailcat.go:576-581 [Server.Close] *)
Definition Server_Close {H} (s : Server H) (l : ledger) : ledger :=
  match s_lb s with None => l | Some _ => close_ledger l end.

(** src/tailcat.go:1678-1685 [Client.Close] *)
Definition Client_Close (c : Client) (l : ledger) : ledger :=
  match cl_lb c with None => l | Some _ => close_ledger l end.

(** src/tailcat.go:1587-1632 [Client.initLocked]'s subsystems; a failed start keeps them for
    the next *)
Definition client_init_opens (c : Client) (env : start_env) (l : ledger) : ledger :=
  if client_opens c then
    match open_subsystems env l.2 with
    | (_, Some _, w) => (l.1, w)
    | (ss, None, w) => (Some ss, w)
    end
  else l.

(** * Draining *)

(** A wait on two events that happen at given times, if ever, from [now] on; [tie] says
    whether the first is taken when both are there. *)
Definition first_of_two (now : Z) (a b : option Z) (tie : bool) : option (bool * Z) :=
  match Z.max now <$> a, Z.max now <$> b with
  | None, None => None
  | Some x, None => Some (true, x)
  | None, Some y => Some (false, y)
  | Some x, Some y => if (x <? y) || (x =? y) && tie then Some (true, x) else Some (false, y)
  end.

(** src/tailcat.go:598-616 [Server.DrainTCP]: over the times at which the endpoints that are
    registered now are closed for good, and the time at which the context ends with [err];
    the result and when it comes, [None] when it never does *)
Fixpoint server_DrainTCP (ctx : option Z) (err : gerror) (tie : bool) (now : Z) (eps : list (option Z)) : option (option gerror * Z) :=
  match eps with
  | [] => Some (None, now)
  | ep :: eps =>
      match first_of_two now ep ctx tie with
      | None => None
      | Some (true, now) => server_DrainTCP ctx err tie now eps
      | Some (false, now) => Some (Some err, now)
      end
  end.

(** src/tailcat.go:636-640 [Client.DrainTCP], the states that are waited for *)
Definition busy_state (s : EndpointState) : bool :=
  match s with
  | StateSynSent | StateSynRecv | StateEstablished | StateFinWait1 | StateClosing | StateCloseWait | StateLastAck => true
  | _ => false
  end.

(** src/tailcat.go:628-664 [Client.DrainTCP]: over the states of the registered endpoints at
    each poll ([None]: an endpoint without a state) and what the wait after the poll took,
    the context's error or the time; [None] while it still polls *)
Fixpoint client_DrainTCP (polls : list (list (option EndpointState) * option gerror)) : option (option gerror) :=
  match polls with
  | [] => None
  | (eps, done_) :: rest =>
      let busy := existsb (fun s => match s with Some s => busy_state s | None => false end) eps in
      if negb busy then Some done_
      else match done_ with Some e => Some (Some e) | None => client_DrainTCP rest end
  end.

(** * Pinging and dialling *)

(** [ipnstate.PingResult], and what the wait for it takes. *)
Record ipn_ping : Type := IpnPing { ip_Err : string; ip_Endpoint : gostring; ip_DERPRegionID : Z }.
Inductive pong_wait : Type := Pong (r : ipn_ping) | PongDone (e : gerror).
(** What it sends: a TSMP ping through the tunnel, and a disco ping to a node. *)
Inductive disco_ping_sent : Type := SentTSMP (a : Addr) | SentDisco (n : tsNode).

(** src/tailcat.go:1809-1840 [Client.DiscoPing], of a client that is up *)
Definition disco_ping (lb : locoBackend) (wait : pong_wait) : list disco_ping_sent * result ipn_ping :=
  match (match lb_nm lb with Some nm => nm_Peers nm | None => [] end) with
  | [] => ([], Err (ErrNew "client network map has no server peer"))
  | peer :: _ =>
      (match nd_Addresses peer with [] => [] | p :: _ => [SentTSMP (pfx_Addr p)] end ++ [SentDisco peer],
       match wait with
       | Pong r => if bool_decide (ip_Err r = EmptyString) then Ok r else Err (ErrNew (ip_Err r))
       | PongDone e => Err e
       end)
  end.

(** An operation of a client that first brings it up, and continues with the backend. *)
Definition when_up {R} (c : Client) (env : start_env) (xenv : expand_env) (sent : result bool) (wait : meow_wait)
    (k : Client -> locoBackend -> R) : option (option derp_packet * Client * result R) :=
  match up first_region c env xenv sent wait with
  | None => None
  | Some (pkt, c, Some e) => Some (pkt, c, Err e)
  | Some (pkt, c, None) => lb ← cl_lb c; Some (pkt, c, Ok (k c lb))
  end.

(** src/tailcat.go:1802-1841 [Client.DiscoPing] *)
Definition DiscoPing (c : Client) (env : start_env) (xenv : expand_env) (sent : result bool) (meow : meow_wait) (wait : pong_wait)
    : option (option derp_packet * Client * result (list disco_ping_sent * result ipn_ping)) :=
  when_up c env xenv sent meow (fun _ lb => disco_ping lb wait).

(** src/tailcat.go:1850-1855 [Client.Dial]: the network and address given to the dialer *)
Definition client_Dial (c : Client) (env : start_env) (xenv : expand_env) (sent : result bool) (meow : meow_wait)
    (network addr : gostring) : option (option derp_packet * Client * result (gostring * gostring)) :=
  when_up c env xenv sent meow (fun _ _ => (network, addr)).

(** src/tailcat.go:1859-1864 [Client.DialTCPPort]: the address and port given to the dialer *)
Definition client_DialTCPPort (c : Client) (env : start_env) (xenv : expand_env) (sent : result bool) (meow : meow_wait)
    (port : Z) : option (option derp_packet * Client * result (Addr * Z)) :=
  when_up c env xenv sent meow (fun c _ => (cl_serverAddr c, port)).

(** src/tailcat.go:1880-1885 [Client.DialTCP], the mapping *)
Definition nat64_mapped (a : Addr) : Addr :=
  match a with A4 a4 => A6 (take 12 nat64PrefixBytes ++ a4) [] | _ => a end.
(** src/tailcat.go:1876-1887 [Client.DialTCP]: the address and port given to the netstack *)
Definition client_DialTCP (c : Client) (env : start_env) (xenv : expand_env) (sent : result bool) (meow : meow_wait)
    (ap : Addr * Z) : option (option derp_packet * Client * result (Addr * Z)) :=
  when_up c env xenv sent meow (fun _ _ => (nat64_mapped ap.1, ap.2)).

(** src/tailcat.go:718-735 [locoBackend.connBlob]: what the blob is made of, [order] being
    the map's regions as Go visits them *)
Definition lb_connInfo (b : locoBackend) (order : list DERPRegion) : ConnInfo :=
  MkConnInfo (lb_pub b) (discoPublic b) order 0.
(** src/tailcat.go:697-735 [Server.ConnBlob] and [locoBackend.connBlob]; [None] is a panic *)
Definition server_ConnBlob {H} (s : Server H) (order : list DERPRegion) : option gostring :=
  lb ← s_lb s; if bool_decide (lb_dm lb = ∅) then None else ConnBlob (lb_connInfo lb order).

(** * Histories *)

(** What happens to a client, one critical section after another. *)
Inductive client_event : Type :=
  | ClPing (env : start_env) (xenv : expand_env) (sent : result bool) (wait : meow_wait)
  | ClUse (env : start_env) (xenv : expand_env) (sent : result bool) (wait : meow_wait)
  | ClReceive (src : NodePublic) (pkt : list byte)
  | ClPublicKey (fresh : NodePrivate)
  | ClClose.

(** The client and its ledger after an event; [None] is a panic. *)
Definition client_event_step (e : client_event) (c : Client) (l : ledger) : option (Client * ledger) :=
  match e with
  | ClPing env xenv sent wait =>
      r ← Ping first_region c env xenv sent wait; Some (r.1.2, client_init_opens c env l)
  | ClUse env xenv sent wait =>
      r ← up first_region c env xenv sent wait;
      Some (r.1.2, if cl_upDone c then l else client_init_opens c env l)
  | ClReceive src pkt => Some (client_receive_derp c src pkt, l)
  | ClPublicKey fresh => Some ((client_PublicKey c fresh).1, l)
  | ClClose => Some (c, Client_Close c l)
  end.

Fixpoint client_history (es : list client_event) (c : Client) (l : ledger) : option (Client * ledger) :=
  match es with
  | [] => Some (c, l)
  | e :: es => '(c, l) ← client_event_step e c l; client_history es c l
  end.

(** What happens to a server. *)
Inductive server_event : Type :=
  | SvStart (env : start_env) (xenv : expand_env)
  | SvAllow (k : NodePublic)
  | SvClose.
Definition server_event_step {H} (e : server_event) (s : Server H) (l : ledger) : option (Server H * ledger) :=
  match e with
  | SvStart env xenv => '(s, _, l) ← server_Start_opens s env xenv l; Some (s, l)
  | SvAllow k => Some (server_AddAllowedClient s k, l)
  | SvClose => Some (s, Server_Close s l)
  end.
Fixpoint server_history {H} (es : list server_event) (s : Server H) (l : ledger) : option (Server H * ledger) :=
  match es with
  | [] => Some (s, l)
  | e :: es => '(s, l) ← server_event_step e s l; server_history es s l
  end.
End reach.

(** * Properties *)

Definition handles (s : subsystems) : gset nat :=
  option_set (ss_ns s) ∪ option_set (ss_Engine s) ∪ option_set (ss_NetMon s) ∪ option_set (ss_Dialer s) ∪ option_set (ss_Bus s).
(** What a node holds open. *)
Definition held (o : option subsystems) : gset nat :=
  match o with Some ss => if ss_closed ss then ∅ else handles ss | None => ∅ end.

Lemma lb_Close_owns w0 s w s' w' :
  owns w0 w (held (Some s)) -> lb_Close s w = (s', w') -> ss_closed s' = true /\ owns w0 w' ∅.
Proof.
  unfold lb_Close, held. intros Ho. destruct (ss_closed s) eqn:Ec; intros [= <- <-]; [by split|]. split; [done|].
  assert (forall o, option_set o ⊆ handles s -> option_set o ## w_open w0) as Hf.
  { intros o Hs. pose proof (ow_fresh _ _ _ Ho). set_solver. }
  pose proof (owns_release_option _ _ _ (ss_ns s) Ho ltac:(apply Hf; set_solver)) as H1.
  pose proof (owns_release_option _ _ _ (ss_Engine s) H1 ltac:(apply Hf; set_solver)) as H2.
  pose proof (owns_release_option _ _ _ (ss_NetMon s) H2 ltac:(apply Hf; set_solver)) as H3.
  pose proof (owns_release_option _ _ _ (ss_Dialer s) H3 ltac:(apply Hf; set_solver)) as H4.
  pose proof (owns_release_option _ _ _ (ss_Bus s) H4 ltac:(apply Hf; set_solver)) as H5.
  eapply owns_eq; [exact H5|]. unfold handles. set_solver.
Qed.

Section node_properties.
Context `{K : KeyOps} {D : DiscoKeyOps K} {O : BlobOps K}.
Context (first_region : DERPMap -> option Z).

(** Subsystems that are opened are all held, or all closed again with the error of the
    set-up. *)
Lemma open_subsystems_owns w0 w e ss err w' :
  owns w0 w ∅ -> open_subsystems e w = (ss, err, w') ->
  err = setup_error e /\ match err with Some _ => owns w0 w' ∅ | None => ss_closed ss = false /\ owns w0 w' (held (Some ss)) end.
Proof.
  intros Ho. unfold open_subsystems, setup_error. destruct (acquire w) as [bus w1] eqn:E1.
  pose proof (owns_acquire _ _ _ _ _ Ho E1) as H1. destruct (se_netmon e) as [x|].
  { destruct (lb_Close _ w1) as [s w2] eqn:Ec. intros [= <- <- <-]. split; [done|].
    eapply lb_Close_owns; [|exact Ec]. eapply owns_eq; [exact H1|]. cbn. set_solver. }
  destruct (acquire w1) as [nm w2] eqn:E2, (acquire w2) as [di w3] eqn:E3.
  pose proof (owns_acquire _ _ _ _ _ (owns_acquire _ _ _ _ _ H1 E2) E3) as H3. destruct (se_engine e) as [x|].
  { destruct (lb_Close _ w3) as [s w4] eqn:Ec. intros [= <- <- <-]. split; [done|].
    eapply lb_Close_owns; [|exact Ec]. eapply owns_eq; [exact H3|]. cbn. set_solver. }
  destruct (acquire w3) as [en w4] eqn:E4. pose proof (owns_acquire _ _ _ _ _ H3 E4) as H4. destruct (se_newNetstack e) as [x|].
  { destruct (lb_Close _ w4) as [s w5] eqn:Ec. intros [= <- <- <-]. split; [done|].
    eapply lb_Close_owns; [|exact Ec]. eapply owns_eq; [exact H4|]. cbn. set_solver. }
  destruct (acquire w4) as [ns w5] eqn:E5. intros [= <- <- <-]. split; [done|]. split; [done|].
  eapply owns_eq; [exact (owns_acquire _ _ _ _ _ H4 E5)|]. cbn. set_solver.
Qed.

Lemma close_ledger_owns w0 l : owns w0 l.2 (held l.1) -> owns w0 (close_ledger l).2 (held (close_ledger l).1) /\ held (close_ledger l).1 = ∅ /\
  (is_Some (close_ledger l).1 <-> is_Some l.1).
Proof.
  destruct l as [[ss|] w]; cbn [close_ledger fst snd]; [|by intros Ho; split_and!].
  intros Ho. destruct (lb_Close ss w) as [s' w'] eqn:Ec. destruct (lb_Close_owns _ _ _ _ _ Ho Ec) as [Hc Ho']. cbn [fst snd held].
  rewrite Hc. split_and!; [done|done|by split].
Qed.

(** A server's ledger. *)
Record wf_server {H} (w0 : world) (s : Server H) (l : ledger) : Prop := {
  ws_none : s_lb s = None -> l.1 = None;
  ws_owns : owns w0 l.2 (held l.1);
}.

Lemma server_event_wf {H} w0 e (s : Server H) l s' l' :
  wf_server w0 s l -> server_event_step first_region e s l = Some (s', l') -> wf_server w0 s' l'.
Proof.
  intros [Hn Ho]. destruct e as [env xenv|k|]; cbn [server_event_step].
  - unfold server_Start_opens. destruct (server_Start first_region s env xenv) as [[s1 err]|] eqn:Es; [|done].
    unfold server_opens. destruct (s_lb s) as [lb|] eqn:Hlb.
    { unfold server_Start in Es. rewrite Hlb in Es. injection Es as <- <-. intros [= <- <-]. split; [by rewrite Hlb|done]. }
    specialize (Hn eq_refl). assert (owns w0 l.2 ∅) as Ho1 by (by rewrite Hn in Ho).
    unfold server_Start in Es. rewrite Hlb in Es. destruct (server_region s xenv) as [reg|] eqn:Hr.
    2: { injection Es as <- <-. intros [= <- <-]. by split. }
    destruct (r_RegionID reg =? 0); cbn [negb].
    { injection Es as <- <-. intros [= <- <-]. by split. }
    destruct (open_subsystems env l.2) as [[ss x] w1] eqn:Eo. destruct (open_subsystems_owns _ _ _ _ _ _ Ho1 Eo) as [Hx Hw].
    rewrite <- Hx in Es. destruct x as [x|].
    { injection Es as <- <-. intros [= <- <-]. split; [done|]. cbn [fst snd]. by rewrite Hn. }
    destruct Hw as [_ Hw]. destruct (lb_Start _ _ _ _) as [[[lb addrs] [e|]]|]; [| |done]; injection Es as <- <-.
    + destruct (lb_Close ss w1) as [s2 w2] eqn:Ec. intros [= <- <-]. split; [done|]. cbn [fst snd]. rewrite Hn.
      by destruct (lb_Close_owns _ _ _ _ _ Hw Ec).
    + intros [= <- <-]. by split.
  - intros [= <- <-]. split; [|done]. unfold server_AddAllowedClient. case_match; [done|]. intros _. by apply Hn.
  - intros [= <- <-]. unfold Server_Close. destruct (s_lb s) as [lb|] eqn:Hlb; [|split; by auto].
    split; [by rewrite Hlb|]. by apply close_ledger_owns.
Qed.

(** Whatever is done with a server, what is open beyond the world it came into is what it
    holds, and closing it leaves nothing. *)
Lemma derp_server_accounts {H} w0 es (s : Server H) s' l' :
  (forall i, i ∈ w_open w0 -> (i < w_next w0)%nat) -> s_lb s = None ->
  server_history first_region es s (None, w0) = Some (s', l') ->
  w_open l'.2 = w_open w0 ∪ held l'.1 /\ w_open (Server_Close s' l').2 = w_open w0.
Proof.
  intros Hf Hs Hh. assert (wf_server w0 s' l') as [Hn Ho].
  { assert (wf_server w0 s (None, w0)) as Hwf by (split; [done|by apply owns_refl]).
    revert Hh Hwf. generalize (None : option subsystems, w0) as l. clear Hs. revert s. induction es as [|e es IH]; intros s l; cbn [server_history].
    - by intros [= <- <-].
    - destruct (server_event_step first_region e s l) as [[s1 l1]|] eqn:Ee; cbn; [|done].
      intros Hh Hwf. eapply IH; [exact Hh|]. by eapply server_event_wf. }
  split; [by apply ow_open|]. unfold Server_Close. destruct (s_lb s').
  - destruct (close_ledger_owns _ _ Ho) as (Ho' & He & _). rewrite (ow_open _ _ _ Ho'), He. set_solver.
  - rewrite (ow_open _ _ _ Ho), (Hn eq_refl). cbn. set_solver.
Qed.

(** A client that was made for [blob], and its ledger. *)
Record wf_client (w0 : world) (blob : gostring) (c : Client) (l : ledger) : Prop := {
  wc_server : cl_Server c = blob;
  wc_none : cl_lb c = None -> l.1 = None /\ cl_started c = false;
  wc_up : cl_upDone c = true -> cl_started c = true;
  wc_some lb : cl_lb c = Some lb -> exists ci,
    ParseConnBlob blob = Ok ci /\ DiscoIsZero (ci_ServerDiscoPublic ci) = false /\
    ci_ServerPublic (cl_ci c) = ci_ServerPublic ci /\ lb_serverPub lb = ci_ServerPublic ci /\
    lb_serverDiscoPub lb = ci_ServerDiscoPublic ci /\ cl_serverAddr c = tcAddrForKey (ci_ServerPublic ci) /\
    (cl_started c = true -> IsZero (ci_ServerPublic ci) = false ->
       exists rid nm, lb_nm lb = Some nm /\ nm_Peers nm = [server_peer lb rid]);
  wc_owns : owns w0 l.2 (held l.1);
}.

(** Expanding keeps the server's keys. *)
Lemma Expand_keys env ci opts ci' dm r :
  Expand env ci opts = (ci', dm, r) ->
  ci_ServerPublic ci' = ci_ServerPublic ci /\ ci_ServerDiscoPublic ci' = ci_ServerDiscoPublic ci.
Proof.
  unfold Expand, expand_auto. intros H. repeat (case_match; simplify_eq/=; try done).
Qed.

Lemma nodeKeyLocked_fields c fresh c' k :
  nodeKeyLocked c fresh = (c', k) ->
  cl_Server c' = cl_Server c /\ cl_lb c' = cl_lb c /\ cl_ci c' = cl_ci c /\ cl_serverAddr c' = cl_serverAddr c /\
  cl_started c' = cl_started c /\ cl_upDone c' = cl_upDone c.
Proof. unfold nodeKeyLocked. destruct (PrivIsZero (cl_key c)); by intros [= <- <-]. Qed.

Lemma wf_client_fields w0 blob c c' l :
  cl_Server c' = cl_Server c -> cl_lb c' = cl_lb c -> cl_ci c' = cl_ci c -> cl_serverAddr c' = cl_serverAddr c ->
  cl_started c' = cl_started c -> (cl_upDone c' = true -> cl_started c = true) -> wf_client w0 blob c l -> wf_client w0 blob c' l.
Proof. intros H1 H2 H3 H4 H5 H6 [? ? ? Hs ?]. split; rewrite ?H1, ?H2, ?H3, ?H4, ?H5; auto. Qed.

Lemma init_wf w0 blob c env l c' err :
  wf_client w0 blob c l -> cl_started c = false -> initLocked c env = (c', err) ->
  wf_client w0 blob c' (client_init_opens c env l) /\ cl_started c' = false /\ (err = None -> is_Some (cl_lb c')).
Proof.
  intros Hwf Hst. unfold initLocked, client_init_opens, client_opens.
  destruct (cl_lb c) as [lb|] eqn:Hlb. { intros [= <- <-]. split_and!; [done..|]. by intros _; rewrite Hlb. }
  destruct (wc_none _ _ _ _ Hwf Hlb) as [Hl _]. pose proof (wc_server _ _ _ _ Hwf) as Hs. rewrite Hs.
  destruct (ParseConnBlob blob) as [ci|e] eqn:Hp; [|by intros [= <- <-]].
  destruct (DiscoIsZero (ci_ServerDiscoPublic ci)) eqn:Hd; cbn [negb andb]; rewrite ?andb_false_r; [by intros [= <- <-]|].
  rewrite Hst. cbn [negb andb]. destruct (nodeKeyLocked c (se_newKey env)) as [c1 k] eqn:Hk.
  destruct (nodeKeyLocked_fields _ _ _ _ Hk) as (F1 & F2 & F3 & F4 & F5 & F6).
  assert (owns w0 l.2 ∅) as Ho by (pose proof (wc_owns _ _ _ _ Hwf) as Ho; by rewrite Hl in Ho).
  destruct (open_subsystems env l.2) as [[ss x] w] eqn:Eo. destruct (open_subsystems_owns _ _ _ _ _ _ Ho Eo) as [-> Hw].
  assert (cl_upDone c = true -> False) as Hup by (intros Hu; pose proof (wc_up _ _ _ _ Hwf Hu); congruence).
  destruct (setup_error env) as [x|]; intros [= <- <-].
  - split_and!; [|congruence|done]. split; cbn [fst snd]; [congruence|intros _; split; [done|congruence]|intros Hu; destruct Hup; congruence| |by rewrite Hl].
    intros lb. rewrite F2, Hlb. done.
  - destruct Hw as [_ Hw]. split_and!; [|cbn; congruence|done].
    split; cbn [fst snd with_stack cl_Server cl_lb cl_upDone cl_started cl_ci cl_serverAddr]; [congruence|done|congruence| |done].
    intros lb [= <-]. exists ci. cbn. split_and!; try done. rewrite F5, Hst. done.
Qed.

Lemma ensureStarted_wf w0 blob c env xenv l c' err :
  wf_client w0 blob c l -> ensureStarted first_region c env xenv = Some (c', err) ->
  wf_client w0 blob c' (client_init_opens c env l) /\ (err = None -> cl_started c' = true).
Proof.
  intros Hwf. unfold ensureStarted. destruct (cl_started c) eqn:Hst.
  { intros [= <- <-]. split; [|done]. unfold client_init_opens, client_opens. rewrite Hst. cbn [negb andb].
    by destruct (cl_lb c), (ParseConnBlob (cl_Server c)). }
  destruct (initLocked c env) as [c1 [e|]] eqn:Ei; destruct (init_wf _ _ _ _ _ _ _ Hwf Hst Ei) as (Hwf1 & Hst1 & Hlb1).
  { by intros [= <- <-]. }
  generalize dependent (client_init_opens c env l). intros l1 Hwf1. destruct (Hlb1 eq_refl) as [lb Hlb]. rewrite Hlb. cbn [mbind option_bind].
  assert (forall lb' ci started, (ci_ServerPublic ci = ci_ServerPublic (cl_ci c1)) ->
            lb_serverPub lb' = lb_serverPub lb -> lb_serverDiscoPub lb' = lb_serverDiscoPub lb ->
            (started = true -> IsZero (lb_serverPub lb') = false -> exists rid nm, lb_nm lb' = Some nm /\ nm_Peers nm = [server_peer lb' rid]) ->
            wf_client w0 blob (with_backend c1 lb' ci started) l1) as Hset.
  { intros lb' ci started Hci Hp Hd Hnm. destruct Hwf1 as [W1 W2 W3 W4 W5]. split; cbn; [done|done| | |done].
    - intros Hu. specialize (W3 Hu). congruence.
    - intros ? [= <-]. destruct (W4 _ Hlb) as (ci0 & ? & ? & ? & ? & ? & ? & _). exists ci0. split_and!; try congruence.
      intros Hs Hz. apply Hnm; [done|]. congruence. }
  destruct (Expand _ _ _) as [[ci dm] [r|e]] eqn:Ex; destruct (Expand_keys _ _ _ _ _ _ Ex) as [Hci _].
  2: { intros [= <- <-]. split; [by apply Hset|done]. }
  destruct (ci_Region ci) as [|reg regs] eqn:Er. { intros [= <- <-]. split; [by apply Hset|done]. }
  generalize (foldl (fun (m : DERPMap) r => <[r_RegionID r := r]> m) (lb_dm lb) (reg :: regs)). intros dm'.
  unfold lb_Start. destruct (se_netstack env) as [x|]. { intros [= <- <-]. split; [by apply Hset|done]. }
  destruct (derpRegionID first_region (with_dm lb dm')) as [rid|]; cbn [mbind option_bind]; [|done].
  destruct (se_reconfig env) as [x|]; cbn [fmap option_fmap option_map]; intros [= <- <-]; (split; [|done]); apply Hset; try done.
  intros _ Hz. cbn in Hz. cbn [with_dm lb_serverPub]. rewrite Hz. exists rid. eexists. split; [done|]. cbn. done.
Qed.

Lemma ping_fields c sent wait pkt c' err :
  ping first_region c sent wait = Some (pkt, c', err) ->
  cl_Server c' = cl_Server c /\ cl_lb c' = cl_lb c /\ cl_ci c' = cl_ci c /\ cl_serverAddr c' = cl_serverAddr c /\
  cl_started c' = cl_started c /\ cl_upDone c' = cl_upDone c.
Proof.
  unfold ping. destruct (cl_lb c) as [lb|] eqn:Hlb; cbn [mbind option_bind]; [|done].
  destruct (derpRegionID first_region lb); cbn [mbind option_bind]; [|done]. intros H.
  repeat (case_match; simplify_eq/=; try done).
Qed.

Lemma Ping_wf w0 blob c env xenv sent wait l pkt c' err :
  wf_client w0 blob c l -> Ping first_region c env xenv sent wait = Some (pkt, c', err) ->
  wf_client w0 blob c' (client_init_opens c env l) /\ (err = None -> cl_upDone c' = true).
Proof.
  intros Hwf. unfold Ping. destruct (ensureStarted _ _ _ _) as [[c1 e]|] eqn:Es; [|done].
  destruct (ensureStarted_wf _ _ _ _ _ _ _ _ Hwf Es) as [Hwf1 Hst]. destruct e as [e|]. { by intros [= <- <- <-]. }
  destruct (ping _ _ _ _) as [[[pkt' c2] e2]|] eqn:Ep; [|done].
  destruct (ping_fields _ _ _ _ _ _ Ep) as (F1 & F2 & F3 & F4 & F5 & F6).
  assert (wf_client w0 blob c2 (client_init_opens c env l)) as H2.
  { eapply wf_client_fields; [exact F1|exact F2|exact F3|exact F4|exact F5| |exact Hwf1]. intros _. by apply Hst. }
  destruct e2 as [e2|]; intros [= <- <- <-].
  - by split.
  - split; [|done]. eapply (wf_client_fields _ _ c2); try done. intros _. rewrite F5. by apply Hst.
Qed.

Lemma up_wf w0 blob c env xenv sent wait l pkt c' err :
  wf_client w0 blob c l -> up first_region c env xenv sent wait = Some (pkt, c', err) ->
  wf_client w0 blob c' (if cl_upDone c then l else client_init_opens c env l) /\ (err = None -> cl_upDone c' = true).
Proof.
  intros Hwf. unfold up. destruct (cl_upDone c) eqn:Hu; [by intros [= <- <- <-]|]. by apply Ping_wf.
Qed.

Lemma client_event_wf w0 blob e c l c' l' :
  wf_client w0 blob c l -> client_event_step first_region e c l = Some (c', l') -> wf_client w0 blob c' l'.
Proof.
  intros Hwf. destruct e as [env xenv sent wait|env xenv sent wait|src pkt|fresh|]; cbn [client_event_step].
  - destruct (Ping _ _ _ _ _ _) as [[[pkt c1] e]|] eqn:Ep; cbn [mbind option_bind fst snd]; [|done]. intros [= <- <-].
    by destruct (Ping_wf _ _ _ _ _ _ _ _ _ _ _ Hwf Ep).
  - destruct (up _ _ _ _ _ _) as [[[pkt c1] e]|] eqn:Ep; cbn [mbind option_bind fst snd]; [|done]. intros [= <- <-].
    by destruct (up_wf _ _ _ _ _ _ _ _ _ _ _ Hwf Ep).
  - intros [= <- <-]. unfold client_receive_derp. destruct (client_onDERPRecv pkt).2; [|done].
    eapply (wf_client_fields _ _ c); try done. intros Hu. by eapply wc_up.
  - intros [= <- <-]. unfold client_PublicKey. destruct (nodeKeyLocked c fresh) as [c1 k] eqn:Hk. cbn [fst].
    destruct (nodeKeyLocked_fields _ _ _ _ Hk) as (F1 & F2 & F3 & F4 & F5 & F6).
    eapply (wf_client_fields _ _ c); try done. rewrite F6. intros Hu. by eapply wc_up.
  - intros [= <- <-]. unfold Client_Close. destruct (cl_lb c) as [lb|] eqn:Hlb; [|done].
    destruct (close_ledger_owns _ _ (wc_owns _ _ _ _ Hwf)) as (Ho & _ & _). destruct Hwf as [W1 W2 W3 W4 W5].
    split; try done. by rewrite Hlb.
Qed.

(** A client that has not been used. *)
Definition unused (c : Client) : Prop := cl_lb c = None /\ cl_started c = false /\ cl_upDone c = false.

Lemma client_history_wf w0 es c c' l' :
  (forall i, i ∈ w_open w0 -> (i < w_next w0)%nat) -> unused c ->
  client_history first_region es c (None, w0) = Some (c', l') -> wf_client w0 (cl_Server c) c' l'.
Proof.
  intros Hf (H1 & H2 & H3) Hh. assert (wf_client w0 (cl_Server c) c (None, w0)) as Hwf.
  { split; [done|done|congruence|congruence|by apply owns_refl]. }
  revert Hh Hwf. generalize (None : option subsystems, w0) as l. generalize (cl_Server c) as blob. clear H1 H2 H3. revert c.
  induction es as [|e es IH]; intros c blob l; cbn [client_history].
  - by intros [= <- <-].
  - destruct (client_event_step first_region e c l) as [[c1 l1]|] eqn:Ee; cbn [mbind option_bind]; [|done].
    intros Hh Hwf. eapply IH; [exact Hh|]. by eapply client_event_wf.
Qed.

(** A server's own address is no other key's NAT64 image, and so on: what the mapping
    gives. *)
Lemma nat64_mapped_A4 a : length a = 4%nat -> exists b, nat64_mapped (A4 a) = A6 b [] /\ length b = 16%nat /\
  has_prefix (pfx_bytes nat64Prefix) b = true /\ drop 12 b = a.
Proof.
  intros Ha. eexists. split; [done|]. split_and!; [by rewrite length_app, Ha|done|done].
Qed.
End node_properties.

Section reach_theorems.
Context `{K : KeyOps} {KL : KeyLaws K} {D : DiscoKeyOps K} {O : BlobOps K}.
Context (first_region : DERPMap -> option Z).

Lemma pfx_Addr_of_tcAddr k : pfx_Addr (pfxOf (tcAddrForKey k)) = tcAddrForKey k.
Proof.
  destruct (tcAddr_bytes k) as (b & -> & Hb). unfold zlen in Hb. unfold pfx_Addr, pfxOf. cbn [AsSlice pfx_bytes].
  replace (16 - length b)%nat with 0%nat by lia. by rewrite app_nil_r.
Qed.

(** a client belongs to the server its address names, and leaves nothing behind.  Whatever
    happened to it, what is open is what it holds and closing it leaves nothing open; and
    when it comes up, it is the server's address that its dials by port reach, and the
    server's node that it pings, with the key and disco key of the address. *)
Theorem derp_client_accounts w0 es c c' l' :
  (forall i, i ∈ w_open w0 -> (i < w_next w0)%nat) -> unused c ->
  client_history first_region es c (None, w0) = Some (c', l') ->
  w_open l'.2 = w_open w0 ∪ held l'.1 /\ w_open (Client_Close c' l').2 = w_open w0 /\
  forall env xenv sent meow pkt c2, up first_region c' env xenv sent meow = Some (pkt, c2, None) ->
    exists ci, ParseConnBlob (cl_Server c) = Ok ci /\
      (forall port, client_DialTCPPort first_region c' env xenv sent meow port =
                    Some (pkt, c2, Ok (tcAddrForKey (ci_ServerPublic ci), port))) /\
      (IsZero (ci_ServerPublic ci) = false -> forall wait, exists n answer,
         nd_Key n = ci_ServerPublic ci /\ nd_DiscoKey n = ci_ServerDiscoPublic ci /\
         DiscoPing first_region c' env xenv sent meow wait =
           Some (pkt, c2, Ok ([SentTSMP (tcAddrForKey (ci_ServerPublic ci)); SentDisco n], answer))).
Proof.
  intros Hf Hu Hh. pose proof (client_history_wf first_region _ _ _ _ _ Hf Hu Hh) as Hwf.
  pose proof (wc_owns _ _ _ _ Hwf) as Ho. split_and!; [by apply ow_open| |].
  - unfold Client_Close. destruct (cl_lb c') as [lb|] eqn:Hlb.
    + destruct (close_ledger_owns _ _ Ho) as (Ho' & He & _). rewrite (ow_open _ _ _ Ho'), He. set_solver.
    + destruct (wc_none _ _ _ _ Hwf Hlb) as [Hl _]. rewrite (ow_open _ _ _ Ho), Hl. cbn. set_solver.
  - intros env xenv sent meow pkt c2 Hup. destruct (up_wf _ _ _ _ _ _ _ _ _ _ _ _ Hwf Hup) as [Hwf2 Hup2].
    specialize (wc_up _ _ _ _ Hwf2 (Hup2 eq_refl)) as Hst. destruct (cl_lb c2) as [lb|] eqn:Hlb.
    2: { destruct (wc_none _ _ _ _ Hwf2 Hlb). congruence. }
    destruct (wc_some _ _ _ _ Hwf2 _ Hlb) as (ci & Hp & _ & _ & Hpub & Hdisco & Haddr & Hnm). exists ci. split; [done|].
    unfold client_DialTCPPort, DiscoPing, when_up. rewrite Hup, Hlb. cbn [mbind option_bind]. rewrite Haddr. split; [done|].
    intros Hz wait. destruct (Hnm Hst Hz) as (rid & nm & Hn & Hps). exists (server_peer lb rid).
    unfold disco_ping. rewrite Hn, Hps. cbn [server_peer nd_Addresses nd_Key nd_DiscoKey app]. rewrite Hpub, pfx_Addr_of_tcAddr.
    eexists. split_and!; done.
Qed.

(** A connection that a client opens through its server reaches the server's forwarder, and
    only that, under the address that was dialled. *)
Lemma derp_dial_is_forwarded {F : FilterOps} {FL : FilterLaws F} {H} (s : Server H) lb k (c : Client) env xenv sent meow pkt c2 a port :
  lb_addr lb = tcAddrForKey k -> 0 <= port <= 65535 ->
  match a with
  | A4 b => zlen b = 4
  | A6 b zone => zlen b = 16 /\ zone = [] /\ has_prefix (pfx_bytes nat64Prefix) b = false
  | AddrZero => False
  end -> nat64_mapped a <> lb_addr lb ->
  up first_region c env xenv sent meow = Some (pkt, c2, None) -> is_Some (cl_lb c2) ->
  exists target, client_DialTCP first_region c env xenv sent meow (a, port) = Some (pkt, c2, Ok (target, port)) /\
    GetTCPHandlerForFlow s lb target port = (f ← s_OnTCPForward s; f (a, port)) /\
    (passes (buildFilter s lb) target port = true <-> is_Some (s_OnTCPForward s)).
Proof.
  intros Ha Hport Hwf Hne Hup [lb2 Hlb]. exists (nat64_mapped a). split.
  { unfold client_DialTCP, when_up. by rewrite Hup, Hlb. }
  assert (exists b, nat64_mapped a = A6 b [] /\ length b = 16%nat /\
            (if has_prefix (pfx_bytes nat64Prefix) b then A4 (drop 12 b) else A6 b []) = a) as (b & Hb & Hl & Hback).
  { destruct a as [|b|b zone]; [done| |].
    - destruct (nat64_mapped_A4 b) as (b' & Hm & Hl & Hp & Hd); [unfold zlen in Hwf; lia|].
      exists b'. split_and!; [done|done|]. by rewrite Hp, Hd.
    - destruct Hwf as (Hl & -> & Hp). exists b. split_and!; [done|unfold zlen in Hl; lia|]. by rewrite Hp. }
  rewrite Hb in *. split.
  - unfold GetTCPHandlerForFlow. rewrite bool_decide_eq_false_2 by done.
    destruct (s_OnTCPForward s) as [f|]; cbn [mbind option_bind]; [|done].
    assert (Contains nat64Prefix (A6 b []) = has_prefix (pfx_bytes nat64Prefix) b) as -> by (unfold Contains; by rewrite bool_decide_eq_true_2).
    assert (slice 12 16 (As16 (A6 b [])) = drop 12 b) as ->.
    { unfold slice, As16. rewrite take_ge; [done|]. rewrite length_drop. lia. }
    by rewrite Hback.
  - destruct (filter_and_handlers s lb k b port Ha ltac:(unfold zlen; lia) Hport) as (_ & Hfilter & _). by apply Hfilter.
Qed.

(** What a started server's blob is made of. *)
Lemma server_start_region {H} (s s' : Server H) env xenv lb :
  server_Start first_region s env xenv = Some (s', None) -> s_lb s' = Some lb ->
  exists reg, lb_dm lb = {[r_RegionID reg := reg]} /\ lb_addr lb = tcAddrForKey (lb_pub lb).
Proof.
  intros Hs Hlb. unfold server_Start in Hs. destruct (s_lb s); [done|].
  destruct (server_region s xenv) as [reg|]; [|done]. destruct (r_RegionID reg =? 0); [done|].
  destruct (setup_error env); [done|]. destruct (se_netstack env); cbn [lb_Start] in Hs; [done|]. exists reg.
  unfold lb_Start in Hs. destruct (derpRegionID _ _); cbn [mbind option_bind] in Hs; [|done].
  destruct (se_reconfig env); cbn [fmap option_fmap option_map] in Hs; [done|].
  assert (s_lb s' = s_lb s') as Hr by done. injection Hs as <-. cbn [s_lb with_lb] in Hlb. injection Hlb as <-. done.
Qed.
End reach_theorems.

(** ** From a server's address to a connection *)

Section connects.
Context `{K : KeyOps} {KL : KeyLaws K} {D : DiscoKeyOps K} {O : BlobOps K} {BL : BlobLaws O}.
Context (first_region : DERPMap -> option Z).
(** Going through a map of one region starts there. *)
Hypothesis first_region_single : forall rid r, first_region {[rid := r]} = Some rid.

(** The key a client uses, where [fresh] is drawn if it needs one. *)
Definition client_key (c : Client) (fresh : NodePrivate) : NodePrivate := (nodeKeyLocked c fresh).2.
Definition no_failure (e : start_env) : Prop := setup_error e = None /\ se_netstack e = None /\ se_reconfig e = None.

(** An address that names a relay needs no DERP map. *)
Lemma Expand_named_region env ci r (url : gostring) (cache : bool) :
  ci_Region ci = [r] ->
  exists m, Expand env ci ((if bool_decide (url = []) then [] else [OptDERPMapURL url]) ++ (if cache then [OptDERPMapCache] else [])) =
    (with_region ci [expand_region r] (ci_RegionID ci), m, Ok None).
Proof.
  intros Hr. unfold Expand. assert (exists o, expand_options ((if bool_decide (url = []) then [] else [OptDERPMapURL url]) ++
    (if cache then [OptDERPMapCache] else [])) = Some o) as [o ->].
  { case_bool_decide; destruct cache; cbn [app]; by eexists. }
  rewrite Hr. rewrite bool_decide_eq_false_2 by done. cbn [negb orb]. by eexists.
Qed.

Lemma unused_client_starts c env xenv ci r :
  unused c -> ParseConnBlob (cl_Server c) = Ok ci -> DiscoIsZero (ci_ServerDiscoPublic ci) = false ->
  ci_Region ci = [r] -> no_failure env ->
  exists c1 lb1, ensureStarted first_region c env xenv = Some (c1, None) /\ cl_lb c1 = Some lb1 /\
    ci_ServerPublic (cl_ci c1) = ci_ServerPublic ci /\ cl_serverAddr c1 = tcAddrForKey (ci_ServerPublic ci) /\
    lb_priv lb1 = client_key c (se_newKey env) /\ lb_pub lb1 = Public (client_key c (se_newKey env)) /\
    is_Some (derpRegionID first_region lb1).
Proof.
  intros (Hlb & Hst & _) Hp Hd Hr (Hsetup & Hns & Hrc). unfold ensureStarted. rewrite Hst. unfold initLocked. rewrite Hlb, Hp, Hd.
  unfold client_key. destruct (nodeKeyLocked c (se_newKey env)) as [c0 k]. cbn [snd]. rewrite Hsetup.
  cbn [with_stack cl_lb cl_ci cl_DERPMapURL cl_DERPMapCache mbind option_bind].
  destruct (Expand_named_region xenv ci r (cl_DERPMapURL c0) (cl_DERPMapCache c0) Hr) as [m ->].
  cbn [with_region ci_Region foldl]. unfold lb_Start. rewrite Hns.
  cbn [with_dm with_server newLocoBackend lb_dm]. unfold derpRegionID. cbn [with_dm lb_dm].
  rewrite insert_empty, first_region_single. cbn [mbind option_bind]. rewrite lookup_singleton_eq. cbn [mbind option_bind].
  rewrite Hrc. cbn [fmap option_fmap option_map]. eexists _, _. split; [done|].
  do 5 (split; [done|]). unfold with_nm, with_clients. cbn [lb_dm with_dm].
  rewrite first_region_single. cbn [mbind option_bind]. rewrite lookup_singleton_eq. by eexists.
Qed.

(** C34: an address brings its holder to the server.  A client that was made from the address a
    started server gives out comes up without a DERP map: its ping goes to the server's key,
    the server takes it, and if the client is admitted answers with the acknowledgment the
    client waits for, and lets it use its address from then on; if it is not, the server
    neither answers nor changes.  The client's dials by port reach the server's address. *)
Theorem derp_address_connects {H} (s s' : Server H) env xenv lb order blob c envc xenvc :
  server_Start first_region s env xenv = Some (s', None) -> s_lb s' = Some lb ->
  order ≡ₚ (map_to_list (lb_dm lb)).*2 -> server_ConnBlob s' order = Some blob ->
  encodable (wireOf (lb_connInfo lb order)) = true -> DiscoIsZero (discoPublic lb) = false ->
  unused c -> cl_Server c = blob -> no_failure envc -> DiscoIsZero (DiscoPublicForNode (client_key c (se_newKey envc))) = false ->
  let k := Public (client_key c (se_newKey envc)) in
  exists pkt c' d, Ping first_region c envc xenvc (Ok true) Meowed = Some (Some pkt, c', None) /\
    dp_dst pkt = lb_pub lb /\ server_onDERPRecv (dp_bytes pkt) = (true, Some d) /\
    (forall region, admits lb k -> exists b' adv,
       meow_goroutine first_region lb k region d = Some (b', Some (DerpPacket k region EncodeMeowed), adv) /\
       peerAllowedIPs b' k = Some [pfxOf (tcAddrForKey k)]) /\
    client_onDERPRecv EncodeMeowed = (true, true) /\
    (forall region, ~ admits lb k -> meow_goroutine first_region lb k region d = Some (lb, None, false)) /\
    cl_upDone c' = true /\ forall port, client_DialTCPPort first_region c' envc xenvc (Ok true) Meowed port = Some (None, c', Ok (lb_addr lb, port)).
Proof.
  intros Hs Hlb Horder Hblob Henc Hd Hu Hc Hnf Hdc k. destruct (server_start_lb _ _ _ _ _ _ Hs Hlb) as (Hwf & _).
  destruct (server_start_region first_region _ _ _ _ _ Hs Hlb) as (reg & Hdm & Haddr).
  rewrite Hdm, map_to_list_singleton in Horder. cbn in Horder. symmetry in Horder; apply Permutation_length_1_inv in Horder as ->.
  unfold server_ConnBlob in Hblob. rewrite Hlb in Hblob. cbn [mbind option_bind] in Hblob. case_bool_decide; [done|].
  pose proof (parse_conn_blob _ _ Henc Hblob) as Hp. rewrite <- Hc in Hp.
  destruct (unused_client_starts c envc xenvc (canonical (lb_connInfo lb [reg])) (canonical_region 0 reg) Hu Hp Hd ltac:(reflexivity) Hnf)
    as (c1 & lb1 & Hst & Hlb1 & Hpub & Haddr1 & Hpriv & Hk & [rid Hrid]).
  assert (discoPublic lb1 = DiscoPublicForNode (client_key c (se_newKey envc))) as Hdisco by (unfold discoPublic; by rewrite Hpriv).
  assert (exists pkt, ping first_region c1 (Ok true) Meowed = Some (Some pkt, with_meowed c1, None)) as [pkt Hping].
  { unfold ping. rewrite Hlb1. cbn [mbind option_bind]. rewrite Hrid. cbn [mbind option_bind]. by eexists. }
  exists pkt, (with_up (with_meowed c1)), (discoPublic lb1). unfold Ping. rewrite Hst, Hping.
  assert (forall lbc, cl_lb c1 = Some lbc -> DiscoIsZero (discoPublic lbc) = false) as Hd1.
  { intros lb2 Hlb2. assert (lb2 = lb1) as -> by congruence. by rewrite Hdisco. }
  pose proof (fun region => meow_handshake first_region lb c1 pkt (with_meowed c1) region Hwf Hping Hd1) as Hmeow.
  destruct (Hmeow 0) as (lb2 & Hlb2 & Hdst & Htaken & _). assert (lb2 = lb1) as -> by congruence.
  split_and!; [done|by rewrite Hdst, Hpub|done| |done| |done|].
  - intros region Hadm. destruct (Hmeow region) as (lb3 & Hlb3 & _ & _ & Hok & _). assert (lb3 = lb1) as -> by congruence.
    rewrite Hk in Hok. destruct (Hok Hadm) as (b' & adv & Hg & Hips & _). by exists b', adv.
  - intros region Hadm. destruct (Hmeow region) as (lb3 & Hlb3 & _ & _ & _ & Hno). assert (lb3 = lb1) as -> by congruence.
    rewrite Hk in Hno. by apply Hno.
  - intros port. unfold client_DialTCPPort, when_up, up. cbn [with_up with_meowed cl_upDone cl_lb]. rewrite Hlb1. cbn [mbind option_bind].
    cbn [cl_serverAddr with_up with_meowed]. by rewrite Haddr1, Haddr.
Qed.
End connects.

(** ** Draining *)

(** With a context that ends, a server's drain returns nil exactly when every endpoint
    closes before that, as soon as the last has; otherwise it returns the context's error
    when the context ends. *)
Lemma server_drain_spec T err tie eps : forall now, now < T ->
  (forall t, Some t ∈ eps -> t <> T) ->
  server_DrainTCP (Some T) err tie now eps =
    if forallb (fun ep => match ep with Some t => t <? T | None => false end) eps
    then Some (None, foldl (fun m ep => Z.max m (default m ep)) now eps)
    else Some (Some err, T).
Proof.
  induction eps as [|ep eps IH]; intros now Hnow Hne; [done|]. cbn [server_DrainTCP forallb foldl]. unfold first_of_two.
  destruct ep as [t|]; cbn [fmap option_fmap option_map default from_option].
  2: { cbn. replace (Z.max now T) with T by lia. done. }
  assert (t <> T) by (apply Hne; left). unfold id. destruct (t <? T) eqn:Ht.
  - apply Z.ltb_lt in Ht. rewrite (proj2 (Z.ltb_lt (Z.max now t) (Z.max now T))) by lia. cbn [orb andb].
    apply IH; [lia|]. intros t' Hin. apply Hne. by right.
  - apply Z.ltb_ge in Ht. rewrite (proj2 (Z.ltb_ge (Z.max now t) (Z.max now T))) by lia.
    rewrite (proj2 (Z.eqb_neq (Z.max now t) (Z.max now T))) by lia. cbn [orb andb]. by replace (Z.max now T) with T by lia.
Qed.

(** A client's drain returns nil exactly at a poll that finds no endpoint in a busy state,
    with the context alive until after the wait that follows. *)
Lemma client_drain_spec polls :
  client_DrainTCP polls = Some None <->
  exists i eps, polls !! i = Some (eps, None) /\ (forall s, Some s ∈ eps -> busy_state s = false) /\
    forall j, (j < i)%nat -> exists eps', polls !! j = Some (eps', None) /\ exists s, Some s ∈ eps' /\ busy_state s = true.
Proof.
  assert (forall eps : list (option EndpointState),
            existsb (fun s => match s with Some s => busy_state s | None => false end) eps = true <->
            exists s, Some s ∈ eps /\ busy_state s = true) as Hb.
  { intros eps. rewrite existsb_exists. split.
    - intros ([s|] & Hin%list_elem_of_In & Hs); [by exists s|done].
    - intros (s & Hin & Hs). exists (Some s). by split; [apply list_elem_of_In|]. }
  induction polls as [|[eps done_] rest IH]; cbn [client_DrainTCP]; [split; [done|]; by intros (i & eps & Hi & _)|].
  specialize (Hb eps). destruct (existsb _ eps); cbn [negb].
  - destruct (proj1 Hb eq_refl) as (s & Hin & Hs). destruct done_ as [e|].
    + split; [done|]. intros (i & eps' & Hi & Hq & Hprev). destruct i; [simplify_eq/=|].
      destruct (Hprev 0%nat ltac:(lia)) as (? & ? & _). simplify_eq/=.
    + rewrite IH. split.
      * intros (i & eps' & Hi & Hq & Hprev). exists (S i), eps'. split_and!; [done|done|]. intros [|j] Hj; [by exists eps; eauto|].
        apply Hprev. lia.
      * intros (i & eps' & Hi & Hq & Hprev). destruct i as [|i]; [simplify_eq/=; by rewrite Hq in Hs|].
        exists i, eps'. split_and!; [done|done|]. intros j Hj. apply (Hprev (S j)). lia.
  - split.
    + intros [= ->]. exists 0%nat, eps. split_and!; [done| |lia]. intros s Hin. destruct (busy_state s) eqn:Hs; [|done].
      by rewrite (proj2 Hb (ex_intro _ s (conj Hin Hs))) in *.
    + intros (i & eps' & Hi & _ & Hprev). destruct i as [|i]; [by simplify_eq/=|].
      destruct (Hprev 0%nat ltac:(lia)) as (? & ? & Hex). simplify_eq/=. by apply Hb in Hex.
Qed.

(** A connection that waits for the peer's FIN holds up the drain of a MASQUE core but not
    that of a DERP client, and so does one that is connecting; in every other state they
    agree. *)
Lemma drains_differ s : busy_state s <> masqueTCPStateNeedsDrain s <-> s = StateFinWait2 \/ s = StateConnecting.
Proof. destruct s; cbn; naive_solver. Qed.

(** ** Witness *)

Import ToyKeys ToyBlob.

(** A client whose first start fails for want of an engine and whose second for want of a
    DERP map, and which then comes up. *)
Definition ex_online : expand_env := ExpandEnv (fun _ _ _ => Ok ex_map) (fun _ l => l) (fun _ => Err (ErrNew "no netcheck")) pred.
Definition no_engine : start_env (K := toy) := StartEnv (K := toy) (nkey 8) None (Some IOEOF) None None None.
Definition ex_history : list (client_event (K := toy)) :=
  [ClUse no_engine ex_env (Ok true) Meowed; ClUse no_error ex_env (Ok true) Meowed; ClUse no_error ex_online (Ok true) Meowed;
   ClReceive (nkey 1) EncodeMeowed].

Lemma derp_client_accounts_witness :
  match client_history (K := toy) (D := toy_disco) (O := toy_blob) first_of ex_history (NewClient (K := toy) ex_blob) (None, World 0 ∅) with
  | Some (c', l') =>
      w_open l'.2 = list_to_set (seq 3 5) /\ w_open (Client_Close (K := toy) c' l').2 = ∅ /\
      exists ci, ParseConnBlob (K := toy) (O := toy_blob) ex_blob = Ok ci /\
        client_DialTCPPort (K := toy) (D := toy_disco) (O := toy_blob) first_of c' no_error ex_env (Ok true) Meowed 80 =
          Some (None, c', Ok (tcAddrForKey (K := toy) (ci_ServerPublic ci), 80))
  | None => False
  end.
Proof.
  destruct (client_history _ _ _ _) as [[c' l']|] eqn:E.
  2: { assert (is_Some (client_history (K := toy) (D := toy_disco) (O := toy_blob) first_of ex_history (NewClient (K := toy) ex_blob) (None, World 0 ∅))) as [? Hx]
         by by_evaluation. by rewrite E in Hx. }
  assert (forall i, i ∈ w_open (World 0 ∅) -> (i < w_next (World 0 ∅))%nat) as Hf by (intros i Hi; exfalso; revert Hi; apply not_elem_of_empty).
  assert (unused (K := toy) (NewClient (K := toy) ex_blob)) as Hun by (split; [reflexivity|split; reflexivity]).
  destruct (derp_client_accounts (K := toy) (KL := toy_laws) (D := toy_disco) (O := toy_blob) first_of (World 0 ∅) ex_history
              (NewClient (K := toy) ex_blob) c' l' Hf Hun E) as (Ho & Hc & Hd).
  assert (cl_upDone c' = true /\ bool_decide (w_open l'.2 = list_to_set (seq 3 5)) = true) as [Hup Hopen].
  { assert (match client_history (K := toy) (D := toy_disco) (O := toy_blob) first_of ex_history (NewClient (K := toy) ex_blob) (None, World 0 ∅) with
            | Some (c', l') => cl_upDone c' && bool_decide (w_open l'.2 = list_to_set (seq 3 5)) | None => false end = true) as H by vm_reflexivity.
    rewrite E in H. by apply andb_true_iff in H. }
  split_and!; [by apply bool_decide_eq_true in Hopen|exact Hc|].
  destruct (Hd no_error ex_env (Ok true) Meowed None c') as (ci & Hp & Hdial & _); [unfold up; by rewrite Hup|].
  exists ci. split; [exact Hp|]. apply Hdial.
Defined.

Lemma first_of_single rid (r : DERPRegion) : first_of {[rid := r]} = Some rid.
Proof. unfold first_of. by rewrite map_to_list_singleton. Qed.

(** A client with an admitted key, and the address of the server of [ex_lb]. *)
Definition ex_address : gostring := default [] (ConnBlob (K := toy) (O := toy_blob) (lb_connInfo (K := toy) (D := toy_disco) ex_lb [ex_region])).
Definition ex_dialler : Client (K := toy) :=
  MkClient (K := toy) ex_address (nkey 3) [] false None (cl_ci (NewClient (K := toy) [])) false AddrZero NodePrivateZero false false.

Definition ex_k : NodePublic (KeyOps := toy) := Public (client_key (K := toy) ex_dialler (se_newKey no_error)).

Lemma ex_address_some :
  match ConnBlob (K := toy) (O := toy_blob) (lb_connInfo (K := toy) (D := toy_disco) ex_lb [ex_region]) with Some _ => true | None => false end = true.
Proof. vm_reflexivity. Qed.
Lemma ex_address_given s' : s_lb s' = Some ex_lb ->
  server_ConnBlob (K := toy) (D := toy_disco) (O := toy_blob) (H := Z) s' [ex_region] = Some ex_address.
Proof.
  intros Hlb. unfold server_ConnBlob. rewrite Hlb. cbn [mbind option_bind].
  assert (bool_decide (lb_dm ex_lb = ∅) = false) as -> by vm_reflexivity.
  pose proof ex_address_some as Hs. unfold ex_address. by destruct (ConnBlob _).
Qed.
Lemma ex_k_admitted : admits (K := toy) ex_lb ex_k.
Proof.
  unfold admits. assert (match lb_allowedClients ex_lb with Some m => bool_decide (is_Some (m !! ex_k)) | None => true end = true) as Ha by vm_reflexivity.
  destruct (lb_allowedClients ex_lb) as [m|]; [|exact I]. by apply bool_decide_eq_true in Ha.
Qed.

Lemma derp_address_connects_witness :
  exists pkt c' d b' adv, Ping (K := toy) (D := toy_disco) (O := toy_blob) first_of ex_dialler no_error ex_env (Ok true) Meowed = Some (Some pkt, c', None) /\
    server_onDERPRecv (K := toy) (dp_bytes pkt) = (true, Some d) /\
    meow_goroutine (K := toy) (D := toy_disco) first_of ex_lb ex_k 7 d = Some (b', Some (DerpPacket ex_k 7 EncodeMeowed), adv).
Proof.
  destruct ex_started_lb as (s' & Hs & Hlb).
  destruct (derp_address_connects (K := toy) (KL := toy_laws) (D := toy_disco) (O := toy_blob) (BL := toy_blob_laws) first_of first_of_single
              ex_server s' no_error ex_env ex_lb [ex_region] ex_address ex_dialler no_error ex_env Hs Hlb)
    as (pkt & c' & d & Hp & _ & Ht & Hm & _); [vm_reflexivity|by apply ex_address_given|vm_reflexivity|vm_reflexivity|by split_and!|reflexivity|by split_and!|vm_reflexivity|].
  destruct (Hm 7 ex_k_admitted) as (b' & adv & Hg & _).
  exists pkt, c', d, b', adv. split; [exact Hp|]. split; [exact Ht|exact Hg].
Defined.
