(* ===== verification/AutoDirect.v ===== *)
(** AutoDirect: the zero-argument server.

    Models src/cmd/tailcat/masquecat_autodirect.go and masquecat_autodirect_pin.go: when a
    server without an endpoint sets one up by itself, which address it advertises, the
    certificate bundle it keeps on disk, and the pinned direct URL it configures.  The
    interfaces, the file system, key generation and X.509 are arguments. *)

From S2P Require Import Prelude GoStd Keys Url Token Packet Fragment Bind Core.
From Stdlib Require Import Strings.Byte.
Import Netip.

(** * net/netip *)

Module NetipMore.
(** A prefix of any length: the bytes of its address and its number of bits. *)
Record Prefix : Type := MkPrefix { px_bytes : list byte; px_bits : Z }.
Definition bytes_in (p : Prefix) (b : list byte) : bool :=
  (zlen b =? zlen (px_bytes p)) &&
  (Z.shiftr (be_get b) (8 * zlen b - px_bits p) =? Z.shiftr (be_get (px_bytes p)) (8 * zlen b - px_bits p)).
Definition Contains (p : Prefix) (a : Addr) : bool :=
  match a with
  | AddrZero => false
  | A4 b => bytes_in p b
  | A6 b zone => bool_decide (zone = []) && bytes_in p b
  end.

Definition v4 (a b c d : Z) (bits : Z) : Prefix := MkPrefix (z2b <$> [a; b; c; d]) bits.
(** A 16-byte prefix by its first two bytes. *)
Definition v6 (a b : Z) (bits : Z) : Prefix := MkPrefix ([z2b a; z2b b] ++ replicate 14 x00) bits.
Definition zero6 : list byte := replicate 16 x00.
Definition one6 : list byte := replicate 15 x00 ++ [x01].
Definition raw_in (p : Prefix) (a : Addr) : bool :=
  match a with AddrZero => false | A4 b => bytes_in p b | A6 b _ => bytes_in p b end.

(** The predicates, of an address that is not IPv4 in IPv6. *)
Definition IsValid (a : Addr) : bool := match a with AddrZero => false | _ => true end.
Definition IsLoopback (a : Addr) : bool :=
  match a with A6 b _ => bool_decide (b = one6) | _ => raw_in (v4 127 0 0 0 8) a end.
Definition IsLinkLocalUnicast (a : Addr) : bool := raw_in (v4 169 254 0 0 16) a || raw_in (v6 254 128 10) a.
Definition IsPrivate (a : Addr) : bool :=
  raw_in (v4 10 0 0 0 8) a || raw_in (v4 172 16 0 0 12) a || raw_in (v4 192 168 0 0 16) a || raw_in (v6 252 0 7) a.
Definition IsMulticast (a : Addr) : bool := raw_in (v4 224 0 0 0 4) a || raw_in (v6 255 0 8) a.
Definition IsGlobalUnicast (a : Addr) : bool :=
  match a with
  | AddrZero => false
  | A4 b => negb (bool_decide (b = replicate 4 x00)) && negb (bool_decide (b = replicate 4 xff)) &&
            negb (IsLoopback a) && negb (IsMulticast a) && negb (IsLinkLocalUnicast a)
  | A6 b zone => negb (bool_decide (b = zero6) && bool_decide (zone = [])) &&
            negb (IsLoopback a) && negb (IsMulticast a) && negb (IsLinkLocalUnicast a)
  end.

(** [a.String()] *)
Definition string4 (b : list byte) : gostring := Strings.join (B ".") ((fun x => Strconv.Itoa (b2z x)) <$> b).

(** A 16-bit group in hexadecimal, without leading zeros. *)
Definition hex_group (w : Z) : gostring :=
  let d n := Hex.digit (Z.land (Z.shiftr w n) 15) in
  if 4095 <? w then [d 12; d 8; d 4; d 0]
  else if 255 <? w then [d 8; d 4; d 0]
  else if 15 <? w then [d 4; d 0]
  else [d 0].
Fixpoint groups (b : list byte) : list Z :=
  match b with x :: y :: b => be_get [x; y] :: groups b | _ => [] end.
Fixpoint zeros (ws : list Z) : nat := match ws with w :: ws => if w =? 0 then S (zeros ws) else O | [] => O end.
(** The first longest run of at least two zero groups, as its bounds. *)
Definition zero_step (ws : list Z) (best : nat * nat) (i : nat) : nat * nat :=
  let l := zeros (drop i ws) in
  if (2 <=? l)%nat && (best.2 - best.1 <? l)%nat then (i, i + l)%nat else best.
Definition zero_run (ws : list Z) : nat * nat := foldl (zero_step ws) (255, 255)%nat (seq 0 8).
(** The groups from [i] on, where the run [zs, ze) is written as two colons. *)
Fixpoint groups_from (fuel : nat) (ws : list Z) (zs ze i : nat) : gostring :=
  match fuel with
  | O => []
  | S fuel =>
      if (8 <=? i)%nat then []
      else if (i =? zs)%nat then
        B "::" ++ (if (8 <=? ze)%nat then [] else hex_group (nth ze ws 0) ++ groups_from fuel ws zs ze (S ze))
      else (if (i =? 0)%nat then [] else B ":") ++ hex_group (nth i ws 0) ++ groups_from fuel ws zs ze (S i)
  end.
Definition string6 (b : list byte) : gostring :=
  let ws := groups b in let '(zs, ze) := zero_run ws in groups_from 8 ws zs ze 0.
Definition String (a : Addr) : gostring :=
  match a with
  | AddrZero => B "invalid IP"
  | A4 b => string4 b
  | A6 b zone =>
      (if Is4In6 a then B "::ffff:" ++ string4 (drop 12 b) else string6 b) ++
      (if bool_decide (zone = []) then [] else B "%" ++ zone)
  end.
End NetipMore.
Import NetipMore.

Example string_samples :
  NetipMore.String (A4 (z2b <$> [192; 0; 2; 10])) = B "192.0.2.10" /\
  NetipMore.String (A6 (z2b <$> [32; 1; 13; 184; 0; 0; 0; 0; 0; 1; 0; 0; 0; 0; 0; 1]) []) = B "2001:db8::1:0:0:1" /\
  NetipMore.String (A6 zero6 []) = B "::" /\ NetipMore.String (A6 one6 []) = B "::1" /\
  NetipMore.String (A6 (z2b <$> [253; 122; 0; 1; 0; 0; 0; 3; 0; 4; 0; 5; 0; 0; 0; 0]) []) = B "fd7a:1:0:3:4:5::".
Proof. by vm_compute. Qed.

(** * When to set up *)

(** src/cmd/tailcat/masquecat_autodirect.go:129-140 [hasExplicitMasqueEndpoint] *)
Definition hasExplicitMasqueEndpoint (args : list gostring) : bool :=
  existsb (fun arg => bool_decide (arg = B "--relay-url") || bool_decide (arg = B "--direct-url") ||
                      Strings.HasPrefix arg (B "--relay-url=") || Strings.HasPrefix arg (B "--direct-url=")) (tail args).

Definition masqueEnvironment : list gostring :=
  [B "MASQUECAT_RELAY_URL"; B "MASQUECAT_DIRECT_URL"; B "MASQUECAT_DIRECT_LISTEN"; B "MASQUECAT_TLS_CERT"; B "MASQUECAT_TLS_KEY"].
Definition Getenv (env : gmap gostring gostring) (name : gostring) : gostring := default [] (env !! name).

(** src/cmd/tailcat/masquecat_autodirect.go:103-116 [hasExplicitMasqueEnvironment] *)
Definition hasExplicitMasqueEnvironment (env : gmap gostring gostring) : bool :=
  existsb (fun name => negb (bool_decide (Getenv env name = []))) masqueEnvironment.

(** src/cmd/tailcat/masquecat_autodirect.go:118-127 [isHelpInvocation] *)
Definition isHelpInvocation (args : list gostring) : bool :=
  existsb (fun arg => bool_decide (arg ∈ [B "help"; B "-h"; B "--help"])) (tail args) ||
  (bool_decide (1 < length args)%nat && bool_decide (last args = Some (B "--serve"))).

(** src/cmd/tailcat/masquecat_autodirect.go:73-100 [shouldConfigureAutoMasqueDirect], the
    arguments from one on *)
Fixpoint selects_server (args : list gostring) : bool :=
  match args with
  | [] => true
  | arg :: rest =>
      if bool_decide (arg = B "serve") || bool_decide (arg = B "recv") || Strings.HasPrefix arg (B "--serve=") then true
      else if bool_decide (arg = B "--serve") then negb (bool_decide (rest = []))
      else if negb (Strings.HasPrefix arg (B "--")) then false
      else if Strings.ContainsByte arg "="%byte then selects_server rest
      else if bool_decide (arg ∈ [B "--key"; B "--derpmap-url"; B "--direct-listen"; B "--tls-cert"; B "--tls-key"]) then
        match rest with [] => false | _ :: rest => selects_server rest end
      else if bool_decide (arg ∈ [B "--verbose"; B "--json"; B "--legacy-derp"; B "--insecure-skip-verify"]) then
        selects_server rest
      else false
  end.

(** src/cmd/tailcat/masquecat_autodirect.go:60-101 [shouldConfigureAutoMasqueDirect] *)
Definition shouldConfigureAutoMasqueDirect (env : gmap gostring gostring) (args : list gostring) : bool :=
  if hasExplicitMasqueEndpoint args || hasExplicitMasqueEnvironment env || isHelpInvocation args then false
  else if (length args =? 1)%nat then true
  else selects_server (tail args).

(** * Which address *)

(** src/cmd/tailcat/masquecat_autodirect.go:31-40 [nonPublicMasqueDirectPrefixes] *)
Definition nonPublicMasqueDirectPrefixes : list Prefix :=
  [v4 100 64 0 0 10; v4 192 0 0 0 24; v4 192 0 2 0 24; v4 198 18 0 0 15; v4 198 51 100 0 24; v4 203 0 113 0 24;
   v4 240 0 0 0 4; MkPrefix (z2b <$> [32; 1; 13; 184; 0; 0; 0; 0; 0; 0; 0; 0; 0; 0; 0; 0]) 32].

(** src/cmd/tailcat/masquecat_autodirect.go:172-183 [isPublicMasqueDirectAddr] *)
Definition isPublicMasqueDirectAddr (addr : Addr) : bool :=
  let addr := Unmap addr in
  if negb (IsValid addr) || negb (IsGlobalUnicast addr) || IsLoopback addr || IsLinkLocalUnicast addr || IsPrivate addr
  then false
  else negb (existsb (fun pfx => NetipMore.Contains pfx addr) nonPublicMasqueDirectPrefixes).

(** An interface: its flags, and its addresses ([None] when listing them fails); of an
    address, its bytes, or [None] when it is neither an IPNet nor an IPAddr. *)
Record iface : Type := Iface { if_up : bool; if_loopback : bool; if_addrs : option (list (option (list byte))) }.

(** src/cmd/tailcat/masquecat_autodirect.go:199-226 [preferredMasqueDirectAddr], the
    addresses of one interface: a public one, or the private one so far *)
Fixpoint scan_addrs (l : list (option (list byte))) (private : Addr) : Addr + Addr :=
  match l with
  | [] => inr private
  | None :: l => scan_addrs l private
  | Some ip :: l =>
      match AddrFromSlice ip with
      | None => scan_addrs l private
      | Some addr =>
          let addr := Unmap addr in
          if negb (IsGlobalUnicast addr) || IsLoopback addr || IsLinkLocalUnicast addr then scan_addrs l private
          else if isPublicMasqueDirectAddr addr then inl addr
          else scan_addrs l (if IsPrivate addr && negb (IsValid private) then addr else private)
      end
  end.

(** src/cmd/tailcat/masquecat_autodirect.go:191-227 [preferredMasqueDirectAddr], the
    interfaces *)
Fixpoint scan_ifaces (l : list iface) (private : Addr) : Addr + Addr :=
  match l with
  | [] => inr private
  | i :: l =>
      if negb (if_up i) || if_loopback i then scan_ifaces l private
      else match if_addrs i with
           | None => scan_ifaces l private
           | Some addrs => match scan_addrs addrs private with
                           | inl addr => inl addr
                           | inr private => scan_ifaces l private
                           end
           end
  end.

(** src/cmd/tailcat/masquecat_autodirect.go:185-232 [preferredMasqueDirectAddr] *)
Definition preferredMasqueDirectAddr (interfaces : result (list iface)) : result Addr :=
  match interfaces with
  | Err e => Err (ErrWrap "list network interfaces: %w" e)
  | Ok l =>
      match scan_ifaces l AddrZero with
      | inl addr => Ok addr
      | inr private =>
          if IsValid private then Ok private
          else Err (ErrNew "no public or private LAN address found; CGNAT/shared/reserved addresses require an explicit --direct-url or --relay-url")
      end
  end.

(** * The certificate on disk *)

Abbreviation files := (gmap gostring (list byte)).

(** What the system calls of one write answer: the temporary file's name, the bytes a
    failing write puts down, and the errors. *)
Record bundle_env : Type := BundleEnv {
  be_create : result gostring;
  be_chmod : option gerror;
  be_write : nat * option gerror;
  be_sync : option gerror;
  be_close : option gerror;
  be_rename : option gerror;
}.

(** src/cmd/tailcat/masquecat_autodirect.go:295-316 [writeAutoMasqueBundle]: the states
    of the file system it goes through, the last one on return, and the error *)
Definition writeAutoMasqueBundle (env : bundle_env) (fs : files) (path : gostring) (data : list byte)
    : list files * option gerror :=
  match be_create env with
  | Err e => ([fs], Some e)
  | Ok tmp =>
      let created := <[tmp := []]> fs in
      let cleanup (states : list files) (fs : files) (e : gerror) := (states ++ [delete tmp fs], Some e) in
      match be_chmod env with
      | Some e => cleanup [created] created e
      | None =>
          match be_write env with
          | (n, Some e) => let partial := <[tmp := take n data]> created in cleanup [created; partial] partial e
          | (_, None) =>
              let written := <[tmp := data]> created in
              match be_sync env with
              | Some e => cleanup [created; written] written e
              | None =>
                  match be_close env with
                  | Some e => cleanup [created; written] written e
                  | None =>
                      match be_rename env with
                      | Some e => cleanup [created; written] written e
                      | None => ([created; written; <[path := data]> (delete tmp written)], None)
                      end
                  end
              end
          end
      end
  end.

(** What setting up a certificate depends on: the directories, whether a bundle loads as
    a key pair ([tls.LoadX509KeyPair] of one file), and the bundle that is generated. *)
Record cert_env : Type := CertEnv {
  ce_configDir : result gostring;
  ce_mkdir : option gerror;
  ce_loads : list byte -> bool;
  ce_generate : result (list byte);
  ce_bundle : bundle_env;
}.

Definition autoDirectBundle (configDir : gostring) : gostring := configDir ++ B "/tailcat/auto-direct/tls.pem".

(** src/cmd/tailcat/masquecat_autodirect.go:234-293 [ensureAutoMasqueCertificate]: the
    states of the file system, and the bundle's path *)
Definition ensureAutoMasqueCertificate (env : cert_env) (fs : files) : list files * result gostring :=
  match ce_configDir env with
  | Err e => ([fs], Err (ErrWrap "find user config directory: %w" e))
  | Ok configDir =>
      match ce_mkdir env with
      | Some e => ([fs], Err (ErrWrap "create automatic direct TLS directory: %w" e))
      | None =>
          let path := autoDirectBundle configDir in
          let loads (fs : files) := match fs !! path with Some b => ce_loads env b | None => false end in
          if loads fs then ([fs], Ok path)
          else
            match ce_generate env with
            | Err e => ([fs], Err e)
            | Ok bundle =>
                match writeAutoMasqueBundle (ce_bundle env) fs path bundle with
                | (states, None) => (states, Ok path)
                | (states, Some e) =>
                    if loads (default fs (last states)) then (states, Ok path)
                    else (states, Err (ErrWrap "write automatic direct TLS bundle: %w" e))
                end
            end
      end
  end.

(** * The endpoint *)

Definition autoMasqueDirectPort : gostring := B "4433".
Definition autoMasqueDirectMarkerEnv : gostring := B "MASQUECAT_AUTO_DIRECT".

Section endpoint.
Context {K : KeyOps} {T : TokenOps K}.

(** src/cmd/tailcat/masquecat_autodirect_pin.go:10-20 [autoMasqueDirectURLWithPin]; [cert]
    is the chain that [tls.LoadX509KeyPair] gives *)
Definition autoMasqueDirectURLWithPin (baseURL : gostring) (cert : result (list (list byte))) : result gostring :=
  match cert with
  | Err e => Err (ErrWrap "load automatic direct TLS certificate for pinning: %w" e)
  | Ok [] => Err (ErrNew "automatic direct TLS certificate has no leaf certificate")
  | Ok (leaf :: _) => Ok (baseURL ++ B "#sha256=" ++ Base64.EncodeToString (Sum256 leaf))
  end.

(** src/cmd/tailcat/masquecat_autodirect.go:142-170 [configureAutoMasqueDirect]: the
    environment afterwards *)
Definition configureAutoMasqueDirect (addr : result Addr) (certPath : result gostring)
    (cert : result (list (list byte))) (env : gmap gostring gostring) : result (gmap gostring gostring) :=
  let? addr := addr in
  let? certPath := certPath in
  let baseURL := B "https://" ++ Net.JoinHostPort (NetipMore.String addr) autoMasqueDirectPort in
  let? directURL := autoMasqueDirectURLWithPin baseURL cert in
  Ok (<[autoMasqueDirectMarkerEnv := B "1"]> (<[B "MASQUECAT_TLS_KEY" := certPath]> (<[B "MASQUECAT_TLS_CERT" := certPath]>
       (<[B "MASQUECAT_DIRECT_LISTEN" := B ":" ++ autoMasqueDirectPort]> (<[B "MASQUECAT_DIRECT_URL" := directURL]> env))))).
End endpoint.

(** * The text of an address *)

(** A byte of an address: a lower-case hexadecimal digit, a dot or a colon. *)
Definition addr_byte (b : byte) : bool := is_hex_digit b || bool_decide (b ∈ B ".:").

Lemma addr_byte_plain b : addr_byte b = true ->
  b <> "#"%byte /\ b <> "?"%byte /\ b <> "/"%byte /\ b <> "@"%byte /\ b <> "%"%byte /\ b <> "["%byte /\ b <> "]"%byte /\
  Url.is_ctl b = false /\ Url.shouldEscape b Url.encodeHost = false.
Proof. destruct b; vm_compute; (discriminate || (intros _; repeat split; discriminate)). Qed.

Definition addr_text (s : gostring) : Prop := s <> [] /\ Forall (fun b => addr_byte b = true) s.

Lemma digit_is_addr b : Strings.is_digit b = true -> addr_byte b = true.
Proof. intros H. unfold addr_byte, is_hex_digit. by rewrite H. Qed.

Lemma itoa_addr_text n : 0 <= n < 256 -> addr_text (Strconv.Itoa n).
Proof.
  intros Hn. unfold Strconv.Itoa. rewrite (proj2 (Z.ltb_ge _ _)) by lia. split; [apply itoa_nonempty; lia|].
  destruct (itoa_fuel_spec 20 n []) as [Hd _]; [|done|].
  { split; [lia|]. transitivity 256; [lia|by vm_compute]. }
  apply Forall_forall. intros b Hb. apply digit_is_addr. rewrite forallb_forall in Hd. apply Hd. by apply list_elem_of_In.
Qed.

Lemma string4_text b : b <> [] -> addr_text (string4 b).
Proof.
  intros Hb. unfold string4. destruct b as [|x b]; [done|]. cbn [fmap list_fmap Strings.join].
  destruct (itoa_addr_text (b2z x) (b2z_range x)) as [Hne Hx]. split; [by destruct (Strconv.Itoa _)|].
  apply Forall_app. split; [done|]. clear Hne Hx Hb. induction b as [|y b IH]; [constructor|]. cbn.
  constructor; [done|]. apply Forall_app. split; [apply itoa_addr_text, b2z_range|exact IH].
Qed.

Lemma hex_group_text w : 0 <= w -> addr_text (hex_group w).
Proof.
  intros Hw. unfold hex_group.
  assert (forall n, addr_byte (Hex.digit (Z.land (Z.shiftr w n) 15)) = true) as Hd.
  { intros n. unfold addr_byte. rewrite hex_digit_range; [done|]. change 15 with (Z.ones 4).
    rewrite Z.land_ones by lia. apply Z.mod_pos_bound. lia. }
  destruct (4095 <? w); [split; [done|repeat constructor; apply Hd]|].
  destruct (255 <? w); [split; [done|repeat constructor; apply Hd]|].
  destruct (15 <? w); (split; [done|repeat constructor; apply Hd]).
Qed.

Lemma groups_nonneg b : Forall (fun w => 0 <= w) (groups b).
Proof.
  enough (Forall (fun w => 0 <= w) (groups b) /\ forall x, Forall (fun w => 0 <= w) (groups (x :: b))) by tauto.
  induction b as [|y b [IH1 IH2]]; [by repeat constructor|]. split; [apply IH2|]. intros x. cbn [groups].
  constructor; [apply be_get_range|done].
Qed.

Lemma nth_nonneg ws i : Forall (fun w => 0 <= w) ws -> 0 <= nth i ws 0.
Proof. intros H. revert i. induction H; intros [|i]; simpl; [lia|lia|done|apply IHForall]. Qed.

Lemma groups_from_text fuel ws zs ze i :
  Forall (fun w => 0 <= w) ws -> Forall (fun b => addr_byte b = true) (groups_from fuel ws zs ze i).
Proof.
  intros Hws. revert i. induction fuel as [|fuel IH]; intros i; cbn [groups_from]; [constructor|].
  destruct (8 <=? i)%nat; [constructor|].
  assert (forall j, Forall (fun b => addr_byte b = true) (hex_group (nth j ws 0))) as Hg.
  { intros j. apply hex_group_text. by apply nth_nonneg. }
  destruct (i =? zs)%nat.
  - apply Forall_app. split; [by repeat constructor|]. destruct (8 <=? ze)%nat; [constructor|].
    apply Forall_app. by split.
  - apply Forall_app. split; [destruct (i =? 0)%nat; by repeat constructor|]. apply Forall_app. by split.
Qed.

(** An IPv6 address has a colon in its text. *)
Lemma groups_from_colon ws zs ze : Net.colon ∈ groups_from 8 ws zs ze 0.
Proof.
  cbn [groups_from]. destruct (8 <=? 0)%nat eqn:E; [done|]. destruct (0 =? zs)%nat.
  - apply elem_of_app. left. apply list_elem_of_here.
  - apply elem_of_app. right. apply elem_of_app. right. destruct (1 =? zs)%nat; simpl; apply list_elem_of_here.
Qed.

Lemma string_text a :
  match a with A4 b => b <> [] | A6 b zone => zone = [] /\ Is4In6 a = false | AddrZero => False end ->
  addr_text (NetipMore.String a) /\ (Is6 a = true -> Net.colon ∈ NetipMore.String a).
Proof.
  destruct a as [|b|b zone]; [done|intros Hb; split; [by apply string4_text|done]|]. intros [-> H4].
  unfold NetipMore.String. rewrite H4, bool_decide_eq_true_2 by done. rewrite app_nil_r. unfold string6.
  destruct (zero_run (groups b)) as [zs ze]. pose proof (groups_from_colon (groups b) zs ze) as Hc. split; [|done].
  split; [by intros Hn; rewrite Hn in Hc; apply not_elem_of_nil in Hc|]. apply groups_from_text, groups_nonneg.
Qed.

Lemma text_avoids s c : addr_text s -> addr_byte c = false -> c ∉ s.
Proof. intros [_ Hs] Hc Hin. rewrite Forall_forall in Hs. specialize (Hs c Hin). by rewrite Hc in Hs. Qed.

(** * The pinned URL parses *)

Lemma unescape_plain s mode :
  Forall (fun c => c <> "%"%byte /\ (mode = Url.encodeHost -> Url.shouldEscape c Url.encodeHost = false) /\
                   mode <> Url.encodeZone) s ->
  Url.unescape s mode = Ok s.
Proof.
  induction 1 as [|c s (Hp & Hh & Hz) _ IH]; [done|]. cbn [Url.unescape].
  rewrite (bool_decide_eq_false_2 (c = _)) by done. rewrite (bool_decide_eq_false_2 (mode = Url.encodeZone)) by done.
  rewrite orb_false_r. destruct (decide (mode = Url.encodeHost)) as [->|Hne].
  - rewrite Hh by done. rewrite andb_false_r, IH. done.
  - rewrite (bool_decide_eq_false_2 (mode = _)) by done. cbn [andb]. by rewrite IH.
Qed.

Lemma forall_app_single {A} (P : A -> Prop) l x : Forall P l -> P x -> Forall P (l ++ [x]).
Proof. intros. apply Forall_app. split; [done|by constructor]. Qed.

(** A byte of "host:port". *)
Definition hp_ok (c : byte) : Prop :=
  c <> "#"%byte /\ c <> "?"%byte /\ c <> "/"%byte /\ c <> "@"%byte /\ c <> "%"%byte /\ Url.is_ctl c = false /\
  Url.shouldEscape c Url.encodeHost = false.

Lemma addr_hp_ok s : addr_text s -> Forall hp_ok s.
Proof.
  intros [_ Hs]. eapply Forall_impl; [exact Hs|]. intros b Hb%addr_byte_plain. unfold hp_ok. tauto.
Qed.

Lemma join_hp_ok host : addr_text host -> Forall hp_ok (Net.JoinHostPort host autoMasqueDirectPort).
Proof.
  intros Hh%addr_hp_ok. assert (Forall hp_ok (Net.colon :: autoMasqueDirectPort)) as Hp.
  { repeat constructor; discriminate. }
  unfold Net.JoinHostPort. destruct (Strings.ContainsByte host Net.colon).
  - constructor; [repeat constructor; discriminate|]. apply Forall_app. split; [done|].
    constructor; [repeat constructor; discriminate|done].
  - apply Forall_app. by split.
Qed.

Lemma unescape_hp s : Forall hp_ok s -> Url.unescape s Url.encodeHost = Ok s.
Proof.
  intros H. apply unescape_plain. eapply Forall_impl; [exact H|]. intros c (_ & _ & _ & _ & Hp & _ & He).
  split_and!; [done|by intros _|done].
Qed.

Lemma index_none s p c : c ∉ s -> head p = Some c -> Url.Index s p = None.
Proof.
  intros Hs Hp. destruct p as [|c' p]; [done|]. injection Hp as ->. induction s as [|b s IH]; [done|].
  apply not_elem_of_cons in Hs as [Hb Hs]. cbn [Url.Index has_prefix]. rewrite bool_decide_eq_false_2 by done.
  cbn [andb]. by rewrite (IH Hs).
Qed.

(** The host and port of the endpoint parse as a host, and give the host name back. *)
Lemma parse_join host :
  addr_text host ->
  let hp := Net.JoinHostPort host autoMasqueDirectPort in
  Url.parseHost hp = Ok hp /\ (Url.splitHostPort hp).1 = host.
Proof.
  intros Hh hp. pose proof (join_hp_ok host Hh) as Hok. fold hp in Hok.
  assert (forall x, Strings.LastIndexByte (x ++ Net.colon :: autoMasqueDirectPort) Net.colon = Some (length x)) as Hlast.
  { intros x. apply last_index_byte_app. by_evaluation. }
  assert (forall x : gostring, drop (length x) (x ++ Net.colon :: autoMasqueDirectPort) = Net.colon :: autoMasqueDirectPort)
    as Hdrop by (intros x; apply drop_app_length).
  unfold hp, Net.JoinHostPort in *. unfold Strings.ContainsByte in *. case_bool_decide as Hc.
  - set (x := Net.lbrack :: host ++ [Net.rbrack]).
    assert (Net.lbrack :: host ++ Net.rbrack :: Net.colon :: autoMasqueDirectPort = x ++ Net.colon :: autoMasqueDirectPort)
      as Hx by (unfold x; simpl; by rewrite <- app_assoc).
    split.
    + unfold Url.parseHost. change (Strings.HasPrefix (Net.lbrack :: _) (B "[")) with true. cbn [andb].
      assert (Strings.LastIndexByte (Net.lbrack :: host ++ Net.rbrack :: Net.colon :: autoMasqueDirectPort) "]"%byte =
              Some (S (length host))) as ->.
      { rewrite (app_comm_cons host). apply last_index_byte_app. by_evaluation. }
      assert (drop (S (S (length host))) (Net.lbrack :: host ++ Net.rbrack :: Net.colon :: autoMasqueDirectPort) =
              Net.colon :: autoMasqueDirectPort) as ->.
      { rewrite Hx. rewrite <- Hdrop with (x := x) at 2. f_equal. unfold x. simpl. rewrite length_app. simpl. lia. }
      change (Url.validOptionalPort (Net.colon :: autoMasqueDirectPort)) with true. cbn [andb].
      rewrite (index_none _ _ "%"%byte); [by apply unescape_hp| |done].
      intros Hin. apply list_elem_of_lookup in Hin as [i Hi]. apply lookup_take_Some in Hi as [Hi _].
      apply list_elem_of_lookup_2 in Hi. rewrite Forall_forall in Hok. by destruct (Hok _ Hi) as (_ & _ & _ & _ & ? & _).
    + unfold Url.splitHostPort. rewrite Hx, Hlast, Hdrop.
      change (Url.validOptionalPort (Net.colon :: autoMasqueDirectPort)) with true. cbv iota. rewrite take_app_length.
      change (Strings.HasPrefix x (B "[")) with true.
      assert (Strings.HasSuffix x (B "]") = true) as ->.
      { unfold Strings.HasSuffix, x. rewrite app_comm_cons, rev_app_distr. done. }
      cbn [andb fst]. unfold x. change (Net.lbrack :: host ++ [Net.rbrack]) with ([Net.lbrack] ++ host ++ [Net.rbrack]).
      apply slice_app_mid; [done|]. rewrite !zlen_app. change (zlen [Net.lbrack]) with 1. change (zlen [Net.rbrack]) with 1. lia.
  - assert (Strings.HasPrefix (host ++ Net.colon :: autoMasqueDirectPort) (B "[") = false) as Hpre.
    { destruct Hh as [Hne Hf]. destruct host as [|b host]; [done|]. apply Forall_cons in Hf as [Hb%addr_byte_plain _].
      unfold Strings.HasPrefix. simpl. rewrite bool_decide_eq_false_2; [done|]. intros <-. by destruct Hb as (_ & _ & _ & _ & _ & ? & _). }
    split.
    + unfold Url.parseHost. rewrite Hpre, Hlast, Hdrop.
      change (Url.validOptionalPort (Net.colon :: autoMasqueDirectPort)) with true. cbv iota. by apply unescape_hp.
    + unfold Url.splitHostPort. rewrite Hlast, Hdrop.
      change (Url.validOptionalPort (Net.colon :: autoMasqueDirectPort)) with true. cbv iota. rewrite take_app_length.
      destruct Hh as [Hne Hf]. destruct host as [|b host]; [done|]. apply Forall_cons in Hf as [Hb%addr_byte_plain _].
      unfold Strings.HasPrefix at 1. simpl. rewrite bool_decide_eq_false_2; [done|].
      intros <-. by destruct Hb as (_ & _ & _ & _ & _ & ? & _).
Qed.

Lemma existsb_false {A} (f : A -> bool) l : Forall (fun x => f x = false) l -> existsb f l = false.
Proof. induction 1 as [|x l Hx _ IH]; [done|]. simpl. by rewrite Hx. Qed.

(** A byte of the fragment. *)
Definition frag_ok (c : byte) : bool := Url.is_alnum c || bool_decide (c ∈ B "-_=").
Lemma frag_ok_plain c : frag_ok c = true -> c <> "%"%byte.
Proof. intros H ->. by vm_compute in H. Qed.

Lemma base64_frag l : Forall (fun c => frag_ok c = true) (Base64.EncodeToString l).
Proof.
  assert (forall n, 0 <= n < 64 -> frag_ok (Base64.char n) = true) as Hc
    by (by apply (forall_range (fun n => frag_ok (Base64.char n)) 64)).
  induction l as [|a|a b|a b c l IH] using list_ind3; [constructor|..]; cbn [Base64.EncodeToString];
    sextet_bounds; repeat (constructor; [apply Hc; Z.div_mod_to_equations; lia|]); [constructor|constructor|done].
Qed.

Lemma parse_base host :
  addr_text host ->
  let hp := Net.JoinHostPort host autoMasqueDirectPort in
  Url.parse (B "https://" ++ hp) = Ok (Url.MkURL (B "https") [] None hp [] [] false false [] [] []).
Proof.
  intros Hh hp. pose proof (join_hp_ok host Hh) as Hok. fold hp in Hok.
  destruct (parse_join host Hh) as [Hp _]. fold hp in Hp.
  assert (forall c, (forall b, hp_ok b -> b <> c) -> c ∉ hp) as Hno.
  { intros c Hc Hin. rewrite Forall_forall in Hok. by apply (Hc c (Hok c Hin)). }
  unfold Url.parse. rewrite existsb_app.
  change (existsb Url.is_ctl (B "https://")) with false.
  rewrite (existsb_false Url.is_ctl hp) by (eapply Forall_impl; [exact Hok|]; intros c; unfold hp_ok; tauto). cbn [orb].
  rewrite bool_decide_eq_false_2 by done.
  change (Url.getScheme_from 0 (B "https://" ++ hp) (B "https://" ++ hp)) with (Ok (B "https", B "//" ++ hp)).
  cbn [rbind]. change (Strings.ToLower (B "https")) with (B "https").
  rewrite (cut_byte_none (B "//" ++ hp)); cycle 1.
  { intros [Hin|Hin]%elem_of_app; [by vm_compute in Hin; repeat (apply elem_of_cons in Hin as [?|Hin]; [done|]); apply not_elem_of_nil in Hin|].
    revert Hin. apply Hno. unfold hp_ok. tauto. }
  change (Strings.HasPrefix (B "//" ++ hp) (B "/")) with true. cbn [negb].
  unfold Url.parse_rest. change (Strings.HasPrefix (B "//" ++ hp) (B "//")) with true.
  rewrite bool_decide_eq_false_2 by done. cbn [negb andb orb].
  change (drop 2 (B "//" ++ hp)) with hp.
  rewrite (index_byte_none hp "/"%byte) by (apply Hno; unfold hp_ok; tauto).
  unfold Url.parseAuthority. rewrite (last_index_byte_none hp "@"%byte) by (apply Hno; unfold hp_ok; tauto).
  rewrite Hp. reflexivity.
Qed.

Lemma parse_direct_url host frag :
  addr_text host -> frag <> [] -> Forall (fun c => frag_ok c = true) frag ->
  exists u, Url.Parse (B "https://" ++ Net.JoinHostPort host autoMasqueDirectPort ++ "#"%byte :: frag) = Ok u /\
    Url.Scheme u = B "https" /\ Url.Hostname u = host /\ Url.Host u <> [] /\ Url.User u = None /\ Url.RawQuery u = [] /\
    Url.Fragment u = frag.
Proof.
  intros Hh Hne Hf. set (hp := Net.JoinHostPort host autoMasqueDirectPort).
  pose proof (join_hp_ok host Hh) as Hok. fold hp in Hok. pose proof (parse_base host Hh) as Hb. fold hp in Hb. simpl in Hb.
  destruct (parse_join host Hh) as [_ Hname]. fold hp in Hname.
  unfold Url.Parse. rewrite app_assoc, cut_byte_app; cycle 1.
  { intros [Hin|Hin]%elem_of_app.
    - vm_compute in Hin. repeat (apply elem_of_cons in Hin as [?|Hin]; [done|]). by apply not_elem_of_nil in Hin.
    - rewrite Forall_forall in Hok. by destruct (Hok _ Hin) as [? _]. }
  change (B "https://" ++ hp) with (String.list_byte_of_string "https://" ++ hp). simpl. rewrite Hb. cbn [rbind].
  rewrite bool_decide_eq_false_2 by done. unfold Url.setEscaped. rewrite unescape_plain; cycle 1.
  { eapply Forall_impl; [exact Hf|]. intros c Hc%frag_ok_plain. by split_and!. }
  cbn [rbind]. eexists. split; [done|]. cbn [Url.Scheme Url.Hostname Url.Host Url.User Url.RawQuery Url.Fragment].
  split_and!; try done. unfold hp, Net.JoinHostPort. by destruct (Strings.ContainsByte host Net.colon), host.
Qed.

(** * The advertised address *)

(** A candidate: an address of an interface that is up and not the loopback, and that is
    a global unicast address; in order. *)
Definition candidate (o : option (list byte)) : option Addr :=
  ip ← o; a ← AddrFromSlice ip;
  let addr := Unmap a in
  if negb (IsGlobalUnicast addr) || IsLoopback addr || IsLinkLocalUnicast addr then None else Some addr.
Definition iface_candidates (i : iface) : list Addr :=
  if negb (if_up i) || if_loopback i then [] else omap candidate (default [] (if_addrs i)).
Definition candidates (l : list iface) : list Addr := concat (iface_candidates <$> l).

(** The reference: the first public candidate, else the private one so far or the first. *)
Definition choose_addr (cs : list Addr) (private : Addr) : Addr + Addr :=
  match List.find isPublicMasqueDirectAddr cs with
  | Some a => inl a
  | None => inr (if IsValid private then private else default private (List.find IsPrivate cs))
  end.

Lemma private_valid a : IsPrivate a = true -> IsValid a = true.
Proof. by destruct a. Qed.

Lemma choose_addr_app cs1 cs2 private :
  choose_addr (cs1 ++ cs2) private =
  match choose_addr cs1 private with inl a => inl a | inr p => choose_addr cs2 p end.
Proof.
  unfold choose_addr.
  assert (forall (f : Addr -> bool), List.find f (cs1 ++ cs2) =
            match List.find f cs1 with Some a => Some a | None => List.find f cs2 end) as Hf.
  { intros f. induction cs1 as [|c cs1 IH]; [done|]. simpl. by destruct (f c). }
  rewrite !Hf. destruct (List.find isPublicMasqueDirectAddr cs1); [done|].
  destruct (List.find isPublicMasqueDirectAddr cs2); [done|]. f_equal.
  destruct (IsValid private) eqn:Ev; [by rewrite Ev|].
  destruct (List.find IsPrivate cs1) as [a|] eqn:Ha; simpl; [|by rewrite Ev].
  apply List.find_some in Ha as [_ Ha%private_valid]. by rewrite Ha.
Qed.

Lemma scan_addrs_choose l private : scan_addrs l private = choose_addr (omap candidate l) private.
Proof.
  revert private. induction l as [|[ip|] l IH]; intros private; cbn [scan_addrs].
  - unfold choose_addr. simpl. by destruct (IsValid private).
  - change (omap candidate (Some ip :: l)) with (match candidate (Some ip) with Some a => a :: omap candidate l | None => omap candidate l end).
    unfold candidate. cbn [mbind option_bind]. destruct (AddrFromSlice ip) as [a|]; cbn [mbind option_bind]; [|apply IH].
    destruct (negb _ || _ || _); [apply IH|]. destruct (isPublicMasqueDirectAddr (Unmap a)) eqn:Hp.
    + unfold choose_addr. simpl. by rewrite Hp.
    + rewrite IH. unfold choose_addr. cbn [List.find]. rewrite Hp. destruct (List.find isPublicMasqueDirectAddr _); [done|].
      f_equal. destruct (IsPrivate (Unmap a)) eqn:Ea, (IsValid private) eqn:Ev; cbn [negb andb]; rewrite ?Ev, ?Ea; try done.
      by rewrite (private_valid _ Ea).
  - apply IH.
Qed.

Lemma scan_ifaces_choose l private : scan_ifaces l private = choose_addr (candidates l) private.
Proof.
  revert private. induction l as [|i l IH]; intros private; cbn [scan_ifaces].
  { unfold choose_addr. simpl. by destruct (IsValid private). }
  unfold candidates. cbn [fmap list_fmap concat]. rewrite choose_addr_app. unfold iface_candidates at 1.
  destruct (negb (if_up i) || if_loopback i).
  { rewrite IH. unfold choose_addr at 2. simpl. by destruct (IsValid private). }
  destruct (if_addrs i) as [addrs|]; cbn [default from_option].
  - rewrite scan_addrs_choose. destruct (choose_addr _ private); [done|]. apply IH.
  - rewrite IH. unfold choose_addr at 2. simpl. by destruct (IsValid private).
Qed.

(** the automatic endpoint's address.  Of the global unicast addresses of the
    interfaces that are up and not the loopback, the first public one is advertised,
    before any private one; without one, the first private one; and without either, in
    particular when all are shared, reserved or for documentation, none. *)
Theorem preferred_addr_spec l :
  preferredMasqueDirectAddr (Ok l) =
  match List.find isPublicMasqueDirectAddr (candidates l), List.find IsPrivate (candidates l) with
  | Some a, _ => Ok a
  | None, Some a => Ok a
  | None, None => Err (ErrNew "no public or private LAN address found; CGNAT/shared/reserved addresses require an explicit --direct-url or --relay-url")
  end.
Proof.
  unfold preferredMasqueDirectAddr. rewrite scan_ifaces_choose. unfold choose_addr.
  destruct (List.find isPublicMasqueDirectAddr (candidates l)); [done|]. cbn [IsValid].
  destruct (List.find IsPrivate (candidates l)) as [a|] eqn:Ha; [|done]. simpl.
  apply List.find_some in Ha as [_ Ha%private_valid]. by rewrite Ha.
Qed.

Lemma candidate_shape o a :
  candidate o = Some a ->
  match a with A4 b => b <> [] | A6 b zone => zone = [] /\ Is4In6 a = false | AddrZero => False end.
Proof.
  unfold candidate. destruct o as [ip|]; [|done]. cbn [mbind option_bind].
  destruct (AddrFromSlice ip) as [a0|] eqn:Ha; cbn [mbind option_bind]; [|done].
  destruct (negb _ || _ || _); [done|]. intros [= <-]. unfold AddrFromSlice in Ha.
  destruct (zlen ip =? 4) eqn:E4; bool_to_prop.
  { injection Ha as <-. simpl. by intros ->. }
  destruct (zlen ip =? 16) eqn:E16; [|done]. injection Ha as <-. bool_to_prop. unfold Unmap.
  destruct (Is4In6 (A6 ip [])) eqn:Em; [|by split]. intros Hd. apply (f_equal length) in Hd. rewrite length_drop in Hd.
  unfold zlen in E16. simpl in Hd. lia.
Qed.

Lemma preferred_addr_text ifs a :
  preferredMasqueDirectAddr ifs = Ok a -> addr_text (NetipMore.String a).
Proof.
  destruct ifs as [l|e]; [|done]. unfold preferredMasqueDirectAddr. rewrite scan_ifaces_choose.
  assert (forall f b, List.find f (candidates l) = Some b -> addr_text (NetipMore.String b)) as Hf.
  { intros f b [Hin _]%List.find_some. unfold candidates in Hin. apply List.in_concat in Hin as (cs & Hcs & Hin).
    apply list_elem_of_In in Hcs, Hin. apply list_elem_of_fmap in Hcs as (i & -> & _). unfold iface_candidates in Hin.
    destruct (_ || _); [by apply not_elem_of_nil in Hin|]. apply list_elem_of_omap in Hin as (o & _ & Ho).
    by apply string_text, (candidate_shape o). }
  unfold choose_addr. destruct (List.find isPublicMasqueDirectAddr (candidates l)) as [b|] eqn:Hb.
  - intros [= <-]. by eapply Hf.
  - cbn [IsValid]. destruct (List.find IsPrivate (candidates l)) as [b|] eqn:Hp; simpl; [|done].
    destruct (IsValid b); [|done]. intros [= <-]. by eapply Hf.
Qed.

(** * The endpoint, end to end *)

Section endpoint_properties.
Context {K : KeyOps} {T : TokenOps K}.

Lemma pinned_url host leaf :
  addr_text host -> zlen (Sum256 leaf) = 32 ->
  let url := (B "https://" ++ Net.JoinHostPort host autoMasqueDirectPort) ++ B "#sha256=" ++ Base64.EncodeToString (Sum256 leaf) in
  validateMasqueURL direct url = None /\ masqueTLSCertPinFromURL url = Ok (Some (Sum256 leaf)) /\
  exists u, Url.Parse url = Ok u /\ Url.Scheme u = B "https" /\ Url.Hostname u = host.
Proof.
  intros Hh Hl url.
  set (frag := B "sha256=" ++ Base64.EncodeToString (Sum256 leaf)).
  assert (url = B "https://" ++ Net.JoinHostPort host autoMasqueDirectPort ++ "#"%byte :: frag) as Hurl
    by (unfold url; by rewrite <- app_assoc).
  assert (Forall (fun c => frag_ok c = true) frag) as Hfrag.
  { apply Forall_app. split; [by repeat constructor|apply base64_frag]. }
  destruct (parse_direct_url host frag Hh ltac:(done) Hfrag) as (u & Hp & Hs & Hn & Hhost & Hu & Hq & Hf).
  rewrite <- Hurl in Hp.
  assert (masqueTLSCertPinFromURL url = Ok (Some (Sum256 leaf))) as Hpin.
  { unfold masqueTLSCertPinFromURL. rewrite Hp. cbn [rbind]. rewrite Hf, bool_decide_eq_false_2 by done.
    unfold frag. change masqueTLSCertPinFragmentPrefix with (B "sha256="). rewrite cut_prefix_app.
    rewrite bool_decide_eq_false_2; cycle 1.
    { intros He. destruct (Sum256 leaf) as [|x [|y [|z l]]]; [done|done|done|done]. }
    cbn [negb andb]. rewrite base64_decode_encode, Hl. done. }
  split_and!; [|done|by exists u]. unfold validateMasqueURL. rewrite Hp, Hs, Hn, Hu, Hq, Hf, Hpin.
  rewrite (bool_decide_eq_true_2 (B "https" = B "https")) by done.
  rewrite (bool_decide_eq_false_2 (Url.Host u = [])) by done.
  rewrite (bool_decide_eq_false_2 (host = [])) by apply Hh.
  rewrite (bool_decide_eq_false_2 (is_Some None)) by (by intros []).
  rewrite (bool_decide_eq_true_2 (@nil byte = [])) by done. cbn [negb orb].
  rewrite (bool_decide_eq_false_2 (frag = [])) by done. by rewrite (bool_decide_eq_true_2 (direct = direct)).
Qed.

(** a server that configured itself is reachable by its token.  The direct URL that the
    automatic set-up puts in the environment makes, with the automatic marker, valid
    connection info for any server keys; and a client of that URL, whatever its insecure
    flag, names the advertised address and accepts exactly the certificates with the
    digest of the generated one. *)
Theorem auto_direct_end_to_end interfaces a certPath leaf rest env env' insecure pki :
  preferredMasqueDirectAddr interfaces = Ok a -> zlen (Sum256 leaf) = 32 ->
  configureAutoMasqueDirect (preferredMasqueDirectAddr interfaces) certPath (Ok (leaf :: rest)) env = Ok env' ->
  exists url cfg, Getenv env' (B "MASQUECAT_DIRECT_URL") = url /\
    Getenv env' (B "MASQUECAT_DIRECT_LISTEN") = B ":4433" /\ Getenv env' autoMasqueDirectMarkerEnv = B "1" /\
    hasExplicitMasqueEnvironment env' = true /\
    (forall pub disco, pub <> NodePublicZero -> disco <> DiscoPublicZero ->
       validate (ConnInfo 1 pub disco url [] true) = None) /\
    masqueTLSClientConfig url insecure = Ok cfg /\ tls_ServerName cfg = NetipMore.String a /\
    forall chain, tls_accepts pki cfg chain = true <->
      exists leaf' rest', chain = leaf' :: rest' /\ Sum256 leaf' = Sum256 leaf.
Proof.
  intros Ha Hl H. pose proof (preferred_addr_text _ _ Ha) as Ht. rewrite Ha in H. unfold configureAutoMasqueDirect in H.
  cbn [rbind] in H. destruct certPath as [path|e]; cbn [rbind autoMasqueDirectURLWithPin] in H; [|done].
  destruct (pinned_url _ leaf Ht Hl) as (Hv & Hpin & u & Hp & Hs & Hn).
  set (url := (B "https://" ++ _) ++ _) in *.
  assert (env' = <[autoMasqueDirectMarkerEnv := B "1"]> (<[B "MASQUECAT_TLS_KEY" := path]> (<[B "MASQUECAT_TLS_CERT" := path]>
       (<[B "MASQUECAT_DIRECT_LISTEN" := B ":" ++ autoMasqueDirectPort]> (<[B "MASQUECAT_DIRECT_URL" := url]> env))))) as -> by congruence.
  clear H. assert (url <> []) as Hurl by (by unfold url).
  assert (forall (m : gmap gostring gostring) k v, Getenv (<[k := v]> m) k = v) as Hsame by (intros; unfold Getenv; by rewrite lookup_insert_eq).
  assert (forall (m : gmap gostring gostring) k k' v, k <> k' -> Getenv (<[k := v]> m) k' = Getenv m k') as Hother
    by (intros; unfold Getenv; by rewrite lookup_insert_ne).
  exists url. eexists. split; [by rewrite !Hother by done; apply Hsame|]. split; [by rewrite !Hother by done; apply Hsame|]. split; [apply Hsame|]. split.
  { unfold hasExplicitMasqueEnvironment, masqueEnvironment. cbn [existsb].
    assert (Getenv (<[autoMasqueDirectMarkerEnv := B "1"]> (<[B "MASQUECAT_TLS_KEY" := path]> (<[B "MASQUECAT_TLS_CERT" := path]>
       (<[B "MASQUECAT_DIRECT_LISTEN" := B ":" ++ autoMasqueDirectPort]> (<[B "MASQUECAT_DIRECT_URL" := url]> env)))))
       (B "MASQUECAT_DIRECT_URL") = url) as -> by (rewrite !Hother by done; apply Hsame).
    rewrite (bool_decide_eq_false_2 (url = [])) by done. cbn [negb orb]. apply orb_true_r. }
  split; [|split].
  - intros pub disco Hpub Hdisco. unfold validate, IsZero, DiscoIsZero.
    cbn [ci_Version ci_ServerPublic ci_ServerDiscoPublic ci_DirectURL ci_RelayURL ci_AutomaticDirect].
    rewrite (bool_decide_eq_false_2 (pub = _)), (bool_decide_eq_false_2 (disco = _)) by done.
    rewrite (bool_decide_eq_false_2 (url = [])) by done. rewrite (bool_decide_eq_true_2 ([] = [])) by done.
    cbn [negb andb orb]. by rewrite Hv, Hpin.
  - unfold masqueTLSClientConfig. rewrite Hp, Hs, Hpin, Hn.
    rewrite (bool_decide_eq_true_2 (B "https" = _)) by done. by rewrite (bool_decide_eq_false_2 (_ = [])) by apply Ht.
  - cbn [tls_ServerName]. split; [done|]. intros chain. unfold tls_accepts, VerifyConnection. simpl.
    destruct chain as [|l r]; [split; [done|by intros (? & ? & ? & _)]|]. unfold matchesCertificate.
    destruct (decide (Sum256 l = Sum256 leaf)) as [He|He].
    + rewrite bool_decide_eq_true_2 by done. split; [|done]. intros _. by exists l, r.
    + rewrite bool_decide_eq_false_2 by done. split; [done|]. by intros (? & ? & [= <- <-] & ?).
Qed.
End endpoint_properties.

(** * The bundle on disk *)

(** One write of the bundle.  Whatever fails on the way, in every state
    the file system goes through the bundle is the old one or the complete new one and
    every other file is as it was; on return the temporary file is gone; and the new
    bundle is there exactly when no error is reported. *)
Lemma bundle_states env fs path data states err tmp :
  be_create env = Ok tmp -> fs !! tmp = None -> tmp <> path ->
  writeAutoMasqueBundle env fs path data = (states, err) ->
  Forall (fun s => (s !! path = fs !! path \/ s !! path = Some data) /\
                   forall p, p <> path -> p <> tmp -> s !! p = fs !! p) states /\
  exists s, last states = Some s /\ s !! tmp = None /\
    (err = None -> s = <[path := data]> fs) /\ (is_Some err -> s = fs).
Proof.
  intros Hc Hn Hne H. unfold writeAutoMasqueBundle in H. rewrite Hc in H.
  assert (forall b, (<[tmp := b]> fs : files) !! path = fs !! path /\ delete tmp (<[tmp := b]> fs : files) = fs /\
            forall p, p <> tmp -> (<[tmp := b]> fs : files) !! p = fs !! p) as Hins.
  { intros b. split_and!; [by apply lookup_insert_ne|by apply delete_insert_id|intros p Hp; by apply lookup_insert_ne]. }
  assert (forall b b', (<[tmp := b]> (<[tmp := b']> fs) : files) = <[tmp := b]> fs) as Hii by (intros; apply insert_insert_eq).
  assert (forall l, Forall (fun s : files => exists b, s = <[tmp := b]> fs) l -> forall e : gerror,
            Forall (fun s => (s !! path = fs !! path \/ s !! path = Some data) /\
                   forall p, p <> path -> p <> tmp -> s !! p = fs !! p) (l ++ [fs]) /\
            exists s, last (l ++ [fs]) = Some s /\ s !! tmp = None /\
              (Some e = None -> s = <[path := data]> fs) /\ (is_Some (Some e) -> s = fs)) as Hfail.
  { intros l Hl e. split; [|exists fs; by rewrite last_snoc]. apply Forall_app. split; [|repeat constructor; by left].
    eapply Forall_impl; [exact Hl|]. intros s [b ->]. destruct (Hins b) as (H1 & _ & H2). split; [by left|]. intros p _ Hp. by apply H2. }
  destruct (be_chmod env) as [e|].
  { injection H as <- <-. rewrite (proj1 (proj2 (Hins []))). apply (Hfail [_]). repeat constructor. by eexists. }
  destruct (be_write env) as [n [e|]].
  { injection H as <- <-. rewrite Hii, (proj1 (proj2 (Hins _))). apply (Hfail [_; _]). repeat constructor; by eexists. }
  rewrite Hii in H.
  destruct (be_sync env) as [e|].
  { injection H as <- <-. rewrite (proj1 (proj2 (Hins _))). apply (Hfail [_; _]). repeat constructor; by eexists. }
  destruct (be_close env) as [e|].
  { injection H as <- <-. rewrite (proj1 (proj2 (Hins _))). apply (Hfail [_; _]). repeat constructor; by eexists. }
  destruct (be_rename env) as [e|].
  { injection H as <- <-. rewrite (proj1 (proj2 (Hins _))). apply (Hfail [_; _]). repeat constructor; by eexists. }
  injection H as <- <-. rewrite (proj1 (proj2 (Hins data))). split.
  - assert (forall b, (<[tmp := b]> fs !! path = fs !! path \/ <[tmp := b]> fs !! path = Some data) /\
              forall p, p <> path -> p <> tmp -> (<[tmp := b]> fs : files) !! p = fs !! p) as Hkeep.
    { intros b. destruct (Hins b) as (H1 & _ & H2). split; [by left|]. intros p _ Hp. by apply H2. }
    constructor; [apply Hkeep|]. constructor; [apply Hkeep|]. constructor; [|constructor].
    split; [right; apply lookup_insert_eq|]. intros p Hp _. by apply lookup_insert_ne.
  - exists (<[path := data]> fs). split_and!; [done| |done|by intros []]. by rewrite lookup_insert_ne.
Qed.

(** C35: the certificate bundle is never torn.  In every state the set-up takes the file
    system through, whatever fails on the way, the bundle is the old one or a complete
    generated one, and no other file but the temporary one changes; and when the set-up
    gives a path, the bundle at that path loads, provided generated ones do. *)
Theorem auto_certificate_never_torn env fs states r dir tmp :
  ce_configDir env = Ok dir -> be_create (ce_bundle env) = Ok tmp -> fs !! tmp = None -> tmp <> autoDirectBundle dir ->
  (forall b, ce_generate env = Ok b -> ce_loads env b = true) ->
  ensureAutoMasqueCertificate env fs = (states, r) ->
  Forall (fun s => (s !! autoDirectBundle dir = fs !! autoDirectBundle dir \/
                    exists b, ce_generate env = Ok b /\ s !! autoDirectBundle dir = Some b) /\
                   forall p, p <> autoDirectBundle dir -> p <> tmp -> s !! p = fs !! p) states /\
  (forall path, r = Ok path ->
     exists s b, last states = Some s /\ s !! path = Some b /\ ce_loads env b = true /\ s !! tmp = None).
Proof.
  intros Hd Hc Hn Hne Hgen H. unfold ensureAutoMasqueCertificate in H. rewrite Hd in H.
  set (path := autoDirectBundle dir) in *.
  assert (Forall (fun s : files => (s !! path = fs !! path \/ exists b, ce_generate env = Ok b /\ s !! path = Some b) /\
                   forall p, p <> path -> p <> tmp -> s !! p = fs !! p) [fs]) as Hfs by (repeat constructor; by left).
  destruct (ce_mkdir env); [by injection H as <- <-|].
  destruct (match fs !! path with Some b => ce_loads env b | None => false end) eqn:El.
  { injection H as <- <-. split; [done|]. intros path' [= <-]. destruct (fs !! path) as [b|] eqn:Eb; [|done]. by exists fs, b. }
  destruct (ce_generate env) as [b|] eqn:Eg; [|by injection H as <- <-].
  destruct (writeAutoMasqueBundle (ce_bundle env) fs path b) as [states' err] eqn:Hw.
  destruct (bundle_states _ _ _ _ _ _ _ Hc Hn Hne Hw) as (Hall & s & Hs & Htmp & Hok & Hbad).
  assert (states = states') as -> by (destruct err as [e|]; [destruct (match default fs (last states') !! path with Some _ => _ | None => _ end)|];
    congruence).
  split.
  - eapply Forall_impl; [exact Hall|]. intros s' [[?|?] ?]; (split; [|done]); [by left|right; by exists b].
  - intros path' ->. destruct err as [e|].
    + rewrite Hs, (Hbad (mk_is_Some _ _ eq_refl)) in H. simpl in H. by rewrite El in H.
    + assert (path' = path) as -> by congruence. exists s, b. rewrite (Hok eq_refl) in *. split_and!; [done| |by apply Hgen|done].
      apply lookup_insert_eq.
Qed.

(** * Witnesses *)

Import ToyKeys ToyToken.

(** A host with a loopback, a shared, a private and a public address. *)
Definition ex_ifaces : list iface :=
  [Iface true true (Some [Some (z2b <$> [127; 0; 0; 1])]);
   Iface true false (Some [None; Some (z2b <$> [100; 64; 0; 7]); Some (z2b <$> [192; 168; 1; 20])]);
   Iface true false None;
   Iface true false (Some [Some (z2b <$> [36; 0; 203; 0; 0; 0; 0; 0; 0; 0; 0; 0; 0; 0; 0; 1])])].

Example ex_preferred : NetipMore.String <$> match preferredMasqueDirectAddr (Ok ex_ifaces) with Ok a => Some a | Err _ => None end
  = Some (B "2400:cb00::1").
Proof. by vm_compute. Qed.

Definition ex_leaf : list byte := repeat x07 32.
Definition ex_configured : result (gmap gostring gostring) :=
  configureAutoMasqueDirect (T := toy_token) (preferredMasqueDirectAddr (Ok ex_ifaces)) (Ok (B "/tls.pem")) (Ok [ex_leaf]) ∅.

Lemma auto_direct_end_to_end_witness :
  match ex_configured with
  | Ok env' => exists cfg,
      masqueTLSClientConfig (Getenv env' (B "MASQUECAT_DIRECT_URL")) false = Ok cfg /\
      forall chain, tls_accepts (O := toy_token) (fun _ _ => false) cfg chain = true <->
        exists leaf' rest', chain = leaf' :: rest' /\ Sum256 (TokenOps := toy_token) leaf' = Sum256 (TokenOps := toy_token) ex_leaf
  | Err _ => False
  end.
Proof.
  assert (is_ok (preferredMasqueDirectAddr (Ok ex_ifaces)) = true) as H1 by vm_reflexivity.
  assert (is_ok ex_configured = true) as H2 by vm_reflexivity.
  destruct (preferredMasqueDirectAddr (Ok ex_ifaces)) as [a|e] eqn:Ha; [clear H1|discriminate H1].
  destruct ex_configured as [env'|e] eqn:E; [clear H2|discriminate H2].
  destruct (auto_direct_end_to_end (T := toy_token) (Ok ex_ifaces) a (Ok (B "/tls.pem")) ex_leaf [] ∅ env' false (fun _ _ => false))
    as (url & cfg & Hurl & _ & _ & _ & _ & Hcfg & _ & Hacc); [exact Ha|vm_reflexivity|exact E|].
  exists cfg. rewrite Hurl. split; [exact Hcfg|exact Hacc].
Defined.

Definition ex_cert_env : cert_env :=
  CertEnv (Ok (B "/home/u/.config")) None (fun b => bool_decide (b = B "new")) (Ok (B "new"))
    (BundleEnv (Ok (B "/home/u/.config/tailcat/auto-direct/.tls-1.tmp")) None (1%nat, Some (ErrExt 1)) None None None).
Definition ex_fs : files := {[autoDirectBundle (B "/home/u/.config") := B "old"]}.

(** The disk fills up while the bundle is written: the old one stays. *)
Lemma auto_certificate_never_torn_witness :
  Forall (fun s => s !! autoDirectBundle (B "/home/u/.config") = Some (B "old") \/
                   s !! autoDirectBundle (B "/home/u/.config") = Some (B "new"))
    (ensureAutoMasqueCertificate ex_cert_env ex_fs).1.
Proof.
  destruct (ensureAutoMasqueCertificate ex_cert_env ex_fs) as [states r] eqn:E.
  destruct (auto_certificate_never_torn ex_cert_env ex_fs states r (B "/home/u/.config")
              (B "/home/u/.config/tailcat/auto-direct/.tls-1.tmp")) as [Hall _];
    [done|done|vm_reflexivity|done|by intros b [= <-]|exact E|].
  eapply Forall_impl; [exact Hall|]. intros s [[->|(b & [= <-] & ->)] _]; [left; vm_reflexivity|by right].
Defined.
