(* ===== verification/Process.v ===== *)
(** Process: what a command of the program does to its files and its output.

    A small monad for src/cmd/tailcat: a command reads and writes files, prints lines, and
    returns, or ends the process by log.Fatal, os.Exit or a panic.  The disk is a map from
    paths to files with their modification time and directories; what the operating system
    answers beyond that (directories of the user, errors, the clock) is an argument. *)

From S2P Require Import Prelude GoStd Filepath.
From Stdlib Require Import Strings.Byte.

(** * The disk and the system *)

Inductive node : Type := File (data : list byte) (mtime : Z) | Directory.
#[global] Instance node_eq_dec : EqDecision node.
Proof. solve_decision. Defined.
Abbreviation disk := (gmap gostring node).

Inductive file_op : Type := FStat | FRead | FMkdir | FRemove | FReadDir.

(** [sy_fail] is the error an operation on a path fails with; [sy_write] that of a write,
    with the number of bytes that are in the file afterwards, or [None] when it was not
    opened. *)
Record system : Type := System {
  sy_now : Z;
  sy_UserConfigDir : result gostring;
  sy_UserCacheDir : result gostring;
  sy_fail : file_op -> gostring -> option gerror;
  sy_write : gostring -> option (option nat * gerror);
}.

(** * The monad *)

Inductive ending (A : Type) : Type :=
  | Returned (a : A)
  | Fatal (e : gerror)
  | Exited (code : Z)
  | Panicked.
Arguments Returned {A} _.
Arguments Fatal {A} _.
Arguments Exited {A} _.
Arguments Panicked {A}.

(** The files, and the lines on standard output. *)
Record proc : Type := Proc { pr_disk : disk; pr_out : list gostring }.

Definition process (A : Type) : Type := proc -> proc * ending A.

Definition pret {A : Type} (a : A) : process A := fun s => (s, Returned a).
Definition pbind {A B} (m : process A) (f : A -> process B) : process B := fun s =>
  match m s with
  | (s, Returned a) => f a s
  | (s, Fatal e) => (s, Fatal e)
  | (s, Exited c) => (s, Exited c)
  | (s, Panicked) => (s, Panicked)
  end.
Notation "'let!' x ':=' m 'in' k" := (pbind m (fun x => k))
  (at level 10, x pattern, m at level 100, k at level 200) : go_scope.

(** [log.Fatal], [os.Exit], and a nil dereference or an index out of range *)
Definition fatal {A} (e : gerror) : process A := fun s => (s, Fatal e).
Definition exit {A} (code : Z) : process A := fun s => (s, Exited code).
Definition panic {A} : process A := fun s => (s, Panicked).
(** An error ends the process. *)
Definition must {A} (r : result A) : process A := match r with Ok a => pret a | Err e => fatal e end.

(** [fmt.Println], to standard output *)
Definition Println (line : gostring) : process unit := fun s => (Proc (pr_disk s) (pr_out s ++ [line]), Returned tt).
Fixpoint Printlns (lines : list gostring) : process unit :=
  match lines with [] => pret tt | l :: ls => let! _ := Println l in Printlns ls end.

(** * Files *)

Definition get_disk : process disk := fun s => (s, Returned (pr_disk s)).
Definition set_disk (d : disk) : process unit := fun s => (Proc d (pr_out s), Returned tt).

Definition under (dir p : gostring) : bool := Strings.HasPrefix p (dir ++ [Path.slash]).

(** The names directly inside a directory. *)
Definition child (dir p : gostring) : option gostring :=
  match Strings.CutPrefix p (dir ++ [Path.slash]) with
  | (name, true) => if bool_decide (name = []) || Strings.ContainsByte name Path.slash then None else Some name
  | _ => None
  end.
Fixpoint bytes_leb (a b : gostring) : bool :=
  match a, b with
  | [], _ => true
  | _ :: _, [] => false
  | x :: a, y :: b => if b2z x =? b2z y then bytes_leb a b else b2z x <? b2z y
  end.
Definition bytes_le (a b : gostring) : Prop := bytes_leb a b = true.
#[global] Instance bytes_le_dec a b : Decision (bytes_le a b).
Proof. unfold bytes_le. apply _. Defined.
Definition children (d : disk) (dir : gostring) : list gostring :=
  merge_sort bytes_le (omap (fun x => child dir x.1) (map_to_list d)).

(** The directories on the way to a path, and the path. *)
Definition ancestors (p : gostring) : list gostring :=
  omap (fun i => if bool_decide (p !! i = Some Path.slash) then Some (take i p) else None) (seq 1 (length p - 1)) ++ [p].
Definition mkdir_one (d : disk) (p : gostring) : disk := match d !! p with None => <[p := Directory]> d | Some _ => d end.

Section files.
Context (sy : system).

Definition os_Stat (p : gostring) : process (result unit) :=
  let! d := get_disk in
  pret (match sy_fail sy FStat p with
        | Some e => Err e
        | None => match d !! p with Some _ => Ok tt | None => Err OSErrNotExist end
        end).

(** [os.Stat] of a file, for its modification time *)
Definition os_ModTime (p : gostring) : process (result Z) :=
  let! d := get_disk in
  pret (match sy_fail sy FStat p with
        | Some e => Err e
        | None => match d !! p with
                  | Some (File _ t) => Ok t
                  | Some Directory => Ok 0
                  | None => Err OSErrNotExist
                  end
        end).

Definition os_ReadFile (p : gostring) : process (result (list byte)) :=
  let! d := get_disk in
  pret (match sy_fail sy FRead p with
        | Some e => Err e
        | None => match d !! p with
                  | Some (File b _) => Ok b
                  | Some Directory => Err (ErrNew "is a directory")
                  | None => Err OSErrNotExist
                  end
        end).

Definition os_WriteFile (p : gostring) (data : list byte) : process (result unit) :=
  let! d := get_disk in
  match sy_write sy p with
  | Some (None, e) => pret (Err e)
  | Some (Some n, e) => let! _ := set_disk (<[p := File (take n data) (sy_now sy)]> d) in pret (Err e)
  | None =>
      if bool_decide (d !! p = Some Directory) then pret (Err (ErrNew "is a directory"))
      else let! _ := set_disk (<[p := File data (sy_now sy)]> d) in pret (Ok tt)
  end.

Definition os_MkdirAll (p : gostring) : process (result unit) :=
  let! d := get_disk in
  match sy_fail sy FMkdir p with
  | Some e => pret (Err e)
  | None =>
      if existsb (fun q => match d !! q with Some (File _ _) => true | _ => false end) (ancestors p)
      then pret (Err (ErrNew "not a directory"))
      else let! _ := set_disk (foldl mkdir_one d (ancestors p)) in pret (Ok tt)
  end.

Definition os_Remove (p : gostring) : process (result unit) :=
  let! d := get_disk in
  match sy_fail sy FRemove p with
  | Some e => pret (Err e)
  | None =>
      match d !! p with
      | None => pret (Err OSErrNotExist)
      | Some Directory =>
          if existsb (fun x => under p x.1) (map_to_list d) then pret (Err (ErrNew "directory not empty"))
          else let! _ := set_disk (delete p d) in pret (Ok tt)
      | Some (File _ _) => let! _ := set_disk (delete p d) in pret (Ok tt)
      end
  end.

Definition os_ReadDir (p : gostring) : process (result (list gostring)) :=
  let! d := get_disk in
  pret (match sy_fail sy FReadDir p with
        | Some e => Err e
        | None => match d !! p with
                  | Some Directory => Ok (children d p)
                  | Some (File _ _) => Err (ErrNew "not a directory")
                  | None => Err OSErrNotExist
                  end
        end).
End files.

(** [os.IsNotExist] *)
Definition os_IsNotExist (e : gerror) : bool := is_not_exist e.

(** * What a command may do to the disk *)

(** Every run of [m] relates the disk before to the disk after. *)
Definition within {A : Type} (R : relation disk) (m : process A) : Prop := forall s, R (pr_disk s) (pr_disk (m s).1).

Section within.
Context (R : relation disk) `{!PreOrder R}.

Lemma within_bind {A B : Type} (m : process A) (f : A -> process B) :
  within R m -> (forall a, within R (f a)) -> within R (pbind m f).
Proof.
  intros Hm Hf s. unfold pbind. specialize (Hm s). destruct (m s) as [s' [a|e|c|]]; [|done..].
  etrans; [exact Hm|apply Hf].
Qed.
(** After a read, the rest may use what was read. *)
Lemma within_get {A : Type} (f : disk -> process A) : (forall s, R (pr_disk s) (pr_disk (f (pr_disk s) s).1)) -> within R (pbind get_disk f).
Proof. intros Hf s. exact (Hf s). Qed.
Lemma within_pret {A : Type} (a : A) : within R (pret a).
Proof. by intros s. Qed.
Lemma within_fatal {A : Type} e : within R (fatal (A := A) e).
Proof. by intros s. Qed.
Lemma within_exit {A : Type} c : within R (exit (A := A) c).
Proof. by intros s. Qed.
Lemma within_panic {A : Type} : within R (panic (A := A)).
Proof. by intros s. Qed.
Lemma within_must {A : Type} (r : result A) : within R (must r).
Proof. destruct r; [apply within_pret|apply within_fatal]. Qed.
Lemma within_println l : within R (Println l).
Proof. by intros s. Qed.
Lemma within_printlns ls : within R (Printlns ls).
Proof. induction ls as [|l ls IH]; [apply within_pret|]. apply within_bind; [apply within_println|done]. Qed.
Lemma within_stat sy p : within R (os_Stat sy p).
Proof. by intros s. Qed.
Lemma within_modtime sy p : within R (os_ModTime sy p).
Proof. by intros s. Qed.
Lemma within_read sy p : within R (os_ReadFile sy p).
Proof. by intros s. Qed.
Lemma within_readdir sy p : within R (os_ReadDir sy p).
Proof. by intros s. Qed.
End within.

Create HintDb process discriminated.
#[export] Hint Resolve within_pret within_fatal within_exit within_panic within_must within_println within_printlns
  within_stat within_modtime within_read within_readdir : process.
#[export] Hint Extern 1 (PreOrder _) => apply _ : process.

(** Step by step, in every case. *)
Ltac within_step := apply within_bind; [apply _| |intros ?].
Ltac within_tac := repeat first
  [ solve [eauto 3 with process]
  | lazymatch goal with
    | |- within _ (pbind _ _) => within_step
    | |- within _ (match ?x with _ => _ end) => destruct x
    end ].

(** * Files that are kept *)

(** Outside [S] nothing changes, but for directories that are made. *)
Definition keeps (S : gostring -> Prop) : relation disk := fun d d' =>
  forall p, ~ S p -> d' !! p = d !! p \/ d !! p = None /\ d' !! p = Some Directory.

#[global] Instance keeps_preorder S : PreOrder (keeps S).
Proof.
  split; [by left|]. intros d1 d2 d3 H12 H23 p Hp. destruct (H12 p Hp) as [H1|[H1 H1']], (H23 p Hp) as [H2|[H2 H2']].
  - left. congruence.
  - right. split; congruence.
  - right. split; congruence.
  - congruence.
Qed.

Lemma keeps_weaken (S T : gostring -> Prop) d d' : (forall p, S p -> T p) -> keeps S d d' -> keeps T d d'.
Proof. intros H Hk p Hp. apply Hk. auto. Qed.

Lemma keeps_lookup S d d' p n : keeps S d d' -> ~ S p -> d !! p = Some n -> d' !! p = Some n.
Proof. intros Hk Hp Hn. destruct (Hk p Hp) as [->|[? _]]; congruence. Qed.

Lemma keeps_insert (S : gostring -> Prop) d p n : S p -> keeps S d (<[p := n]> d).
Proof. intros Hp q Hq. left. apply lookup_insert_ne. naive_solver. Qed.

Lemma foldl_mkdir d l p :
  foldl mkdir_one d l !! p = match d !! p with Some n => Some n | None => if bool_decide (p ∈ l) then Some Directory else None end.
Proof.
  revert d. induction l as [|q l IH]; intros d; simpl; [by destruct (d !! p)|]. rewrite IH. unfold mkdir_one.
  destruct (decide (p = q)) as [->|Hpq].
  - rewrite (bool_decide_eq_true_2 (q ∈ q :: l)) by apply list_elem_of_here.
    destruct (d !! q) eqn:Hq; [by rewrite Hq|by rewrite lookup_insert_eq].
  - assert ((match d !! q with Some _ => d | None => <[q := Directory]> d end) !! p = d !! p) as ->
      by (destruct (d !! q); [done|by apply lookup_insert_ne]).
    destruct (d !! p); [done|]. rewrite (bool_decide_ext (p ∈ q :: l) (p ∈ l)) by set_solver. done.
Qed.

Lemma keeps_mkdir S d l : keeps S d (foldl mkdir_one d l).
Proof. intros p _. rewrite foldl_mkdir. destruct (d !! p); [by left|]. case_bool_decide; [by right|by left]. Qed.

Lemma ancestor_length p q : q ∈ ancestors p -> (length q <= length p)%nat.
Proof.
  unfold ancestors. intros [Hq| ->%list_elem_of_singleton]%elem_of_app; [|done].
  apply list_elem_of_omap in Hq as (i & _ & Hi). destruct (bool_decide _); [|done]. injection Hi as <-.
  rewrite length_take. lia.
Qed.

Lemma within_write S sy p data : S p -> within (keeps S) (os_WriteFile sy p data).
Proof.
  intros Hp. unfold os_WriteFile. apply within_get. intros s.
  destruct (sy_write sy p) as [[[n|] e]|]; [by apply keeps_insert|done|].
  destruct (bool_decide _); [done|by apply keeps_insert].
Qed.
Lemma within_mkdir S sy p : within (keeps S) (os_MkdirAll sy p).
Proof.
  unfold os_MkdirAll. apply within_get. intros s. destruct (sy_fail sy FMkdir p); [done|].
  destruct (existsb _ _); [done|apply keeps_mkdir].
Qed.
Lemma within_remove (S : gostring -> Prop) sy p : S p -> within (keeps S) (os_Remove sy p).
Proof.
  intros Hp. assert (forall d, keeps S d (delete p d)) as Hd.
  { intros d q Hq. left. apply lookup_delete_ne. naive_solver. }
  unfold os_Remove. apply within_get. intros s. destruct (sy_fail sy FRemove p); [done|].
  destruct (pr_disk s !! p) as [[? ?|]|]; [apply Hd| |done]. destruct (existsb _ _); [done|apply Hd].
Qed.
#[export] Hint Resolve within_write within_mkdir within_remove : process.

(** A step that returns, taken apart. *)
Lemma pbind_returned {A B : Type} (m : process A) (f : A -> process B) s s' b :
  pbind m f s = (s', Returned b) -> exists s1 a, m s = (s1, Returned a) /\ f a s1 = (s', Returned b).
Proof. unfold pbind. destruct (m s) as [s1 [a|e|c|]]; intros H; try done. by exists s1, a. Qed.

Lemma pbind_run {A B : Type} (m : process A) (f : A -> process B) s s1 a :
  m s = (s1, Returned a) -> pbind m f s = f a s1.
Proof. unfold pbind. by intros ->. Qed.

(** * Runs of the operations *)

Lemma pbind_pret {A B : Type} (a : A) (f : A -> process B) : pbind (pret a) f = f a.
Proof. done. Qed.

Lemma pbind_fatal {A B : Type} e (f : A -> process B) : pbind (fatal e) f = fatal e.
Proof. done. Qed.

Lemma mkdir_run sy q s :
  exists d r, os_MkdirAll sy q s = (Proc d (pr_out s), Returned r) /\ keeps (fun _ => False) (pr_disk s) d.
Proof.
  unfold os_MkdirAll, pbind, get_disk, set_disk, pret. destruct (sy_fail sy FMkdir q); [|destruct (existsb _ _)].
  - exists (pr_disk s). eexists. by split; [destruct s|].
  - exists (pr_disk s). eexists. by split; [destruct s|].
  - eexists _, _. split; [done|]. apply keeps_mkdir.
Qed.

Lemma stat_existing sy p s n :
  sy_fail sy FStat p = None -> pr_disk s !! p = Some n -> os_Stat sy p s = (s, Returned (Ok tt)).
Proof. intros Hf Hn. unfold os_Stat, pbind, get_disk, pret. by rewrite Hf, Hn. Qed.

Lemma write_ok sy p data s s1 :
  os_WriteFile sy p data s = (s1, Returned (Ok tt)) -> pr_disk s1 = <[p := File data (sy_now sy)]> (pr_disk s).
Proof.
  unfold os_WriteFile, pbind, get_disk, set_disk, pret. destruct (sy_write sy p) as [[[n|] e]|]; [done|done|].
  destruct (bool_decide _); [done|]. by intros [= <-].
Qed.

Lemma write_returns sy p data s : exists t r, os_WriteFile sy p data s = (t, Returned r).
Proof.
  unfold os_WriteFile, pbind, get_disk, set_disk, pret. destruct (sy_write sy p) as [[[n|] e]|]; [by eexists _, _..|].
  destruct (bool_decide _); by eexists _, _.
Qed.

Lemma remove_returns sy p s : exists t r, os_Remove sy p s = (t, Returned r).
Proof.
  unfold os_Remove, pbind, get_disk, set_disk, pret. destruct (sy_fail sy FRemove p); [by eexists _, _|].
  destruct (pr_disk s !! p) as [[b m|]|]; [by eexists _, _| |by eexists _, _]. destruct (existsb _ _); by eexists _, _.
Qed.
