(* ===== verification/MapCache.v ===== *)
(** MapCache: the DERP map cache that the command line keeps on disk.

    Models [derpMapCache] of src/cmd/tailcat/tailcat.go over the disk of Process, and
    [fetchDERPMap] of src/tailcat.go with it.  The main theorem relates it to the in-memory
    cache of Derp: whatever Derp proves of a fetch holds of a fetch of the command. *)

From S2P Require Import Prelude GoStd Filepath Keys Url Process Derp.
From Stdlib Require Import Strings.Byte.

(** [url.QueryEscape], one byte and a string *)
Definition query_code (c : byte) : gostring :=
  if bool_decide (c = " "%byte) then B "+"
  else if Url.is_alnum c || bool_decide (c ∈ B "-_.~") then [c]
  else ["%"%byte; Url.upperhex (Z.shiftr (b2z c) 4); Url.upperhex (Z.land (b2z c) 15)].
Definition QueryEscape (s : gostring) : gostring := concat (query_code <$> s).

Section cache.
Context {K : KeyOps} {O : BlobOps K}.
Context (sy : system).

(** * The DERP map cache on disk *)

(** src/cmd/tailcat/tailcat.go:700-707 [derpMapCache.paths] *)
Definition cache_paths (url : gostring) : result (gostring * gostring) :=
  let? dir := sy_UserCacheDir sy in
  let base := Path.Join [dir; B "tailcat"; B "derpmap-" ++ QueryEscape url] in
  Ok (base ++ B ".json", base ++ B ".etag").

(** src/cmd/tailcat/tailcat.go:709-726 [derpMapCache.Get] *)
Definition disk_Get (url : gostring) : process (option memDERPMapEntry) :=
  match cache_paths url with
  | Err _ => pret None
  | Ok (dataPath, etagPath) =>
      let! fi := os_ModTime sy dataPath in
      let! data := os_ReadFile sy dataPath in
      let! v := os_ReadFile sy etagPath in
      match fi, data with
      | Ok mtime, Ok data =>
          pret (Some (MemDERPMapEntry data (match v with Ok v => Strings.TrimSpace v | Err _ => [] end) mtime))
      | _, _ => pret None
      end
  end.

(** src/cmd/tailcat/tailcat.go:728-746 [derpMapCache.Put] *)
Definition disk_Put (url : gostring) (data : list byte) (etag : gostring) : process (result unit) :=
  match cache_paths url with
  | Err e => pret (Err e)
  | Ok (dataPath, etagPath) =>
      let! made := os_MkdirAll sy (Path.Dir dataPath) in
      match made with
      | Err e => pret (Err e)
      | Ok _ =>
          let! wrote := os_WriteFile sy dataPath data in
          match wrote with
          | Err e => pret (Err e)
          | Ok _ =>
              if bool_decide (etag = []) then let! _ := os_Remove sy etagPath in pret (Ok tt)
              else os_WriteFile sy etagPath etag
          end
      end
  end.

(** src/tailcat.go:949-1007 [fetchDERPMap], with the cache on disk; what [Put] returns is
    not looked at *)
Definition fetch_on_disk (fe : fetch_env) (url mode : gostring) : process (result DERPMap) :=
  let! stored := disk_Get url in
  let '(r, put, _) := fetchDERPMap fe stored mode in
  match put with
  | Some (data, etag) => let! _ := disk_Put url data etag in pret r
  | None => pret r
  end.

End cache.

(** * Paths of different URLs *)

(** The first byte of an escaped string and the rest. *)
Definition query_decode1 (s : gostring) : option (byte * gostring) :=
  match s with
  | [] => None
  | c :: s =>
      if bool_decide (c = "+"%byte) then Some (" "%byte, s)
      else if bool_decide (c = "%"%byte) then
        match s with
        | a :: b :: s => x ← Hex.value a; y ← Hex.value b; Some (z2b (x * 16 + y), s)
        | _ => None
        end
      else Some (c, s)
  end.

Lemma query_decode_code c rest : query_decode1 (query_code c ++ rest) = Some (c, rest).
Proof. by destruct c. Qed.

Lemma QueryEscape_inj s t : QueryEscape s = QueryEscape t -> s = t.
Proof.
  unfold QueryEscape. revert t. induction s as [|c s IH]; intros [|c' t]; simpl; intros H; [done| | |].
  - apply (f_equal query_decode1) in H. by rewrite query_decode_code in H.
  - apply (f_equal query_decode1) in H. by rewrite query_decode_code in H.
  - apply (f_equal query_decode1) in H. rewrite !query_decode_code in H. injection H as -> H. f_equal. by apply IH.
Qed.

Lemma query_code_no_slash c : Path.slash ∉ query_code c.
Proof. destruct c; by_evaluation. Qed.

Lemma QueryEscape_no_slash s : Path.slash ∉ QueryEscape s.
Proof.
  unfold QueryEscape. induction s as [|c s IH]; simpl; [apply not_elem_of_nil|].
  rewrite not_elem_of_app. split; [apply query_code_no_slash|done].
Qed.

(** * White space at the ends *)

Lemma trim_left_suffix s : exists p, s = p ++ Strings.trim_left s.
Proof.
  induction s as [|b s [p IH]]; simpl; [by exists []|]. destruct (Strings.is_space b); [|by exists []].
  exists (b :: p). simpl. by f_equal.
Qed.
Lemma trim_left_head s b t : Strings.trim_left s = b :: t -> Strings.is_space b = false.
Proof.
  induction s as [|c s IH]; simpl; [done|]. destruct (Strings.is_space c) eqn:Hc; [done|]. by intros [= <- _].
Qed.
Lemma trim_left_id s : (forall b t, s = b :: t -> Strings.is_space b = false) -> Strings.trim_left s = s.
Proof. destruct s as [|b s]; intros H; [done|]. simpl. by rewrite (H b s eq_refl). Qed.

Lemma TrimSpace_idem s : Strings.TrimSpace (Strings.TrimSpace s) = Strings.TrimSpace s.
Proof.
  unfold Strings.TrimSpace at 1. set (a := Strings.trim_left s). set (r := Strings.trim_left (rev a)).
  assert (Strings.TrimSpace s = rev r) as -> by done.
  rewrite (trim_left_id (rev r)).
  - rewrite rev_involutive. f_equal. apply trim_left_id. intros b t Hr. by apply (trim_left_head (rev a) b t).
  - intros b t Hr. destruct (trim_left_suffix (rev a)) as [p Hp]. fold r in Hp.
    apply (trim_left_head s b (t ++ rev p)). fold a. rewrite <- (rev_involutive a), Hp, rev_app_distr, Hr. done.
Qed.

(** * The cache on disk against the cache in memory *)

Section refinement.
Context {K : KeyOps} {O : BlobOps K}.

(** The directory of the cache below the user's [dir], and the files of a URL. *)
Definition cache_dir (dir : gostring) : gostring := Path.Join [dir; B "tailcat"].
Definition data_file (dir url : gostring) : gostring := cache_dir dir ++ Path.slash :: (B "derpmap-" ++ QueryEscape url ++ B ".json").
Definition etag_file (dir url : gostring) : gostring := cache_dir dir ++ Path.slash :: (B "derpmap-" ++ QueryEscape url ++ B ".etag").

(** What a [Get] finds. *)
Definition disk_entry (dir : gostring) (d : disk) (url : gostring) : option memDERPMapEntry :=
  match d !! data_file dir url with
  | Some (File data t) =>
      Some (MemDERPMapEntry data
              (match d !! etag_file dir url with Some (File v _) => Strings.TrimSpace v | _ => [] end) t)
  | _ => None
  end.

(** The directory can be made, and no directory is in the place of a file. *)
Record cache_ready (dir : gostring) (d : disk) : Prop := {
  cr_dirs p : p ∈ ancestors (cache_dir dir) -> forall b t, d !! p <> Some (File b t);
  cr_data url : d !! data_file dir url <> Some Directory;
  cr_etag url : d !! etag_file dir url <> Some Directory;
}.

(** The disk represents the cache [c]. *)
Definition cache_refines (dir : gostring) (d : disk) (c : memDERPMapCache) : Prop :=
  cache_ready dir d /\ forall url, disk_entry dir d url = cache_Get c url.

(** The operating system answers without errors. *)
Record quiet (sy : system) (dir : gostring) : Prop := {
  qu_cache : sy_UserCacheDir sy = Ok dir;
  qu_rooted : Path.rooted dir = true;
  qu_fail op p : sy_fail sy op p = None;
  qu_write p : sy_write sy p = None;
}.

Lemma good_tailcat : good_elem (B "tailcat").
Proof. split_and!; try done; by_evaluation. Qed.
Lemma good_derpmap url : good_elem (B "derpmap-" ++ QueryEscape url).
Proof.
  split_and!; try done. rewrite not_elem_of_app. split; [by_evaluation|apply QueryEscape_no_slash].
Qed.

Lemma cache_paths_files sy dir url :
  sy_UserCacheDir sy = Ok dir -> cache_paths sy url = Ok (data_file dir url, etag_file dir url).
Proof.
  intros Hd. unfold cache_paths. rewrite Hd. cbn [rbind]. unfold data_file, etag_file, cache_dir.
  pose proof (join_child [dir] _ _ good_tailcat (good_derpmap url)) as E. cbn [app] in E. rewrite E.
  f_equal. f_equal; rewrite <- app_assoc; cbn [app]; by rewrite <- app_assoc.
Qed.

Lemma dir_data_file dir url : Path.rooted dir = true -> Path.Dir (data_file dir url) = cache_dir dir.
Proof.
  intros Hr. unfold data_file, cache_dir. assert (Path.Join [dir; B "tailcat"] = Path.Clean (dir ++ Path.slash :: B "tailcat")) as ->.
  { cbn [Path.Join]. rewrite bool_decide_eq_false_2; [|intros ->; done]. done. }
  apply dir_child.
  - destruct dir as [|b dir]; [done|]. unfold Path.rooted, Strings.HasPrefix in *. simpl in *. by destruct dir.
  - rewrite !not_elem_of_app. split_and!; [by_evaluation|apply QueryEscape_no_slash|by_evaluation].
Qed.

Lemma data_file_inj dir u v : data_file dir u = data_file dir v -> u = v.
Proof.
  unfold data_file. intros H. apply (app_inv_head (cache_dir dir)) in H. injection H as H. apply (app_inv_tail (B ".json")) in H.
  by apply QueryEscape_inj.
Qed.
Lemma etag_file_inj dir u v : etag_file dir u = etag_file dir v -> u = v.
Proof.
  unfold etag_file. intros H. apply (app_inv_head (cache_dir dir)) in H. injection H as H. apply (app_inv_tail (B ".etag")) in H.
  by apply QueryEscape_inj.
Qed.
Lemma data_etag_file dir u v : data_file dir u <> etag_file dir v.
Proof.
  unfold data_file, etag_file. intros H. apply (app_inv_head (cache_dir dir)) in H. injection H as H.
  apply (f_equal last) in H. by rewrite !last_app in H.
Qed.

(** * Get and Put *)

Lemma disk_Get_quiet sy dir url s :
  quiet sy dir -> cache_ready dir (pr_disk s) -> disk_Get sy url s = (s, Returned (disk_entry dir (pr_disk s) url)).
Proof.
  intros Hq Hr. unfold disk_Get. rewrite (cache_paths_files sy dir url) by apply Hq.
  unfold os_ModTime, os_ReadFile, disk_entry, pbind, get_disk, pret. rewrite !(qu_fail _ _ Hq).
  pose proof (cr_data _ _ Hr url). pose proof (cr_etag _ _ Hr url).
  destruct (pr_disk s !! data_file dir url) as [[data t|]|]; [|done|done].
  by destruct (pr_disk s !! etag_file dir url) as [[v t'|]|].
Qed.

(** The disk after a [Put]. *)
Definition put_disk (dir url : gostring) (data : list byte) (etag : gostring) (now : Z) (d : disk) : disk :=
  let d := <[data_file dir url := File data now]> (foldl mkdir_one d (ancestors (cache_dir dir))) in
  if bool_decide (etag = []) then delete (etag_file dir url) d else <[etag_file dir url := File etag now]> d.

Lemma cache_file_not_ancestor dir p : p ∈ ancestors (cache_dir dir) -> forall x, p <> cache_dir dir ++ Path.slash :: x.
Proof. intros Hp%ancestor_length x ->. rewrite length_app in Hp. simpl in Hp. lia. Qed.

Lemma mkdir_cache_file dir d x :
  foldl mkdir_one d (ancestors (cache_dir dir)) !! (cache_dir dir ++ Path.slash :: x) = d !! (cache_dir dir ++ Path.slash :: x).
Proof.
  rewrite foldl_mkdir. destruct (d !! _); [done|]. rewrite bool_decide_eq_false_2; [done|].
  intros Hp. by apply (cache_file_not_ancestor _ _ Hp x).
Qed.

Lemma disk_Put_quiet sy dir url data etag s :
  quiet sy dir -> cache_ready dir (pr_disk s) ->
  exists r, disk_Put sy url data etag s = (Proc (put_disk dir url data etag (sy_now sy) (pr_disk s)) (pr_out s), Returned r).
Proof.
  intros Hq [Hr1 Hr2 Hr3]. unfold disk_Put. rewrite (cache_paths_files sy dir url) by apply Hq.
  rewrite dir_data_file by apply Hq. set (d := pr_disk s) in *.
  assert (os_MkdirAll sy (cache_dir dir) s = (Proc (foldl mkdir_one d (ancestors (cache_dir dir))) (pr_out s), Returned (Ok tt))) as Hm.
  { unfold os_MkdirAll, pbind, get_disk. rewrite (qu_fail _ _ Hq).
    destruct (existsb _ _) eqn:E; [|done]. apply existsb_exists in E as (q & Hin%list_elem_of_In & Hf). exfalso.
    specialize (Hr1 q Hin). fold d in Hf. destruct (d !! q) as [[b t|]|]; [by apply (Hr1 b t)|done|done]. }
  erewrite pbind_run by exact Hm. cbn beta iota. unfold os_WriteFile at 1. rewrite (qu_write _ _ Hq).
  set (d1 := foldl mkdir_one d (ancestors (cache_dir dir))) in *.
  assert (d1 !! data_file dir url = d !! data_file dir url) as Hd by apply mkdir_cache_file.
  assert (d1 !! etag_file dir url = d !! etag_file dir url) as He by apply mkdir_cache_file.
  unfold pbind at 1 2, get_disk at 1. cbn [pr_disk]. rewrite bool_decide_eq_false_2 by (rewrite Hd; apply Hr2).
  unfold pbind at 1, set_disk at 1. cbn [pr_disk pr_out]. unfold pret at 1.
  assert (forall n, <[data_file dir url := n]> d1 !! etag_file dir url = d !! etag_file dir url) as He'.
  { intros n. rewrite lookup_insert_ne; [exact He|apply data_etag_file]. }
  unfold put_disk. fold d1. destruct (bool_decide (etag = [])).
  - unfold os_Remove, pbind, get_disk. rewrite (qu_fail _ _ Hq). cbn [pr_disk]. rewrite He'.
    destruct (d !! etag_file dir url) as [[b t|]|] eqn:Ee; [by eexists|by destruct (Hr3 url)|].
    exists (Ok tt). unfold pret. rewrite delete_id; [done|]. by rewrite He'.
  - unfold os_WriteFile, pbind, get_disk, set_disk. rewrite (qu_write _ _ Hq). cbn [pr_disk pr_out]. rewrite He'.
    rewrite bool_decide_eq_false_2 by apply Hr3. by eexists.
Qed.

Lemma put_disk_other dir url data etag now d p :
  p <> data_file dir url -> p <> etag_file dir url -> ~ p ∈ ancestors (cache_dir dir) ->
  put_disk dir url data etag now d !! p = d !! p.
Proof.
  intros H1 H2 H3. unfold put_disk.
  assert (<[data_file dir url := File data now]> (foldl mkdir_one d (ancestors (cache_dir dir))) !! p = d !! p) as E.
  { rewrite lookup_insert_ne by done. rewrite foldl_mkdir. destruct (d !! p); [done|]. by rewrite bool_decide_eq_false_2. }
  destruct (bool_decide _); [by rewrite lookup_delete_ne|by rewrite lookup_insert_ne].
Qed.

Lemma put_disk_data dir url data etag now d : put_disk dir url data etag now d !! data_file dir url = Some (File data now).
Proof.
  unfold put_disk. destruct (bool_decide _); [rewrite lookup_delete_ne|rewrite lookup_insert_ne];
    try (by rewrite lookup_insert_eq); apply not_eq_sym, data_etag_file.
Qed.
Lemma put_disk_etag dir url data etag now d :
  put_disk dir url data etag now d !! etag_file dir url = if bool_decide (etag = []) then None else Some (File etag now).
Proof. unfold put_disk. destruct (bool_decide _); [by rewrite lookup_delete_eq|by rewrite lookup_insert_eq]. Qed.

Lemma not_ancestor dir x : ~ cache_dir dir ++ Path.slash :: x ∈ ancestors (cache_dir dir).
Proof. intros H. by eapply cache_file_not_ancestor. Qed.

Lemma put_disk_ready dir url data etag now d : cache_ready dir d -> cache_ready dir (put_disk dir url data etag now d).
Proof.
  intros [H1 H2 H3]. split.
  - intros p Hp b t Hb. assert (forall x, p <> cache_dir dir ++ Path.slash :: x) as Hne by by apply cache_file_not_ancestor.
    apply (H1 p Hp b t). revert Hb. unfold put_disk.
    assert (<[data_file dir url := File data now]> (foldl mkdir_one d (ancestors (cache_dir dir))) !! p = Some (File b t) ->
            d !! p = Some (File b t)) as E.
    { rewrite lookup_insert_ne by (apply not_eq_sym, Hne). rewrite foldl_mkdir. destruct (d !! p); [done|]. by case_bool_decide. }
    destruct (bool_decide _); [rewrite lookup_delete_ne|rewrite lookup_insert_ne]; try exact E; apply not_eq_sym, Hne.
  - intros v. destruct (decide (v = url)) as [->|Hv]; [by rewrite put_disk_data|].
    rewrite put_disk_other; [apply H2|by intros ?%data_file_inj|apply data_etag_file|apply not_ancestor].
  - intros v. destruct (decide (v = url)) as [->|Hv]; [rewrite put_disk_etag; by case_bool_decide|].
    rewrite put_disk_other; [apply H3|apply not_eq_sym, data_etag_file|by intros ?%etag_file_inj|apply not_ancestor].
Qed.

Lemma put_disk_refines dir url data etag now d c :
  Strings.TrimSpace etag = etag -> cache_refines dir d c ->
  cache_refines dir (put_disk dir url data etag now d) (cache_Put c now url data etag).
Proof.
  intros Ht [Hr He]. split; [by apply put_disk_ready|]. intros v. unfold disk_entry, cache_Get, cache_Put.
  destruct (decide (v = url)) as [->|Hv].
  - rewrite put_disk_data, put_disk_etag, lookup_insert_eq. do 2 f_equal. case_bool_decide as E; [by rewrite E|done].
  - rewrite lookup_insert_ne by done. rewrite !put_disk_other; [apply He|..];
      first [by intros ?%data_file_inj|by intros ?%etag_file_inj|apply data_etag_file|apply not_eq_sym, data_etag_file|apply not_ancestor].
Qed.

(** The entity tags that a fetch stores have no white space at their ends: they come from
    a header or from the disk. *)
Lemma fetch_put_trimmed fe stored mode r data etag asked :
  (forall m e res, fe_do fe m e = Ok res -> Strings.TrimSpace (mp_etag res) = mp_etag res) ->
  (forall e, stored = Some e -> Strings.TrimSpace (me_etag e) = me_etag e) ->
  fetchDERPMap fe stored mode = (r, Some (data, etag), asked) -> Strings.TrimSpace etag = etag.
Proof.
  intros Hh Hs. unfold fetchDERPMap.
  assert (forall st, (forall e dm, st = Some (e, dm) -> stored = Some e) ->
    fetch_network fe st mode = (r, Some (data, etag), asked) -> Strings.TrimSpace etag = etag) as Hn.
  { intros st Hst. unfold fetch_network. destruct (fe_request fe); [done|].
    destruct (fe_do fe mode _) as [res|e] eqn:Hd; [|done].
    assert (forall so, fetch_body so res = (r, Some (data, etag), asked) -> Strings.TrimSpace etag = etag) as Hb.
    { intros so. unfold fetch_body. destruct (negb _); [done|]. destruct (mp_body res); [|done].
      destruct (decodeDERPMap _); [|done]. intros [= <- <- <- <-]. by apply (Hh _ _ _ Hd). }
    destruct st as [[e dm]|]; [|apply Hb]. destruct (_ =? _); [|apply Hb].
    intros [= <- <- <- <-]. apply Hs. by apply (Hst e dm). }
  destruct (e ← stored; dm ← decodeDERPMap (me_data e); Some (e, dm)) as [[e dm]|] eqn:Hu; [|by apply Hn].
  destruct (_ <? _); [done|]. apply Hn. intros e' dm' [= <- <-].
  destruct stored as [e0|]; [|done]. simpl in Hu. destruct (decodeDERPMap (me_data e0)); [|done]. by injection Hu as -> ->.
Qed.

(** C31: the cache on disk implements the cache in memory.  When the operating system
    answers without errors, a fetch with the cache on disk gives what the fetch with the
    cache in memory gives, and leaves a disk that represents the memory cache it leaves;
    URLs never share a file, whatever they are. *)
Theorem disk_cache_refines_memory sy dir fe url mode s c r c' asked :
  quiet sy dir -> sy_now sy = fe_now fe ->
  (forall m e res, fe_do fe m e = Ok res -> Strings.TrimSpace (mp_etag res) = mp_etag res) ->
  cache_refines dir (pr_disk s) c ->
  fetch_with_memory fe c url mode = (r, c', asked) ->
  exists d', fetch_on_disk sy fe url mode s = (Proc d' (pr_out s), Returned r) /\ cache_refines dir d' c'.
Proof.
  intros Hq Hnow Hh Hc. unfold fetch_with_memory, fetch_on_disk.
  rewrite (pbind_run _ _ _ _ _ (disk_Get_quiet sy dir url s Hq (proj1 Hc))). rewrite (proj2 Hc url).
  destruct (fetchDERPMap fe (cache_Get c url) mode) as [[r0 put] a0] eqn:Hf. intros [= -> <- ->].
  destruct put as [[data etag]|]; [|exists (pr_disk s); by destruct s].
  assert (Strings.TrimSpace etag = etag) as Ht.
  { eapply fetch_put_trimmed; [exact Hh| |exact Hf]. intros e He. rewrite <- (proj2 Hc url) in He. unfold disk_entry in He.
    destruct (pr_disk s !! data_file dir url) as [[b t|]|]; [|done..]. injection He as <-. cbn [me_etag].
    destruct (pr_disk s !! etag_file dir url) as [[v t'|]|]; [apply TrimSpace_idem|done|done]. }
  destruct (disk_Put_quiet sy dir url data etag s Hq (proj1 Hc)) as [x Hp].
  rewrite (pbind_run _ _ _ _ _ Hp). eexists. split; [done|]. rewrite <- Hnow. by apply put_disk_refines.
Qed.

(** An empty disk represents the empty cache. *)
Lemma empty_disk_refines dir : cache_refines dir ∅ ∅.
Proof.
  split.
  - split; intros *; [intros _ *|..]; by rewrite lookup_empty.
  - intros url. unfold disk_entry, cache_Get. by rewrite !lookup_empty.
Qed.
End refinement.

(** * Witness *)

Import ToyKeys ToyBlob.

Definition ex_system : system := System 0 (Ok (B "/home/u/.config")) (Ok (B "/home/u/.cache")) (fun _ _ => None) (fun _ => None).

Lemma ex_system_quiet : quiet ex_system (B "/home/u/.cache").
Proof. by split. Qed.

Lemma disk_cache_refines_memory_witness :
  match fetch_with_memory (O := toy_blob) ex_fetch ∅ (B "https://a/b?c d") (B "client") with
  | (r, c', asked) =>
      asked = true /\ exists d', cache_refines (B "/home/u/.cache") d' c' /\
        fetch_on_disk (O := toy_blob) ex_system ex_fetch (B "https://a/b?c d") (B "client") (Proc ∅ []) = (Proc d' [], Returned r)
  end.
Proof.
  assert ((fetch_with_memory (O := toy_blob) ex_fetch ∅ (B "https://a/b?c d") (B "client")).2 = true) as Ha by vm_reflexivity.
  destruct (fetch_with_memory (O := toy_blob) ex_fetch ∅ (B "https://a/b?c d") (B "client")) as [[r c'] asked] eqn:H.
  split; [exact Ha|].
  destruct (disk_cache_refines_memory (O := toy_blob) ex_system (B "/home/u/.cache") ex_fetch (B "https://a/b?c d") (B "client")
              (Proc ∅ []) ∅ r c' asked ex_system_quiet eq_refl) as (d' & H1 & H2).
  - intros m e res [= <-]. vm_reflexivity.
  - apply empty_disk_refines.
  - exact H.
  - exists d'. split; [exact H2|exact H1].
Defined.
