(* ===== verification/Keystore.v ===== *)
(** Keystore: saved keys and the cached DERP map of the command line.

    Models the key files of src/cmd/tailcat/tailcat.go and masquecat_cli.go: where a key
    is kept, genkey (both transports), how a client and a server choose and load their
    key, and the address a DERP server makes from it.  JSON of [PrivateKey], key generation,
    the fetch and netcheck are parameters; the disk and the operating system's answers are
    Process's. *)

From S2P Require Import Prelude GoStd Filepath Keys Url Packet Fragment Token Bind Core Lifecycle Cli Process Derp MapCache.
From Stdlib Require Import Strings.Byte.

(** * Strings *)

(** [mem.ContainsFold] *)
Definition ContainsFold (s sub : gostring) : bool :=
  existsb (fun i => Strings.EqualFold (take (length sub) (drop i s)) sub) (seq 0 (S (length s))).

(** * Keys on disk *)

(** src/cmd/tailcat/tailcat.go:1468-1470 [keyIsPath] *)
Definition keyIsPath (name : gostring) : bool := Strings.ContainsAny name (B "/\").

Definition key_suffix : gostring := B ".private.json".

(** src/cmd/tailcat/tailcat.go:1472-1481 [keyPath] *)
Definition keyPath (sy : system) (name : gostring) : process gostring :=
  if keyIsPath name then pret name
  else
    match sy_UserConfigDir sy with
    | Err e => fatal e
    | Ok confDir => pret (Path.Join [confDir; B "tailcat"; B "keys"; name ++ key_suffix])
    end.

Section private_key.
Context `{K : KeyOps}.
(** src/tailcat.go:225-228 [PrivateKey] *)
Record PrivateKey : Type := MkPrivateKey { pk_Private : NodePrivate; pk_Public : Derp.ConnInfo }.
End private_key.

Class KeyFileOps {K : KeyOps} : Type := {
  (** [json.MarshalIndent] and [json.Unmarshal] at [PrivateKey] *)
  MarshalPrivateKey : PrivateKey -> result (list byte);
  UnmarshalPrivateKey : list byte -> result PrivateKey;
}.
Arguments KeyFileOps : clear implicits.

(** What JSON keeps: text that is valid UTF-8 (here ASCII). *)
Definition storable_node (n : DERPNode) : bool :=
  ascii (n_Name n) && ascii (n_HostName n) && ascii (n_CertName n) && ascii (n_IPv4 n) && ascii (n_IPv6 n).
Definition storable_region (r : DERPRegion) : bool :=
  ascii (r_RegionCode r) && ascii (r_RegionName r) && forallb storable_node (r_Nodes r).
Definition storable `{K : KeyOps} (pk : PrivateKey) : bool := forallb storable_region (ci_Region (pk_Public pk)).

Class KeyFileLaws {K : KeyOps} (F : KeyFileOps K) : Prop := {
  key_file_roundtrip pk b : storable pk = true -> MarshalPrivateKey pk = Ok b -> UnmarshalPrivateKey b = Ok pk;
}.

(** The flags of genkey, and which of them were set. *)
Record genkey_flags : Type := GenkeyFlags {
  gf_key : gostring;
  gf_client : bool;
  gf_force : bool;
  gf_delete : bool;
  gf_list : bool;
  gf_region : gostring;
  gf_fixedRegion : bool;
  gf_embedDERPMap : bool;
  gf_isSet : gostring -> bool;
}.

(** The flags and the environment that both genkeys share. *)
Record global_flags : Type := GlobalFlags {
  fl_key : gostring;
  fl_legacyDERP : bool;
  fl_DERPMapURL : gostring;
  fl_relayURL : gostring;
  fl_directURL : gostring;
  fl_autoDirect : gostring;
  fl_fullAddress : bool;
}.

Section keys.
Context {K : KeyOps} {D : DiscoKeyOps K} {O : BlobOps K} {T : TokenOps K} {F : KeyFileOps K}.
Context (sy : system).

(** src/tailcat.go:230-240 [NewPrivateKey]; [priv] is what [key.NewNode] gives *)
Definition NewPrivateKey (priv : NodePrivate) : PrivateKey :=
  MkPrivateKey priv (MkConnInfo (Public priv) (DiscoPublicForNode priv) [] 0).

(** src/cmd/tailcat/tailcat.go:658-680 [clientKey]: the key, and the --key flag afterwards *)
Definition clientKey (flagKey : gostring) (fresh : NodePrivate) : process (gostring * NodePrivate) :=
  let! named :=
    if bool_decide (flagKey = []) then
      let! path := keyPath sy (B "client-default") in
      let! st := os_Stat sy path in
      pret (if is_ok st then B "client-default" else [])
    else pret flagKey in
  if bool_decide (named = []) || bool_decide (named = B "new") then pret (named, fresh)
  else
    let! path := keyPath sy named in
    let! j := os_ReadFile sy path in
    match j with
    | Err e => fatal e
    | Ok j =>
        match UnmarshalPrivateKey j with
        | Err _ => fatal (ErrNew "failed to parse %v: %v")
        | Ok conf => pret (named, pk_Private conf)
        end
    end.

(** src/cmd/tailcat/tailcat.go:1097-1124 [server], the key and where it listens, with the
    --key flag afterwards *)
Definition serverKey (flagKey : gostring) (fresh : NodePrivate) : process (gostring * NodePrivate * Derp.ConnInfo) :=
  let! named :=
    if bool_decide (flagKey = []) then
      let! path := keyPath sy (B "default") in
      let! st := os_Stat sy path in
      match st with
      | Ok _ => pret (B "default")
      | Err e => if os_IsNotExist e then pret (B "new") else fatal (ErrNew "failed to stat default key: %v")
      end
    else pret flagKey in
  if bool_decide (named = B "new") then pret (named, fresh, MkConnInfo NodePublicZero DiscoPublicZero [] (-1))
  else
    let! path := keyPath sy named in
    let! j := os_ReadFile sy path in
    match j with
    | Err e => fatal e
    | Ok j =>
        match UnmarshalPrivateKey j with
        | Err _ => fatal (ErrNew "failed to parse %v: %v")
        | Ok conf => pret (named, pk_Private conf, pk_Public conf)
        end
    end.

(** src/cmd/tailcat/masquecat_cli.go:195-221 [loadMasqueServerKey] *)
Definition loadMasqueServerKey (flagKey : gostring) (fresh : NodePrivate) : process (result (NodePrivate * gostring)) :=
  let! named :=
    if bool_decide (flagKey = []) then
      let! path := keyPath sy (B "default") in
      let! st := os_Stat sy path in
      pret (match st with
            | Ok _ => Ok (B "default")
            | Err e => if os_IsNotExist e then Ok (B "new") else Err (ErrWrap "stat default key: %w" e)
            end)
    else pret (Ok flagKey) in
  match named with
  | Err e => pret (Err e)
  | Ok named =>
      if bool_decide (named = B "new") then pret (Ok (fresh, B "new"))
      else
        let! path := keyPath sy named in
        let! j := os_ReadFile sy path in
        pret (let? j := j in
              match UnmarshalPrivateKey j with
              | Err e => Err (ErrWrap "parse %v: %w" e)
              | Ok conf =>
                  guard! negb (PrivIsZero (pk_Private conf)) or ErrNew "key file %v contains a zero node key" in
                  Ok (pk_Private conf, named)
              end)
  end.

(** * genkey *)

(** src/cmd/tailcat/tailcat.go:1515-1526 [genKey], --list *)
Definition genkey_list (confDir : gostring) : process (result unit) :=
  let! ents := os_ReadDir sy (Path.Join [confDir; B "tailcat"; B "keys"]) in
  match (match ents with
         | Ok names => Ok names
         | Err e => if os_IsNotExist e then Ok [] else Err e
         end) with
  | Err e => pret (Err e)
  | Ok names =>
      let! _ := Printlns (omap (fun e => match Strings.CutSuffix e key_suffix with
                                         | (name, true) => Some name
                                         | _ => None
                                         end) names) in
      pret (Ok tt)
  end.

(** src/cmd/tailcat/tailcat.go:1527-1535 [genKey], --delete *)
Definition genkey_delete (key : gostring) : process (result unit) :=
  if bool_decide (key = []) then pret (Err (ErrNew "genkey --delete requires saying which key to delete with --key=<name>"))
  else if keyIsPath key then pret (Err (ErrNew "can't delete key %q; it's a path"))
  else let! path := keyPath sy key in os_Remove sy path.

Definition legacy_options : list gostring := [B "region"; B "fixed-region"; B "embed-derp-map"].

(** src/cmd/tailcat/masquecat_cli.go:403-484 [masqueGenKey] *)
Definition masqueGenKey (g : global_flags) (f : genkey_flags) (fresh : NodePrivate) (args : list gostring)
    : process (result unit) :=
  if negb (bool_decide (args = [])) then pret (Err (ErrNew "genkey takes no positional arguments"))
  else
  match sy_UserConfigDir sy with
  | Err e => pret (Err e)
  | Ok confDir =>
      if gf_list f then genkey_list confDir
      else if gf_delete f then genkey_delete (gf_key f)
      else if bool_decide (gf_key f = []) then pret (Err (ErrNew "genkey requires --key=<name>"))
      else if existsb (gf_isSet f) legacy_options then pret (Err (ErrNew "genkey --%s is a legacy DERP option"))
      else if gf_client f && bool_decide (gf_key f = B "default") then
        pret (Err (ErrNew "genkey --client with --key=default is probably a mistake"))
      else
        let! path := if keyIsPath (gf_key f) then pret (gf_key f) else keyPath sy (gf_key f) in
        let! made := os_MkdirAll sy (Path.Dir path) in
        match made with
        | Err e => pret (Err e)
        | Ok _ =>
            let! st := os_Stat sy path in
            if is_ok st && negb (gf_force f) then pret (Err (ErrNew "%v already exists; use --force to overwrite"))
            else
              let priv := NewPrivateKey fresh in
              match MarshalPrivateKey priv with
              | Err e => pret (Err e)
              | Ok j =>
                  let! wrote := os_WriteFile sy path j in
                  match wrote with
                  | Err e => pret (Err e)
                  | Ok _ =>
                      if gf_client f then let! _ := Println (KeyString (Public fresh)) in pret (Ok tt)
                      else if bool_decide (fl_relayURL g = []) && bool_decide (fl_directURL g = []) then pret (Ok tt)
                      else
                        match Token.ConnBlob (Token.ConnInfo 1 (Public fresh) (DiscoPublicForNode fresh)
                                                (fl_directURL g) (fl_relayURL g) (envTruthy (fl_autoDirect g))) with
                        | Err e => pret (Err e)
                        | Ok blob => let! _ := Println blob in pret (Ok tt)
                        end
                  end
              end
        end
  end.

(** The options that genkey and the server give. *)
Definition server_options (g : global_flags) : list expand_opt :=
  [OptExpandForServer; OptDERPMapURL (fl_DERPMapURL g); OptDERPMapCache].

(** * The region of a key *)

(** The DERP map, netcheck's report on it, and the orders in which Go's two loops range
    over its regions. *)
Record region_env : Type := RegionEnv {
  re_fetch : fetch_env;
  re_report : DERPMap -> result (list (Z * Z));
  re_range1 : DERPMap -> list DERPRegion;
  re_range2 : DERPMap -> list DERPRegion;
}.

(** src/cmd/tailcat/tailcat.go:1673-1690 [findRegionIDFromSubstring] *)
Definition findRegionIDFromSubstring (range1 range2 : list DERPRegion) (s : gostring) : Z :=
  if bool_decide (s = B "list") then 0
  else
    match List.find (fun r => Strings.EqualFold (r_RegionCode r) s) range1 with
    | Some r => r_RegionID r
    | None =>
        match List.find (fun r => ContainsFold (r_RegionName r) s) range2 with
        | Some r => r_RegionID r
        | None => 0
        end
    end.

(** src/cmd/tailcat/tailcat.go:1601-1605 [genKey], one host name *)
Definition host_node (host : gostring) : DERPNode := MkDERPNode [] 0 host [] [] [] 0 0 false false [].

(** src/cmd/tailcat/tailcat.go:1592-1608 [genKey]: the regions, the number and what is to
    be looked up *)
Definition genkey_region (region : gostring) : list DERPRegion * Z * gostring :=
  if bool_decide (region = B "auto") then ([], -1, [])
  else
    match Strconv.Atoi region with
    | Ok n => ([], n, [])
    | Err _ =>
        if Strings.ContainsByte region "."%byte
        then ([MkDERPRegion 0 [] [] (host_node <$> Strings.SplitByte region ","%byte) []], 0, [])
        else ([], 0, region)
    end.

(** src/cmd/tailcat/tailcat.go:1650-1654 [genKey], the embedded region *)
Definition embedded (reg : DERPRegion) : DERPRegion :=
  MkDERPRegion (r_RegionID reg) (r_RegionCode reg) (r_RegionName reg)
    ((fun n => MkDERPNode (n_Name n) (n_RegionID n) (n_HostName n) (n_CertName n) (n_IPv4 n) [] (n_STUNPort n)
                 (n_DERPPort n) (n_InsecureForTests n) (n_STUNOnly n) (n_extra n)) <$> take 2 (r_Nodes reg)) (r_extra reg).

(** src/cmd/tailcat/tailcat.go:1592-1657 [genKey], the public part of a server's key *)
Definition genkey_public (g : global_flags) (f : genkey_flags) (env : region_env) (region : gostring)
    (ci : Derp.ConnInfo) : process Derp.ConnInfo :=
  let '(regs, id, sub) := genkey_region region in
  let ci := with_region ci regs id in
  let! dm :=
    if negb (bool_decide (sub = [])) || bool_decide (region = []) || gf_embedDERPMap f then
      match expand_options (server_options g) with
      | None => fatal (ErrNew "derpmap fetch: %v")
      | Some o =>
          let! got := fetch_on_disk sy (re_fetch env) (eo_url o) (eo_mode o) in
          match got with Ok dm => pret dm | Err _ => fatal (ErrNew "derpmap fetch: %v") end
      end
    else pret ∅ in
  let! ci :=
    if bool_decide (region = []) then
      match PickBestRegion dm (re_report env dm) with
      | Err e => fatal e
      | Ok id => if id =? 0 then fatal (ErrNew "couldn't determine the closest DERP region; specify --region")
                 else pret (with_region ci (ci_Region ci) id)
      end
    else pret ci in
  let! ci :=
    if negb (bool_decide (sub = [])) then
      let id := findRegionIDFromSubstring (re_range1 env dm) (re_range2 env dm) sub in
      if id =? 0 then
        if bool_decide (sub = B "list") then exit 0 else fatal (ErrNew "no region found matching %q")
      else pret (with_region ci (ci_Region ci) id)
    else pret ci in
  if gf_embedDERPMap f then
    match dm !! ci_RegionID ci with
    | None => panic
    | Some reg => pret (with_region ci (ci_Region ci ++ [embedded reg]) 0)
    end
  else pret ci.

(** src/cmd/tailcat/tailcat.go:1659-1669 [genKey], the file and the line that is printed *)
Definition genkey_save (path : gostring) (priv : PrivateKey) (line : option gostring) : process (result unit) :=
  let! privj := must (MarshalPrivateKey priv) in
  let! wrote := os_WriteFile sy path privj in
  match wrote with
  | Err e => fatal e
  | Ok _ =>
      match line with
      | None => panic
      | Some line => let! _ := Println line in pret (Ok tt)
      end
  end.

(** src/cmd/tailcat/tailcat.go:1536-1558 [genKey]: the flags that do not go together *)
Definition genkey_check (f : genkey_flags) : option gerror :=
  if bool_decide (gf_key f = []) && negb (bool_decide (gf_region f = B "list")) then
    Some (ErrNew "genkey requires a --key=<name>")
  else if gf_client f && existsb (gf_isSet f) legacy_options then Some (ErrNew "genkey --client does not take --%s")
  else if gf_client f && bool_decide (gf_key f = B "default") then
    Some (ErrNew "genkey --client with --key=default is probably a mistake")
  else if gf_fixedRegion f && gf_isSet f (B "region") then
    Some (ErrNew "genkey --fixed-region and --region are mutually exclusive")
  else None.

(** src/cmd/tailcat/tailcat.go:1483-1670 [genKey] *)
Definition genKey (g : global_flags) (f : genkey_flags) (env : region_env) (fresh : NodePrivate) (args : list gostring)
    : process (result unit) :=
  if negb (bool_decide (fl_key g = [])) then pret (Err (ErrNew "genkey's --key argument must be after genkey"))
  else if negb (fl_legacyDERP g) then masqueGenKey g f fresh args
  else if negb (bool_decide (args = [])) then pret (Err (ErrNew "genkey takes no positional arguments"))
  else
    match sy_UserConfigDir sy with
    | Err e => pret (Err e)
    | Ok confDir =>
        if gf_list f then genkey_list confDir
        else if gf_delete f then genkey_delete (gf_key f)
        else
          match genkey_check f with
          | Some e => pret (Err e)
          | None =>
              let region := if gf_fixedRegion f then [] else gf_region f in
              let! path :=
                if keyIsPath (gf_key f) then pret (gf_key f)
                else
                  let! p := keyPath sy (gf_key f) in
                  let! made := os_MkdirAll sy (Path.Dir p) in
                  let! _ := must made in pret p in
              let! st := os_Stat sy path in
              if is_ok st && negb (gf_force f) && negb (bool_decide (region = B "list")) then
                fatal (ErrNew "%v already exists; use --force to overwrite")
              else
                let priv := NewPrivateKey fresh in
                if gf_client f then genkey_save path priv (Some (KeyString (Public fresh)))
                else
                  let! ci := genkey_public g f env region (pk_Public priv) in
                  genkey_save path (MkPrivateKey fresh ci) (Derp.ConnBlob ci)
          end
    end.

(** * The address of a DERP server *)

(** What [clearUnnecessaryRegionFields] leaves of the fields that are not modelled: of a
    region without its coordinates, of a node without CanPort80. *)
Context (no_coordinates no_CanPort80 : list byte -> list byte).

(** src/cmd/tailcat/tailcat.go:1692-1703 [clearUnnecessaryRegionFields] *)
Definition clearUnnecessaryRegionFields (r : DERPRegion) : DERPRegion :=
  MkDERPRegion (r_RegionID r) [] (r_RegionName r)
    ((fun n => MkDERPNode (n_Name n) 0 (n_HostName n) (n_CertName n) (n_IPv4 n) (n_IPv6 n) (n_STUNPort n)
                 (n_DERPPort n) (n_InsecureForTests n) (n_STUNOnly n) (no_CanPort80 (n_extra n)))
     <$> (if 1 <? zlen (r_Nodes r) then take 1 (r_Nodes r) else r_Nodes r)) (no_coordinates (r_extra r)).

(** [Expand] with the cache on disk: it fetches when it has a number and no region. *)
Definition Expand_on_disk (fe : fetch_env) (env : expand_env) (g : global_flags) (ci : Derp.ConnInfo)
    : process (Derp.ConnInfo * result (option Z)) :=
  let opts := server_options g in
  let! fetched :=
    match expand_options opts with
    | Some o =>
        if bool_decide (ci_Region ci = []) && negb (ci_RegionID ci =? 0)
        then fetch_on_disk sy fe (eo_url o) (eo_mode o)
        else pret (ee_fetch env (eo_url o) (eo_mode o) (eo_cache o))
    | None => pret (Err (ErrNew "unknown Expand option type %T"))
    end in
  let '(ci, _, r) := Expand (ExpandEnv (fun _ _ _ => fetched) (ee_shuffle env) (ee_report env) (ee_intn env)) ci opts in
  pret (ci, r).

(** src/cmd/tailcat/tailcat.go:1130-1155 [server]: the address and the region of a server *)
Definition server_address (g : global_flags) (fe : fetch_env) (env : expand_env) (priv : NodePrivate) (ci : Derp.ConnInfo)
    : process (gostring * DERPRegion) :=
  let embed := fl_fullAddress g || negb (bool_decide (ci_Region ci = [])) in
  let! (ci, res) := Expand_on_disk fe env g ci in
  match res with
  | Err _ => fatal (ErrNew "Expand: %v")
  | Ok _ =>
      match ci_Region ci with
      | [] => panic
      | reg :: _ =>
          let reg := clearUnnecessaryRegionFields reg in
          let ci := MkConnInfo (Public priv) (DiscoPublicForNode priv) (if embed then [reg] else [])
                      (if embed then 0 else r_RegionID reg) in
          match Derp.ConnBlob ci with
          | None => panic
          | Some blob => pret (blob, reg)
          end
      end
  end.

(** src/cmd/tailcat/tailcat.go:1097-1155 [server]: who a DERP server is and the address it
    prints *)
Definition server_identity (g : global_flags) (fe : fetch_env) (env : expand_env) (flagKey : gostring) (fresh : NodePrivate)
    : process (NodePrivate * gostring * DERPRegion) :=
  let! (_, priv, ci) := serverKey flagKey fresh in
  let! (blob, reg) := server_address g fe env priv ci in
  pret (priv, blob, reg).
End keys.

(** * What genkey may touch *)

Section confinement.
Context {K : KeyOps} {D : DiscoKeyOps K} {O : BlobOps K} {T : TokenOps K} {F : KeyFileOps K}.

(** [p] is where the key [name] is kept. *)
Definition names (sy : system) (name p : gostring) : Prop := keyPath sy name = pret p.

Lemma keyPath_cases sy name : (exists p, names sy name p) \/ exists e, keyPath sy name = fatal e.
Proof.
  unfold names, keyPath. destruct (keyIsPath name); [left; by eexists|].
  destruct (sy_UserConfigDir sy); [left|right]; by eexists.
Qed.

Lemma names_unique sy name p q : names sy name p -> names sy name q -> p = q.
Proof. unfold names. intros Hp Hq. rewrite Hp in Hq. by apply (f_equal (fun m => m (Proc ∅ []))) in Hq as [= ->]. Qed.

Lemma names_path sy name : keyIsPath name = true -> names sy name name.
Proof. unfold names, keyPath. by intros ->. Qed.

(** The files of the DERP map cache that genkey uses. *)
Definition cache_file (sy : system) (g : global_flags) (p : gostring) : Prop :=
  match cache_paths sy (fl_DERPMapURL g) with
  | Ok (data, etag) => p = data \/ p = etag
  | Err _ => False
  end.

Lemma within_fetch sy g fe mode : within (keeps (cache_file sy g)) (fetch_on_disk sy fe (fl_DERPMapURL g) mode).
Proof.
  unfold fetch_on_disk, disk_Get, disk_Put, cache_file.
  destruct (cache_paths sy (fl_DERPMapURL g)) as [[data etag]|] eqn:E.
  - apply within_bind; [apply _|within_tac|intros stored].
    destruct (fetchDERPMap fe stored mode) as [[r [[b t]|]] a]; [|within_tac].
    within_tac.
  - apply within_bind; [apply _|within_tac|intros stored].
    destruct (fetchDERPMap fe stored mode) as [[r [[b t]|]] a]; within_tac.
Qed.
#[local] Hint Resolve within_fetch : process.

Lemma within_public sy g f env region ci : within (keeps (cache_file sy g)) (genkey_public sy g f env region ci).
Proof.
  unfold genkey_public. destruct (genkey_region region) as [[regs id] sub].
  change (expand_options (server_options g)) with (Some (ExpandOpts (fl_DERPMapURL g) (B "server") None true)).
  cbn [eo_url eo_mode]. apply within_bind; [apply _|within_tac|intros dm].
  apply within_bind; [apply _| |intros ci1; apply within_bind; [apply _| |intros ci2]].
  - destruct (bool_decide _); [|within_tac]. destruct (PickBestRegion _ _); [|within_tac].
    destruct (_ =? 0); within_tac.
  - destruct (negb _); [|within_tac]. destruct (_ =? 0); [destruct (bool_decide _)|]; within_tac.
  - destruct (gf_embedDERPMap f); [|within_tac]. destruct (dm !! _); within_tac.
Qed.

Lemma within_list sy S confDir : within (keeps S) (genkey_list sy confDir).
Proof. unfold genkey_list. apply within_bind; [apply _|within_tac|intros ents]. destruct (match ents with Ok _ => _ | _ => _ end); within_tac. Qed.

Lemma within_delete sy S key :
  (forall p, names sy key p -> S p) -> within (keeps S) (genkey_delete sy key).
Proof.
  intros HS. unfold genkey_delete. destruct (bool_decide _); [within_tac|]. destruct (keyIsPath key); [within_tac|].
  destruct (keyPath_cases sy key) as [[p Hp]|[e He]]; [rewrite Hp, pbind_pret; apply HS in Hp|rewrite He, pbind_fatal]; within_tac.
Qed.

Lemma within_save sy (S : gostring -> Prop) path priv line : S path -> within (keeps S) (genkey_save sy path priv line).
Proof. intros HS. unfold genkey_save. within_tac. Qed.

(** Both genkeys only write the named key, and the cache. *)
Lemma within_masque sy S g f fresh args :
  (forall p, names sy (gf_key f) p -> S p) -> within (keeps S) (masqueGenKey sy g f fresh args).
Proof.
  intros HS. unfold masqueGenKey. destruct (negb _); [within_tac|]. destruct (sy_UserConfigDir sy); [|within_tac].
  destruct (gf_list f); [apply within_list|]. destruct (gf_delete f); [by apply within_delete|].
  destruct (bool_decide _); [within_tac|]. destruct (existsb _ _); [within_tac|]. destruct (_ && _); [within_tac|].
  assert (exists p, names sy (gf_key f) p /\ (if keyIsPath (gf_key f) then pret (gf_key f) else keyPath sy (gf_key f)) = pret p \/
    exists e, (if keyIsPath (gf_key f) then pret (gf_key f) else keyPath sy (gf_key f)) = fatal e) as (p & Hp).
  { destruct (keyIsPath (gf_key f)) eqn:Ek; [exists (gf_key f); left; split; [by apply names_path|done]|].
    destruct (keyPath_cases sy (gf_key f)) as [[p Hp]|[e He]]; [exists p; by left|exists []; right; by exists e]. }
  destruct Hp as [[Hp%HS ->]|[e ->]]; [rewrite pbind_pret|rewrite pbind_fatal; within_tac].
  apply within_bind; [apply _|within_tac|intros made]. destruct made; [|within_tac].
  apply within_bind; [apply _|within_tac|intros st]. destruct (_ && _); [within_tac|].
  destruct (MarshalPrivateKey _); [|within_tac].
  apply within_bind; [apply _|within_tac|intros wrote]. destruct wrote; [|within_tac].
  destruct (gf_client f); [within_tac|]. destruct (_ && _); [within_tac|].
  destruct (Token.ConnBlob _); within_tac.
Qed.

(** What exists is not overwritten without --force. *)

Lemma masque_existing sy g f fresh args p n s :
  names sy (gf_key f) p -> pr_disk s !! p = Some n -> gf_list f = false -> gf_delete f = false -> gf_force f = false ->
  sy_fail sy FStat p = None -> keeps (fun _ => False) (pr_disk s) (pr_disk (masqueGenKey sy g f fresh args s).1).
Proof.
  intros Hp Hn Hl Hd Hfo Hst. unfold masqueGenKey. rewrite Hl, Hd, Hfo.
  destruct (negb _); [done|]. destruct (sy_UserConfigDir sy); [|done]. destruct (bool_decide _); [done|].
  destruct (existsb _ _); [done|]. destruct (_ && _); [done|].
  assert ((if keyIsPath (gf_key f) then pret (gf_key f) else keyPath sy (gf_key f)) = pret p) as ->.
  { destruct (keyIsPath (gf_key f)) eqn:Ek; [|done]. by rewrite (names_unique _ _ _ _ Hp (names_path sy _ Ek)). }
  rewrite pbind_pret. destruct (mkdir_run sy (Path.Dir p) s) as (d & r & Hm & Hk). rewrite (pbind_run _ _ _ _ _ Hm).
  destruct r; [|done]. rewrite (pbind_run _ _ _ _ _ (stat_existing sy p (Proc d (pr_out s)) n Hst (keeps_lookup _ _ _ _ _ Hk (fun x => x) Hn))).
  done.
Qed.

(** A listing of the regions never gets to a file. *)
Lemma public_list sy g f env ci s : exists s' r, genkey_public sy g f env (B "list") ci s = (s', r) /\ forall a, r <> Returned a.
Proof.
  unfold genkey_public. change (genkey_region (B "list")) with (@nil DERPRegion, 0, B "list"). cbv beta iota.
  set (m := if negb _ || _ || _ then _ else _). unfold pbind at 1. destruct (m s) as [s1 [dm|e|c|]]; by eexists _, _.
Qed.

(** The flags are what the parser makes of a command line: a --region that was not set
    has its default. *)
Definition flags_parsed (f : genkey_flags) : Prop := gf_isSet f (B "region") = false -> gf_region f = B "auto".

Lemma genkey_existing sy g f env fresh args p n s :
  flags_parsed f -> names sy (gf_key f) p -> pr_disk s !! p = Some n -> gf_list f = false -> gf_delete f = false ->
  gf_force f = false -> sy_fail sy FStat p = None ->
  keeps (cache_file sy g) (pr_disk s) (pr_disk (genKey sy g f env fresh args s).1).
Proof.
  intros Hf Hp Hn Hl Hd Hfo Hst. unfold genKey. destruct (negb _); [done|]. destruct (negb _).
  { eapply keeps_weaken; [|by eapply masque_existing]. done. }
  destruct (negb _); [done|]. destruct (sy_UserConfigDir sy) as [confDir|]; [|done]. rewrite Hl, Hd, Hfo.
  destruct (genkey_check f) eqn:Hc; [done|].
  set (m := if keyIsPath _ then _ else _).
  assert (exists d r, m s = (Proc d (pr_out s), r) /\ keeps (fun _ => False) (pr_disk s) d /\ (forall q, r = Returned q -> q = p))
    as (d & r & Hm & Hk & Hr).
  { unfold m. destruct (keyIsPath (gf_key f)) eqn:Ek.
    - exists (pr_disk s), (Returned (gf_key f)). split_and!; [by destruct s|done|].
      intros q [= <-]. exact (names_unique _ _ _ _ (names_path sy _ Ek) Hp).
    - rewrite Hp, pbind_pret. destruct (mkdir_run sy (Path.Dir p) s) as (d & r & Hm & Hk). rewrite (pbind_run _ _ _ _ _ Hm).
      destruct r; cbn [must]; [|rewrite pbind_fatal; eexists _, _; by split_and!].
      rewrite pbind_pret. eexists _, _. split_and!; [done|done|]. by intros q [= <-]. }
  unfold pbind at 1. rewrite Hm. clearbody m. clear Hm.
  assert (keeps (cache_file sy g) (pr_disk s) d) as Hk' by (eapply keeps_weaken; [|exact Hk]; done).
  destruct r as [q|e|c|]; try exact Hk'. rewrite (Hr q eq_refl).
  rewrite (pbind_run _ _ _ _ _ (stat_existing sy p (Proc d (pr_out s)) n Hst (keeps_lookup _ _ _ _ _ Hk (fun x => x) Hn))).
  cbn [is_ok andb negb]. set (region := if gf_fixedRegion f then [] else gf_region f).
  destruct (bool_decide (region = B "list")) eqn:Er; cbn [negb]; [|exact Hk'].
  apply bool_decide_eq_true in Er. rewrite Er.
  assert (gf_client f = false) as ->.
  { destruct (gf_client f) eqn:Ec; [|done]. exfalso. unfold genkey_check in Hc. rewrite Ec in Hc. unfold region in Er.
    destruct (gf_fixedRegion f); [done|]. destruct (gf_isSet f (B "region")) eqn:Es.
    - cbn [existsb legacy_options] in Hc. rewrite Es in Hc. by destruct (bool_decide _ && _) in Hc.
    - by rewrite (Hf Es) in Er. }
  etrans; [exact Hk'|].
  pose proof (within_public sy g f env (B "list") (pk_Public (NewPrivateKey fresh)) (Proc d (pr_out s))) as Hw.
  destruct (public_list sy g f env (pk_Public (NewPrivateKey fresh)) (Proc d (pr_out s))) as (s' & r & Hrun & Hno).
  unfold pbind. rewrite Hrun in Hw |- *. by destruct r; [destruct (Hno a)|..].
Qed.

Lemma within_genKey sy (S : gostring -> Prop) g f env fresh args :
  (forall p, cache_file sy g p -> S p) -> (forall p, names sy (gf_key f) p -> S p) ->
  within (keeps S) (genKey sy g f env fresh args).
Proof.
  intros HS1 HS2. unfold genKey. destruct (negb _); [within_tac|]. destruct (negb _); [by apply within_masque|].
  destruct (negb _); [within_tac|]. destruct (sy_UserConfigDir sy); [|within_tac]. destruct (gf_list f); [apply within_list|].
  destruct (gf_delete f); [by apply within_delete|]. destruct (genkey_check f); [within_tac|].
  assert (forall p, names sy (gf_key f) p -> within (keeps S)
    (let! st := os_Stat sy p in
     if is_ok st && negb (gf_force f) && negb (bool_decide ((if gf_fixedRegion f then [] else gf_region f) = B "list"))
     then fatal (ErrNew "%v already exists; use --force to overwrite")
     else if gf_client f then genkey_save sy p (NewPrivateKey fresh) (Some (KeyString (Public fresh)))
     else let! ci := genkey_public sy g f env (if gf_fixedRegion f then [] else gf_region f) (pk_Public (NewPrivateKey fresh)) in
          genkey_save sy p (MkPrivateKey fresh ci) (Derp.ConnBlob ci))) as Hrest.
  { intros p Hp. within_step; [within_tac|]. destruct (_ && _ && _); [within_tac|].
    destruct (gf_client f); [by apply within_save, HS2|]. within_step; [|by apply within_save, HS2].
    intros x. eapply keeps_weaken; [exact HS1|]. apply within_public. }
  destruct (keyIsPath (gf_key f)) eqn:Ek; [rewrite pbind_pret; by apply Hrest, names_path|].
  destruct (keyPath_cases sy (gf_key f)) as [[p Hp]|[e He]]; [|rewrite He, !pbind_fatal; within_tac].
  rewrite Hp, pbind_pret. intros x. destruct (mkdir_run sy (Path.Dir p) x) as (d & r0 & Hm & Hk).
  unfold pbind at 1 2. rewrite Hm. assert (keeps S (pr_disk x) d) as Hk' by (eapply keeps_weaken; [|exact Hk]; done).
  destruct r0; cbn [must]; [|exact Hk']. rewrite pbind_pret. unfold pret. etrans; [exact Hk'|].
  apply (Hrest p Hp (Proc d (pr_out x))).
Qed.

Lemma genkey_lists sy g f env fresh args :
  gf_list f = true -> within (keeps (fun _ => False)) (genKey sy g f env fresh args).
Proof.
  intros Hl. unfold genKey, masqueGenKey. rewrite Hl. destruct (negb _); [within_tac|].
  destruct (negb _); (destruct (negb _); [within_tac|]; destruct (sy_UserConfigDir sy); [apply within_list|within_tac]).
Qed.

(** C30: genkey keeps what is on the disk.  Whatever the flags and whatever fails, the
    only existing file that changes is the named key, and then --delete or --force was
    given (or the system would not say whether it exists), apart from the cached DERP map;
    and a key given as a path is never deleted. *)
Theorem genkey_is_confined sy g f env fresh args s s' r :
  flags_parsed f -> genKey sy g f env fresh args s = (s', r) ->
  (forall p n, pr_disk s !! p = Some n -> ~ cache_file sy g p -> pr_disk s' !! p <> Some n ->
     names sy (gf_key f) p /\ gf_list f = false /\
     (gf_delete f = true \/ gf_force f = true \/ is_Some (sy_fail sy FStat p))) /\
  (gf_delete f = true -> keyIsPath (gf_key f) = true -> keeps (fun _ => False) (pr_disk s) (pr_disk s')).
Proof.
  intros Hf Hrun.
  assert (forall S : gostring -> Prop, (forall p, cache_file sy g p -> S p) -> (forall p, names sy (gf_key f) p -> S p) ->
    within (keeps S) (genKey sy g f env fresh args)) as Hw by (intros S; apply within_genKey).
  assert (pr_disk s' = pr_disk (genKey sy g f env fresh args s).1) as -> by by rewrite Hrun.
  split.
  - intros p n Hn Hc Hch.
    assert (names sy (gf_key f) p) as Hp.
    { destruct (keyPath_cases sy (gf_key f)) as [[q Hq]|[e He]].
      - destruct (decide (p = q)) as [->|Hpq]; [done|]. exfalso. apply Hch.
        apply (keeps_lookup (fun x => cache_file sy g x \/ x = q) (pr_disk s)); [|naive_solver|done].
        apply (Hw (fun x => cache_file sy g x \/ x = q)); [by left|]. intros x Hx. right. by eapply names_unique.
      - exfalso. apply Hch. apply (keeps_lookup (cache_file sy g) (pr_disk s)); [|done|done].
        apply (Hw (cache_file sy g)); [done|]. intros x Hx. unfold names in Hx. rewrite He in Hx.
        by apply (f_equal (fun m => m s)) in Hx. }
    assert (gf_list f = false) as Hl.
    { destruct (gf_list f) eqn:El; [|done]. exfalso. apply Hch. apply (keeps_lookup (fun _ => False) (pr_disk s)); [|tauto|done].
      by apply genkey_lists. }
    split_and!; [done|done|]. destruct (gf_delete f) eqn:Ed; [by left|]. destruct (gf_force f) eqn:Efo; [by right; left|].
    right; right. destruct (sy_fail sy FStat p) eqn:Est; [by eexists|]. exfalso. apply Hch.
    apply (keeps_lookup (cache_file sy g) (pr_disk s)); [|done|done]. by eapply genkey_existing.
  - intros Hd Hk. unfold genKey, masqueGenKey. destruct (negb _); [done|].
    assert (within (keeps (fun _ => False)) (genkey_delete sy (gf_key f))) as Hdel.
    { unfold genkey_delete. rewrite Hk. destruct (bool_decide _); within_tac. }
    rewrite Hd. destruct (negb _); [destruct (negb _); [done|]|destruct (negb _); [done|]];
      (destruct (sy_UserConfigDir sy); [|done]; destruct (gf_list f); [apply within_list|apply Hdel]).
Qed.
End confinement.

(** * Saved keys load *)

Section loading.
Context {K : KeyOps} {D : DiscoKeyOps K} {O : BlobOps K} {T : TokenOps K} {F : KeyFileOps K} {FL : KeyFileLaws F}.

(** What is at [p] after genkey: the key [pk]. *)
Definition saved (sy : system) (d : disk) (p : gostring) (pk : PrivateKey) : Prop :=
  exists j, MarshalPrivateKey pk = Ok j /\ d !! p = Some (File j (sy_now sy)).

Lemma genkey_save_saves sy p pk line s s' r :
  genkey_save sy p pk line s = (s', Returned r) -> saved sy (pr_disk s') p pk.
Proof.
  unfold genkey_save. intros (s1 & j & Hj & H)%pbind_returned.
  destruct (MarshalPrivateKey pk) as [j0|] eqn:Em; [|done]. injection Hj as <- <-.
  apply pbind_returned in H as (s2 & w & Hw & H). destruct w as [[]|e]; [|done]. destruct line as [line|]; [|done].
  injection H as <- _. exists j0. split; [done|]. cbn [pr_disk]. by rewrite (write_ok _ _ _ _ _ Hw), lookup_insert_eq.
Qed.

Lemma public_identity sy g f env region ci s s' ci' :
  genkey_public sy g f env region ci s = (s', Returned ci') ->
  ci_ServerPublic ci' = ci_ServerPublic ci /\ ci_ServerDiscoPublic ci' = ci_ServerDiscoPublic ci.
Proof.
  unfold genkey_public. destruct (genkey_region region) as [[regs id] sub].
  intros (s1 & dm & _ & H)%pbind_returned. apply pbind_returned in H as (s2 & ci1 & H1 & H).
  apply pbind_returned in H as (s3 & ci2 & H2 & H3).
  assert (ci_ServerPublic ci1 = ci_ServerPublic ci /\ ci_ServerDiscoPublic ci1 = ci_ServerDiscoPublic ci) as [E1 E2].
  { unfold pret, fatal in H1. by inv_op H1. }
  assert (ci_ServerPublic ci2 = ci_ServerPublic ci /\ ci_ServerDiscoPublic ci2 = ci_ServerDiscoPublic ci) as [E3 E4].
  { unfold pret, fatal, exit in H2. by inv_op H2. }
  unfold pret, panic in H3. by inv_op H3.
Qed.

Lemma masque_saves sy g f fresh args s s' :
  gf_list f = false -> gf_delete f = false -> masqueGenKey sy g f fresh args s = (s', Returned (Ok tt)) ->
  exists p, names sy (gf_key f) p /\ saved sy (pr_disk s') p (NewPrivateKey fresh).
Proof.
  intros Hl Hd. unfold masqueGenKey. rewrite Hl, Hd. destruct (negb _); [done|]. destruct (sy_UserConfigDir sy); [|done].
  destruct (bool_decide _); [done|]. destruct (existsb _ _); [done|]. destruct (_ && _); [done|].
  intros (s1 & p & Hp & H)%pbind_returned. exists p.
  assert (names sy (gf_key f) p) as Hnames.
  { destruct (keyIsPath (gf_key f)) eqn:Ek; [injection Hp as _ <-; by apply names_path|].
    destruct (keyPath_cases sy (gf_key f)) as [[q Hq]|[e He]]; [rewrite Hq in Hp; by injection Hp as _ <-|by rewrite He in Hp]. }
  split; [done|]. apply pbind_returned in H as (s2 & made & _ & H). destruct made; [|done].
  apply pbind_returned in H as (s3 & st & _ & H). destruct (_ && _); [done|].
  destruct (MarshalPrivateKey _) as [j|] eqn:Em; [|done].
  apply pbind_returned in H as (s4 & w & Hw & H). destruct w as [[]|e]; [|done].
  assert (pr_disk s' = pr_disk s4) as ->.
  { destruct (gf_client f); [by injection H as <-|]. destruct (_ && _); [by injection H as <-|].
    destruct (Token.ConnBlob _); [by injection H as <-|done]. }
  exists j. split; [done|]. by rewrite (write_ok _ _ _ _ _ Hw), lookup_insert_eq.
Qed.

Lemma genkey_saves sy g f env fresh args s s' :
  gf_list f = false -> gf_delete f = false -> genKey sy g f env fresh args s = (s', Returned (Ok tt)) ->
  exists p pk, names sy (gf_key f) p /\ saved sy (pr_disk s') p pk /\ pk_Private pk = fresh /\
    ci_ServerPublic (pk_Public pk) = Public fresh /\ ci_ServerDiscoPublic (pk_Public pk) = DiscoPublicForNode fresh /\
    (fl_legacyDERP g = false \/ gf_client f = true -> pk = NewPrivateKey fresh).
Proof.
  intros Hl Hd. unfold genKey. rewrite Hl, Hd. destruct (negb _); [done|]. destruct (fl_legacyDERP g) eqn:Eg; cbn [negb].
  2: { intros H. destruct (masque_saves _ _ _ _ _ _ _ Hl Hd H) as (p & Hp & Hs). by exists p, (NewPrivateKey fresh). }
  destruct (negb _); [done|]. destruct (sy_UserConfigDir sy); [|done]. destruct (genkey_check f); [done|].
  intros (s1 & p & Hp & H)%pbind_returned. exists p.
  assert (names sy (gf_key f) p) as Hnames.
  { destruct (keyIsPath (gf_key f)) eqn:Ek; [injection Hp as _ <-; by apply names_path|].
    destruct (keyPath_cases sy (gf_key f)) as [[q Hq]|[e He]]; [rewrite Hq, pbind_pret in Hp|by rewrite He in Hp].
    apply pbind_returned in Hp as (s2 & made & _ & Hp). destruct made; [|done]. by injection Hp as _ <-. }
  apply pbind_returned in H as (s2 & st & _ & H). destruct (_ && _); [done|].
  destruct (gf_client f) eqn:Ec.
  - exists (NewPrivateKey fresh). apply genkey_save_saves in H. by split_and!.
  - apply pbind_returned in H as (s3 & ci & Hci & H). apply public_identity in Hci as [E1 E2]. apply genkey_save_saves in H.
    exists (MkPrivateKey fresh ci). split_and!; try done. by intros [?|?].
Qed.

(** A system and a disk on which the key at [p] is what genkey left. *)
Record readable (sy : system) (d : disk) (sy' : system) (t : proc) (p : gostring) : Prop := {
  rd_dir : sy_UserConfigDir sy' = sy_UserConfigDir sy;
  rd_fail op : sy_fail sy' op p = None;
  rd_file : pr_disk t !! p = d !! p;
}.

Lemma names_same sy sy' name p : sy_UserConfigDir sy' = sy_UserConfigDir sy -> names sy name p -> names sy' name p.
Proof. unfold names, keyPath. by intros ->. Qed.

Lemma read_saved sy d sy' t p pk :
  saved sy d p pk -> readable sy d sy' t p -> storable pk = true ->
  exists j, os_ReadFile sy' p t = (t, Returned (Ok j)) /\ UnmarshalPrivateKey j = Ok pk.
Proof.
  intros (j & Hj & Hd) [_ Hf Hfile] Hs. exists j. split; [|by apply key_file_roundtrip].
  unfold os_ReadFile, pbind, get_disk, pret. by rewrite Hf, Hfile, Hd.
Qed.

Lemma stat_saved sy d sy' t p pk :
  saved sy d p pk -> readable sy d sy' t p -> os_Stat sy' p t = (t, Returned (Ok tt)).
Proof. intros (j & _ & Hd) [_ Hf Hfile]. eapply stat_existing; [apply Hf|by rewrite Hfile]. Qed.

(** The three ways to load a key, given its name. *)
Lemma loads_by_name sy d sy' t p pk name other :
  names sy name p -> saved sy d p pk -> readable sy d sy' t p -> storable pk = true -> name <> [] -> name <> B "new" ->
  clientKey sy' name other t = (t, Returned (name, pk_Private pk)) /\
  serverKey sy' name other t = (t, Returned (name, pk_Private pk, pk_Public pk)) /\
  (pk_Private pk <> NodePrivateZero -> loadMasqueServerKey sy' name other t = (t, Returned (Ok (pk_Private pk, name)))).
Proof.
  intros Hn Hs Hr Hst H1 H2. apply (names_same sy sy') in Hn; [|apply Hr].
  destruct (read_saved _ _ _ _ _ _ Hs Hr Hst) as (j & Hread & Hun).
  unfold clientKey, serverKey, loadMasqueServerKey. rewrite !(bool_decide_eq_false_2 (name = [])) by done.
  rewrite !pbind_pret. rewrite !(bool_decide_eq_false_2 (name = B "new")), (bool_decide_eq_false_2 (name = [])) by done. cbn [orb]. rewrite Hn, !pbind_pret.
  split_and!; [| |intros Hz]; rewrite (pbind_run _ _ _ _ _ Hread); cbn [rbind]; rewrite Hun; [done|done|].
  unfold PrivIsZero. by rewrite bool_decide_eq_false_2.
Qed.

(** C29: what genkey reports as written, later runs load.  After a successful genkey of
    either kind the named key is at its path, and every way to use it by that name, as a
    client and as a server of either transport, gives the private key it was made for;
    the keys named default and client-default are used without being named.  A server's
    key also keeps where it listens. *)
Theorem saved_key_loads sy g f env fresh args s s' :
  gf_list f = false -> gf_delete f = false -> gf_key f <> [] -> gf_key f <> B "new" ->
  genKey sy g f env fresh args s = (s', Returned (Ok tt)) ->
  exists p pk, names sy (gf_key f) p /\ pk_Private pk = fresh /\ ci_ServerPublic (pk_Public pk) = Public fresh /\
    (fl_legacyDERP g = false \/ gf_client f = true -> storable pk = true) /\
    forall sy' t other, storable pk = true -> readable sy (pr_disk s') sy' t p ->
      clientKey sy' (gf_key f) other t = (t, Returned (gf_key f, fresh)) /\
      serverKey sy' (gf_key f) other t = (t, Returned (gf_key f, fresh, pk_Public pk)) /\
      (fresh <> NodePrivateZero -> loadMasqueServerKey sy' (gf_key f) other t = (t, Returned (Ok (fresh, gf_key f)))) /\
      (gf_key f = B "client-default" -> clientKey sy' [] other t = clientKey sy' (gf_key f) other t) /\
      (gf_key f = B "default" -> serverKey sy' [] other t = serverKey sy' (gf_key f) other t /\
         loadMasqueServerKey sy' [] other t = loadMasqueServerKey sy' (gf_key f) other t).
Proof.
  intros Hl Hd Hne Hnew H. destruct (genkey_saves _ _ _ _ _ _ _ _ Hl Hd H) as (p & pk & Hp & Hs & <- & Hpub & _ & Hpk).
  exists p, pk. split_and!; [done|done|done|by intros ->%Hpk|]. intros sy' t other Hst Hr.
  destruct (loads_by_name _ _ _ _ _ _ _ other Hp Hs Hr Hst Hne Hnew) as (H1 & H2 & H3).
  split_and!; [done|done|done| |].
  - intros E. unfold clientKey. rewrite E in Hp |- *. rewrite (names_same _ _ _ _ (rd_dir _ _ _ _ _ Hr) Hp).
    change (bool_decide ([] = [])) with true. cbv iota. rewrite pbind_pret.
    unfold pbind at 1 2. by rewrite (stat_saved _ _ _ _ _ _ Hs Hr).
  - intros E. unfold serverKey, loadMasqueServerKey. rewrite E in Hp |- *. rewrite (names_same _ _ _ _ (rd_dir _ _ _ _ _ Hr) Hp).
    change (bool_decide ([] = [])) with true. cbv iota. rewrite !pbind_pret.
    split; unfold pbind at 1 2; by rewrite (stat_saved _ _ _ _ _ _ Hs Hr).
Qed.
End loading.

(** * A DERP server and its key *)

Section identity.
Context {K : KeyOps} {D : DiscoKeyOps K} {O : BlobOps K} {BL : BlobLaws O} {T : TokenOps K} {F : KeyFileOps K} {FL : KeyFileLaws F}.
Context (no_coordinates no_CanPort80 : list byte -> list byte).

Lemma expand_nowhere sy fe env g ci t :
  ci_Region ci = [] -> ci_RegionID ci = 0 ->
  exists ci', Expand_on_disk sy fe env g ci t = (t, Returned (ci', Ok None)) /\ ci_Region ci' = [].
Proof.
  intros H1 H2. unfold Expand_on_disk.
  change (expand_options (server_options g)) with (Some (ExpandOpts (fl_DERPMapURL g) (B "server") None true)). cbv beta iota.
  rewrite H1, H2. cbn [bool_decide negb andb Z.eqb]. rewrite andb_false_r. rewrite pbind_pret.
  unfold Expand. change (expand_options (server_options g)) with (Some (ExpandOpts (fl_DERPMapURL g) (B "server") None true)).
  cbv beta iota zeta. rewrite H1, H2. cbn [fmap list_fmap]. eexists. by split.
Qed.

(** a key that was not made for the DERP transport crashes a server of it.  The
    keys that genkey saves without --legacy-derp, or with --client, load, but say nothing
    of a region; a server with --legacy-derp then indexes an empty list of regions. *)
Theorem plain_key_crashes_legacy_server sy g f env fresh args s s' :
  gf_list f = false -> gf_delete f = false -> gf_key f <> [] -> gf_key f <> B "new" ->
  (fl_legacyDERP g = false \/ gf_client f = true) ->
  genKey sy g f env fresh args s = (s', Returned (Ok tt)) ->
  exists p, names sy (gf_key f) p /\
    forall sy' t g' fe env' other, readable sy (pr_disk s') sy' t p ->
      server_identity sy' no_coordinates no_CanPort80 g' fe env' (gf_key f) other t = (t, Panicked).
Proof.
  intros Hl Hd Hne Hnew Hk H. destruct (genkey_saves _ _ _ _ _ _ _ _ Hl Hd H) as (p & pk & Hp & Hs & _ & _ & _ & Hpk).
  exists p. split; [done|]. intros sy' t g' fe env' other Hr. rewrite (Hpk Hk) in Hs. clear pk Hpk.
  destruct (loads_by_name _ _ _ _ _ _ _ other Hp Hs Hr eq_refl Hne Hnew) as (_ & H2 & _).
  unfold server_identity. rewrite (pbind_run _ _ _ _ _ H2). cbv beta iota. unfold server_address, pbind.
  destruct (expand_nowhere sy' fe env' g' (pk_Public (NewPrivateKey fresh)) t eq_refl eq_refl) as (ci' & -> & E).
  by rewrite E.
Qed.

(** The address a server prints is its own: it parses to the server's keys and to the
    region it listens on, by number, or with at most one node of it when the address
    embeds the region. *)
Theorem server_address_names_server sy g fe env flagKey fresh s s' priv blob reg :
  server_identity sy no_coordinates no_CanPort80 g fe env flagKey fresh s = (s', Returned (priv, blob, reg)) ->
  (forall embed : bool, encodable (wireOf (MkConnInfo (Public priv) (DiscoPublicForNode priv) (if embed then [reg] else [])
                              (if embed then 0 else r_RegionID reg))) = true) ->
  exists ci s1 named ci0, serverKey sy flagKey fresh s = (s1, Returned (named, priv, ci0)) /\
    ParseConnBlob blob = Ok ci /\ ci_ServerPublic ci = Public priv /\ ci_ServerDiscoPublic ci = DiscoPublicForNode priv /\
    (length (r_Nodes reg) <= 1)%nat /\
    if fl_fullAddress g || negb (bool_decide (ci_Region ci0 = []))
    then ci_Region ci = [canonical_region 0 reg] /\ ci_RegionID ci = 0
    else ci_Region ci = [] /\ ci_RegionID ci = r_RegionID reg.
Proof.
  unfold server_identity. intros (s1 & [[named priv'] ci0] & Hkey & H)%pbind_returned He.
  apply pbind_returned in H as (s2 & [blob' reg'] & Ha & H). injection H as <- <- <- <-.
  unfold server_address in Ha. apply pbind_returned in Ha as (s3 & [ci1 res] & _ & Ha).
  destruct res; [|done]. destruct (ci_Region ci1) as [|reg0 rs]; [done|].
  set (embed := fl_fullAddress g || _) in *.
  destruct (Derp.ConnBlob _) as [blob0|] eqn:Hb in Ha; [|done]. injection Ha as _ <- <-.
  exists (canonical (MkConnInfo (Public priv') (DiscoPublicForNode priv')
    (if embed then [clearUnnecessaryRegionFields no_coordinates no_CanPort80 reg0] else [])
    (if embed then 0 else r_RegionID (clearUnnecessaryRegionFields no_coordinates no_CanPort80 reg0)))), s1, named, ci0.
  fold embed. split_and!; [done|by apply parse_conn_blob|done|done| |by destruct embed].
  unfold clearUnnecessaryRegionFields. cbn [r_Nodes]. rewrite length_fmap.
  destruct (1 <? zlen (r_Nodes reg0)) eqn:El; [rewrite length_take; lia|]. bool_to_prop. unfold zlen in El. lia.
Qed.

(** Of a region whose first node only answers STUN nothing is left to relay over, although
    other nodes of it relay. *)
Lemma server_region_may_have_no_relay r n rest :
  r_Nodes r = n :: rest -> n_STUNOnly n = true ->
  wr_Nodes (wireRegionOf (clearUnnecessaryRegionFields no_coordinates no_CanPort80 r)) = [].
Proof.
  intros Hr Hn. unfold clearUnnecessaryRegionFields, wireRegionOf. cbn [wr_Nodes r_Nodes]. rewrite Hr.
  assert ((if 1 <? zlen (n :: rest) then take 1 (n :: rest) else n :: rest) = [n]) as ->.
  { destruct rest as [|n2 rest]; [done|]. by destruct (1 <? zlen (n :: n2 :: rest)) eqn:E; [|bool_to_prop; unfold zlen in E; cbn [length] in E; lia]. }
  cbn [fmap list_fmap]. rewrite omap_cons. unfold wireNodeOf. cbn [n_STUNOnly]. by rewrite Hn.
Qed.

Lemma fetch_on_disk_returns sy fe url mode s : exists t r, fetch_on_disk sy fe url mode s = (t, Returned r).
Proof.
  assert (exists e, disk_Get sy url s = (s, Returned e)) as [e He].
  { unfold disk_Get. destruct (cache_paths sy url) as [[data etag]|]; [|by eexists].
    unfold os_ModTime, os_ReadFile, pbind, get_disk, pret. by repeat case_match; simplify_eq; eexists. }
  unfold fetch_on_disk. rewrite (pbind_run _ _ _ _ _ He). destruct (fetchDERPMap fe e mode) as [[r [[data etag]|]] a]; [|by eexists _, _].
  assert (exists t x, disk_Put sy url data etag s = (t, Returned x)) as (t & x & Hx).
  { unfold disk_Put. destruct (cache_paths sy url) as [[p q]|]; [|by eexists _, _].
    destruct (mkdir_run sy (Path.Dir p) s) as (d & x & Hx & _). rewrite (pbind_run _ _ _ _ _ Hx). destruct x; [|by eexists _, _].
    destruct (write_returns sy p data (Proc d (pr_out s))) as (t & x & Hw). rewrite (pbind_run _ _ _ _ _ Hw).
    destruct x; [|by eexists _, _]. destruct (bool_decide _); [|apply write_returns].
    destruct (remove_returns sy q t) as (t' & x & Hr). rewrite (pbind_run _ _ _ _ _ Hr). by eexists _, _. }
  rewrite (pbind_run _ _ _ _ _ Hx). by eexists _, _.
Qed.

(** With --embed-derp-map and a region that is not looked up by name, which is the default,
    genkey dereferences the region of a number that no map has. *)
Lemma embedding_an_unnamed_region_crashes sy g f env region ci s :
  gf_embedDERPMap f = true ->
  region = B "auto" \/ (exists e, Strconv.Atoi region = Err e) /\ Strings.ContainsByte region "."%byte = true ->
  (forall t t' dm, fetch_on_disk sy (re_fetch env) (fl_DERPMapURL g) (B "server") t = (t', Returned (Ok dm)) ->
     dm !! (-1) = None /\ dm !! 0 = None) ->
  match (genkey_public sy g f env region ci s).2 with Fatal _ | Panicked => True | _ => False end.
Proof.
  intros Hem Hreg Hm. unfold genkey_public.
  assert (exists regs id, genkey_region region = (regs, id, []) /\ region <> [] /\ (id = -1 \/ id = 0)) as (regs & id & -> & Hne & Hid).
  { unfold genkey_region. destruct Hreg as [-> |[[e He] Hdot]].
    - eexists _, _. split; [done|]. split; [done|by left].
    - rewrite He, Hdot. case_bool_decide as Ha; [eexists _, _; split; [done|]; split; [by rewrite Ha|by left]|].
      eexists _, _. split; [done|]. split; [by intros ->|by right]. }
  rewrite Hem, orb_true_r.
  change (expand_options (server_options g)) with (Some (ExpandOpts (fl_DERPMapURL g) (B "server") None true)).
  cbn [eo_url eo_mode]. unfold pbind at 1 2.
  pose proof (Hm s) as Hs. destruct (fetch_on_disk sy (re_fetch env) (fl_DERPMapURL g) (B "server") s) as [s1 [[dm|e]|e|c|]] eqn:Ef.
  2,3,5: done. 2: by destruct (fetch_on_disk_returns sy (re_fetch env) (fl_DERPMapURL g) (B "server") s) as (t & x & E); rewrite Ef in E.
  destruct (Hs s1 dm eq_refl) as [H1 H2]. unfold pret at 1. rewrite (bool_decide_eq_false_2 (region = [])) by done.
  rewrite pbind_pret, (bool_decide_eq_true_2 ([] = [])) by done. cbn [negb]. rewrite pbind_pret. destruct Hid as [-> | ->]; cbn [with_region ci_RegionID].
  - by rewrite H1.
  - by rewrite H2.
Qed.
End identity.

(** A key that is saved under the name new is never loaded by that name. *)
Lemma key_named_new_is_never_loaded `{K : KeyOps} {F : KeyFileOps K} sy other s :
  clientKey sy (B "new") other s = (s, Returned (B "new", other)) /\
  loadMasqueServerKey sy (B "new") other s = (s, Returned (Ok (other, B "new"))).
Proof. done. Qed.

(** * Witnesses *)

Module ToyKeyFile.
Import ToyKeys ToyBlob.

(** Keys without regions, as their bytes and the number of the region. *)
#[global] Instance toy_file : KeyFileOps toy := {|
  MarshalPrivateKey := fun pk =>
    if bool_decide (ci_Region (pk_Public pk) = [])
    then Ok (key_raw (pk_Private pk) ++ key_raw (ci_ServerPublic (pk_Public pk)) ++
             key_raw (ci_ServerDiscoPublic (pk_Public pk)) ++ pos_bytes (encode (ci_RegionID (pk_Public pk))))
    else Err (ErrNew "regions are not supported");
  UnmarshalPrivateKey := fun b =>
    match decode (bytes_pos (drop 96 b)) with
    | Some id => Ok (MkPrivateKey (K := toy) (of_raw (take 32 b))
                       (MkConnInfo (K := toy) (of_raw (take 32 (drop 32 b))) (of_raw (take 32 (drop 64 b))) [] id))
    | None => Err (ErrNew "invalid key file")
    end;
|}.

#[global] Instance toy_file_laws : KeyFileLaws toy_file.
Proof.
  split. intros [priv [pub disco regs id]] b _. cbn [MarshalPrivateKey UnmarshalPrivateKey toy_file pk_Private pk_Public
    ci_Region ci_ServerPublic ci_ServerDiscoPublic ci_RegionID].
  case_bool_decide as Hr; [|done]. subst regs. intros [= <-].
  set (t := pos_bytes (encode id)).
  assert (drop 96 (key_raw priv ++ key_raw pub ++ key_raw disco ++ t) = t) as ->.
  { rewrite !app_assoc, drop_app_length'; [done|]. by rewrite !length_app, !raw_len. }
  unfold t. rewrite bytes_pos_bytes, countable.decode_encode. fold t.
  rewrite (take_app_length' (key_raw priv)) by by rewrite raw_len.
  rewrite (drop_app_length' (key_raw priv)) by by rewrite raw_len.
  rewrite (take_app_length' (key_raw pub)) by by rewrite raw_len.
  assert (drop 64 (key_raw priv ++ key_raw pub ++ key_raw disco ++ t) = key_raw disco ++ t) as ->.
  { rewrite app_assoc, drop_app_length'; [done|]. by rewrite !length_app, !raw_len. }
  rewrite (take_app_length' (key_raw disco)) by by rewrite raw_len. by rewrite !of_raw_raw.
Qed.
End ToyKeyFile.
Import ToyKeys ToyBlob ToyToken ToyKeyFile.

Definition ex_global (legacy : bool) : global_flags := GlobalFlags [] legacy (B "https://m") [] [] [] false.
Definition ex_genkey (name : string) (client force delete : bool) : genkey_flags :=
  GenkeyFlags (B name) client force delete false (B "auto") false false (fun _ => false).
Definition ex_regions : region_env :=
  RegionEnv ex_fetch (fun _ => Err (ErrNew "no netcheck")) (fun dm => (map_to_list dm).*2) (fun dm => (map_to_list dm).*2).
Definition ex_genKey (legacy : bool) (f : genkey_flags) (n : Z) (s : proc) : proc * ending (result unit) :=
  genKey (K := toy) (D := toy_disco) (O := toy_blob) (T := toy_token) (F := toy_file) ex_system (ex_global legacy) f ex_regions
    (nkey n) [] s.
Definition ex_empty : proc := Proc ∅ [].
Definition ex_default : proc := (ex_genKey true (ex_genkey "default" false false false) 3 ex_empty).1.

(** A second genkey of the same name is refused and keeps the first key. *)
Lemma genkey_is_confined_witness :
  match ex_genKey true (ex_genkey "default" false false false) 4 ex_default with
  | (s', _) => forall p n, pr_disk ex_default !! p = Some n ->
      ~ cache_file ex_system (ex_global true) p -> pr_disk s' !! p = Some n
  end.
Proof.
  destruct (ex_genKey true (ex_genkey "default" false false false) 4 ex_default) as [s' r] eqn:H.
  intros p n Hn Hc. apply dec_stable. intros Hch.
  destruct (genkey_is_confined (K := toy) (D := toy_disco) (O := toy_blob) (T := toy_token) (F := toy_file) ex_system
    (ex_global true) (ex_genkey "default" false false false) ex_regions (nkey 4) [] ex_default s' r (fun _ => eq_refl) H) as [H1 _].
  destruct (H1 p n Hn Hc Hch) as (_ & _ & [Hd|[Hf|[e He]]]); discriminate.
Defined.

Definition ex_masque : proc := (ex_genKey false (ex_genkey "default" false false false) 3 ex_empty).1.
Lemma ex_masque_run : ex_genKey false (ex_genkey "default" false false false) 3 ex_empty = (ex_masque, Returned (Ok tt)).
Proof. vm_reflexivity. Qed.

(** A server without --key uses the key that genkey saved as default. *)
Lemma saved_key_loads_witness :
  loadMasqueServerKey (K := toy) (F := toy_file) ex_system [] (nkey 9) ex_masque =
  (ex_masque, Returned (Ok (nkey 3, B "default"))).
Proof.
  destruct (saved_key_loads (K := toy) (D := toy_disco) (O := toy_blob) (T := toy_token) (F := toy_file) (FL := toy_file_laws)
    ex_system (ex_global false) (ex_genkey "default" false false false) ex_regions (nkey 3) [] ex_empty ex_masque
    eq_refl eq_refl ltac:(discriminate) ltac:(discriminate) ex_masque_run) as (p & pk & Hp & _ & _ & Hst & Hload).
  destruct (Hload ex_system ex_masque (nkey 9) (Hst (or_introl eq_refl))) as (_ & _ & H3 & _ & H5); [by split|].
  destruct (H5 eq_refl) as [_ H6]. rewrite H6. apply H3. intros Hz. apply (f_equal key_raw) in Hz. discriminate.
Defined.

Lemma plain_key_crashes_legacy_server_witness :
  (server_identity (K := toy) (D := toy_disco) (O := toy_blob) (F := toy_file) ex_system id id (ex_global true) ex_fetch ex_env
     (B "default") (nkey 9) ex_masque).2 = Panicked.
Proof.
  destruct (plain_key_crashes_legacy_server (K := toy) (D := toy_disco) (O := toy_blob) (T := toy_token) (F := toy_file)
    (FL := toy_file_laws) id id ex_system (ex_global false) (ex_genkey "default" false false false) ex_regions (nkey 3) []
    ex_empty ex_masque eq_refl eq_refl ltac:(discriminate) ltac:(discriminate) (or_introl eq_refl) ex_masque_run)
    as (p & Hp & Hcrash).
  assert (readable ex_system (pr_disk ex_masque) ex_system ex_masque p) as Hr by by split.
  exact (f_equal snd (Hcrash ex_system ex_masque (ex_global true) ex_fetch ex_env (nkey 9) Hr)).
Defined.

Definition ex_identity : proc * ending (key32 * gostring * DERPRegion) :=
  server_identity (K := toy) (D := toy_disco) (O := toy_blob) (F := toy_file) ex_system id id (ex_global true) ex_fetch
    (ExpandEnv (fun _ _ _ => Err (ErrNew "offline")) (fun _ l => l) (fun _ => Ok [(7, 5)]) pred) (B "default") (nkey 9) ex_default.

(** A server with a saved key prints an address that names its key and region 7. *)
Lemma server_address_names_server_witness :
  match ex_identity with
  | (_, Returned (priv, blob, reg)) =>
      priv = nkey 3 /\ exists ci, ParseConnBlob (K := toy) blob = Ok ci /\ ci_ServerPublic (K := toy) ci = nkey 3 /\
        ci_Region (K := toy) ci = [] /\ ci_RegionID (K := toy) ci = 7
  | _ => False
  end.
Proof.
  assert (match ex_identity with
          | (_, Returned (priv, blob, reg)) => bool_decide (priv = nkey 3) && (r_RegionID reg =? 7) &&
              forallb (fun embed : bool => encodable (K := toy) (wireOf (K := toy) (MkConnInfo (K := toy) priv
                (DiscoPublicForNode (K := toy) (D := toy_disco) priv) (if embed then [reg] else [])
                (if embed then 0 else r_RegionID reg)))) [true; false]
          | _ => false
          end = true) as Hok by vm_reflexivity.
  destruct ex_identity as [s' [[[priv blob] reg]|e|c|]] eqn:H; [|discriminate Hok..]. bool_to_prop.
  match goal with E : forallb _ _ = true |- _ => cbn [forallb] in E; bool_to_prop end. subst priv. split; [done|].
  destruct (server_address_names_server (K := toy) (D := toy_disco) (O := toy_blob) (BL := toy_blob_laws) (F := toy_file) id id
    ex_system _ _ _ _ _ _ _ _ _ _ H) as (ci & s1 & named & ci0 & Hkey & Hp & Hpub & _ & _ & Hreg).
  { by intros []. }
  exists ci. split; [exact Hp|]. split; [exact Hpub|].
  assert (match (serverKey (K := toy) (F := toy_file) ex_system (B "default") (nkey 9) ex_default).2 with
          | Returned (_, _, c) => bool_decide (ci_Region (K := toy) c = [])
          | _ => false
          end = true) as Hc by vm_reflexivity.
  rewrite Hkey in Hc. cbn [snd] in Hc. rewrite Hc in Hreg. cbn [fl_fullAddress ex_global orb negb] in Hreg. destruct Hreg as [-> ->]. by split.
Defined.
