(* ===== verification/Session.v ===== *)
(** Session: the sessions of the built-in SSH server.

    Models src/tailcat_ssh.go and the session command of src/tailcat_ssh_unix.go and
    src/tailcat_ssh_windows.go: the host key on disk, which sessions and subsystems a
    server offers, the command and environment of a session, and [runWithPipes] with its
    copying goroutines.  The SSH protocol, key generation and the started process are
    outside: their answers and steps are arguments. *)

From S2P Require Import Prelude GoStd Filepath Files Process.
From Stdlib Require Import Strings.Byte.

(** * The host key *)

Section host_key.
Context (sy : system).
(** Two parameters: a new ed25519 key as PEM, or why there is none; and
    [gossh.ParsePrivateKey]. *)
Context (signer : Type) (ParsePrivateKey : list byte -> result signer).

(** src/tailcat_ssh.go:242-268 [hostKeyFileOrCreate], under hostKeyMu *)
Definition hostKeyFileOrCreate (keyDir : gostring) (generated : result (list byte)) : process (result (list byte)) :=
  let path := Path.Join [keyDir; B "ssh_host_ed25519_key"] in
  let! v := os_ReadFile sy path in
  match v with
  | Ok v => pret (Ok v)
  | Err e =>
      if negb (os_IsNotExist e) then pret (Err e)
      else
        match generated with
        | Err e => pret (Err e)
        | Ok pemData =>
            let! wrote := os_WriteFile sy path pemData in
            pret (let? _ := wrote in Ok pemData)
        end
  end.

(** src/tailcat_ssh.go:224-234 [sshKeyDir] *)
Definition sshKeyDir : process (result gostring) :=
  match sy_UserConfigDir sy with
  | Err e => pret (Err (ErrWrap "UserConfigDir: %w" e))
  | Ok cfgDir =>
      let dir := Path.Join [cfgDir; B "tailcat"; B "ssh"] in
      let! made := os_MkdirAll sy dir in
      pret (let? _ := made in Ok dir)
  end.

(** src/tailcat_ssh.go:206-222 [getHostKeys] *)
Definition getHostKeys (generated : result (list byte)) : process (result (list signer)) :=
  let! dir := sshKeyDir in
  match dir with
  | Err e => pret (Err e)
  | Ok dir =>
      let! keyPEM := hostKeyFileOrCreate dir generated in
      match keyPEM with
      | Err e => pret (Err e)
      | Ok keyPEM =>
          pret (match ParsePrivateKey keyPEM with
                | Err e => Err (ErrWrap "parsing host key: %w" e)
                | Ok s => Ok [s]
                end)
      end
  end.

(** What a connection is served with: the connection closed, or an SSH server with its
    host keys, whether its sessions run commands, and its subsystems. *)
Inductive ssh_conn : Type :=
  | SSHClosed
  | SSHServed (keys : list signer) (shell : bool) (subsystems : list gostring).

(** src/tailcat_ssh.go:63-94 [Server.SSHConnHandler]; [files] tells whether [opts.Files]
    is set *)
Definition SSHConnHandler (shell files : bool) (generated : result (list byte)) : process ssh_conn :=
  let! keys := getHostKeys generated in
  match keys with
  | Err _ => pret SSHClosed
  | Ok keys =>
      pret (SSHServed keys shell
              (match sftpSubsystemHandler files shell None None with Some _ => [B "sftp"] | None => [] end))
  end.
End host_key.
Arguments SSHClosed {signer}.
Arguments SSHServed {signer}.

(** * The command of a session *)

Record user : Type := User { u_Uid : gostring; u_Username : gostring; u_HomeDir : gostring }.
(** An [exec.Cmd] before it is started. *)
Record command : Type := Command { cmd_Args : list gostring; cmd_Dir : gostring; cmd_Env : list gostring }.

(** src/tailcat_ssh.go:198-204 [acceptEnvPair] *)
Definition acceptEnvPair (kv : gostring) : bool :=
  match Strings.CutByte kv "="%byte with
  | (k, _, true) => bool_decide (k = B "TERM") || bool_decide (k = B "LANG") || Strings.HasPrefix k (B "LC_")
  | _ => false
  end.

(** src/tailcat_ssh_unix.go:166-171 [defaultPath] *)
Definition defaultPath (u : user) : gostring :=
  if bool_decide (u_Uid u = B "0") then B "/usr/local/sbin:/usr/local/bin:/usr/sbin:/usr/bin:/sbin:/bin"
  else B "/usr/local/bin:/usr/bin:/bin".

(** src/tailcat_ssh_unix.go:149-163 [loginShell]: [dscl] is what the directory service
    prints on macOS, [env] the value of SHELL *)
Definition loginShell (darwin : bool) (dscl : result gostring) (env : gostring) : gostring :=
  let fallback := if negb (bool_decide (env = [])) then env else B "/bin/sh" in
  if darwin then
    match dscl with
    | Ok out => match Strings.CutPrefix out (B "UserShell: ") with
                | (s, true) => Strings.TrimSpace s
                | _ => fallback
                end
    | Err _ => fallback
    end
  else fallback.

(** src/tailcat_ssh_unix.go:30-49 [newSessionCommand] *)
Definition newSessionCommand (shell : gostring) (u : user) (rawCmd : gostring) : command :=
  Command (if bool_decide (rawCmd = []) then [shell; B "-l"] else [shell; B "-c"; rawCmd]) (u_HomeDir u)
    [B "SHELL=" ++ shell; B "USER=" ++ u_Username u; B "HOME=" ++ u_HomeDir u; B "PATH=" ++ defaultPath u].

(** src/tailcat_ssh_windows.go:28-46 [newSessionCommand]; [environ] is [os.Environ] *)
Definition newSessionCommand_windows (shell : gostring) (environ : list gostring) (u : user) (rawCmd : gostring) : command :=
  Command (if bool_decide (rawCmd = []) then [shell; B "-NoLogo"] else [shell; B "-Command"; rawCmd]) (u_HomeDir u) environ.

Definition add_env (cmd : command) (env : list gostring) : command := Command (cmd_Args cmd) (cmd_Dir cmd) (cmd_Env cmd ++ env).

(** What a session asks for, and how it is run. *)
Record session_request : Type := SessionRequest {
  sq_RawCommand : gostring;
  sq_Environ : list gostring;
  sq_Term : option gostring;
}.
Inductive session_run : Type :=
  | RunExit (code : Z)
  | RunPTY (cmd : command) (term : gostring)
  | RunPipes (cmd : command).

(** src/tailcat_ssh_unix.go:97-99 [runWithPTY], and the same lines on Windows *)
Definition pty_command (cmd : command) (term : gostring) : command :=
  if bool_decide (term = []) then cmd else add_env cmd [B "TERM=" ++ term].

(** src/tailcat_ssh.go:97-122 [sessionHandler] *)
Definition sessionHandler (newCommand : user -> gostring -> command) (current : result user) (sess : session_request) : session_run :=
  match current with
  | Err _ => RunExit 1
  | Ok u =>
      let cmd := add_env (newCommand u (sq_RawCommand sess)) (List.filter acceptEnvPair (sq_Environ sess)) in
      match sq_Term sess with
      | Some term => RunPTY cmd term
      | None => RunPipes cmd
      end
  end.

(** src/tailcat_ssh.go:71-77 [Server.SSHConnHandler], a session of a connection *)
Definition conn_session (shell : bool) (newCommand : user -> gostring -> command) (current : result user)
    (sess : session_request) : session_run :=
  if shell then sessionHandler newCommand current sess else RunExit 1.

(** What is started: with a terminal the command with its TERM, or as it is where there is
    no pseudoconsole. *)
Definition may_start (run : session_run) : list command :=
  match run with
  | RunExit _ => []
  | RunPTY cmd term => [pty_command cmd term; cmd]
  | RunPipes cmd => [cmd]
  end.

(** What a started process finds in its environment: of several entries for a key, the
    last one ([os/exec] removes the others). *)
Definition env_entry (key kv : gostring) : option gostring :=
  match Strings.CutByte kv "="%byte with
  | (k, v, true) => if bool_decide (k = key) then Some v else None
  | _ => None
  end.
Definition Environ_lookup (env : list gostring) (key : gostring) : option gostring := last (omap (env_entry key) env).

(** An [exec.ExitError] carries the code. *)
Inductive wait_error : Type := ExitError (code : Z) | OtherError.
(** src/tailcat_ssh.go:187-194 [exitCode] *)
Definition exitCode (e : wait_error) : Z := match e with ExitError c => c | OtherError => 1 end.

(** * Output of a command without a terminal *)

(** One of the command's output pipes with the goroutine that copies it: the bytes in the
    pipe, those sent to the session, all that were written, whether a process still holds
    the write end, whether the goroutine runs, and whether it ended on a session error. *)
Record stream : Type := Stream {
  st_buf : list byte;
  st_sent : list byte;
  st_written : list byte;
  st_writers : bool;
  st_copying : bool;
  st_lost : bool;
}.

(** [false] is standard output, [true] standard error. *)
Record pipes : Type := Pipes {
  ps_stream : bool -> stream;
  ps_openStreams : Z;
  ps_outputDone : bool;
  ps_waited : option (option wait_error);
  ps_exit : list Z;
}.

(** src/tailcat_ssh.go:156-158 [runWithPipes], where the goroutines start *)
Definition pipes_start : pipes := Pipes (fun _ => Stream [] [] [] true true false) 2 false None [].

Definition with_stream (s : pipes) (i : bool) (x : stream) : pipes :=
  Pipes (fun j => if Bool.eqb i j then x else ps_stream s j) (ps_openStreams s) (ps_outputDone s) (ps_waited s) (ps_exit s).

(** src/tailcat_ssh.go:159-163 [runWithPipes, closeOutput] *)
Definition closeOutput (s : pipes) : pipes :=
  let n := ps_openStreams s - 1 in
  Pipes (ps_stream s) n (if n =? 0 then true else ps_outputDone s) (ps_waited s) (ps_exit s).

(** src/tailcat_ssh.go:164-171 [runWithPipes], the end of a copying goroutine *)
Definition copy_ends (s : pipes) (i : bool) (lost : bool) : pipes :=
  let x := ps_stream s i in
  closeOutput (with_stream s i (Stream (st_buf x) (st_sent x) (st_written x) (st_writers x) false (lost || st_lost x))).

(** src/tailcat_ssh.go:177-184 [runWithPipes], [cmd.Wait], which closes the read ends *)
Definition pipes_wait (s : pipes) (r : option wait_error) : pipes :=
  Pipes (fun i => let x := ps_stream s i in Stream [] (st_sent x) (st_written x) (st_writers x) (st_copying x) (st_lost x))
    (ps_openStreams s) (ps_outputDone s) (Some r) (ps_exit s).
Definition pipes_exit (s : pipes) (r : option wait_error) : pipes :=
  Pipes (ps_stream s) (ps_openStreams s) (ps_outputDone s) (ps_waited s)
    (ps_exit s ++ [match r with Some e => exitCode e | None => 0 end]).

(** src/tailcat_ssh.go:151-185 [runWithPipes]: the command writes and closes its ends, the
    goroutines copy, and the handler waits for them, then for the command *)
Inductive pipes_step : pipes -> pipes -> Prop :=
  | StepWrite s i data :
      let x := ps_stream s i in
      st_writers x = true ->
      pipes_step s (with_stream s i (Stream (st_buf x ++ data) (st_sent x) (st_written x ++ data) true (st_copying x) (st_lost x)))
  | StepHangup s i :
      let x := ps_stream s i in
      pipes_step s (with_stream s i (Stream (st_buf x) (st_sent x) (st_written x) false (st_copying x) (st_lost x)))
  | StepCopy s i n :
      let x := ps_stream s i in
      st_copying x = true ->
      pipes_step s (with_stream s i (Stream (drop n (st_buf x)) (st_sent x ++ take n (st_buf x)) (st_written x)
                                       (st_writers x) true (st_lost x)))
  | StepEOF s i :
      let x := ps_stream s i in
      st_copying x = true -> st_buf x = [] -> st_writers x = false -> pipes_step s (copy_ends s i false)
  | StepFail s i :
      st_copying (ps_stream s i) = true -> pipes_step s (copy_ends s i true)
  | StepWait s r :
      ps_outputDone s = true -> ps_waited s = None -> pipes_step s (pipes_wait s r)
  | StepExit s r :
      ps_waited s = Some r -> ps_exit s = [] -> pipes_step s (pipes_exit s r).

(** src/tailcat_ssh.go:125-149 [runWithPipes], before the goroutines start: the three
    pipes and the start of the command, the first error ending the session *)
Definition pipes_setup (stdin stdout stderr start : option gerror) : option Z :=
  match errors_join [stdin; stdout; stderr; start] with Some _ => Some 1 | None => None end.

(** * Properties *)

Section environment.

Lemma last_omap_app {A B : Type} (f : A -> option B) l k :
  (forall x, x ∈ k -> f x = None) -> last (omap f (l ++ k)) = last (omap f l).
Proof.
  intros Hk. assert (omap f k = []) as Hn.
  { induction k as [|x k IH]; [done|]. simpl. rewrite (Hk x) by apply list_elem_of_here. apply IH. intros y Hy. apply Hk. by right. }
  by rewrite omap_app, Hn, app_nil_r.
Qed.

(** The variables that a client may set. *)
Definition client_key (key : gostring) : bool :=
  bool_decide (key = B "TERM") || bool_decide (key = B "LANG") || Strings.HasPrefix key (B "LC_").

Lemma accepted_entry key kv v : acceptEnvPair kv = true -> env_entry key kv = Some v -> client_key key = true.
Proof.
  unfold acceptEnvPair, env_entry, client_key. destruct (Strings.CutByte kv _) as [[k w] []]; [|done].
  destruct (bool_decide_reflect (k = key)) as [->|]; [by intros H _|done].
Qed.

Lemma add_env_lookup cmd env key :
  client_key key = false -> Forall (fun kv => acceptEnvPair kv = true) env ->
  Environ_lookup (cmd_Env (add_env cmd env)) key = Environ_lookup (cmd_Env cmd) key.
Proof.
  intros Hk Hf. unfold Environ_lookup, add_env. cbn [cmd_Env]. apply last_omap_app. intros kv Hkv.
  rewrite Forall_forall in Hf. specialize (Hf kv Hkv). destruct (env_entry key kv) eqn:E; [|done].
  by rewrite (accepted_entry _ _ _ Hf E) in Hk.
Qed.

Lemma term_accepted term : acceptEnvPair (B "TERM=" ++ term) = true.
Proof.
  unfold acceptEnvPair. change (B "TERM=" ++ term) with (B "TERM" ++ "="%byte :: term).
  rewrite cut_byte_app by by_evaluation. done.
Qed.

(** What a session runs is the command made for it, with entries that a client may send. *)
Lemma session_command newCommand u sess cmd :
  cmd ∈ may_start (sessionHandler newCommand (Ok u) sess) ->
  exists extra, cmd = add_env (newCommand u (sq_RawCommand sess)) extra /\ Forall (fun kv => acceptEnvPair kv = true) extra.
Proof.
  intros H. unfold sessionHandler in H. set (base := newCommand u _) in *. set (env := List.filter acceptEnvPair (sq_Environ sess)) in H.
  assert (Forall (fun kv => acceptEnvPair kv = true) env) as Henv.
  { apply Forall_forall. intros kv Hkv. apply list_elem_of_In, filter_In in Hkv. by destruct Hkv. }
  destruct (sq_Term sess) as [term|]; [|apply list_elem_of_singleton in H as ->; by exists env].
  apply elem_of_cons in H as [->|H]; [|apply list_elem_of_singleton in H as ->; by exists env].
  unfold pty_command. destruct (bool_decide _); [by exists env|]. exists (env ++ [B "TERM=" ++ term]).
  split; [unfold add_env; simpl; by rewrite <- app_assoc|]. apply Forall_app. split; [done|]. constructor; [apply term_accepted|done].
Qed.

(** a client decides what a session runs, not how.  Whatever it sends as a command,
    environment and terminal, the session runs in the user's home directory with exactly
    the arguments that were made for its command, and finds every variable but TERM, LANG
    and LC_* as the server set it. *)
Theorem session_environment_is_the_servers newCommand u sess cmd :
  cmd ∈ may_start (sessionHandler newCommand (Ok u) sess) ->
  let base := newCommand u (sq_RawCommand sess) in
  cmd_Args cmd = cmd_Args base /\ cmd_Dir cmd = cmd_Dir base /\
  (forall key, client_key key = false -> Environ_lookup (cmd_Env cmd) key = Environ_lookup (cmd_Env base) key) /\
  (exists extra, cmd_Env cmd = cmd_Env base ++ extra /\ Forall (fun kv => acceptEnvPair kv = true) extra).
Proof.
  intros (extra & -> & Hx)%session_command base. split_and!; [done|done| |by exists extra]. intros key Hk. by apply add_env_lookup.
Qed.

(** On Unix what the server sets is all there is. *)
Lemma unix_environment shell u raw :
  let env := cmd_Env (newSessionCommand shell u raw) in
  Environ_lookup env (B "SHELL") = Some shell /\ Environ_lookup env (B "USER") = Some (u_Username u) /\
  Environ_lookup env (B "HOME") = Some (u_HomeDir u) /\ Environ_lookup env (B "PATH") = Some (defaultPath u).
Proof.
  assert (forall key k v, "="%byte ∉ k -> env_entry key (k ++ "="%byte :: v) = if bool_decide (k = key) then Some v else None) as He.
  { intros key k v Hk. unfold env_entry. by rewrite cut_byte_app. }
  assert (forall key, omap (env_entry key) (cmd_Env (newSessionCommand shell u raw)) =
    omap id [if bool_decide (B "SHELL" = key) then Some shell else None; if bool_decide (B "USER" = key) then Some (u_Username u) else None;
             if bool_decide (B "HOME" = key) then Some (u_HomeDir u) else None; if bool_decide (B "PATH" = key) then Some (defaultPath u) else None]) as Hl.
  { intros key. unfold newSessionCommand. cbn [cmd_Env omap list_omap].
    change (B "SHELL=" ++ ?v) with (B "SHELL" ++ "="%byte :: v). change (B "USER=" ++ ?v) with (B "USER" ++ "="%byte :: v).
    change (B "HOME=" ++ ?v) with (B "HOME" ++ "="%byte :: v). change (B "PATH=" ++ ?v) with (B "PATH" ++ "="%byte :: v).
    rewrite (He key (B "SHELL")), (He key (B "USER")), (He key (B "HOME")), (He key (B "PATH")) by by_evaluation. done. }
  intros env. unfold env, Environ_lookup. by rewrite !Hl.
Qed.
End environment.

(** * The host key stays the same *)

Section host_key_properties.
Context (signer : Type) (ParsePrivateKey : list byte -> result signer).

Definition host_key_path (confDir : gostring) : gostring :=
  Path.Join [Path.Join [confDir; B "tailcat"; B "ssh"]; B "ssh_host_ed25519_key"].

(** The directory, the key or the error, after the directory was made. *)
Lemma getHostKeys_run sy confDir gen s :
  sy_UserConfigDir sy = Ok confDir ->
  exists d (made : result unit), keeps (fun _ => False) (pr_disk s) d /\
    getHostKeys sy signer ParsePrivateKey gen s =
      match made with
      | Err e => (Proc d (pr_out s), Returned (Err (A := list signer) e))
      | Ok _ => pbind (hostKeyFileOrCreate sy (Path.Join [confDir; B "tailcat"; B "ssh"]) gen)
                  (fun keyPEM => match keyPEM with
                                 | Err e => pret (Err e)
                                 | Ok keyPEM => pret (match ParsePrivateKey keyPEM with
                                                      | Err e => Err (ErrWrap "parsing host key: %w" e)
                                                      | Ok s => Ok [s]
                                                      end)
                                 end) (Proc d (pr_out s))
      end.
Proof.
  intros Hc. unfold getHostKeys, sshKeyDir. rewrite Hc.
  destruct (mkdir_run sy (Path.Join [confDir; B "tailcat"; B "ssh"]) s) as (d & made & Hm & Hk). exists d, made.
  split; [done|]. unfold pbind at 1 2. rewrite Hm. by destruct made.
Qed.

(** a connection never sees another host key.  As long as the file is there, every
    connection presents the key that is in it and leaves the disk as it is (but for
    directories), or presents none; and a connection that finds no file presents a key
    only after that key is in the file. *)
Theorem host_key_is_stable sy confDir gen s s' r :
  sy_UserConfigDir sy = Ok confDir -> sy_fail sy FRead (host_key_path confDir) <> Some OSErrNotExist ->
  getHostKeys sy signer ParsePrivateKey gen s = (s', r) ->
  match pr_disk s !! host_key_path confDir with
  | Some n =>
      keeps (fun _ => False) (pr_disk s) (pr_disk s') /\
      (forall keys, r = Returned (Ok keys) -> exists b t k, n = File b t /\ ParsePrivateKey b = Ok k /\ keys = [k])
  | None =>
      keeps (fun p => p = host_key_path confDir) (pr_disk s) (pr_disk s') /\
      (forall keys, r = Returned (Ok keys) ->
         exists b t k, pr_disk s' !! host_key_path confDir = Some (File b t) /\ ParsePrivateKey b = Ok k /\ keys = [k])
  end.
Proof.
  intros Hc Hne H. destruct (getHostKeys_run sy confDir gen s Hc) as (d & made & Hk & Hrun). rewrite Hrun in H. clear Hrun.
  assert (forall S, keeps S (pr_disk s) d) as HkS by (intros S; eapply keeps_weaken; [|exact Hk]; done).
  destruct made as [[]|e]; [|injection H as <- <-; destruct (pr_disk s !! _); split; [apply HkS|done|apply HkS|done]].
  fold (host_key_path confDir) in *. unfold hostKeyFileOrCreate in H. fold (host_key_path confDir) in H.
  destruct (pr_disk s !! host_key_path confDir) as [n|] eqn:Hn.
  - pose proof (keeps_lookup _ _ _ _ _ Hk (fun x => x) Hn) as Hd.
    unfold os_ReadFile, pbind, get_disk, pret in H. cbn [pr_disk] in H.
    destruct (sy_fail sy FRead (host_key_path confDir)) as [e|].
    + destruct (os_IsNotExist e) eqn:Ee; [by destruct e|]. cbn [negb] in H. injection H as <- <-. by split; [apply HkS|].
    + rewrite Hd in H. destruct n as [b t|]; cbn [negb os_IsNotExist is_not_exist] in H; injection H as <- <-; (split; [apply HkS|]).
      * intros keys. destruct (ParsePrivateKey b) as [k|] eqn:Ep; [|done]. intros [= <-]. by exists b, t, k.
      * done.
  - pose proof (HkS (fun p => p = host_key_path confDir)) as Hk'.
    assert (keeps (fun p => p = host_key_path confDir) d (pr_disk s')) as Hw.
    { assert (within (keeps (fun p => p = host_key_path confDir)) (hostKeyFileOrCreate sy (Path.Join [confDir; B "tailcat"; B "ssh"]) gen))
        as Hw by (unfold hostKeyFileOrCreate; within_tac).
      specialize (Hw (Proc d (pr_out s))). unfold hostKeyFileOrCreate in Hw. fold (host_key_path confDir) in Hw.
      unfold pbind at 1 in H. destruct (pbind (os_ReadFile sy (host_key_path confDir)) _ _) as [s1 [[pem|e]|e|c|]]; injection H as <- <-; exact Hw. }
    split; [by etrans|]. intros keys ->. clear Hw. apply pbind_returned in H as (s1 & x & Hf & Hp).
    destruct x as [pem|e]; [|done]. injection Hp as -> Hp. destruct (ParsePrivateKey pem) as [k|] eqn:Ep; [|done]. injection Hp as <-.
    unfold os_ReadFile in Hf. unfold pbind at 1 2, get_disk in Hf. cbn [pr_disk] in Hf.
    assert (forall t, pr_disk s' !! host_key_path confDir = Some (File pem t) -> exists b t k0,
      pr_disk s' !! host_key_path confDir = Some (File b t) /\ ParsePrivateKey b = Ok k0 /\ [k] = [k0]) as Hgoal by (intros t Ht; by exists pem, t, k).
    unfold pret at 1 in Hf.
    destruct (sy_fail sy FRead (host_key_path confDir)) as [e|].
    + destruct (os_IsNotExist e) eqn:Ee; [by destruct e|]. done.
    + destruct (d !! host_key_path confDir) as [[b t|]|] eqn:Hd; cbn [negb os_IsNotExist is_not_exist] in Hf; [|done|].
      * injection Hf as <- <-. by apply (Hgoal t).
      * destruct gen as [pem'|]; [|done]. apply pbind_returned in Hf as (s2 & w & Hw & Hf). destruct w as [[]|]; [|done].
        injection Hf as <- <-. apply (Hgoal (sy_now sy)). by rewrite (write_ok _ _ _ _ _ Hw), lookup_insert_eq.
Qed.
End host_key_properties.

(** * The output is complete *)

Section pipes_properties.

(** What holds of one stream, before and after the command was waited for. *)
Record stream_ok (waited : bool) (x : stream) : Prop := {
  so_bytes : waited = false -> st_written x = st_sent x ++ st_buf x;
  so_prefix : st_sent x `prefix_of` st_written x;
  so_ended : st_copying x = false -> st_lost x = false -> st_writers x = false /\ st_sent x = st_written x;
}.

Definition running (s : pipes) (i : bool) : Z := if st_copying (ps_stream s i) then 1 else 0.
Definition is_waited (s : pipes) : bool := match ps_waited s with Some _ => true | None => false end.

(** What holds of every reachable state. *)
Record pipes_ok (s : pipes) : Prop := {
  po_stream i : stream_ok (is_waited s) (ps_stream s i);
  po_open : ps_openStreams s = running s false + running s true;
  po_done : ps_outputDone s = true <-> ps_openStreams s = 0;
  po_waited : is_waited s = true -> ps_outputDone s = true;
  po_exit : match ps_exit s with
            | [] => True
            | [code] => exists r, ps_waited s = Some r /\ code = match r with Some e => exitCode e | None => 0 end
            | _ => False
            end;
}.

Lemma pipes_start_ok : pipes_ok pipes_start.
Proof. by split. Qed.

Lemma with_stream_ok s i x :
  pipes_ok s -> stream_ok (is_waited s) x -> st_copying x = st_copying (ps_stream s i) -> pipes_ok (with_stream s i x).
Proof.
  intros [H1 H2 H3 H4 H5] Hx Hc. split; simpl; try done.
  - intros j. change (is_waited (with_stream s i x)) with (is_waited s). by destruct (Bool.eqb i j).
  - unfold running in *. simpl. destruct i; simpl; by rewrite Hc.
Qed.

Lemma copy_ends_ok s i lost :
  pipes_ok s -> st_copying (ps_stream s i) = true ->
  (lost = false -> st_buf (ps_stream s i) = [] /\ st_writers (ps_stream s i) = false) -> pipes_ok (copy_ends s i lost).
Proof.
  intros [H1 H2 H3 H4 H5] Hc Hl.
  assert (is_waited s = false) as Hnw.
  { destruct (is_waited s) eqn:E; [|done]. pose proof (proj1 H3 (H4 eq_refl)) as E'. rewrite E' in H2. unfold running in H2.
    destruct i; rewrite Hc in H2; [destruct (st_copying (ps_stream s false))|destruct (st_copying (ps_stream s true))]; lia. }
  assert (ps_openStreams s - 1 = running (copy_ends s i lost) false + running (copy_ends s i lost) true) as Ho.
  { rewrite H2. unfold running, copy_ends, closeOutput. simpl. destruct i; simpl; rewrite Hc; lia. }
  assert (ps_outputDone s = false) as Hd.
  { destruct (ps_outputDone s) eqn:E; [|done]. rewrite (proj1 H3 eq_refl) in Ho. unfold running in Ho.
    destruct (st_copying (ps_stream (copy_ends s i lost) false)), (st_copying (ps_stream (copy_ends s i lost) true)); lia. }
  split; try done.
  - intros j. change (is_waited (copy_ends s i lost)) with (is_waited s). rewrite Hnw. unfold copy_ends, closeOutput. simpl.
    destruct (Bool.eqb i j) eqn:Eij; [|specialize (H1 j); by rewrite Hnw in H1].
    specialize (H1 i). rewrite Hnw in H1. destruct H1 as [G1 G2 G3]. split; simpl; [done|done|].
    intros _ [-> _]%orb_false_iff. destruct (Hl eq_refl) as [Hb Hw]. split; [done|]. rewrite (G1 eq_refl), Hb. by rewrite app_nil_r.
  - unfold copy_ends, closeOutput. simpl. rewrite Hd. destruct (ps_openStreams s - 1 =? 0) eqn:E; bool_to_prop; naive_solver.
  - change (is_waited (copy_ends s i lost)) with (is_waited s). by rewrite Hnw.
Qed.

Lemma pipes_step_ok s s' : pipes_ok s -> pipes_step s s' -> pipes_ok s'.
Proof.
  intros Hok Hstep. destruct Hstep as [s i data x Hw|s i x|s i n x Hc|s i x Hc Hb Hw|s i Hc|s r Hd Hn|s r Hw He].
  - pose proof (po_stream _ Hok i) as [G1 G2 G3]. apply with_stream_ok; [done| |done]. split; simpl.
    + intros E. unfold x. by rewrite (G1 E), app_assoc.
    + by apply prefix_app_r.
    + intros Hc Hl. destruct (G3 Hc Hl) as [E _]. unfold x in Hw. congruence.
  - pose proof (po_stream _ Hok i) as [G1 G2 G3]. apply with_stream_ok; [done| |done]. split; simpl; [done|done|].
    intros Hc Hl. by destruct (G3 Hc Hl).
  - pose proof (po_stream _ Hok i) as [G1 G2 G3].
    assert (is_waited s = false) as Hnw.
    { destruct (is_waited s) eqn:E; [|done]. apply (po_waited _ Hok), (po_done _ Hok) in E. rewrite (po_open _ Hok) in E.
      unfold running in E. unfold x in Hc. destruct i; rewrite Hc in E;
        [destruct (st_copying (ps_stream s false))|destruct (st_copying (ps_stream s true))]; lia. }
    specialize (G1 Hnw). apply with_stream_ok; [done| |done]. rewrite Hnw. split; simpl; [|eexists|done].
    + intros _. unfold x. by rewrite <- app_assoc, take_drop.
    + unfold x. rewrite <- app_assoc, take_drop. exact G1.
  - apply copy_ends_ok; [done|done|]. by intros _.
  - by apply copy_ends_ok.
  - destruct Hok as [H1 H2 H3 H4 H5]. split; simpl; try done.
    + intros i. destruct (H1 i) as [G1 G2 G3]. by split; simpl.
    + destruct (ps_exit s) as [|c [|]]; [done| |done]. destruct H5 as (r' & E & _). congruence.
  - destruct Hok as [H1 H2 H3 H4 H5]. split; simpl; try done. rewrite He. simpl. by exists r.
Qed.

Lemma pipes_reachable_ok s : rtc pipes_step pipes_start s -> pipes_ok s.
Proof.
  intros H. assert (forall a, rtc pipes_step a s -> pipes_ok a -> pipes_ok s) as Hi.
  { intros a Ha. induction Ha as [|a b c Hab _ IH]; [done|]. intros Hok. by eapply IH, pipes_step_ok. }
  by apply (Hi pipes_start), pipes_start_ok.
Qed.

(** A goroutine whose command has hung up can end, and leaves the other as it is. *)
Lemma copier_can_end s i :
  st_writers (ps_stream s i) = false ->
  exists s', rtc pipes_step s s' /\ st_copying (ps_stream s' i) = false /\ st_writers (ps_stream s' i) = false /\
    ps_stream s' (negb i) = ps_stream s (negb i) /\ ps_waited s' = ps_waited s /\ ps_exit s' = ps_exit s.
Proof.
  intros Hw. destruct (st_copying (ps_stream s i)) eqn:Hc; [|by exists s].
  eset (s1 := with_stream s i _). assert (pipes_step s s1) as Hstep by exact (StepCopy s i (length (st_buf (ps_stream s i))) Hc).
  assert (ps_stream s1 i = Stream [] (st_sent (ps_stream s i) ++ st_buf (ps_stream s i)) (st_written (ps_stream s i)) false true
            (st_lost (ps_stream s i))) as Hs1.
  { unfold s1. simpl. rewrite Bool.eqb_reflx, Hw. by rewrite drop_all, firstn_all. }
  exists (copy_ends s1 i false). split_and!.
  - eapply rtc_l; [exact Hstep|]. apply rtc_once. apply StepEOF; by rewrite Hs1.
  - unfold copy_ends, closeOutput. simpl. by rewrite Bool.eqb_reflx.
  - unfold copy_ends, closeOutput. simpl. by rewrite !Bool.eqb_reflx.
  - by destruct i.
  - done.
  - done.
Qed.

Lemma pipes_can_end s r :
  pipes_ok s -> (forall i, st_writers (ps_stream s i) = false) -> ps_waited s = None \/ ps_waited s = Some r ->
  exists s', rtc pipes_step s s' /\ ps_exit s' = [match r with Some e => exitCode e | None => 0 end].
Proof.
  intros Hok Hw Hwait.
  destruct (copier_can_end s false (Hw false)) as (s1 & R1 & C1 & W1 & O1 & E1 & X1). cbn [negb] in O1.
  destruct (copier_can_end s1 true) as (s2 & R2 & C2 & W2 & O2 & E2 & X2); [rewrite O1; apply Hw|]. cbn [negb] in O2.
  assert (pipes_ok s2) as Hok2.
  { assert (forall a b, rtc pipes_step a b -> pipes_ok a -> pipes_ok b) as Hi by
      (intros a b Ha; induction Ha as [|a b c Hab _ IH]; [done|]; intros Ho; by eapply IH, pipes_step_ok).
    by eapply Hi, Hi. }
  assert (ps_outputDone s2 = true) as Hd.
  { apply (po_done _ Hok2). rewrite (po_open _ Hok2). unfold running. by rewrite O2, C1, C2. }
  assert (exists s3, rtc pipes_step s2 s3 /\ ps_waited s3 = Some r /\ ps_exit s3 = ps_exit s2) as (s3 & R3 & W3 & X3).
  { destruct Hwait as [Hn|Hs]; [|exists s2; split_and!; [done|congruence|done]].
    exists (pipes_wait s2 r). split_and!; [|done|done]. apply rtc_once, StepWait; [done|congruence]. }
  assert (pipes_ok s3) as Hok3.
  { clear -R3 Hok2. induction R3 as [|a b c Hab _ IH]; [done|]. by eapply IH, pipes_step_ok. }
  destruct (ps_exit s3) as [|code rest] eqn:Hx3.
  - exists (pipes_exit s3 r). split; [|simpl; by rewrite Hx3].
    etrans; [exact R1|]. etrans; [exact R2|]. etrans; [exact R3|]. by apply rtc_once, StepExit.
  - exists s3. split; [by do 2 (etrans; [eassumption|])|].
    pose proof (po_exit _ Hok3) as Hx. rewrite Hx3 in Hx |- *. destruct rest; [|done]. destruct Hx as (r' & Hr' & ->). rewrite W3 in Hr'. by injection Hr' as ->.
Qed.

(** C36: a session ends after its output.  However the command, the two copying
    goroutines and the handler interleave, the exit code is sent once, it is the one that
    Wait gave, and by then every byte that the command wrote to either stream was sent in
    order, unless sending to the session itself failed.  And a session whose command has
    closed its output can always end. *)
Theorem output_precedes_exit s :
  rtc pipes_step pipes_start s ->
  (forall i, st_sent (ps_stream s i) `prefix_of` st_written (ps_stream s i)) /\
  (forall code rest, ps_exit s = code :: rest ->
     rest = [] /\ (exists r, ps_waited s = Some r /\ code = match r with Some e => exitCode e | None => 0 end) /\
     forall i, st_lost (ps_stream s i) = false ->
       st_writers (ps_stream s i) = false /\ st_sent (ps_stream s i) = st_written (ps_stream s i)) /\
  ((forall i, st_writers (ps_stream s i) = false) -> forall r, ps_waited s = None \/ ps_waited s = Some r ->
     exists s', rtc pipes_step s s' /\ ps_exit s' = [match r with Some e => exitCode e | None => 0 end]).
Proof.
  intros Hr. pose proof (pipes_reachable_ok s Hr) as Hok. split_and!.
  - intros i. apply (po_stream _ Hok).
  - intros code rest He. pose proof (po_exit _ Hok) as Hx. rewrite He in Hx. destruct rest as [|c rest]; [|done].
    split_and!; [done|done|]. destruct Hx as (r & Hw & _).
    assert (is_waited s = true) as Hisw by (unfold is_waited; by rewrite Hw).
    apply (po_waited _ Hok), (po_done _ Hok) in Hisw. rewrite (po_open _ Hok) in Hisw. unfold running in Hisw.
    intros i Hl. apply (po_stream _ Hok i); [|done].
    destruct i, (st_copying (ps_stream s false)), (st_copying (ps_stream s true)); (done || lia).
  - intros Hw r Hwait. by apply pipes_can_end.
Qed.
End pipes_properties.

(** A key that was written only in part is an error for the connection that wrote it, and
    stays; no later connection is served then, whatever is generated. *)
Lemma torn_host_key_stays sy dir pem n e s :
  let path := Path.Join [dir; B "ssh_host_ed25519_key"] in
  sy_write sy path = Some (Some n, e) -> sy_fail sy FRead path = None -> pr_disk s !! path = None ->
  hostKeyFileOrCreate sy dir (Ok pem) s =
    (Proc (<[path := File (take n pem) (sy_now sy)]> (pr_disk s)) (pr_out s), Returned (Err e)).
Proof.
  intros path Hw Hf Hn. unfold hostKeyFileOrCreate. fold path. unfold os_ReadFile, os_WriteFile, pbind, get_disk, set_disk, pret.
  by rewrite Hf, Hn, Hw.
Qed.

Lemma torn_host_key_closes_connections signer ParsePrivateKey sy confDir gen shell files b m e t :
  sy_UserConfigDir sy = Ok confDir -> sy_fail sy FRead (host_key_path confDir) <> Some OSErrNotExist ->
  pr_disk t !! host_key_path confDir = Some (File b m) -> ParsePrivateKey b = Err e ->
  forall keys sh subs, (SSHConnHandler sy signer ParsePrivateKey shell files gen t).2 <> Returned (SSHServed keys sh subs).
Proof.
  intros Hc Hne Ht Hp keys sh subs H. unfold SSHConnHandler, pbind in H.
  destruct (getHostKeys sy signer ParsePrivateKey gen t) as [t' r'] eqn:Hg.
  pose proof (host_key_is_stable signer ParsePrivateKey sy confDir gen t t' r' Hc Hne Hg) as Hst. rewrite Ht in Hst.
  destruct Hst as [_ Hst]. destruct r' as [[ks|e0]|e0|c|]; [|discriminate..].
  destruct (Hst ks eq_refl) as (b0 & t0 & k & [= <- <-] & Hpk & _). congruence.
Qed.

(** * Witnesses *)

Definition ex_user : user := User (B "1000") (B "ada") (B "/home/ada").
Definition ex_session : session_request :=
  SessionRequest (B "id") [B "PATH=/tmp"; B "LC_ALL=C"; B "LD_PRELOAD=x"] (Some (B "xterm")).

Lemma session_environment_is_the_servers_witness :
  match may_start (sessionHandler (newSessionCommand (B "/bin/sh")) (Ok ex_user) ex_session) with
  | cmd :: _ =>
      cmd_Args cmd = [B "/bin/sh"; B "-c"; B "id"] /\ Environ_lookup (cmd_Env cmd) (B "PATH") = Some (B "/usr/local/bin:/usr/bin:/bin") /\
      Environ_lookup (cmd_Env cmd) (B "LD_PRELOAD") = None /\ Environ_lookup (cmd_Env cmd) (B "TERM") = Some (B "xterm")
  | _ => False
  end.
Proof.
  destruct (may_start (sessionHandler (newSessionCommand (B "/bin/sh")) (Ok ex_user) ex_session)) as [|cmd l] eqn:H; [discriminate|].
  assert (Environ_lookup (cmd_Env cmd) (B "TERM") = Some (B "xterm")) as Ht by (injection H as <- _; vm_reflexivity).
  destruct (session_environment_is_the_servers (newSessionCommand (B "/bin/sh")) ex_user ex_session cmd) as (Ha & _ & Hl & _);
    [rewrite H; apply list_elem_of_here|].
  split; [exact Ha|]. rewrite !Hl by reflexivity. split; [vm_reflexivity|]. split; [vm_reflexivity|exact Ht].
Defined.

Definition ex_ssh_system : system := System 0 (Ok (B "/c")) (Ok (B "/c")) (fun _ _ => None) (fun _ => None).
Definition ex_keys (gen : list byte) (s : proc) : proc * ending (result (list (list byte))) :=
  getHostKeys ex_ssh_system (list byte) Ok (Ok gen) s.

(** A second connection presents the first one's key. *)
Lemma host_key_is_stable_witness :
  let s1 := (ex_keys (B "first") (Proc ∅ [])).1 in
  forall keys, (ex_keys (B "second") s1).2 = Returned (Ok keys) -> keys = [B "first"].
Proof.
  intros s1 keys H. destruct (ex_keys (B "second") s1) as [s2 r] eqn:Hr. cbn [snd] in H.
  assert (pr_disk s1 !! host_key_path (B "/c") = Some (File (B "first") 0)) as Hf by vm_reflexivity.
  pose proof (host_key_is_stable (list byte) Ok ex_ssh_system (B "/c") (Ok (B "second")) s1 s2 r eq_refl ltac:(discriminate) Hr) as Hst.
  rewrite Hf in Hst. destruct Hst as [_ Hst]. destruct (Hst keys H) as (b & t & k & [= <- <-] & [= <-] & ->). reflexivity.
Defined.

(** A command that prints one byte and hangs up. *)
Lemma output_precedes_exit_witness :
  exists s, rtc pipes_step pipes_start s /\ ps_exit s = [0] /\ st_sent (ps_stream s false) = [x61].
Proof.
  pose (s1 := with_stream pipes_start false (Stream [x61] [] [x61] true true false)).
  pose (s2 := with_stream s1 false (Stream [x61] [] [x61] false true false)).
  pose (s3 := with_stream s2 true (Stream [] [] [] false true false)).
  assert (rtc pipes_step pipes_start s3) as Hr.
  { apply (rtc_l _ _ s1); [exact (StepWrite pipes_start false [x61] eq_refl)|].
    apply (rtc_l _ _ s2); [exact (StepHangup s1 false)|]. apply rtc_once. exact (StepHangup s2 true). }
  pose (s4 := with_stream s3 false (Stream [] [x61] [x61] false true false)).
  assert (rtc pipes_step pipes_start (copy_ends (copy_ends s4 false false) true false)) as Hr5.
  { eapply rtc_r; [eapply rtc_r; [eapply rtc_r; [exact Hr|exact (StepCopy s3 false 1 eq_refl)]|]|].
    - exact (StepEOF s4 false eq_refl eq_refl eq_refl).
    - exact (StepEOF (copy_ends s4 false false) true eq_refl eq_refl eq_refl). }
  set (s5 := copy_ends (copy_ends s4 false false) true false) in *.
  assert (rtc pipes_step pipes_start (pipes_exit (pipes_wait s5 None) None)) as Hr7.
  { eapply rtc_r; [eapply rtc_r; [exact Hr5|exact (StepWait s5 None eq_refl eq_refl)]|].
    exact (StepExit (pipes_wait s5 None) None eq_refl eq_refl). }
  destruct (proj1 (proj2 (output_precedes_exit _ Hr7)) 0 [] eq_refl) as (_ & _ & Hall).
  exists (pipes_exit (pipes_wait s5 None) None). split; [exact Hr7|]. split; [reflexivity|].
  destruct (Hall false eq_refl) as [_ E]. exact E.
Defined.
