(* ===== verification/Console.v ===== *)
(** Console: the terminal of an SSH session.

    Models [runWithPTY] of src/tailcat_ssh_unix.go with its terminal modes, and
    src/tailcat_ssh_windows.go: the pseudoconsole from its creation with every failure to
    its release, with resizes interleaved, and the environment block.  The system calls'
    answers are arguments; what is open and what was called is recorded. *)

From S2P Require Import Prelude GoStd Session.
From Stdlib Require Import Strings.Byte.

(** * Terminal modes *)

(** What the program sets of u-root's [termios.Termios]. *)
Record termios : Type := Termios {
  ti_Row : Z;
  ti_Col : Z;
  ti_Ispeed : Z;
  ti_Ospeed : Z;
  ti_CC : gmap gostring Z;
  ti_Opts : gmap gostring bool;
}.

Definition TTY_OP_ISPEED : Z := 128.
Definition TTY_OP_OSPEED : Z := 129.

(** The opcodes of RFC 4254, section 8, under golang.org/x/crypto/ssh's names:
    src/tailcat_ssh_unix.go:175-232 [opcodeShortName] *)
Definition opcode_names : list (Z * gostring) :=
  [(1, B "intr"); (2, B "quit"); (3, B "erase"); (4, B "kill"); (5, B "eof"); (6, B "eol"); (7, B "eol2"); (8, B "start");
   (9, B "stop"); (10, B "susp"); (11, B "dsusp"); (12, B "rprnt"); (13, B "werase"); (14, B "lnext"); (15, B "flush");
   (16, B "swtch"); (17, B "status"); (18, B "discard"); (30, B "ignpar"); (31, B "parmrk"); (32, B "inpck");
   (33, B "istrip"); (34, B "inlcr"); (35, B "igncr"); (36, B "icrnl"); (37, B "iuclc"); (38, B "ixon"); (39, B "ixany");
   (40, B "ixoff"); (41, B "imaxbel"); (42, B "iutf8"); (50, B "isig"); (51, B "icanon"); (52, B "xcase"); (53, B "echo");
   (54, B "echoe"); (55, B "echok"); (56, B "echonl"); (57, B "noflsh"); (58, B "tostop"); (59, B "iexten");
   (60, B "echoctl"); (61, B "echoke"); (62, B "pendin"); (70, B "opost"); (71, B "olcuc"); (72, B "onlcr");
   (73, B "ocrnl"); (74, B "onocr"); (75, B "onlret"); (90, B "cs7"); (91, B "cs8"); (92, B "parenb"); (93, B "parodd");
   (TTY_OP_ISPEED, B "tty_op_ispeed"); (TTY_OP_OSPEED, B "tty_op_ospeed")].
(** src/tailcat_ssh_unix.go:175-232 [opcodeShortName] *)
Definition opcodeShortName : gmap Z gostring := list_to_map opcode_names.

(** src/tailcat_ssh_unix.go:71-92 [runWithPTY], one mode *)
Definition apply_mode (t : termios) (m : Z * Z) : termios :=
  let '(c, v) := m in
  if c =? TTY_OP_ISPEED then Termios (ti_Row t) (ti_Col t) v (ti_Ospeed t) (ti_CC t) (ti_Opts t)
  else if c =? TTY_OP_OSPEED then Termios (ti_Row t) (ti_Col t) (ti_Ispeed t) v (ti_CC t) (ti_Opts t)
  else
    match opcodeShortName !! c with
    | None => t
    | Some k =>
        match ti_CC t !! k with
        | Some _ => Termios (ti_Row t) (ti_Col t) (ti_Ispeed t) (ti_Ospeed t) (<[k := u8 v]> (ti_CC t)) (ti_Opts t)
        | None =>
            match ti_Opts t !! k with
            | Some _ => Termios (ti_Row t) (ti_Col t) (ti_Ispeed t) (ti_Ospeed t) (ti_CC t) (<[k := 0 <? v]> (ti_Opts t))
            | None => t
            end
        end
    end.

(** src/tailcat_ssh_unix.go:65-92 [runWithPTY]: the window and the modes, in the order in
    which Go ranges over them *)
Definition set_terminal (t : termios) (height width : Z) (modes : list (Z * Z)) : termios :=
  foldl apply_mode (Termios height width (ti_Ispeed t) (ti_Ospeed t) (ti_CC t) (ti_Opts t)) modes.

(** * A session with a terminal on Unix *)

Inductive fd : Type := FdPtmx | FdTty | FdWinch.
#[global] Instance fd_eq_dec : EqDecision fd.
Proof. solve_decision. Defined.

Inductive pty_event : Type :=
  | PtyOpened
  | PtyModes (t : termios)
  | PtyStart (cmd : command)
  | PtyDup
  | PtyCopy
  | PtyExit (code : Z)
  | PtyClose (f : fd).

(** The answers: [pty.Open], the modes that are read ([None] when they cannot be), the
    start, [unix.Dup], and [cmd.Wait]. *)
Record pty_env : Type := PtyEnv {
  pe_open : option gerror;
  pe_termios : option termios;
  pe_start : option gerror;
  pe_dup : option gerror;
  pe_wait : option wait_error;
}.

(** src/tailcat_ssh_unix.go:52-146 [runWithPTY]; the winch descriptor is closed by its own
    goroutine when the session's channel ends *)
Definition runWithPTY (env : pty_env) (cmd : command) (term : gostring) (height width : Z) (modes : list (Z * Z))
    : list pty_event :=
  match pe_open env with
  | Some _ => [PtyExit 1]
  | None =>
      let deferred := [PtyClose FdTty; PtyClose FdPtmx] in
      let set := match pe_termios env with Some t => [PtyModes (set_terminal t height width modes)] | None => [] end in
      let start := PtyStart (pty_command cmd term) in
      match pe_start env with
      | Some _ => [PtyOpened] ++ set ++ [start; PtyExit 1] ++ deferred
      | None =>
          [PtyOpened] ++ set ++ [start; PtyClose FdTty] ++
          (match pe_dup env with None => [PtyDup] | Some _ => [] end) ++
          [PtyCopy; PtyExit (match pe_wait env with Some e => exitCode e | None => 0 end)] ++ deferred
      end
  end.

(** Which descriptors are open after some events; closing twice is closing once, as for an
    [os.File]. *)
Definition fds_step (open : list fd) (e : pty_event) : list fd :=
  match e with
  | PtyOpened => FdPtmx :: FdTty :: open
  | PtyDup => FdWinch :: open
  | PtyClose f => List.filter (fun g => negb (bool_decide (g = f))) open
  | _ => open
  end.
Definition fds_after (es : list pty_event) : list fd := foldl fds_step [] es.
Definition exits (es : list pty_event) : list Z := omap (fun e => match e with PtyExit c => Some c | _ => None end) es.

(** * The pseudoconsole of Windows *)

Inductive handle : Type := HInRead | HInWrite | HOutRead | HOutWrite | HConsole | HAttrs | HThread | HProcess.
#[global] Instance handle_eq_dec : EqDecision handle.
Proof. solve_decision. Defined.
(** The answers of the calls in order; [None] is success. *)
Record conpty_env : Type := ConptyEnv {
  we_pipe_in : option gerror;
  we_pipe_out : option gerror;
  we_create : option gerror;
  we_attrs : option gerror;
  we_update : option gerror;
  we_cmdline : option gerror;
  we_dir : option gerror;
  we_env : option gerror;
  we_process : option gerror;
}.

(** src/tailcat_ssh_windows.go:176-183 [startConPTY] *)
Definition console_size (width height : Z) : Z * Z :=
  (if width <=? 0 then 80 else width, if height <=? 0 then 24 else height).
Definition int16 (z : Z) : Z := (z + 2 ^ 15) mod 2 ^ 16 - 2 ^ 15.

Definition hopen (hs : list handle) (l : list handle) : list handle := hs ++ l.
Definition hclose (hs : list handle) (l : list handle) : list handle := List.filter (fun g => negb (bool_decide (g ∈ hs))) l.

(** src/tailcat_ssh_windows.go:175-273 [startConPTY]: the handles that are open on return,
    and the error *)
Definition startConPTY (env : conpty_env) (dir : gostring) : list handle * option gerror :=
  match we_pipe_in env with
  | Some e => ([], Some e)
  | None =>
      let l := hopen [HInRead; HInWrite] [] in
      match we_pipe_out env with
      | Some e => (hclose [HInRead; HInWrite] l, Some e)
      | None =>
          let l := hopen [HOutRead; HOutWrite] l in
          let created := match we_create env with None => hopen [HConsole] l | Some _ => l end in
          let l := hclose [HInRead; HOutWrite] created in
          match we_create env with
          | Some e => (hclose [HInWrite; HOutRead] l, Some (ErrWrap "CreatePseudoConsole: %w" e))
          | None =>
              let cleanup l e := (hclose [HConsole; HInWrite; HOutRead] l, Some e) in
              match we_attrs env with
              | Some e => cleanup l e
              | None =>
                  let l := hopen [HAttrs] l in
                  let fail e := let '(l, r) := cleanup l e in (hclose [HAttrs] l, r) in
                  match we_update env, we_cmdline env with
                  | Some e, _ => fail e
                  | None, Some e => fail e
                  | None, None =>
                      match (if bool_decide (dir = []) then None else we_dir env), we_env env with
                      | Some e, _ => fail e
                      | None, Some e => fail e
                      | None, None =>
                          match we_process env with
                          | Some e => fail (ErrWrap "CreateProcess: %w" e)
                          | None => (hclose [HAttrs] (hclose [HThread] (hopen [HProcess; HThread] l)), None)
                          end
                      end
                  end
              end
          end
      end
  end.

(** Calls on the pseudoconsole. *)
Inductive console_call : Type := ResizePseudoConsole (w h : Z) | ClosePseudoConsole.

(** Where [runWithPTY] is. *)
Inductive pty_pc : Type := PcWait | PcWaited (code : result Z) | PcConsoleClosed (code : result Z) | PcExited | PcReleased.

(** src/tailcat_ssh_windows.go:161-169 [conPTY], with what was called and sent *)
Record conPTY : Type := ConPTY {
  cp_handles : list handle;
  cp_closed : bool;
  cp_calls : list console_call;
  cp_outDone : bool;
  cp_pc : pty_pc;
  cp_exit : list Z;
}.

(** src/tailcat_ssh_windows.go:267-272 [startConPTY], as [runWithPTY] has it *)
Definition conpty_started : conPTY := ConPTY [HProcess; HConsole; HOutRead; HInWrite] false [] false PcWait [].

(** How a session with a terminal begins on Windows. *)
Inductive console_begin : Type :=
  | BeginPipes (cmd : command)
  | BeginExit (code : Z)
  | BeginConsole (cmd : command) (c : conPTY).
(** src/tailcat_ssh_windows.go:105-122 [runWithPTY] *)
Definition runWithPTY_begins (available : bool) (env : conpty_env) (cmd : command) (term : gostring) : console_begin :=
  if negb available then BeginPipes cmd
  else
    let cmd := pty_command cmd term in
    match startConPTY env (cmd_Dir cmd) with
    | (_, Some _) => BeginExit 1
    | (l, None) => BeginConsole cmd (ConPTY l false [] false PcWait [])
    end.

(** src/tailcat_ssh_windows.go:296-303 [conPTY.Resize] *)
Definition conpty_Resize (c : conPTY) (width height : Z) : conPTY :=
  if cp_closed c then c
  else ConPTY (cp_handles c) false (cp_calls c ++ [ResizePseudoConsole (int16 width) (int16 height)]) (cp_outDone c) (cp_pc c) (cp_exit c).

(** src/tailcat_ssh_windows.go:320-327 [conPTY.CloseConsole] *)
Definition conpty_CloseConsole (c : conPTY) : conPTY :=
  if cp_closed c then c
  else ConPTY (hclose [HConsole] (cp_handles c)) true (cp_calls c ++ [ClosePseudoConsole]) (cp_outDone c) (cp_pc c) (cp_exit c).

(** src/tailcat_ssh_windows.go:331-336 [conPTY.Close] *)
Definition conpty_Close (c : conPTY) : conPTY :=
  let c := conpty_CloseConsole c in
  ConPTY (hclose [HInWrite; HOutRead; HProcess] (cp_handles c)) (cp_closed c) (cp_calls c) (cp_outDone c) (cp_pc c) (cp_exit c).

Definition at_pc (c : conPTY) (pc : pty_pc) : conPTY :=
  ConPTY (cp_handles c) (cp_closed c) (cp_calls c) (cp_outDone c) pc (cp_exit c).

(** src/tailcat_ssh_windows.go:105-158 [runWithPTY], once the console runs: the handler, the
    goroutine that resizes and the one that drains the output *)
Inductive conpty_step : conPTY -> conPTY -> Prop :=
  | ConResize c w h : conpty_step c (conpty_Resize c w h)
  | ConWait c r : cp_pc c = PcWait -> conpty_step c (at_pc c (PcWaited r))
  | ConCloseConsole c r :
      cp_pc c = PcWaited r -> conpty_step c (at_pc (conpty_CloseConsole c) (PcConsoleClosed r))
  | ConOutDone c :
      conpty_step c (ConPTY (cp_handles c) (cp_closed c) (cp_calls c) true (cp_pc c) (cp_exit c))
  | ConExit c r :
      cp_pc c = PcConsoleClosed r -> cp_outDone c = true ->
      conpty_step c (ConPTY (cp_handles c) (cp_closed c) (cp_calls c) true PcExited
                       (cp_exit c ++ [match r with Ok code => code | Err _ => 1 end]))
  | ConRelease c : cp_pc c = PcExited -> conpty_step c (at_pc (conpty_Close c) PcReleased).

(** * The environment block *)

(** [strings.ToUpper]; the keys of an environment are ASCII here *)
Definition ToUpper (s : gostring) : gostring := Strings.upper <$> s.

(** src/tailcat_ssh_windows.go:347-351 [envBlock], the key of an entry *)
Definition block_key (kv : gostring) : option gostring :=
  match Strings.CutByte kv "="%byte with (k, _, true) => Some (ToUpper k) | _ => None end.

(** src/tailcat_ssh_windows.go:346-358 [envBlock], one entry *)
Definition block_step (acc : gmap gostring nat * list gostring) (kv : gostring) : gmap gostring nat * list gostring :=
  let '(seen, l) := acc in
  match block_key kv with
  | None => acc
  | Some uk =>
      match seen !! uk with
      | Some i => (seen, <[i := kv]> l)
      | None => (<[uk := length l]> seen, l ++ [kv])
      end
  end.
Definition block_entries (env : list gostring) : list gostring := (foldl block_step (∅, []) env).2.

Section block.
(** [windows.UTF16FromString], NUL-terminated *)
Context (UTF16FromString : gostring -> result (list Z)).

(** src/tailcat_ssh_windows.go:359-368 [envBlock] *)
Fixpoint block_units (l : list gostring) : result (list Z) :=
  match l with
  | [] => Ok [0]
  | kv :: l => let? u := UTF16FromString kv in let? rest := block_units l in Ok (u ++ rest)
  end.

(** src/tailcat_ssh_windows.go:343-369 [envBlock] *)
Definition envBlock (env : list gostring) : result (list Z) := block_units (block_entries env).
End block.

(** * Properties *)

Section terminal.

Lemma opcode_names_nodup : NoDup (snd <$> opcode_names).
Proof. by_evaluation. Qed.
Lemma list_to_map_inj (l : list (Z * gostring)) c d k :
  NoDup l.*2 -> (list_to_map l : gmap Z gostring) !! c = Some k -> (list_to_map l : gmap Z gostring) !! d = Some k -> c = d.
Proof.
  intros Hn Hc%elem_of_list_to_map_2 Hd%elem_of_list_to_map_2.
  apply list_elem_of_lookup in Hc as [i Hi]. apply list_elem_of_lookup in Hd as [j Hj].
  assert (i = j) as ->; [|congruence].
  apply (NoDup_lookup l.*2 i j k Hn); rewrite list_lookup_fmap; [by rewrite Hi|by rewrite Hj].
Qed.
Lemma opcodeShortName_inj c d k : opcodeShortName !! c = Some k -> opcodeShortName !! d = Some k -> c = d.
Proof. apply list_to_map_inj, opcode_names_nodup. Qed.
#[local] Opaque opcodeShortName.

(** The flag or character that an opcode sets. *)
Definition mode_name (c : Z) : option gostring :=
  if (c =? TTY_OP_ISPEED) || (c =? TTY_OP_OSPEED) then None else opcodeShortName !! c.

Lemma mode_name_inj c d k : mode_name c = Some k -> mode_name d = Some k -> c = d.
Proof. unfold mode_name. destruct (_ || _); [done|]. destruct (_ || _); [done|]. apply opcodeShortName_inj. Qed.

Lemma apply_mode_CC t c v k :
  ti_CC (apply_mode t (c, v)) !! k =
  if bool_decide (mode_name c = Some k) then (fun _ => u8 v) <$> ti_CC t !! k else ti_CC t !! k.
Proof.
  unfold apply_mode, mode_name. destruct (c =? TTY_OP_ISPEED); [done|]. destruct (c =? TTY_OP_OSPEED); [done|]. cbn [orb].
  destruct (opcodeShortName !! c) as [k'|]; [|done].
  destruct (ti_CC t !! k') as [x|] eqn:Hk'; [|destruct (ti_Opts t !! k')]; simpl;
    (destruct (decide (k' = k)) as [->|Hne]; [rewrite bool_decide_eq_true_2 by done|rewrite bool_decide_eq_false_2 by congruence]).
  all: rewrite ?Hk', ?lookup_insert_eq, ?lookup_insert_ne by done; done.
Qed.

Lemma apply_mode_Opts t c v k :
  ti_Opts (apply_mode t (c, v)) !! k =
  if bool_decide (mode_name c = Some k /\ ti_CC t !! k = None) then (fun _ => 0 <? v) <$> ti_Opts t !! k else ti_Opts t !! k.
Proof.
  unfold apply_mode, mode_name. destruct (c =? TTY_OP_ISPEED); [by rewrite bool_decide_eq_false_2 by naive_solver|].
  destruct (c =? TTY_OP_OSPEED); [by rewrite bool_decide_eq_false_2 by naive_solver|]. cbn [orb].
  destruct (opcodeShortName !! c) as [k'|]; [|by rewrite bool_decide_eq_false_2 by naive_solver].
  destruct (decide (k' = k)) as [->|Hne].
  - destruct (ti_CC t !! k) as [x|] eqn:Hk; simpl; [by rewrite bool_decide_eq_false_2 by naive_solver|].
    rewrite bool_decide_eq_true_2 by done. destruct (ti_Opts t !! k) as [y|] eqn:Ho; simpl; [by rewrite lookup_insert_eq|by rewrite Ho].
  - rewrite bool_decide_eq_false_2 by naive_solver.
    destruct (ti_CC t !! k'); simpl; [done|]. destruct (ti_Opts t !! k'); simpl; [by rewrite lookup_insert_ne|done].
Qed.

(** The value that a list of modes gives a name: there is at most one. *)
Definition mode_value (modes : list (Z * Z)) (k : gostring) : option Z :=
  head (omap (fun m => if bool_decide (mode_name m.1 = Some k) then Some m.2 else None) modes).

Lemma mode_value_none modes c v k :
  NoDup (c :: modes.*1) -> mode_name c = Some k -> mode_value modes k = None /\ mode_value ((c, v) :: modes) k = Some v.
Proof.
  intros [Hc _]%NoDup_cons Hk. unfold mode_value. split; [|simpl; by rewrite bool_decide_eq_true_2].
  induction modes as [|[d w] modes IH]; [done|]. simpl in *. rewrite bool_decide_eq_false_2.
  - apply IH. set_solver.
  - intros Hd. apply Hc. rewrite (mode_name_inj _ _ _ Hk Hd). by left.
Qed.
Lemma mode_value_other modes c v k : mode_name c <> Some k -> mode_value ((c, v) :: modes) k = mode_value modes k.
Proof. intros Hk. unfold mode_value. simpl. by rewrite bool_decide_eq_false_2. Qed.

Lemma modes_CC modes t k :
  NoDup modes.*1 ->
  ti_CC (foldl apply_mode t modes) !! k = (fun x => from_option u8 x (mode_value modes k)) <$> ti_CC t !! k.
Proof.
  revert t. induction modes as [|[c v] modes IH]; intros t Hn; cbn [foldl]; [by destruct (ti_CC t !! k)|].
  rewrite IH by (by apply NoDup_cons in Hn as [_ ?]). rewrite apply_mode_CC. case_bool_decide as Hk.
  - destruct (mode_value_none modes c v k Hn Hk) as [-> ->]. by destruct (ti_CC t !! k).
  - by rewrite mode_value_other.
Qed.
Lemma apply_mode_CC_none t m k : ti_CC (apply_mode t m) !! k = None <-> ti_CC t !! k = None.
Proof. destruct m as [c v]. rewrite apply_mode_CC. destruct (bool_decide _); [|done]. by destruct (ti_CC t !! k). Qed.

Lemma modes_Opts modes t k :
  NoDup modes.*1 ->
  ti_Opts (foldl apply_mode t modes) !! k =
  match ti_CC t !! k with
  | Some _ => ti_Opts t !! k
  | None => (fun x => from_option (fun v => 0 <? v) x (mode_value modes k)) <$> ti_Opts t !! k
  end.
Proof.
  revert t. induction modes as [|[c v] modes IH]; intros t Hn; cbn [foldl].
  { by destruct (ti_CC t !! k), (ti_Opts t !! k). }
  rewrite IH by (by apply NoDup_cons in Hn as [_ ?]). rewrite apply_mode_Opts.
  pose proof (apply_mode_CC_none t (c, v) k) as Hcc.
  destruct (ti_CC t !! k) as [x|] eqn:Ek.
  - destruct (ti_CC (apply_mode t (c, v)) !! k); [by rewrite bool_decide_eq_false_2 by naive_solver|]. by destruct Hcc as [Hcc _]; specialize (Hcc eq_refl).
  - rewrite (proj2 Hcc eq_refl). case_bool_decide as Hk.
    + destruct Hk as [Hk _]. destruct (mode_value_none modes c v k Hn Hk) as [-> ->]. by destruct (ti_Opts t !! k).
    + rewrite mode_value_other by tauto. done.
Qed.

(** The speeds. *)
Definition speed_value (modes : list (Z * Z)) (op : Z) : option Z := head (omap (fun m => if m.1 =? op then Some m.2 else None) modes).
Lemma modes_rest modes t :
  NoDup modes.*1 ->
  let r := foldl apply_mode t modes in
  ti_Row r = ti_Row t /\ ti_Col r = ti_Col t /\
  ti_Ispeed r = default (ti_Ispeed t) (speed_value modes TTY_OP_ISPEED) /\
  ti_Ospeed r = default (ti_Ospeed t) (speed_value modes TTY_OP_OSPEED).
Proof.
  revert t. induction modes as [|[c v] modes IH]; intros t Hn; [done|]. apply NoDup_cons in Hn as [Hc Hn].
  destruct (IH (apply_mode t (c, v)) Hn) as (I1 & I2 & I3 & I4). cbn [foldl]. rewrite I1, I2, I3, I4.
  assert (forall op, c = op -> speed_value modes op = None) as Hnone.
  { intros op <-. unfold speed_value. clear -Hc. induction modes as [|[d w] modes IH]; [done|]. simpl in *.
    destruct (d =? c) eqn:E; bool_to_prop; [subst; set_solver|]. apply IH. set_solver. }
  unfold apply_mode, speed_value at 2 4. cbn [omap list_omap fst snd].
  destruct (c =? TTY_OP_ISPEED) eqn:E1; bool_to_prop; [|destruct (c =? TTY_OP_OSPEED) eqn:E2; bool_to_prop].
  - rewrite (Hnone _ E1). subst c. by split_and!.
  - rewrite (Hnone _ E2). by split_and!.
  - fold (speed_value modes TTY_OP_ISPEED). fold (speed_value modes TTY_OP_OSPEED).
    destruct (opcodeShortName !! c) as [k|]; [|done]. destruct (ti_CC t !! k); [done|]. by destruct (ti_Opts t !! k).
Qed.

Lemma termios_eq a b :
  ti_Row a = ti_Row b -> ti_Col a = ti_Col b -> ti_Ispeed a = ti_Ispeed b -> ti_Ospeed a = ti_Ospeed b ->
  (forall k, ti_CC a !! k = ti_CC b !! k) -> (forall k, ti_Opts a !! k = ti_Opts b !! k) -> a = b.
Proof.
  destruct a, b. simpl. intros -> -> -> -> H1 H2. f_equal; by apply map_eq.
Qed.

Lemma head_omap_perm {A B : Type} (f : A -> option B) (l k : list A) :
  l ≡ₚ k -> (length (omap f l) <= 1)%nat -> head (omap f l) = head (omap f k).
Proof.
  intros Hp Hl. assert (omap f l ≡ₚ omap f k) as Ho by by rewrite Hp.
  destruct (omap f l) as [|x [|]]; [by apply Permutation_nil in Ho as ->| |simpl in Hl; lia].
  by apply Permutation_singleton_l in Ho as ->.
Qed.

Lemma omap_unique {B : Type} (f : Z * Z -> option B) (modes : list (Z * Z)) :
  (forall m m', is_Some (f m) -> is_Some (f m') -> m.1 = m'.1) -> NoDup modes.*1 -> (length (omap f modes) <= 1)%nat.
Proof.
  intros Hf. induction modes as [|m modes IH]; intros Hn; [simpl; lia|]. apply NoDup_cons in Hn as [Hm Hn].
  cbn [omap list_omap]. destruct (f m) as [b|] eqn:Eb; [|by apply IH].
  assert (omap f modes = []) as ->; [|simpl; lia]. clear IH Hn. induction modes as [|m' modes IH]; [done|]. simpl in *.
  destruct (f m') as [b'|] eqn:Eb'; [exfalso|apply IH; set_solver].
  apply Hm. rewrite (Hf m m'); [by left|by eexists|by eexists].
Qed.

(** the terminal is what the client asked for, whatever order Go ranges over its
    modes in.  The window and the speeds are the requested ones; every control character
    and every flag that a mode names has that mode's value (a character as a byte, a flag as
    being positive), every other one is as it was, and none appears or disappears. *)
Theorem terminal_modes_applied t height width modes modes' :
  NoDup modes.*1 -> modes ≡ₚ modes' ->
  let r := set_terminal t height width modes in
  set_terminal t height width modes' = r /\ ti_Row r = height /\ ti_Col r = width /\
  ti_Ispeed r = default (ti_Ispeed t) (speed_value modes TTY_OP_ISPEED) /\
  ti_Ospeed r = default (ti_Ospeed t) (speed_value modes TTY_OP_OSPEED) /\
  (forall k, ti_CC r !! k = (fun x => from_option u8 x (mode_value modes k)) <$> ti_CC t !! k) /\
  (forall k, ti_Opts r !! k = match ti_CC t !! k with
                              | Some _ => ti_Opts t !! k
                              | None => (fun x => from_option (fun v => 0 <? v) x (mode_value modes k)) <$> ti_Opts t !! k
                              end).
Proof.
  intros Hn Hp r. assert (NoDup modes'.*1) as Hn' by (by rewrite <- Hp).
  assert (forall k, mode_value modes k = mode_value modes' k) as Hm.
  { intros k. apply head_omap_perm; [done|]. apply omap_unique; [|done]. intros [c v] [c' v'] [? H1] [? H2]. simpl in *.
    destruct (bool_decide_reflect (mode_name c = Some k)); [|done]. destruct (bool_decide_reflect (mode_name c' = Some k)); [|done].
    by eapply mode_name_inj. }
  assert (forall op, speed_value modes op = speed_value modes' op) as Hs.
  { intros op. apply head_omap_perm; [done|]. apply omap_unique; [|done]. intros [c v] [c' v'] [? H1] [? H2]. simpl in *.
    destruct (c =? op) eqn:E1; [|done]. destruct (c' =? op) eqn:E2; [|done]. bool_to_prop. congruence. }
  unfold r, set_terminal. set (t0 := Termios _ _ _ _ _ _).
  destruct (modes_rest modes t0 Hn) as (I1 & I2 & I3 & I4). destruct (modes_rest modes' t0 Hn') as (J1 & J2 & J3 & J4).
  split_and!; try done.
  - apply termios_eq; [congruence|congruence|by rewrite I3, J3, Hs|by rewrite I4, J4, Hs|..]; intros k.
    + by rewrite !modes_CC, Hm.
    + by rewrite !modes_Opts, Hm.
  - intros k. by rewrite modes_CC.
  - intros k. by rewrite modes_Opts.
Qed.
End terminal.

Section resources.

(** A session with a terminal on Unix exits once, on every path, and keeps nothing open
    but the descriptor of the goroutine that follows the window's size. *)
Lemma pty_session_releases env cmd term height width modes :
  let es := runWithPTY env cmd term height width modes in
  (exists code, exits es = [code]) /\ (forall f, f ∈ fds_after es -> f = FdWinch).
Proof.
  unfold runWithPTY, exits, fds_after. destruct (pe_open env), (pe_termios env), (pe_start env), (pe_dup env), (pe_wait env);
    simpl; (split; [by eexists|]; set_solver).
Qed.

(** A console that cannot be started leaves no handle open, wherever it fails, and one
    that starts has its four. *)
Lemma startConPTY_accounts env dir :
  match startConPTY env dir with
  | (l, Some _) => l = []
  | (l, None) => l = cp_handles conpty_started
  end.
Proof.
  unfold startConPTY. destruct (we_pipe_in env), (we_pipe_out env), (we_create env), (we_attrs env), (we_update env),
    (we_cmdline env), (bool_decide (dir = [])), (we_dir env), (we_env env), (we_process env); done.
Qed.

Lemma runWithPTY_begins_started available env cmd term cmd' c :
  runWithPTY_begins available env cmd term = BeginConsole cmd' c -> c = conpty_started /\ cmd' = pty_command cmd term.
Proof.
  unfold runWithPTY_begins. destruct available; [|done]. cbn [negb].
  pose proof (startConPTY_accounts env (cmd_Dir (pty_command cmd term))) as H. destruct (startConPTY _ _) as [l [e|]]; [done|].
  subst l. by intros [= <- <-].
Qed.

(** A client's width that is a multiple of 65536 passes the check for empty dimensions and
    reaches the system as 0. *)
Lemma wide_window_is_empty n : 0 < n -> int16 (console_size (n * 65536) 24).1 = 0.
Proof.
  intros Hn. unfold console_size. destruct (n * 65536 <=? 0) eqn:E; bool_to_prop; [lia|]. simpl. unfold int16.
  change (2 ^ 15) with 32768. change (2 ^ 16) with 65536. rewrite Z.add_comm, Z.mod_add by lia. done.
Qed.

(** What holds of every reachable state of a console. *)
Record conpty_ok (c : conPTY) : Prop := {
  co_calls : exists resizes, Forall (fun x => x <> ClosePseudoConsole) resizes /\
    cp_calls c = resizes ++ (if cp_closed c then [ClosePseudoConsole] else []);
  co_handles : cp_handles c =
    match cp_pc c with
    | PcReleased => []
    | _ => if cp_closed c then [HProcess; HOutRead; HInWrite] else [HProcess; HConsole; HOutRead; HInWrite]
    end;
  co_closed : cp_closed c = match cp_pc c with PcWait | PcWaited _ => false | _ => true end;
  co_exit : match cp_pc c with PcExited | PcReleased => length (cp_exit c) = 1%nat /\ cp_outDone c = true | _ => cp_exit c = [] end;
}.

Lemma conpty_started_ok : conpty_ok conpty_started.
Proof. split; [by exists []|done..]. Qed.

Lemma conpty_step_ok c c' : conpty_step c c' -> conpty_ok c -> conpty_ok c'.
Proof.
  intros Hstep [(rs & Hrs & Hcalls) Hh Hcl He].
  destruct Hstep as [[hs cl calls od pc ex] w h|[hs cl calls od pc ex] r Hpc|[hs cl calls od pc ex] r Hpc|[hs cl calls od pc ex]
                    |[hs cl calls od pc ex] r Hpc Hod|[hs cl calls od pc ex] Hpc];
    cbn in *; subst hs cl calls; try subst pc; unfold conpty_Resize, conpty_Close, conpty_CloseConsole, at_pc; cbn.
  - destruct pc; cbn; try (split; [by exists rs|done..]).
    all: split; [|done..]; exists (rs ++ [ResizePseudoConsole (int16 w) (int16 h)]); cbn; rewrite !app_nil_r; split; [|done].
    all: apply Forall_app; split; [done|]; by constructor.
  - split; [by exists rs|done..].
  - rewrite app_nil_r. split; [by exists rs|done..].
  - split; [by exists rs|done|done|]. destruct pc; cbn in *; tauto.
  - subst ex. split; [by exists rs|done..].
  - split; [by exists rs|done..].
Qed.

Lemma conpty_reachable_ok c : rtc conpty_step conpty_started c -> conpty_ok c.
Proof.
  intros Hr. assert (forall a, rtc conpty_step a c -> conpty_ok a -> conpty_ok c) as Hgen; [|by apply (Hgen _ Hr), conpty_started_ok].
  intros a Ha. induction Ha as [|a b c' Hs Hb IH]; [done|]. intros Hok. by apply IH, (conpty_step_ok a).
Qed.

End resources.

Section environment_block.

(** The last entry of an environment for a key. *)
Definition last_entry (env : list gostring) (uk : gostring) : option gostring :=
  last (List.filter (fun kv => bool_decide (block_key kv = Some uk)) env).

Lemma last_entry_snoc env kv uk :
  last_entry (env ++ [kv]) uk = if bool_decide (block_key kv = Some uk) then Some kv else last_entry env uk.
Proof.
  unfold last_entry. rewrite List.filter_app. simpl. destruct (bool_decide _); [by rewrite last_snoc|by rewrite app_nil_r].
Qed.

(** The map of [envBlock] finds, for every key, the place of its last entry. *)
Record block_ok (env : list gostring) (acc : gmap gostring nat * list gostring) : Prop := {
  bo_entry : forall i kv, acc.2 !! i = Some kv -> exists uk, block_key kv = Some uk /\ acc.1 !! uk = Some i;
  bo_seen : forall uk i, acc.1 !! uk = Some i -> exists kv, acc.2 !! i = Some kv /\ block_key kv = Some uk /\ last_entry env uk = Some kv;
  bo_unseen : forall uk, acc.1 !! uk = None -> last_entry env uk = None;
}.

Lemma block_step_ok env acc kv : block_ok env acc -> block_ok (env ++ [kv]) (block_step acc kv).
Proof.
  destruct acc as [seen l]. intros [He Hs Hu]. cbn in *. unfold block_step.
  destruct (block_key kv) as [uk|] eqn:Hk.
  2: { split; cbn; [done|intros uk i; rewrite last_entry_snoc, Hk; apply Hs|intros uk; rewrite last_entry_snoc, Hk; apply Hu]. }
  assert (forall uk', uk' <> uk -> last_entry (env ++ [kv]) uk' = last_entry env uk') as Hother.
  { intros uk' Hne. rewrite last_entry_snoc, bool_decide_eq_false_2 by congruence. done. }
  assert (last_entry (env ++ [kv]) uk = Some kv) as Hmine by by rewrite last_entry_snoc, bool_decide_eq_true_2.
  destruct (seen !! uk) as [i|] eqn:Ei.
  - destruct (Hs _ _ Ei) as (old & Hold & Hkold & _). split; cbn.
    + intros j kv' Hj. destruct (decide (i = j)) as [<-|Hne]; [|rewrite list_lookup_insert_ne in Hj by done; by apply He].
      rewrite list_lookup_insert_eq in Hj by (by eapply lookup_lt_Some). injection Hj as <-. by exists uk.
    + intros uk' j Hj. destruct (decide (uk' = uk)) as [->|Hne].
      * rewrite Ei in Hj. injection Hj as <-. exists kv. rewrite list_lookup_insert_eq by (by eapply lookup_lt_Some). done.
      * destruct (Hs _ _ Hj) as (kv' & Hkv' & Hkk & Hl). exists kv'. rewrite Hother by done. split; [|done].
        rewrite list_lookup_insert_ne; [done|]. intros <-. congruence.
    + intros uk' Hn. rewrite Hother by congruence. by apply Hu.
  - assert (forall uk' j, seen !! uk' = Some j -> (j < length l)%nat) as Hlt.
    { intros uk' j Hj. destruct (Hs _ _ Hj) as (kv' & Hkv' & _). by eapply lookup_lt_Some. }
    split; cbn.
    + intros j kv' [Hj|[Hj Hkv]]%lookup_app_Some.
      * destruct (He _ _ Hj) as (uk' & Hk' & Hj'). exists uk'. split; [done|]. rewrite lookup_insert_ne; [done|congruence].
      * destruct (j - length l)%nat eqn:Ej; [|done]. injection Hkv as <-. exists uk. split; [done|]. rewrite lookup_insert_eq. f_equal. lia.
    + intros uk' j. destruct (decide (uk' = uk)) as [->|Hne].
      * rewrite lookup_insert_eq. intros [= <-]. exists kv. by rewrite list_lookup_middle.
      * rewrite lookup_insert_ne by done. intros Hj. destruct (Hs _ _ Hj) as (kv' & Hkv' & Hkk & Hl).
        exists kv'. rewrite Hother by done. split; [|done]. by apply lookup_app_l_Some.
    + intros uk' [Hn Hne]%lookup_insert_None. rewrite Hother by done. by apply Hu.
Qed.

Lemma block_entries_ok env : block_ok env (foldl block_step (∅, []) env).
Proof.
  induction env as [|kv env IH] using rev_ind; [split; cbn; [done|by intros ??; rewrite lookup_empty|done]|].
  rewrite foldl_snoc. by apply block_step_ok.
Qed.

(** the block has one entry for each key of the environment, the last one given for
    it.  Keys are told apart without their case; entries without a [=] are left out, and
    nothing else is in it. *)
Theorem env_block_last_wins env :
  NoDup (block_key <$> block_entries env) /\
  (forall kv, kv ∈ block_entries env <-> exists uk, block_key kv = Some uk /\ last_entry env uk = Some kv).
Proof.
  unfold block_entries. destruct (block_entries_ok env) as [He Hs Hu]. destruct (foldl _ _ env) as [seen l]. cbn in *. split.
  - apply NoDup_alt. intros i j k Hi Hj. rewrite list_lookup_fmap in Hi, Hj.
    destruct (l !! i) as [a|] eqn:Ea; [|done]. destruct (l !! j) as [b|] eqn:Eb; [|done]. injection Hi as Hi. injection Hj as Hj.
    destruct (He _ _ Ea) as (ua & Ha & Hsa). destruct (He _ _ Eb) as (ub & Hb & Hsb). congruence.
  - intros kv. split.
    + intros [i Hi]%list_elem_of_lookup. destruct (He _ _ Hi) as (uk & Hk & Hseen). exists uk. split; [done|].
      destruct (Hs _ _ Hseen) as (kv' & Hkv' & _ & Hl). congruence.
    + intros (uk & Hk & Hl). destruct (seen !! uk) as [i|] eqn:Ei; [|by rewrite Hu in Hl].
      destruct (Hs _ _ Ei) as (kv' & Hkv' & _ & Hl'). assert (kv' = kv) as -> by congruence. by eapply list_elem_of_lookup_2.
Qed.

Lemma last_entry_app env extra uk : Forall (fun kv => block_key kv <> Some uk) extra -> last_entry (env ++ extra) uk = last_entry env uk.
Proof.
  induction extra as [|kv extra IH] using rev_ind; [by rewrite app_nil_r|]. intros [Hf [Hkv _]%Forall_cons]%Forall_app.
  rewrite app_assoc, last_entry_snoc, bool_decide_eq_false_2 by done. by apply IH.
Qed.
Lemma last_entry_Some env uk kv : last_entry env uk = Some kv -> kv ∈ env /\ block_key kv = Some uk.
Proof.
  unfold last_entry. intros H. apply last_Some_elem_of in H. apply list_elem_of_In, filter_In in H as [H Hk].
  split; [by apply list_elem_of_In|by apply bool_decide_eq_true in Hk].
Qed.
Lemma block_entries_last env uk : last_entry (block_entries env) uk = last_entry env uk.
Proof.
  unfold block_entries. destruct (block_entries_ok env) as [He Hs Hu]. destruct (foldl _ _ env) as [seen l]. cbn [fst snd] in *.
  assert (forall kv, kv ∈ l -> block_key kv = Some uk -> last_entry env uk = Some kv) as Hin.
  { intros kv [i Hi]%list_elem_of_lookup Hk. destruct (He _ _ Hi) as (uk' & Hk' & Hseen). replace uk' with uk in * by congruence.
    destruct (Hs _ _ Hseen) as (kv' & ? & _ & ?). congruence. }
  destruct (last_entry l uk) as [kv|] eqn:El; [apply last_entry_Some in El as [Hkv Hk]; symmetry; by apply Hin|].
  destruct (seen !! uk) as [i|] eqn:Ei; [|symmetry; by apply Hu]. destruct (Hs _ _ Ei) as (kv & Hkv & Hk & _). exfalso.
  unfold last_entry in El. apply last_None in El. assert (kv ∈ List.filter (fun kv => bool_decide (block_key kv = Some uk)) l) as Hf.
  { apply list_elem_of_In, filter_In. split; [by apply list_elem_of_In, (list_elem_of_lookup_2 _ i)|by apply bool_decide_eq_true]. }
  rewrite El in Hf. by apply not_elem_of_nil in Hf.
Qed.

(** Windows keeps a current directory for each drive in entries as "=C:=C:\dir".  They
    all have the empty key here, so that a process is started with one of them. *)
Lemma drive_entries_collapse : block_entries [B "=C:=C:\a"; B "=D:=D:\b"; B "Path=x"; B "PATH=y"] = [B "=D:=D:\b"; B "PATH=y"].
Proof. vm_reflexivity. Qed.

Lemma accepted_block_key kv uk : acceptEnvPair kv = true -> block_key kv = Some uk -> client_key uk = true.
Proof.
  unfold acceptEnvPair, block_key. destruct (Strings.CutByte kv _) as [[k v] []]; [|done]. intros Hk [= <-].
  repeat (apply orb_true_iff in Hk as [Hk|Hk]); [by apply bool_decide_eq_true in Hk as ->..|].
  apply has_prefix_spec in Hk as [r ->]. unfold ToUpper, client_key. rewrite fmap_app, !orb_true_iff. right.
  apply has_prefix_spec. by eexists.
Qed.

(** a client of a Windows server cannot reach the server's variables through the
    case of their names.  Whatever it sends, the environment block of a session with a
    terminal has for every key but TERM, LANG and LC_* the server's own last entry. *)
Theorem windows_block_is_the_servers shell environ u sess cmd uk :
  cmd ∈ may_start (sessionHandler (newSessionCommand_windows shell environ) (Ok u) sess) -> client_key uk = false ->
  last_entry (block_entries (cmd_Env cmd)) uk = last_entry environ uk.
Proof.
  intros H Hk. destruct (session_command _ _ _ _ H) as (extra & -> & Hx). cbn.
  rewrite block_entries_last, last_entry_app; [done|]. eapply Forall_impl; [exact Hx|]. intros kv Hacc Hkv.
  by rewrite (accepted_block_key _ _ Hacc Hkv) in Hk.
Qed.
End environment_block.

(** * Witnesses *)

Section witnesses.

Definition demo_termios : termios :=
  Termios 0 0 0 0 {[B "intr" := 3]} {[B "echo" := true; B "icanon" := true]}.
Definition demo_modes : list (Z * Z) := [(53, 0); (1, 259); (128, 38400)].

Lemma terminal_modes_applied_witness :
  set_terminal demo_termios 24 80 [(128, 38400); (53, 0); (1, 259)] = set_terminal demo_termios 24 80 demo_modes /\
  ti_Ispeed (set_terminal demo_termios 24 80 demo_modes) = 38400 /\
  ti_Opts (set_terminal demo_termios 24 80 demo_modes) !! B "echo" = Some false /\
  ti_CC (set_terminal demo_termios 24 80 demo_modes) !! B "intr" = Some 3.
Proof.
  destruct (terminal_modes_applied demo_termios 24 80 demo_modes [(128, 38400); (53, 0); (1, 259)]) as (H & _); [by_evaluation|by_evaluation|].
  split; [exact H|]. split_and!; vm_reflexivity.
Defined.

Definition demo_console : conpty_env := ConptyEnv None None None None None None None None None.

Definition demo_session : session_request := SessionRequest (B "dir") [B "path=evil"; B "LANG=C"; B "lang=D"] (Some (B "xterm")).
Lemma windows_block_is_the_servers_witness :
  match may_start (sessionHandler (newSessionCommand_windows (B "pwsh") [B "Path=C:\bin"]) (Ok (User [] [] [])) demo_session) with
  | cmd :: _ =>
      block_entries (cmd_Env cmd) = [B "Path=C:\bin"; B "LANG=C"; B "TERM=xterm"] /\
      last_entry (block_entries (cmd_Env cmd)) (B "PATH") = Some (B "Path=C:\bin")
  | [] => False
  end.
Proof.
  destruct (may_start (sessionHandler (newSessionCommand_windows (B "pwsh") [B "Path=C:\bin"]) (Ok (User [] [] [])) demo_session)) as [|cmd l] eqn:H;
    [discriminate|].
  split; [injection H as <- _; vm_reflexivity|].
  rewrite (windows_block_is_the_servers (B "pwsh") [B "Path=C:\bin"] (User [] [] []) demo_session); [vm_reflexivity| |vm_reflexivity].
  rewrite H. apply list_elem_of_here.
Defined.
End witnesses.
