(* ===== verification/Pipe.v ===== *)
(** Pipe: bytes between a tunnel and what is at its ends.

    Module Proxy models [ProxyConns] of src/tailcat.go, with the handler of a forwarded
    port around it: two goroutines that copy, the half-close, and the closing of both
    connections, interleaved with the peers.  Module Netcat models netcat use: a client that
    sends its standard input, and a server that serves no port and prints what it receives
    (src/cmd/tailcat/tailcat.go and masquecat_cli.go), as two processes at the ends of one
    connection. *)

From S2P Require Import Prelude GoStd.

(** * Two connections joined *)

Module Proxy.

(** A connection: all that has arrived at it and how much of it was read, whether its peer
    shut its writing side after that, whether it broke; what was written to it, and how
    far it was shut. *)
Record conn : Type := Conn {
  cn_arrived : list byte;
  cn_nread : nat;
  cn_eof : bool;
  cn_failed : bool;
  cn_out : list byte;
  cn_shut : bool;
  cn_closed : bool;
  cn_closeWriter : bool;
}.
(** A connection that was just opened; [closeWriter] tells whether it can be half-closed. *)
Definition fresh_conn (closeWriter : bool) : conn := Conn [] 0 false false [] false false closeWriter.
Definition conn_unread (c : conn) : list byte := drop (cn_nread c) (cn_arrived c).
Definition conn_dead (c : conn) : bool := cn_failed c || cn_closed c.

Definition conn_arrive (c : conn) (data : list byte) : conn :=
  Conn (cn_arrived c ++ data) (cn_nread c) (cn_eof c) (cn_failed c) (cn_out c) (cn_shut c) (cn_closed c) (cn_closeWriter c).
Definition conn_fin (c : conn) : conn :=
  Conn (cn_arrived c) (cn_nread c) true (cn_failed c) (cn_out c) (cn_shut c) (cn_closed c) (cn_closeWriter c).
Definition conn_fail (c : conn) : conn :=
  Conn (cn_arrived c) (cn_nread c) (cn_eof c) true (cn_out c) (cn_shut c) (cn_closed c) (cn_closeWriter c).
Definition conn_read (c : conn) (n : nat) : conn :=
  Conn (cn_arrived c) (cn_nread c + n) (cn_eof c) (cn_failed c) (cn_out c) (cn_shut c) (cn_closed c) (cn_closeWriter c).
Definition conn_write (c : conn) (data : list byte) : conn :=
  Conn (cn_arrived c) (cn_nread c) (cn_eof c) (cn_failed c) (cn_out c ++ data) (cn_shut c) (cn_closed c) (cn_closeWriter c).
Definition conn_close (c : conn) : conn :=
  Conn (cn_arrived c) (cn_nread c) (cn_eof c) (cn_failed c) (cn_out c) (cn_shut c) true (cn_closeWriter c).
(** src/tailcat.go:1915-1919 [ProxyConns], after the copy *)
Definition conn_finish (c : conn) : conn :=
  if cn_closeWriter c
  then Conn (cn_arrived c) (cn_nread c) (cn_eof c) (cn_failed c) (cn_out c) true (cn_closed c) (cn_closeWriter c)
  else conn_close c.

(** A copying goroutine: about to read, with a chunk to write, at the end of [io.Copy]
    (and whether that was its source's end), and through. *)
Inductive copy_pc : Type :=
  | CopyRead
  | CopyWrite (chunk : list byte)
  | CopyEnded (clean : bool)
  | CopyDone (clean : bool).
Inductive proxy_main : Type := MainWaits | MainClosedOne | MainDone.

(** The two connections, [true] for [a]; the goroutine of [i] writes to the connection [i]
    and reads from the other. *)
Record proxy : Type := Proxy {
  px_conn : bool -> conn;
  px_copy : bool -> copy_pc;
  px_main : proxy_main;
}.
Definition bupd {A : Type} (f : bool -> A) (i : bool) (x : A) : bool -> A := fun j => if Bool.eqb i j then x else f j.
Definition with_conn (p : proxy) (i : bool) (c : conn) : proxy := Proxy (bupd (px_conn p) i c) (px_copy p) (px_main p).
Definition with_copy (p : proxy) (i : bool) (pc : copy_pc) : proxy := Proxy (px_conn p) (bupd (px_copy p) i pc) (px_main p).

(** src/tailcat.go:1909-1922 [ProxyConns], with both goroutines started *)
Definition proxy_start (a b : conn) : proxy := Proxy (fun i => if i then a else b) (fun _ => CopyRead) MainWaits.

(** The peers: data and its end arrive, and a connection breaks. *)
Inductive peer_step : proxy -> proxy -> Prop :=
  | PeerData p i data : cn_eof (px_conn p i) = false -> peer_step p (with_conn p i (conn_arrive (px_conn p i) data))
  | PeerFin p i : peer_step p (with_conn p i (conn_fin (px_conn p i)))
  | PeerFails p i : peer_step p (with_conn p i (conn_fail (px_conn p i))).

(** src/tailcat.go:1909-1926 [ProxyConns]: reads and writes of any size, their errors, and
    the end of both copies *)
Inductive proxy_step : proxy -> proxy -> Prop :=
  | CopyReads p i n :
      let src := px_conn p (negb i) in
      px_copy p i = CopyRead -> conn_dead src = false -> (0 < n <= length (conn_unread src))%nat ->
      proxy_step p (with_copy (with_conn p (negb i) (conn_read src n)) i (CopyWrite (take n (conn_unread src))))
  | CopyEOF p i :
      let src := px_conn p (negb i) in
      px_copy p i = CopyRead -> conn_dead src = false -> conn_unread src = [] -> cn_eof src = true ->
      proxy_step p (with_copy p i (CopyEnded true))
  | CopyReadFails p i :
      px_copy p i = CopyRead -> conn_dead (px_conn p (negb i)) = true -> proxy_step p (with_copy p i (CopyEnded false))
  | CopyWrites p i chunk :
      px_copy p i = CopyWrite chunk -> conn_dead (px_conn p i) = false ->
      proxy_step p (with_copy (with_conn p i (conn_write (px_conn p i) chunk)) i CopyRead)
  | CopyWriteFails p i chunk n :
      px_copy p i = CopyWrite chunk -> conn_dead (px_conn p i) = true ->
      proxy_step p (with_copy (with_conn p i (conn_write (px_conn p i) (take n chunk))) i (CopyEnded false))
  | CopyFinishes p i clean :
      px_copy p i = CopyEnded clean ->
      proxy_step p (with_copy (with_conn p i (conn_finish (px_conn p i))) i (CopyDone clean))
  | MainClosesA p c1 c2 :
      px_main p = MainWaits -> px_copy p true = CopyDone c1 -> px_copy p false = CopyDone c2 ->
      proxy_step p (Proxy (bupd (px_conn p) true (conn_close (px_conn p true))) (px_copy p) MainClosedOne)
  | MainClosesB p :
      px_main p = MainClosedOne ->
      proxy_step p (Proxy (bupd (px_conn p) false (conn_close (px_conn p false))) (px_copy p) MainDone).

Definition px_step (p q : proxy) : Prop := peer_step p q \/ proxy_step p q.

(** src/cmd/tailcat/tailcat.go:1186-1196 [server, tcpForwardTo]; masquecat_cli.go has the same *)
Definition tcpForwardTo (dialed : result conn) (c : conn) : conn + proxy :=
  match dialed with
  | Err _ => inl (conn_close c)
  | Ok localConn => inr (proxy_start c localConn)
  end.

(** ** Properties *)

(** A connection that ended other than by the closing at the end. *)
Definition conn_broken (c : conn) : bool := cn_failed c || cn_closed c && negb (cn_closeWriter c).

(** How far a goroutine has copied. *)
Definition copied (pc : copy_pc) (src dst : conn) : Prop :=
  match pc with
  | CopyRead => cn_out dst = take (cn_nread src) (cn_arrived src)
  | CopyWrite chunk => cn_out dst ++ chunk = take (cn_nread src) (cn_arrived src)
  | CopyEnded true | CopyDone true => cn_out dst = cn_arrived src /\ cn_eof src = true
  | CopyEnded false | CopyDone false => cn_out dst `prefix_of` cn_arrived src /\ (conn_broken dst = true \/ conn_broken src = true)
  end.

(** What holds of one direction: the goroutine [i], its destination and its source. *)
Record direction_ok (p : proxy) (i : bool) : Prop := {
  di_nread : (cn_nread (px_conn p i) <= length (cn_arrived (px_conn p i)))%nat;
  di_data : copied (px_copy p i) (px_conn p (negb i)) (px_conn p i);
  di_shut : cn_shut (px_conn p i) = true -> exists clean, px_copy p i = CopyDone clean;
  di_closed : cn_closed (px_conn p i) = true -> px_main p <> MainWaits \/ cn_closeWriter (px_conn p i) = false;
  di_main : px_main p <> MainWaits -> exists clean, px_copy p i = CopyDone clean;
  di_done : match px_main p with
            | MainWaits => True
            | MainClosedOne => i = true -> cn_closed (px_conn p i) = true
            | MainDone => cn_closed (px_conn p i) = true
            end;
}.
Definition proxy_ok (p : proxy) : Prop := forall i, direction_ok p i.

Lemma proxy_start_ok cw1 cw2 : proxy_ok (proxy_start (fresh_conn cw1) (fresh_conn cw2)).
Proof. intros []; split; simpl; done || lia. Qed.

(** A connection on which nothing was read or written. *)
Record evolves (c c' : conn) : Prop := {
  ev_nread : cn_nread c' = cn_nread c;
  ev_out : cn_out c' = cn_out c;
  ev_arrived : exists data, cn_arrived c' = cn_arrived c ++ data /\ (cn_eof c = true -> data = []);
  ev_eof : cn_eof c = true -> cn_eof c' = true;
  ev_broken : conn_broken c = true -> conn_broken c' = true;
}.
Lemma evolves_refl c : evolves c c.
Proof. split; try done. exists []. by rewrite app_nil_r. Qed.
Lemma evolves_arrive c data : cn_eof c = false -> evolves c (conn_arrive c data).
Proof. intros He. split; try done. exists data. split; [done|]. congruence. Qed.
Lemma evolves_fin c : evolves c (conn_fin c).
Proof. split; try done. exists []. by rewrite app_nil_r. Qed.
Lemma evolves_fail c : evolves c (conn_fail c).
Proof. split; try done. exists []. by rewrite app_nil_r. Qed.
Lemma evolves_close c : evolves c (conn_close c).
Proof. split; try done; [exists []; by rewrite app_nil_r|]. unfold conn_broken. simpl. destruct (cn_failed c), (cn_closed c), (cn_closeWriter c); done. Qed.
Lemma evolves_finish c : evolves c (conn_finish c).
Proof.
  unfold conn_finish. destruct (cn_closeWriter c) eqn:E; [|apply evolves_close]. split; try done; [exists []; by rewrite app_nil_r|].
  unfold conn_broken. simpl. by rewrite E.
Qed.
#[local] Hint Resolve evolves_refl evolves_arrive evolves_fin evolves_fail evolves_close evolves_finish : core.

Lemma evolves_nread c c' : evolves c c' -> (cn_nread c <= length (cn_arrived c))%nat -> (cn_nread c' <= length (cn_arrived c'))%nat.
Proof. intros [-> _ (data & -> & _) _ _] H. rewrite length_app. lia. Qed.

Lemma copied_evolves pc src dst src' dst' :
  (cn_nread src <= length (cn_arrived src))%nat -> evolves src src' -> evolves dst dst' -> copied pc src dst -> copied pc src' dst'.
Proof.
  intros Hn [Hr _ (data & Ha & Hd) He Hk] [_ Ho _ _ Hk']. unfold copied. rewrite Ho, Hr, Ha, take_app_le by done.
  destruct pc as [| |[]|[]]; try done; intros [H1 H2].
  1,3: rewrite Hd, app_nil_r by done; by auto.
  all: split; [by apply prefix_app_r|tauto].
Qed.

(** The control part of a direction, and its data. *)
Definition control_ok (p : proxy) (i : bool) : Prop :=
  (cn_shut (px_conn p i) = true -> exists clean, px_copy p i = CopyDone clean) /\
  (cn_closed (px_conn p i) = true -> px_main p <> MainWaits \/ cn_closeWriter (px_conn p i) = false) /\
  (px_main p <> MainWaits -> exists clean, px_copy p i = CopyDone clean) /\
  match px_main p with
  | MainWaits => True
  | MainClosedOne => i = true -> cn_closed (px_conn p i) = true
  | MainDone => cn_closed (px_conn p i) = true
  end.
Lemma direction_split p i :
  direction_ok p i <->
  (cn_nread (px_conn p i) <= length (cn_arrived (px_conn p i)))%nat /\
  copied (px_copy p i) (px_conn p (negb i)) (px_conn p i) /\ control_ok p i.
Proof. split; [intros []; by repeat split|intros (? & ? & ? & ? & ? & ?); by split]. Qed.

Lemma bupd_same {A : Type} (f : bool -> A) i x : bupd f i x i = x.
Proof. by destruct i. Qed.
Lemma bupd_other {A : Type} (f : bool -> A) i x : bupd f i x (negb i) = f (negb i).
Proof. by destruct i. Qed.
Lemma bupd_other' {A : Type} (f : bool -> A) i x : bupd f (negb i) x i = f i.
Proof. by destruct i. Qed.

Lemma bupd_all {A : Type} (P : bool -> A -> Prop) f i x : (forall j, P j (f j)) -> P i x -> forall j, P j (bupd f i x j).
Proof. intros Hf Hx j. unfold bupd. destruct (Bool.eqb i j) eqn:E; [by apply eqb_prop in E as <-|done]. Qed.

(** A change of one connection that reads and writes nothing keeps the data of both. *)
Lemma with_conn_ok p i c m :
  let q := Proxy (bupd (px_conn p) i c) (px_copy p) m in
  proxy_ok p -> evolves (px_conn p i) c -> (forall j, control_ok q j) -> proxy_ok q.
Proof.
  intros q Hok He Hc j. pose proof (Hok i) as (Hni & Hdi & _)%direction_split. pose proof (Hok (negb i)) as (Hnn & Hdn & _)%direction_split.
  rewrite negb_involutive in Hdn. apply direction_split. split_and!; [..|apply Hc]; destruct (decide (j = i)) as [->|Hne].
  all: try (assert (j = negb i) as -> by (by destruct i, j)); cbn [q px_conn px_copy]; rewrite ?negb_involutive, ?bupd_same, ?bupd_other; try done.
  - by eapply evolves_nread.
  - eapply copied_evolves; [..|exact Hdi]; done || apply evolves_refl.
  - eapply copied_evolves; [..|exact Hdn]; done || apply evolves_refl.
Qed.

Lemma peer_step_ok p q : peer_step p q -> proxy_ok p -> proxy_ok q.
Proof.
  intros Hs Hok. assert (forall i, control_ok p i) as Hc by (intros i; by apply direction_split).
  destruct Hs as [p i data He|p i|p i]; apply (with_conn_ok p); auto; intros j; specialize (Hc j); destruct i, j; exact Hc.
Qed.

Lemma goroutine_ok p q i :
  px_copy q (negb i) = px_copy p (negb i) ->
  (forall j, (cn_nread (px_conn q j) <= length (cn_arrived (px_conn q j)))%nat) ->
  copied (px_copy q i) (px_conn q (negb i)) (px_conn q i) ->
  copied (px_copy p (negb i)) (px_conn q i) (px_conn q (negb i)) ->
  (forall j, control_ok q j) -> proxy_ok q.
Proof.
  intros Hpc Hn H1 H2 Hc j. apply direction_split. split_and!; [done| |apply Hc].
  destruct (decide (j = i)) as [->|Hne]; [done|]. assert (j = negb i) as -> by (by destruct i, j). by rewrite negb_involutive, Hpc.
Qed.

(** Reading and writing touch the other direction only in what that one does not look at. *)
Lemma copied_read pc src dst n : copied pc src dst -> copied pc src (conn_read dst n).
Proof. done. Qed.
Lemma copied_write pc src dst data : copied pc src dst -> copied pc (conn_write src data) dst.
Proof. done. Qed.

Lemma copy_reads src dst n :
  copied CopyRead src dst -> copied (CopyWrite (take n (conn_unread src))) (conn_read src n) dst.
Proof.
  cbn. intros ->. unfold conn_unread. apply take_take_drop.
Qed.
Lemma copy_writes src dst chunk : copied (CopyWrite chunk) src dst -> copied CopyRead src (conn_write dst chunk).
Proof. done. Qed.
Lemma copy_eof src dst :
  copied CopyRead src dst -> conn_unread src = [] -> cn_eof src = true -> copied (CopyEnded true) src dst.
Proof.
  cbn. unfold conn_unread. intros -> Hu He. split; [|done]. rewrite <- (take_drop (cn_nread src) (cn_arrived src)) at 2. by rewrite Hu, app_nil_r.
Qed.
Lemma copy_read_fails src dst : copied CopyRead src dst -> conn_broken src = true -> copied (CopyEnded false) src dst.
Proof. cbn. intros -> Hd. split; [apply prefix_take|by right]. Qed.
Lemma copy_write_fails src dst chunk n :
  copied (CopyWrite chunk) src dst -> conn_broken dst = true -> copied (CopyEnded false) src (conn_write dst (take n chunk)).
Proof.
  cbn. intros H Hd. split; [|by left]. etrans; [|apply (prefix_take _ (cn_nread src))]. rewrite <- H. apply prefix_app, prefix_take.
Qed.
Lemma copied_done src dst clean : copied (CopyEnded clean) src dst -> copied (CopyDone clean) src dst.
Proof. done. Qed.

(** While a goroutine runs, nothing has been closed but what cannot be half-closed. *)
Lemma running_waits p i : control_ok p i -> (forall c, px_copy p i <> CopyDone c) -> px_main p = MainWaits.
Proof.
  intros (_ & _ & Hd & _) Hpc. destruct (px_main p) eqn:E; [done|..]; destruct Hd as [c Hc]; try done; by destruct (Hpc c).
Qed.
Lemma dead_broken p i j :
  (forall k, control_ok p k) -> (forall c, px_copy p i <> CopyDone c) -> conn_dead (px_conn p j) = true -> conn_broken (px_conn p j) = true.
Proof.
  intros Hc Hpc. pose proof (running_waits p i (Hc i) Hpc) as Hm. destruct (Hc j) as (_ & Hcl & _). unfold conn_dead, conn_broken.
  destruct (cn_failed (px_conn p j)); [done|]. cbn. intros Hd. destruct (Hcl Hd) as [?| ->]; [done|]. by rewrite Hd.
Qed.

(** A goroutine that has not ended leaves the control of both directions as it must be. *)
Lemma copy_control p q i :
  (forall j, control_ok p j) -> (forall c, px_copy p i <> CopyDone c) -> px_main q = px_main p -> px_copy q (negb i) = px_copy p (negb i) ->
  (forall j, cn_closeWriter (px_conn q j) = cn_closeWriter (px_conn p j)) ->
  (forall j, cn_closed (px_conn q j) = true -> cn_closed (px_conn p j) = true \/ cn_closeWriter (px_conn p j) = false) ->
  (forall j, cn_shut (px_conn q j) = true -> cn_shut (px_conn p j) = true \/ j = i /\ exists c, px_copy q i = CopyDone c) ->
  forall j, control_ok q j.
Proof.
  intros Hc Hpc Hm Hpn Hw Hcl Hsh j.
  pose proof (running_waits p i (Hc i) Hpc) as Hwait.
  unfold control_ok. rewrite Hm, Hwait. split_and!; [| |done|done].
  - intros [H|[-> H]]%Hsh; [|done]. destruct (Hc j) as (H1 & _). destruct (H1 H) as [c Hd].
    destruct (decide (j = i)) as [->|Hne]; [by destruct (Hpc c)|]. assert (j = negb i) as -> by (by destruct i, j). exists c. by rewrite Hpn.
  - intros H%Hcl. right. rewrite Hw. destruct H as [H|H]; [|done]. destruct (Hc j) as (_ & H2 & _). by destruct (H2 H) as [?|?].
Qed.

Lemma proxy_step_ok p q : proxy_step p q -> proxy_ok p -> proxy_ok q.
Proof.
  intros Hs Hok. assert (forall i, control_ok p i) as Hc by (intros i; by apply direction_split).
  assert (forall i, copied (px_copy p i) (px_conn p (negb i)) (px_conn p i)) as Hd by (intros i; apply Hok).
  assert (forall i, (cn_nread (px_conn p i) <= length (cn_arrived (px_conn p i)))%nat) as Hn by (intros i; apply Hok).
  destruct Hs as [p i n src Hpc Hdead Hl|p i src Hpc Hdead Hu He|p i Hpc Hdead|p i chunk Hpc Hdead|p i chunk n Hpc Hdead|p i clean Hpc
                 |p c1 c2 Hm H1 H2|p Hm].
  1-6: apply (goroutine_ok p _ i); pose proof (Hd i) as Hi; pose proof (Hd (negb i)) as Hni; rewrite negb_involutive in Hni; rewrite Hpc in Hi;
    [by destruct i|..|apply (copy_control p _ i); try done; [congruence|by destruct i|..]].
  all: cbn [with_copy with_conn px_conn px_copy] in *; rewrite ?bupd_same, ?bupd_other, ?bupd_other'.
  all: try (intros j; destruct i, j; cbn in *; by auto).
  all: try done.
  - apply (bupd_all (fun _ c => (cn_nread c <= length (cn_arrived c))%nat)); [done|]. cbn. unfold conn_unread in Hl. rewrite length_drop in Hl. fold src. lia.
  - by apply copy_reads.
  - by apply copy_eof.
  - apply copy_read_fails; [done|]. apply (dead_broken p i); congruence || done.
  - apply copy_write_fails; [done|]. apply (dead_broken p i); congruence || done.
  - apply (bupd_all (fun _ c => (cn_nread c <= length (cn_arrived c))%nat)); [done|]. by eapply evolves_nread.
  - eapply (copied_evolves (CopyDone clean)); [| | |exact Hi]; auto.
  - eapply copied_evolves; [| | |exact Hni]; auto.
  - intros j. unfold conn_finish, bupd. destruct (Bool.eqb i j) eqn:E; [apply eqb_prop in E as <-|done]. by destruct (cn_closeWriter (px_conn p i)) eqn:Ew.
  - intros j. unfold conn_finish, bupd. destruct (Bool.eqb i j) eqn:E; [apply eqb_prop in E as <-|by auto].
    destruct (cn_closeWriter (px_conn p i)) eqn:Ew; cbn; auto.
  - intros j. unfold conn_finish, bupd. destruct (Bool.eqb i j) eqn:E; [apply eqb_prop in E as <-|by auto]. intros _. right. split; [done|]. by eexists.
  - apply with_conn_ok; auto. intros j. destruct (Hc true) as (A1 & _), (Hc false) as (B1 & _).
    destruct j; (split_and!; [done|by left|by eauto|done]).
  - apply with_conn_ok; auto. assert (px_main p <> MainWaits) as Hne by congruence. intros j.
    destruct (Hc true) as (A1 & _ & A3 & A4), (Hc false) as (B1 & _ & B3 & _). rewrite Hm in A4.
    destruct j; (split_and!; [done|by left|by auto|done || by apply A4]).
Qed.

Lemma proxy_reachable_ok p q : rtc px_step p q -> proxy_ok p -> proxy_ok q.
Proof. intros Hr. induction Hr as [|p r q [Hs|Hs] Hr IH]; [done|..]; intros Hok; apply IH; [by eapply peer_step_ok|by eapply proxy_step_ok]. Qed.

(** What the goroutines still have to do. *)
Definition copy_work (p : proxy) (i : bool) : nat :=
  match px_copy p i with
  | CopyRead => 2 * length (conn_unread (px_conn p (negb i))) + 3
  | CopyWrite _ => 2 * length (conn_unread (px_conn p (negb i))) + 4
  | CopyEnded _ => 2
  | CopyDone _ => 1
  end.
Definition proxy_work (p : proxy) : nat :=
  copy_work p true + copy_work p false + match px_main p with MainWaits => 2 | MainClosedOne => 1 | MainDone => 0 end.

Lemma unread_read c n : length (conn_unread (conn_read c n)) = (length (conn_unread c) - n)%nat.
Proof. unfold conn_unread. cbn. rewrite !length_drop. lia. Qed.
Lemma unread_finish c : conn_unread (conn_finish c) = conn_unread c.
Proof. unfold conn_unread, conn_finish. by destruct (cn_closeWriter c). Qed.

Lemma proxy_step_works p q : proxy_step p q -> (proxy_work q < proxy_work p)%nat.
Proof.
  intros Hs. destruct Hs as [p i n src Hpc Hdead Hl|p i src Hpc Hdead Hu He|p i Hpc Hdead|p i chunk Hpc Hdead|p i chunk n Hpc Hdead|p i clean Hpc
                 |p c1 c2 Hm H1 H2|p Hm]; unfold proxy_work, copy_work; try rewrite Hm; cbn [with_copy with_conn px_conn px_copy px_main].
  1-6: destruct i; cbn [negb bupd Bool.eqb] in *; rewrite Hpc, ?unread_read, ?unread_finish; try change (conn_unread (conn_write ?c _)) with (conn_unread c);
    match goal with |- context[px_copy ?r ?x] => destruct (px_copy r x) end; try fold src; lia.
  all: cbn [negb bupd Bool.eqb]; try change (conn_unread (conn_close ?c)) with (conn_unread c); lia.
Qed.

(** Where no goroutine can go on, it waits for its peer, or all is done. *)
Lemma proxy_progress p :
  px_main p = MainDone \/ (exists q, proxy_step p q) \/
  exists i, let src := px_conn p (negb i) in
    px_copy p i = CopyRead /\ conn_dead src = false /\ conn_unread src = [] /\ cn_eof src = false.
Proof.
  assert (forall i, (exists c, px_copy p i = CopyDone c) \/ (exists q, proxy_step p q) \/
    let src := px_conn p (negb i) in px_copy p i = CopyRead /\ conn_dead src = false /\ conn_unread src = [] /\ cn_eof src = false) as Hi.
  { intros i. destruct (px_copy p i) as [|chunk|clean|clean] eqn:Hpc; [|right; left..|left; by eexists].
    - right. destruct (conn_dead (px_conn p (negb i))) eqn:Hd; [left; eexists; by apply CopyReadFails|].
      destruct (conn_unread (px_conn p (negb i))) as [|b u] eqn:Hu.
      + destruct (cn_eof (px_conn p (negb i))) eqn:He; [left; eexists; by apply CopyEOF|by right].
      + left. eexists. apply (CopyReads p i 1); [done..|]. rewrite Hu. simpl. lia.
    - destruct (conn_dead (px_conn p i)) eqn:Hd; [eexists; by apply (CopyWriteFails p i chunk 0)|eexists; by apply (CopyWrites p i chunk)].
    - eexists. by apply (CopyFinishes p i clean). }
  destruct (Hi true) as [[c1 H1]|[H|H]]; [|by right; left|by right; right; exists true].
  destruct (Hi false) as [[c2 H2]|[H|H]]; [|by right; left|by right; right; exists false].
  destruct (px_main p) eqn:Hm; [right; left; eexists; by eapply MainClosesA|right; left; eexists; by apply MainClosesB|by left].
Qed.

Lemma closeWriter_stays p q : rtc px_step p q -> forall i, cn_closeWriter (px_conn q i) = cn_closeWriter (px_conn p i).
Proof.
  intros Hr. assert (forall p q, px_step p q -> forall i, cn_closeWriter (px_conn q i) = cn_closeWriter (px_conn p i)) as Hs.
  { clear. intros p q [Hs|Hs] j; destruct Hs as [p i|p i|p i]||destruct Hs as [p i|p i|p i|p i|p i|p i|p|p];
      cbn [with_copy with_conn px_conn]; unfold bupd, conn_finish; repeat case_match; destruct j; try destruct i; done. }
  induction Hr as [|p r q Hpr Hr IH]; [done|]. intros i. by rewrite IH, (Hs _ _ Hpr).
Qed.

Lemma direction_prefix p i : direction_ok p i -> cn_out (px_conn p i) `prefix_of` cn_arrived (px_conn p (negb i)).
Proof.
  intros [_ Hd _ _ _ _]. unfold copied in Hd. destruct (px_copy p i) as [|chunk|[]|[]].
  - rewrite Hd. apply prefix_take.
  - etrans; [by apply prefix_app_r|]. rewrite Hd. apply prefix_take.
  - by destruct Hd as [-> _].
  - by destruct Hd.
  - by destruct Hd as [-> _].
  - by destruct Hd.
Qed.

(** A goroutine that is through has copied everything, if nothing broke. *)
Lemma direction_complete p i clean :
  proxy_ok p -> (forall j, conn_broken (px_conn p j) = false) -> px_copy p i = CopyDone clean ->
  cn_out (px_conn p i) = cn_arrived (px_conn p (negb i)) /\ cn_eof (px_conn p (negb i)) = true.
Proof.
  intros Hok Hb Hpc. destruct (Hok i) as [_ Hd _ _ _ _]. rewrite Hpc in Hd. destruct clean; [done|].
  destruct Hd as [_ [Hd|Hd]]; by rewrite Hb in Hd.
Qed.

(** A copy that is through has shut its destination's writing side, or has closed it where
    only that is possible. *)
Definition passed_on (dst : conn) : bool := if cn_closeWriter dst then cn_shut dst else cn_closed dst.
Definition ended_ok (p : proxy) : Prop := forall i clean, px_copy p i = CopyDone clean -> passed_on (px_conn p i) = true.

Lemma passed_on_finish c : passed_on (conn_finish c) = true.
Proof. unfold passed_on, conn_finish. destruct (cn_closeWriter c) eqn:E; simpl; by rewrite ?E. Qed.
Lemma passed_on_close c : passed_on c = true -> passed_on (conn_close c) = true.
Proof. unfold passed_on. simpl. by destruct (cn_closeWriter c). Qed.

(** Whatever else happens to a connection keeps that, and a copy that is not through says
    nothing. *)
Lemma ended_conn p q i :
  ended_ok p -> (forall j, j <> i -> px_conn q j = px_conn p j) -> (passed_on (px_conn p i) = true -> passed_on (px_conn q i) = true) ->
  (forall j clean, px_copy q j = CopyDone clean -> px_copy p j = CopyDone clean \/ passed_on (px_conn q j) = true) -> ended_ok q.
Proof.
  intros Hok Hne Hi Hq j clean [Hj|Hj]%Hq; [|done]. destruct (decide (j = i)) as [->|Hji]; [by eapply Hi, Hok|].
  rewrite Hne by done. by eapply Hok.
Qed.

Lemma bupd_ne {A : Type} (f : bool -> A) i x j : j <> i -> bupd f i x j = f j.
Proof. by destruct i, j. Qed.

Lemma bupd_done f i pc j clean :
  bupd f i pc j = CopyDone clean -> (forall c, pc <> CopyDone c) -> f j = CopyDone clean.
Proof. unfold bupd. destruct (Bool.eqb i j); [|done]. intros -> H. by destruct (H clean). Qed.

(** A step that changes the connection [i] and lets the goroutine [k] go on. *)
Ltac ended_tac p i :=
  apply (ended_conn p _ i); cbn [with_copy with_conn px_conn px_copy]; rewrite ?bupd_same;
  [done|intros ? ?; by (apply bupd_ne || apply eq_refl)|intros H; by (exact H || apply passed_on_close || apply passed_on_finish)|];
  try (by intros ? ? ?; left); try (intros ? ? H; left; by eapply bupd_done).

Lemma px_step_ended p q : px_step p q -> ended_ok p -> ended_ok q.
Proof.
  intros [Hs|Hs] Hok.
  - destruct Hs as [p i data He|p i|p i]; ended_tac p i.
  - destruct Hs as [p i n src Hpc Hdead Hl|p i src Hpc Hdead Hu He|p i Hpc Hdead|p i chunk Hpc Hdead|p i chunk n Hpc Hdead
      |p i clean Hpc|p c1 c2 Hm H1 H2|p Hm].
    + ended_tac p (negb i).
    + ended_tac p i.
    + ended_tac p i.
    + ended_tac p i.
    + ended_tac p i.
    + ended_tac p i. intros j c Hj. destruct (decide (j = i)) as [->|]; [right; rewrite bupd_same; apply passed_on_finish|].
      left. by rewrite bupd_ne in Hj.
    + ended_tac p true.
    + ended_tac p false.
Qed.

Lemma reachable_ended p q : rtc px_step p q -> ended_ok p -> ended_ok q.
Proof. induction 1 as [|p r q Hs _ IH]; [done|]. intros Hok. by eapply IH, px_step_ended. Qed.

(** Where the goroutines are at rest, a copy whose source has ended is through. *)
Lemma rest_is_through p i :
  (forall q, ~ proxy_step p q) -> conn_dead (px_conn p (negb i)) || cn_eof (px_conn p (negb i)) = true ->
  exists clean, px_copy p i = CopyDone clean.
Proof.
  intros Hrest He. destruct (px_copy p i) as [|chunk|clean|clean] eqn:Hpc; [exfalso..|by eexists].
  - destruct (conn_dead (px_conn p (negb i))) eqn:Hd; [by eapply Hrest, CopyReadFails|]. simpl in He.
    destruct (conn_unread (px_conn p (negb i))) as [|x u] eqn:Hu; [by eapply Hrest, CopyEOF|].
    eapply Hrest, (CopyReads p i 1); [done..|]. rewrite Hu. simpl. lia.
  - destruct (conn_dead (px_conn p i)) eqn:Hd; [by eapply Hrest, (CopyWriteFails p i chunk 0)|by eapply Hrest, (CopyWrites p i chunk)].
  - by eapply Hrest, (CopyFinishes p i clean).
Qed.

(** C37: a forwarded connection carries every byte, in both directions, passes on the end
    of each, and ends.  However the peers, the two goroutines and the closing interleave,
    what was written to a connection is a prefix of what arrived at the other.  The
    goroutine of a direction that is through has half-closed its destination (closed it,
    if that is all it offers); a connection that can be half-closed is not closed while
    one of the goroutines runs; and while neither connection breaks, the half-close comes
    only after everything that the source sent.  Every way to go on without the peers is
    finite; where it ends, each direction whose source has ended has been passed on, with
    every byte if nothing broke, whether the other direction has ended or not; and when
    both have ended, both connections are closed. *)
Theorem proxy_relays_exactly a b c p :
  tcpForwardTo (Ok (fresh_conn b)) (fresh_conn a) = inr c -> rtc px_step c p ->
  (forall i, let dst := px_conn p i in let src := px_conn p (negb i) in
     cn_out dst `prefix_of` cn_arrived src /\
     (forall clean, px_copy p i = CopyDone clean -> (if cn_closeWriter dst then cn_shut dst else cn_closed dst) = true) /\
     (cn_closeWriter dst = true -> cn_closed dst = true -> forall j, exists clean, px_copy p j = CopyDone clean) /\
     (a = true -> b = true -> cn_failed dst = false -> cn_failed src = false ->
        (cn_shut dst = true -> cn_out dst = cn_arrived src /\ cn_eof src = true) /\
        (cn_closed dst = true -> cn_out dst = cn_arrived src /\ cn_eof src = true /\ cn_out src = cn_arrived dst /\ cn_eof dst = true))) /\
  (forall q, proxy_step p q -> (proxy_work q < proxy_work p)%nat) /\
  ((forall q, ~ proxy_step p q) -> forall i, let dst := px_conn p i in let src := px_conn p (negb i) in
     conn_dead src || cn_eof src = true ->
     (if cn_closeWriter dst then cn_shut dst else cn_closed dst) = true /\
     (conn_broken dst = false -> conn_broken src = false -> cn_out dst = cn_arrived src)) /\
  ((forall i, conn_dead (px_conn p i) || cn_eof (px_conn p i) = true) ->
     (exists q, proxy_step p q) \/ px_main p = MainDone /\ forall i, cn_closed (px_conn p i) = true).
Proof.
  intros [= <-] Hr. pose proof (proxy_reachable_ok _ _ Hr (proxy_start_ok a b)) as Hok. pose proof (closeWriter_stays _ _ Hr) as Hcw.
  assert (ended_ok p) as Hend by (apply (reachable_ended _ _ Hr); by intros []).
  split_and!; [|by apply proxy_step_works| |].
  - intros i. split; [apply direction_prefix, Hok|]. split; [apply Hend|]. split.
    { intros Hw Hcl j. apply (di_main _ _ (Hok j)). destruct (di_closed _ _ (Hok i) Hcl) as [?|Hm]; [done|]. by rewrite Hw in Hm. }
    intros -> -> Hf1 Hf2.
    assert (forall j, cn_closeWriter (px_conn p j) = true) as Hw by (intros []; by rewrite Hcw).
    assert (forall j, conn_broken (px_conn p j) = false) as Hb.
    { intros j. unfold conn_broken. rewrite Hw, andb_false_r, orb_false_r. destruct i, j; done. }
    split; [intros Hs; destruct (di_shut _ _ (Hok i) Hs) as [clean Hc]; by eapply direction_complete|].
    intros Hcl. destruct (di_closed _ _ (Hok i) Hcl) as [Hm|Hm]; [|by rewrite Hw in Hm].
    destruct (di_main _ _ (Hok i) Hm) as [c1 H1], (di_main _ _ (Hok (negb i)) Hm) as [c2 H2].
    pose proof (direction_complete p i c1 Hok Hb H1). pose proof (direction_complete p (negb i) c2 Hok Hb H2) as H3. rewrite negb_involutive in H3. tauto.
  - intros Hrest i dst src He. destruct (rest_is_through p i Hrest He) as [clean Hc]. split; [by eapply Hend|].
    intros Hb1 Hb2. eapply (direction_complete p i clean Hok); [|exact Hc]. intros j. by destruct i, j.
  - intros Hboth. destruct (proxy_progress p) as [Hm|[H|(i & _ & Hd & _ & He)]]; [right|by left|].
    + split; [done|]. intros i. pose proof (di_done _ _ (Hok i)) as H. by rewrite Hm in H.
    + pose proof (Hboth (negb i)) as H. by rewrite Hd, He in H.
Qed.

(** ** Witness *)

Lemma proxy_relays_exactly_witness :
  exists p, rtc px_step (proxy_start (fresh_conn true) (fresh_conn true)) p /\ px_copy p false = CopyRead /\
    cn_shut (px_conn p true) = true /\ cn_out (px_conn p true) = B "hi" /\ cn_closed (px_conn p true) = false.
Proof.
  set (p0 := proxy_start (fresh_conn true) (fresh_conn true)).
  set (p1 := with_conn p0 false (conn_arrive (px_conn p0 false) (B "hi"))). set (p2 := with_conn p1 false (conn_fin (px_conn p1 false))).
  set (p3 := with_copy (with_conn p2 false (conn_read (px_conn p2 false) 2)) true (CopyWrite (B "hi"))).
  set (p4 := with_copy (with_conn p3 true (conn_write (px_conn p3 true) (B "hi"))) true CopyRead).
  set (p5 := with_copy p4 true (CopyEnded true)).
  set (p6 := with_copy (with_conn p5 true (conn_finish (px_conn p5 true))) true (CopyDone true)).
  assert (rtc px_step p0 p6) as Hr.
  { eapply rtc_l; [left; by apply (PeerData p0 false (B "hi"))|]. eapply rtc_l; [left; apply (PeerFin p1 false)|].
    eapply rtc_l; [right; apply (CopyReads p2 true 2); [done|done|simpl; lia]|]. eapply rtc_l; [right; by apply (CopyWrites p3 true (B "hi"))|].
    eapply rtc_l; [right; by apply (CopyEOF p4 true)|]. apply rtc_once. right. by apply (CopyFinishes p5 true true). }
  exists p6. split; [exact Hr|]. destruct (proxy_relays_exactly true true p0 p6 eq_refl Hr) as (H & _).
  destruct (H true) as (_ & Hd & _ & H'). destruct (H' eq_refl eq_refl eq_refl eq_refl) as [Hs _].
  specialize (Hd true eq_refl). change (cn_shut (px_conn p6 true) = true) in Hd.
  split; [reflexivity|]. split; [exact Hd|]. split; [|reflexivity]. destruct (Hs Hd) as [Ho _]. exact Ho.
Defined.

End Proxy.

(** * Standard input to standard output *)

Module Netcat.

(** The goroutine that sends the client's input, the client, and the server's handler. *)
Inductive up_pc : Type := UpCopying | UpShut | UpFailed.
Inductive client_pc : Type := ClientCopying | ClientExited (code : Z).
Inductive server_pc : Type := ServerCopying | ServerClosed | ServerExited (code : Z).

(** All that came on standard input, how it ended ([Some false] is a read error) and how
    much of it was sent; the connection: what was sent and whether its end was, how much
    the server read, whether the server closed it, and whether it broke; the server's
    standard output. *)
Record pipe : Type := MkPipe {
  pi_input : list byte;
  pi_input_end : option bool;
  pi_nread : nat;
  pi_up : up_pc;
  pi_sent : list byte;
  pi_fin : bool;
  pi_got : nat;
  pi_down_fin : bool;
  pi_broken : bool;
  pi_stdout : list byte;
  pi_stdout_broken : bool;
  pi_client : client_pc;
  pi_server : server_pc;
}.
Definition pipe_start : pipe := MkPipe [] None 0 UpCopying [] false 0 false false [] false ClientCopying ServerCopying.
Definition pi_unsent (p : pipe) : list byte := drop (pi_nread p) (pi_input p).
Definition pi_ungot (p : pipe) : list byte := drop (pi_got p) (pi_sent p).

(** What happens to the two processes. *)
Definition with_input (p : pipe) (data : list byte) (e : option bool) : pipe :=
  MkPipe (pi_input p ++ data) e (pi_nread p) (pi_up p) (pi_sent p) (pi_fin p) (pi_got p) (pi_down_fin p) (pi_broken p)
    (pi_stdout p) (pi_stdout_broken p) (pi_client p) (pi_server p).
Definition with_breaks (p : pipe) (conn stdout : bool) : pipe :=
  MkPipe (pi_input p) (pi_input_end p) (pi_nread p) (pi_up p) (pi_sent p) (pi_fin p) (pi_got p) (pi_down_fin p)
    (pi_broken p || conn) (pi_stdout p) (pi_stdout_broken p || stdout) (pi_client p) (pi_server p).
Inductive pipe_env : pipe -> pipe -> Prop :=
  | StdinData p data : pi_input_end p = None -> pipe_env p (with_input p data None)
  | StdinEnds p ok : pi_input_end p = None -> pipe_env p (with_input p [] (Some ok))
  | ConnBreaks p : pipe_env p (with_breaks p true false)
  | StdoutBreaks p : pipe_env p (with_breaks p false true).

Definition with_up (p : pipe) (n : nat) (up : up_pc) (fin : bool) (client : client_pc) : pipe :=
  MkPipe (pi_input p) (pi_input_end p) (pi_nread p + n) up (pi_sent p ++ take n (pi_unsent p)) fin (pi_got p) (pi_down_fin p) (pi_broken p)
    (pi_stdout p) (pi_stdout_broken p) client (pi_server p).
Definition with_server (p : pipe) (n : nat) (out : list byte) (down_fin : bool) (server : server_pc) : pipe :=
  MkPipe (pi_input p) (pi_input_end p) (pi_nread p) (pi_up p) (pi_sent p) (pi_fin p) (pi_got p + n) down_fin (pi_broken p)
    (pi_stdout p ++ out) (pi_stdout_broken p) (pi_client p) server.
Definition with_client (p : pipe) (code : Z) : pipe := with_up p 0 (pi_up p) (pi_fin p) (ClientExited code).

Section variant.
(** Which command: [false] the DERP transport's, [true] the MASQUE one. *)
Context (masque : bool).

(** src/cmd/tailcat/masquecat_cli.go:118-128 [masqueClientMode]; with the DERP transport
    every error ends the process *)
Definition up_fails (p : pipe) : pipe :=
  if masque then with_up p 0 UpFailed (pi_fin p) (pi_client p) else with_up p 0 UpFailed (pi_fin p) (ClientExited 1).

(** src/cmd/tailcat/masquecat_cli.go:342-354 [masqueServer], after the copy; the connection
    and standard output are closed, unless the error ended the process *)
Definition copy_fails (p : pipe) (n : nat) (out : list byte) : pipe :=
  if masque then with_server p n out true ServerClosed else with_server p n out (pi_down_fin p) (ServerExited 1).

(** src/cmd/tailcat/tailcat.go:823-854 [clientMode], masquecat_cli.go:118-137, and the
    server's handler, src/cmd/tailcat/tailcat.go:1227-1250 [server] *)
Inductive pipe_step : pipe -> pipe -> Prop :=
  | ClientSends p n :
      pi_client p = ClientCopying -> pi_up p = UpCopying -> pi_broken p = false -> (0 < n <= length (pi_unsent p))%nat ->
      pipe_step p (with_up p n UpCopying (pi_fin p) ClientCopying)
  | ClientSendFails p :
      pi_client p = ClientCopying -> pi_up p = UpCopying -> pi_broken p = true -> pi_unsent p <> [] -> pipe_step p (up_fails p)
  | ClientStdinFails p :
      pi_client p = ClientCopying -> pi_up p = UpCopying -> pi_unsent p = [] -> pi_input_end p = Some false -> pipe_step p (up_fails p)
  | ClientShuts p :
      pi_client p = ClientCopying -> pi_up p = UpCopying -> pi_unsent p = [] -> pi_input_end p = Some true -> pi_broken p = false ->
      pipe_step p (with_up p 0 UpShut true ClientCopying)
  | ClientShutFails p :
      pi_client p = ClientCopying -> pi_up p = UpCopying -> pi_unsent p = [] -> pi_input_end p = Some true -> pi_broken p = true ->
      pipe_step p (up_fails p)
  | ServerPrints p n :
      pi_server p = ServerCopying -> pi_broken p = false -> pi_stdout_broken p = false -> (0 < n <= length (pi_ungot p))%nat ->
      pipe_step p (with_server p n (take n (pi_ungot p)) (pi_down_fin p) ServerCopying)
  | ServerPrintFails p n k :
      pi_server p = ServerCopying -> pi_broken p = false -> pi_stdout_broken p = true -> (0 < n <= length (pi_ungot p))%nat ->
      pipe_step p (copy_fails p n (take k (take n (pi_ungot p))))
  | ServerReadFails p :
      pi_server p = ServerCopying -> pi_broken p = true -> pipe_step p (copy_fails p 0 [])
  | ServerEOF p :
      pi_server p = ServerCopying -> pi_broken p = false -> pi_ungot p = [] -> pi_fin p = true ->
      pipe_step p (with_server p 0 [] true ServerClosed)
  | ServerExits p :
      pi_server p = ServerClosed -> pipe_step p (with_server p 0 [] (pi_down_fin p) (ServerExited 0))
  | ClientEOF p :
      pi_client p = ClientCopying -> pi_broken p = false -> pi_down_fin p = true -> pipe_step p (with_client p 0)
  | ClientReadFails p :
      pi_client p = ClientCopying -> pi_broken p = true -> pipe_step p (with_client p 1).

Definition pp_step (p q : pipe) : Prop := pipe_env p q \/ pipe_step p q.

(** ** Properties *)

Record pipe_ok (p : pipe) : Prop := {
  po_nread : (pi_nread p <= length (pi_input p))%nat;
  po_sent : pi_sent p = take (pi_nread p) (pi_input p);
  po_fin : pi_fin p = true -> pi_input_end p = Some true /\ pi_sent p = pi_input p;
  po_up : pi_up p = UpCopying -> pi_fin p = false;
  po_copying : pi_server p = ServerCopying ->
    pi_down_fin p = false /\ (pi_got p <= length (pi_sent p))%nat /\ pi_stdout p = take (pi_got p) (pi_sent p);
  po_down : pi_down_fin p = true ->
    (pi_fin p = true /\ pi_stdout p = pi_sent p) \/ masque = true /\ (pi_broken p = true \/ pi_stdout_broken p = true);
  po_closed : pi_server p = ServerClosed -> pi_down_fin p = true;
  po_client : pi_client p = ClientExited 0 ->
    pi_down_fin p = true /\ (pi_fin p = true /\ pi_stdout p = pi_sent p \/ masque = true /\ pi_stdout_broken p = true);
}.

Lemma pipe_start_ok : pipe_ok pipe_start.
Proof. split; simpl; done || lia. Qed.

Lemma with_input_ok p data e : pi_input_end p = None -> pipe_ok p -> pipe_ok (with_input p data e).
Proof.
  intros He [Hn Hs Hf Hu Hc Hd Hcl Hx]. assert (pi_fin p = false) as Hfin.
  { destruct (pi_fin p); [|done]. destruct (Hf eq_refl) as [H _]. congruence. }
  split; cbn; try done; [rewrite length_app; lia|by rewrite take_app_le by lia|by rewrite Hfin].
Qed.
Lemma with_breaks_ok p conn stdout : pipe_ok p -> pipe_ok (with_breaks p conn stdout).
Proof.
  intros [Hn Hs Hf Hu Hc Hd Hcl Hx]. split; cbn; try done.
  - intros [H|[Hm [H|H]]]%Hd; [by left|right; rewrite H; by auto..].
  - intros [Hdn [H|[Hm H]]]%Hx; (split; [done|]); [by left|right; by rewrite H].
Qed.

(** Sending, as far as the sender is not through. *)
Lemma with_up_ok p n up fin client :
  pipe_ok p -> pi_up p = UpCopying -> (n <= length (pi_unsent p))%nat ->
  (fin = true -> pi_input_end p = Some true /\ n = length (pi_unsent p)) -> (up = UpCopying -> fin = false) -> client <> ClientExited 0 ->
  pipe_ok (with_up p n up fin client).
Proof.
  intros [Hn Hs Hf Hu Hc Hd Hcl Hx] Hup Hl Hfin Hcop Hcli. specialize (Hu Hup). unfold pi_unsent in *. rewrite length_drop in *.
  assert (pi_sent p ++ take n (drop (pi_nread p) (pi_input p)) = take (pi_nread p + n) (pi_input p)) as Hsent.
  { by rewrite Hs, take_take_drop. }
  split; cbn; try done; [lia| | | ].
  - intros [H1 H2]%Hfin. split; [done|]. unfold pi_unsent. rewrite Hsent. apply take_ge. lia.
  - intros (H1 & H2 & H3)%Hc. split_and!; [done|rewrite length_app; lia|]. rewrite H3. by rewrite take_app_le by done.
  - intros H. destruct (Hd H) as [[? _]|?]; [congruence|by right].
Qed.
Lemma with_server_ok p n out down_fin server :
  pipe_ok p -> pi_server p = ServerCopying ->
  (server = ServerCopying -> down_fin = false /\ (n <= length (pi_ungot p))%nat /\ out = take n (pi_ungot p)) ->
  (down_fin = true -> (pi_fin p = true /\ pi_stdout p ++ out = pi_sent p) \/ masque = true /\ (pi_broken p = true \/ pi_stdout_broken p = true)) ->
  (server = ServerClosed -> down_fin = true) -> pipe_ok (with_server p n out down_fin server).
Proof.
  intros [Hn Hs Hf Hu Hc Hd Hcl Hx] Hsv Hcop Hdn Hclo. destruct (Hc Hsv) as (H1 & H2 & H3). unfold pi_ungot in *. rewrite length_drop in Hcop.
  split; cbn; try done.
  - intros (H4 & H5 & H6)%Hcop. split_and!; [done|lia|]. by rewrite H3, H6, take_take_drop.
  - intros [H _]%Hx. congruence.
Qed.

(** The end of a copy, and what is done with a connection that was closed. *)
Lemma up_fails_ok p : pi_up p = UpCopying -> pi_client p = ClientCopying -> pipe_ok p -> pipe_ok (up_fails p).
Proof.
  intros Hup Hcl Hok. pose proof (po_up _ Hok Hup) as Hf. unfold up_fails. rewrite Hf, Hcl.
  destruct masque; apply with_up_ok; done || lia.
Qed.
Lemma copy_fails_ok p n out :
  pi_server p = ServerCopying -> pi_broken p = true \/ pi_stdout_broken p = true -> pipe_ok p -> pipe_ok (copy_fails p n out).
Proof.
  intros Hsv Hb Hok. destruct (po_copying _ Hok Hsv) as (Hdn & _). unfold copy_fails. rewrite Hdn.
  destruct masque eqn:Em; apply with_server_ok; try done. intros _. right. by rewrite Em.
Qed.
Lemma with_client_ok p code :
  pipe_ok p -> (code = 0 -> pi_broken p = false /\ pi_down_fin p = true) -> pipe_ok (with_client p code).
Proof.
  intros [Hn Hs Hf Hu Hc Hd Hcl Hx] Hcode. unfold with_client, with_up. rewrite Nat.add_0_r, take_0, app_nil_r.
  split; cbn; try done. intros [= ->]. destruct (Hcode eq_refl) as [Hb Hdn]. split; [done|].
  destruct (Hd Hdn) as [?|[? [?|?]]]; [by left|congruence|by right].
Qed.
Lemma server_closed_ok p server :
  pipe_ok p -> pi_server p <> ServerCopying -> server <> ServerCopying -> pi_down_fin p = true ->
  pipe_ok (with_server p 0 [] (pi_down_fin p) server).
Proof. intros [Hn Hs Hf Hu Hc Hd Hcl Hx] Hsv Hne Hdn. split; cbn; rewrite ?app_nil_r; done. Qed.

Lemma pipe_step_ok p q : pp_step p q -> pipe_ok p -> pipe_ok q.
Proof.
  intros [Hs|Hs] Hok; [destruct Hs; [by apply with_input_ok|by apply with_input_ok|by apply with_breaks_ok..]|].
  destruct Hs as [p n Hcl Hup Hb Hl|p Hcl Hup Hb Hu|p Hcl Hup Hu He|p Hcl Hup Hu He Hb|p Hcl Hup Hu He Hb
                 |p n Hsv Hb Ho Hl|p n k Hsv Hb Ho Hl|p Hsv Hb|p Hsv Hb Hu Hf|p Hsv|p Hcl Hb Hd|p Hcl Hb].
  - rewrite (po_up _ Hok Hup). apply with_up_ok; done || lia.
  - by apply up_fails_ok.
  - by apply up_fails_ok.
  - apply with_up_ok; try done; [lia|]. intros _. by rewrite Hu.
  - by apply up_fails_ok.
  - destruct (po_copying _ Hok Hsv) as (Hdn & _). apply with_server_ok; [done..| |by rewrite Hdn|done]. intros _. split_and!; [done|lia|done].
  - apply copy_fails_ok; auto.
  - apply copy_fails_ok; auto.
  - destruct (po_copying _ Hok Hsv) as (_ & _ & H). apply with_server_ok; try done. intros _. left. split; [done|].
    rewrite app_nil_r, H. rewrite <- (take_drop (pi_got p) (pi_sent p)) at 2. fold (pi_ungot p). by rewrite Hu, app_nil_r.
  - apply server_closed_ok; [done|congruence|done|by apply po_closed].
  - by apply with_client_ok.
  - by apply with_client_ok.
Qed.

Lemma pipe_reachable_ok p : rtc pp_step pipe_start p -> pipe_ok p.
Proof.
  intros Hr. assert (forall a b, rtc pp_step a b -> pipe_ok a -> pipe_ok b) as Hgen; [|by apply (Hgen _ _ Hr), pipe_start_ok].
  clear. intros a b Hr. induction Hr as [|a b c Hs Hr IH]; [done|]. intros Hok. by apply IH, (pipe_step_ok a).
Qed.

(** Nothing fails on its own. *)
Record pipe_blame (p : pipe) : Prop := {
  pb_shut : pi_up p = UpShut -> pi_fin p = true;
  pb_up : pi_up p = UpFailed -> pi_broken p = true \/ pi_input_end p = Some false;
  pb_client : forall c, pi_client p = ClientExited c -> c = 0 \/ pi_broken p = true \/ pi_input_end p = Some false;
  pb_server : forall c, pi_server p = ServerExited c ->
    c = 0 /\ pi_down_fin p = true \/ pi_broken p = true \/ pi_stdout_broken p = true;
}.

Lemma pipe_step_blame p q : pp_step p q -> pipe_ok p -> pipe_blame p -> pipe_blame q.
Proof.
  intros Hs Hok [B1 B2 B3 B4]. pose proof (po_closed _ Hok) as Hclo. destruct Hs as [Hs|Hs]; destruct Hs; unfold up_fails, copy_fails; try destruct masque.
  all: split; cbn [with_input with_breaks with_client with_up with_server pi_up pi_fin pi_broken pi_input_end pi_client pi_server pi_down_fin pi_stdout_broken].
  all: try done; try (intros; simplify_eq; tauto).
  all: try (intros c Hc; specialize (B3 c Hc)); try (intros c Hc; specialize (B4 c Hc)); try (intros Hc; specialize (B2 Hc)); try (destruct ok); 
    rewrite ?orb_false_r, ?orb_true_r; try tauto; try intuition congruence.
Qed.

Lemma pipe_reachable_blame p : rtc pp_step pipe_start p -> pipe_blame p.
Proof.
  intros Hr. assert (forall a b, rtc pp_step a b -> pipe_ok a -> pipe_blame a -> pipe_blame b) as Hgen.
  { clear. intros a b Hr. induction Hr as [|a b c Hs Hr IH]; [done|]. intros Hok Hbl.
    apply IH; [by apply (pipe_step_ok a)|by apply (pipe_step_blame a)]. }
  apply (Hgen _ _ Hr pipe_start_ok). by split.
Qed.

Lemma pipe_success p :
  pipe_ok p -> pi_client p = ClientExited 0 -> masque = false \/ pi_stdout_broken p = false ->
  pi_stdout p = pi_input p /\ pi_input_end p = Some true.
Proof.
  intros Hok Hcl Hv. destruct (po_client _ Hok Hcl) as [_ [[Hf ->]|[Hm Hb]]]; [|destruct Hv; congruence].
  by destruct (po_fin _ Hok Hf) as [? ->].
Qed.

(** What the processes still have to do. *)
Definition pipe_work (p : pipe) : nat :=
  4 * length (pi_unsent p) + 2 * length (pi_ungot p) +
  match pi_up p with UpCopying => 1 | _ => 0 end + match pi_client p with ClientCopying => 3 | _ => 0 end +
  match pi_server p with ServerCopying => 2 | ServerClosed => 1 | _ => 0 end.

Lemma pipe_step_works p q : pipe_ok p -> pipe_step p q -> (pipe_work q < pipe_work p)%nat.
Proof.
  intros Hok Hs. assert (forall n, (n <= length (pi_unsent p))%nat -> length (pi_unsent p) = (length (pi_input p) - pi_nread p)%nat) as Hun.
  { intros n _. unfold pi_unsent. by rewrite length_drop. }
  destruct Hs as [p n Hcl Hup Hb Hl|p Hcl Hup Hb Hu|p Hcl Hup Hu He|p Hcl Hup Hu He Hb|p Hcl Hup Hu He Hb
                 |p n Hsv Hb Ho Hl|p n k Hsv Hb Ho Hl|p Hsv Hb|p Hsv Hb Hu Hf|p Hsv|p Hcl Hb Hd|p Hcl Hb];
    unfold up_fails, copy_fails; try destruct masque; unfold pipe_work, with_client, pi_unsent, pi_ungot in *; cbn [with_up with_server
      pi_input pi_nread pi_sent pi_got pi_up pi_client pi_server]; rewrite ?Hcl, ?Hup, ?Hsv; rewrite ?length_app, ?length_drop, ?length_app, ?length_take, ?length_drop in *;
    try destruct (pi_up p); try destruct (pi_client p); try destruct (pi_server p); lia.
Qed.

(** While nothing breaks, a pipe whose input has ended goes on until both processes have
    exited with success. *)
Lemma pipe_progress p :
  pipe_ok p -> pipe_blame p -> pi_input_end p = Some true -> pi_broken p = false -> pi_stdout_broken p = false ->
  (exists q, pipe_step p q) \/ pi_client p = ClientExited 0 /\ pi_server p = ServerExited 0.
Proof.
  intros Hok [B1 B2 B3 B4] He Hb Ho. rewrite Hb, He, Ho in *.
  assert (pi_down_fin p = true -> pi_server p = ServerCopying -> False) as Hdn.
  { intros H Hsv. destruct (po_copying _ Hok Hsv) as [H' _]. congruence. }
  destruct (pi_client p) as [|c] eqn:Hcl.
  - left. destruct (pi_up p) eqn:Hup.
    + destruct (pi_unsent p) as [|b u] eqn:Hu; [eexists; by apply ClientShuts|]. eexists. apply (ClientSends p 1); [done..|]. rewrite Hu. simpl. lia.
    + destruct (pi_server p) as [| |c] eqn:Hsv; [|eexists; by apply ServerExits|eexists; apply ClientEOF; [done..|]].
      * destruct (pi_ungot p) as [|b u] eqn:Hu; [eexists; by apply ServerEOF; auto|].
        eexists. apply (ServerPrints p 1); [done..|]. rewrite Hu. simpl. lia.
      * destruct (B4 c eq_refl) as [[_ ?]|[?|?]]; done.
    + by destruct B2.
  - assert (c = 0) as -> by (destruct (B3 c eq_refl) as [?|[?|?]]; done). destruct (po_client _ Hok Hcl) as [Hd _].
    destruct (pi_server p) as [| |c] eqn:Hsv; [by destruct (Hdn Hd)|left; eexists; by apply ServerExits|right].
    destruct (B4 c eq_refl) as [[-> _]|[?|?]]; done.
Qed.

(** C38: netcat use loses nothing.  However the two processes interleave, a client that exits
    with success has had all of its standard input printed by the server, unless it was the
    MASQUE command's server and its standard output broke.  Once the input has ended, and
    nothing breaks, every way to go on is finite, and leads to both exiting with success. *)
Theorem pipe_delivers p :
  rtc pp_step pipe_start p ->
  (pi_client p = ClientExited 0 -> masque = false \/ pi_stdout_broken p = false ->
     pi_stdout p = pi_input p /\ pi_input_end p = Some true) /\
  (forall q, pipe_step p q -> (pipe_work q < pipe_work p)%nat) /\
  (pi_input_end p = Some true -> pi_broken p = false -> pi_stdout_broken p = false ->
     (exists q, pipe_step p q) \/ pi_client p = ClientExited 0 /\ pi_server p = ServerExited 0 /\ pi_stdout p = pi_input p).
Proof.
  intros Hr. pose proof (pipe_reachable_ok p Hr) as Hok. split_and!; [|intros q; by apply pipe_step_works|].
  - by apply pipe_success.
  - intros He Hb Ho. destruct (pipe_progress p Hok (pipe_reachable_blame p Hr) He Hb Ho) as [H|[H1 H2]]; [by left|right].
    split_and!; [done|done|]. by apply (pipe_success p Hok H1); right.
Qed.

End variant.

(** The MASQUE command's server logs that it could not print and closes as after a
    success, so that both processes exit with success although the input is lost. *)
Lemma masque_server_loses_silently :
  exists p, rtc (pp_step true) pipe_start p /\ pi_client p = ClientExited 0 /\ pi_server p = ServerExited 0 /\
    pi_input p = B "x" /\ pi_stdout p = [].
Proof.
  eexists. split.
  { eapply rtc_l; [left; by apply (StdinData _ (B "x"))|]. eapply rtc_l; [right; apply (ClientSends true _ 1); [done..|simpl; lia]|].
    eapply rtc_l; [left; apply StdoutBreaks|]. eapply rtc_l; [right; apply (ServerPrintFails true _ 1 0); [done..|simpl; lia]|].
    eapply rtc_l; [right; by apply ClientEOF|]. apply rtc_once. right. by apply ServerExits. }
  done.
Qed.

(** Its client goes on without its input when that cannot be read, and tells the server
    nothing: both wait for ever.  The DERP transport's client exits. *)
Lemma masque_client_hangs_without_input :
  exists p, rtc (pp_step true) pipe_start p /\ pi_client p = ClientCopying /\ pi_server p = ServerCopying /\
    pi_broken p = false /\ pi_stdout_broken p = false /\ forall q, ~ pipe_step true p q.
Proof.
  eexists. split.
  { eapply rtc_l; [left; by apply (StdinEnds _ false)|]. apply rtc_once. right. by apply ClientStdinFails. }
  split_and!; try done. intros q Hs. inversion Hs; subst; simpl in *; done || lia.
Qed.

Lemma pipe_delivers_witness :
  exists p, rtc (pp_step true) pipe_start p /\ pi_client p = ClientExited 0 /\ pi_stdout p = B "hi" /\ pi_input p = B "hi".
Proof.
  set (p1 := with_input pipe_start (B "hi") None). set (p2 := with_input p1 [] (Some true)). set (p3 := with_up p2 2 UpCopying false ClientCopying).
  set (p4 := with_up p3 0 UpShut true ClientCopying). set (p5 := with_server p4 2 (B "hi") false ServerCopying).
  set (p6 := with_server p5 0 [] true ServerClosed). set (p7 := with_client p6 0).
  assert (rtc (pp_step true) pipe_start p7) as Hr.
  { eapply rtc_l; [left; by apply (StdinData pipe_start (B "hi"))|]. eapply rtc_l; [left; by apply (StdinEnds p1 true)|].
    eapply rtc_l; [right; apply (ClientSends true p2 2); [done..|simpl; lia]|]. eapply rtc_l; [right; by apply (ClientShuts true p3)|].
    eapply rtc_l; [right; apply (ServerPrints true p4 2); [done..|simpl; lia]|]. eapply rtc_l; [right; by apply (ServerEOF true p5)|].
    apply rtc_once. right. by apply (ClientEOF true p6). }
  exists p7. split; [exact Hr|]. split; [reflexivity|]. split; [|reflexivity].
  destruct (pipe_delivers true p7 Hr) as (H & _ & _). destruct (H eq_refl (or_intror eq_refl)) as [Ho _]. exact Ho.
Defined.
End Netcat.
