(* ===== verification/Remote.v ===== *)
(** Remote: the client commands.

    Models what the sub-commands of src/cmd/tailcat make of their arguments: the root,
    serve and recv commands, netcat use, ping, socks, ssh, cp and ls.  Running OpenSSH,
    the shell that OpenSSH runs, the resolver and net/netip's parser are arguments. *)

From S2P Require Import Prelude GoStd Keys Packet Fragment Token Bind Core Files Cli.
From Stdlib Require Import Strings.Byte.
Import Netip.

(** * What a command does *)

(** The commands' effects: running a server with its --serve specification and --files
    value, connecting to a token's server at a destination, or failing. *)
Inductive cli_action : Type :=
  | RunServer (spec files : gostring)
  | RunClient (masque : bool) (blob dst : gostring)
  | ShowHelp
  | UsageError
  | FatalError (e : gerror).

(** src/cmd/tailcat/tailcat.go:636-656 [addrBlobArg]; [LookupTXT] is the resolver, [Err]
    the end of the process *)
Definition addrBlobArg (LookupTXT : gostring -> result (list gostring)) (arg : gostring) : result gostring :=
  if Strings.ContainsByte arg "."%byte then
    match LookupTXT arg with
    | Err e => Err (ErrWrap "looking up TXT record for %q: %w" e)
    | Ok txts =>
        match omap (fun txt => match Strings.CutPrefix txt (B "tailcat=") with (suf, true) => Some (Strings.TrimSpace suf) | _ => None end) txts with
        | blob :: _ => Ok blob
        | [] => Err (ErrNew "no tailcat= TXT record found for %q")
        end
    end
  else if negb (Strings.HasPrefix arg (B "tc")) && negb (Strings.HasPrefix arg (B "mc")) then
    Err (ErrNew "argument %q is neither a tc/mc-prefixed address blob nor a DNS name")
  else Ok arg.

(** src/cmd/tailcat/tailcat.go:248-272 [newRootCommand], of the root command *)
Definition root_exec (LookupTXT : gostring -> result (list gostring)) (flagServe flagFiles : gostring) (args : list gostring) : cli_action :=
  match args with
  | [] => RunServer flagServe flagFiles
  | arg :: rest =>
      if bool_decide (arg = B "help") then ShowHelp
      else if negb (bool_decide (flagServe = [])) then UsageError
      else
        match rest with
        | _ :: _ :: _ => UsageError
        | _ =>
            match addrBlobArg LookupTXT arg with
            | Err e => FatalError e
            | Ok blob => RunClient (isMasqueBlob blob) blob (default [] (head rest))
            end
        end
  end.

(** src/cmd/tailcat/tailcat.go:137-147 [newRootCommand], of the serve command *)
Definition serve_exec (flagServe flagFiles : gostring) (args : list gostring) : cli_action :=
  match args with
  | [] => RunServer flagServe flagFiles
  | _ => if negb (bool_decide (flagServe = [])) then UsageError else RunServer (Strings.join (B ",") args) flagFiles
  end.

(** src/cmd/tailcat/tailcat.go:175-189 [newRootCommand], of the recv command *)
Definition recv_exec (flagFiles : gostring) (args : list gostring) : cli_action :=
  match args with
  | _ :: _ :: _ => UsageError
  | _ => if negb (bool_decide (flagFiles = [])) then UsageError else RunServer [] (default (B ".") (head args) ++ B ":wo")
  end.

(** * Destinations *)

(** What a client dials: a port of the server, or an address behind it. *)
Inductive cli_dest : Type := DestPort (port : Z) | DestAddr (a : Addr) (port : Z).

Section destinations.
(** [netip.ParseAddrPort] and [net.LookupPort] with "tcp". *)
Context (ParseAddrPort : gostring -> option (Addr * Z)) (LookupPort : gostring -> result Z).

(** src/cmd/tailcat/tailcat.go:791-807 [clientMode]; [None] is a usage error *)
Definition client_dest (optDest : gostring) : option cli_dest :=
  if bool_decide (optDest = []) then Some (DestPort 1)
  else if negb (Strings.ContainsByte optDest ":"%byte) then
    match Strconv.ParseUint16 optDest with Ok port => Some (DestPort port) | Err _ => None end
  else (fun '(a, p) => DestAddr a p) <$> ParseAddrPort optDest.

(** src/cmd/tailcat/masquecat_cli.go:80-99 [masqueClientMode] *)
Definition masque_client_dest (optDest : gostring) : option cli_dest :=
  if bool_decide (optDest = []) then Some (DestPort 1)
  else if negb (Strings.ContainsByte optDest ":"%byte) then
    match LookupPort optDest with
    | Ok port => if (port <? 0) || (65535 <? port) then None else Some (DestPort (u16 port))
    | Err _ => None
    end
  else (fun '(a, p) => DestAddr a p) <$> ParseAddrPort optDest.
End destinations.

(** * Ping *)

Section ping.

(** One round: how long the ping took, and its outcome; for a pong, whether it came over a
    direct path.  Then how much longer than asked the process slept. *)
Record ping_round : Type := PingRound { pr_took : Z; pr_outcome : result bool; pr_late : Z }.
Inductive ping_end : Type := PingDone | PingFailed (e : gerror).
(** How a ping command ended, the pongs it printed, and when. *)
Record ping_result : Type := PingResult { pg_end : ping_end; pg_pongs : list bool; pg_at : Z }.

Definition second : Z := 1000000000.
Definition no_direct_path : gerror := ErrNew "no direct path to the server after %v".

(** src/cmd/tailcat/tailcat.go:760-785 [clientPingMode]; [None] when the fuel is used up,
    [deadlineExceeded] tells which errors are the context's *)
Fixpoint client_ping (deadlineExceeded : gerror -> bool) (untilDirect : bool) (deadline : Z) (rounds : nat -> ping_round)
    (fuel i : nat) (now : Z) (pongs : list bool) : option ping_result :=
  match fuel with
  | O => None
  | S fuel =>
      let r := rounds i in
      let after := now + pr_took r in
      match pr_outcome r with
      | Err e => Some (PingResult (PingFailed (if untilDirect && deadlineExceeded e then no_direct_path else ErrWrap "ping: %v" e)) pongs after)
      | Ok viaDirect =>
          let pongs := pongs ++ [viaDirect] in
          if viaDirect || negb untilDirect then Some (PingResult PingDone pongs after)
          else if deadline - after <? second / 2 then Some (PingResult (PingFailed no_direct_path) pongs after)
          else client_ping deadlineExceeded untilDirect deadline rounds fuel (S i) (after + Z.max 0 (second - pr_took r) + pr_late r) pongs
      end
  end.

(** src/cmd/tailcat/masquecat_cli.go:142-172 [masqueClientPingMode] *)
Fixpoint masque_ping (untilDirect : bool) (deadline : Z) (rounds : nat -> ping_round) (fuel i : nat) (now : Z) (pongs : list bool)
    : option ping_result :=
  match fuel with
  | O => None
  | S fuel =>
      let r := rounds i in
      let after := now + pr_took r in
      match pr_outcome r with
      | Err e =>
          if negb untilDirect then Some (PingResult (PingFailed (ErrWrap "ping: %w" e)) pongs after)
          else
            let remaining := deadline - after in
            if remaining <=? 0 then Some (PingResult (PingFailed (ErrWrap "no direct MASQUE path to the server after %v: %w" e)) pongs after)
            else masque_ping untilDirect deadline rounds fuel (S i)
                   (after + Z.max 0 (Z.min remaining (second - pr_took r)) + pr_late r) pongs
      | Ok viaDirect =>
          let pongs := pongs ++ [viaDirect] in
          if negb untilDirect || viaDirect then Some (PingResult PingDone pongs after)
          else if deadline - after <? second / 2 then Some (PingResult (PingFailed no_direct_path) pongs after)
          else masque_ping untilDirect deadline rounds fuel (S i) (after + Z.max 0 (second - pr_took r) + pr_late r) pongs
      end
  end.
End ping.

(** * The SOCKS proxy's clients *)

Section socks_clients.
Context `{K : KeyOps} {T : TokenOps K}.
Context (ParseConnBlobOk : gostring -> bool) (ParseAddr : gostring -> option Addr).

(** The clients by their tokens, each a number in the order of creation with its
    transport. *)
Record socks_state : Type := SocksState { so_clients : gmap gostring nat; so_made : list (gostring * bool) }.

(** src/cmd/tailcat/transport_client.go:23-28 [newCLITCPClient] *)
Definition newCLITCPClient (s : socks_state) (blob : gostring) : socks_state * nat :=
  (SocksState (so_clients s) (so_made s ++ [(blob, isMasqueBlob blob)]), length (so_made s)).

(** src/cmd/tailcat/tailcat.go:916-925 [clientSOCKSMode, clientForBlob] *)
Definition clientForBlob (s : socks_state) (b : gostring) : socks_state * nat :=
  match so_clients s !! b with
  | Some c => (s, c)
  | None => let '(s, c) := newCLITCPClient s b in (SocksState (<[b := c]> (so_clients s)) (so_made s), c)
  end.

(** src/cmd/tailcat/tailcat.go:901-915 [clientSOCKSMode] *)
Definition socks_start (blob : gostring) : socks_state * option nat :=
  if bool_decide (blob = []) then (SocksState ∅ [], None)
  else let '(s, c) := newCLITCPClient (SocksState ∅ []) blob in (SocksState {[blob := c]} (so_made s), Some c).

(** src/cmd/tailcat/tailcat.go:882-895 [clientSOCKSMode]: the token, and the program *)
Definition socks_args (LookupTXT : gostring -> result (list gostring)) (LookPath : gostring -> bool) (args : list gostring)
    : result (gostring * list gostring) :=
  match args with
  | [] => Ok ([], [])
  | arg :: rest =>
      if validCLIConnBlob ParseConnBlobOk arg then Ok (arg, rest)
      else if Strings.ContainsByte arg "."%byte && negb (LookPath arg) then
        let? blob := addrBlobArg LookupTXT arg in Ok (blob, rest)
      else Ok ([], args)
  end.

(** src/cmd/tailcat/tailcat.go:933-948 [clientSOCKSMode, Dialer]: the client, and what it
    dials *)
Definition socks_dial (cl : option nat) (lookup : gostring -> result (list Addr)) (s : socks_state) (addr : gostring)
    : socks_state * result (nat * cli_dest) :=
  match classifySOCKSAddr ParseConnBlobOk ParseAddr lookup addr with
  | Err e => (s, Err e)
  | Ok (ToBlob blob port) => let '(s, c) := clientForBlob s blob in (s, Ok (c, DestPort port))
  | Ok dst =>
      match cl with
      | None => (s, Err (ErrNew "no address blob argument was given to tailcat socks; only address blob hostnames can be dialed"))
      | Some c => (s, Ok (c, match dst with ToDst a port => DestAddr a port | ToServer port | ToBlob _ port => DestPort port end))
      end
  end.
End socks_clients.

(** * ssh, cp and ls *)

Definition dquote : byte := x22.
Definition backslash : byte := x5c.

(** Go's %q of one byte; bytes from 128 are taken to belong to printable runes *)
Definition quote_byte (b : byte) : gostring :=
  if bool_decide (b = dquote) || bool_decide (b = backslash) then [backslash; b]
  else if bool_decide (b = x07) then backslash :: B "a"
  else if bool_decide (b = x08) then backslash :: B "b"
  else if bool_decide (b = x0c) then backslash :: B "f"
  else if bool_decide (b = x0a) then backslash :: B "n"
  else if bool_decide (b = x0d) then backslash :: B "r"
  else if bool_decide (b = x09) then backslash :: B "t"
  else if bool_decide (b = x0b) then backslash :: B "v"
  else if (b2z b <? 32) || (b2z b =? 127) then backslash :: B "x" ++ Hex.EncodeToString [b]
  else [b].
Definition Quote (s : gostring) : gostring := dquote :: concat (quote_byte <$> s) ++ [dquote].

(** src/tailcat.go:96-96 [DefaultDERPMapURL] *)
Definition DefaultDERPMapURL : gostring := B "https://tailcat.dev/derpmap.json".

(** src/cmd/tailcat/ssh.go:110-132 [sshProxyCommand] *)
Definition sshProxyCommand (windows : bool) (exe keyName derpMapURL : gostring) (insecureSkipVerify : bool)
    (connBlob portOrIPPort : gostring) : gostring :=
  let cmd := if windows then dquote :: exe ++ [dquote] else exe in
  let cmd := if bool_decide (keyName = []) then cmd else cmd ++ B " --key=" ++ Quote keyName in
  let cmd := if bool_decide (derpMapURL = DefaultDERPMapURL) then cmd else cmd ++ B " --derpmap-url=" ++ Quote derpMapURL in
  let cmd := if insecureSkipVerify then cmd ++ B " --insecure-skip-verify" else cmd in
  cmd ++ B " " ++ connBlob ++ B " " ++ portOrIPPort.

Section ssh.
(** [sha256.Sum256]; [netip.ParseAddr] and [netip.AddrPort.String]. *)
Context (Sum256 : gostring -> list byte).
Context (ParseAddr : gostring -> option Addr) (AddrPort_String : Addr * Z -> gostring).

(** src/cmd/tailcat/ssh.go:152-155 [sshDestHost] *)
Definition sshDestHost (blob : gostring) : gostring := B "tailcat-" ++ Hex.EncodeToString (take 8 (Sum256 blob)).

(** The global flags, and what the process finds out about itself. *)
Record ssh_env : Type := SshEnv {
  sv_windows : bool;
  sv_exe : gostring;
  sv_program : result gostring;
  sv_devNull : gostring;
  sv_flagKey : gostring;
  sv_derpMapURL : gostring;
  sv_insecureSkipVerify : bool;
}.

Inductive command_line : Type :=
  | Exec (argv : list gostring)
  | CommandUsage
  | CommandFatal (e : gerror).

Definition ssh_options (v : ssh_env) (exe blob portOrIPPort : gostring) : list gostring :=
  [exe; B "-o"; B "UpdateHostKeys no"; B "-o"; B "StrictHostKeyChecking no"; B "-o"; B "UserKnownHostsFile " ++ sv_devNull v;
   B "-o"; B "LogLevel ERROR"; B "-o";
   B "ProxyCommand=" ++ sshProxyCommand (sv_windows v) (sv_exe v) (sv_flagKey v) (sv_derpMapURL v) (sv_insecureSkipVerify v) blob portOrIPPort].

(** src/cmd/tailcat/ssh.go:68-70 [clientSSHMode] *)
Definition ssh_port (portOrIPPort : gostring) : gostring :=
  match ParseAddr portOrIPPort with Some ip => AddrPort_String (ip, 22) | None => portOrIPPort end.

(** src/cmd/tailcat/ssh.go:71-78 [clientSSHMode]: the user and the token *)
Definition ssh_destination (dst : gostring) : gostring * gostring :=
  match Strings.CutByte dst "@"%byte with
  | (sshUser, connBlobStr, true) => (sshUser, connBlobStr)
  | (connBlobStr, _, false) => ([], connBlobStr)
  end.

(** src/cmd/tailcat/ssh.go:64-105 [clientSSHMode] *)
Definition clientSSHMode (v : ssh_env) (portOrIPPort : gostring) (args : list gostring) : command_line :=
  match args with
  | [] => CommandUsage
  | dst :: cmdArgs =>
      let portOrIPPort := ssh_port portOrIPPort in
      let '(sshUser, connBlobStr) := ssh_destination dst in
      match sv_program v with
      | Err e => CommandFatal e
      | Ok sshExe =>
          let sshDst := sshDestHost connBlobStr in
          let sshDst := if bool_decide (sshUser = []) then sshDst else sshUser ++ B "@" ++ sshDst in
          Exec (ssh_options v sshExe connBlobStr portOrIPPort ++ [sshDst] ++ cmdArgs)
      end
  end.

(** src/cmd/tailcat/cp.go:119-128 [splitRemoteArg] *)
Definition splitRemoteArg (arg : gostring) : option (gostring * gostring) :=
  match Strings.IndexByte arg ":"%byte with
  | None => None
  | Some i =>
      if (i <=? 1)%nat then None
      else if Strings.ContainsAny (take i arg) ["/"%byte; backslash] then None
      else Some (take i arg, drop (S i) arg)
  end.

(** src/cmd/tailcat/cp.go:66-79 [clientCPMode]: the token, and the arguments of scp; [None]
    when the remote paths name different servers *)
Fixpoint cp_args (blob : gostring) (args : list gostring) : option (gostring * list gostring) :=
  match args with
  | [] => Some (blob, [])
  | arg :: args =>
      match splitRemoteArg arg with
      | None => (fun '(b, l) => (b, arg :: l)) <$> cp_args blob args
      | Some (host, path) =>
          if negb (bool_decide (blob = [])) && negb (bool_decide (host = blob)) then None
          else (fun '(b, l) => (b, (sshDestHost host ++ B ":" ++ path) :: l)) <$> cp_args host args
      end
  end.

(** src/cmd/tailcat/cp.go:57-111 [clientCPMode] *)
Definition clientCPMode (v : ssh_env) (recursive preserve : bool) (portOrIPPort : gostring) (args : list gostring) : command_line :=
  if (length args <? 2)%nat then CommandUsage
  else
    match cp_args [] args with
    | None => CommandUsage
    | Some (blob, scpArgs) =>
        if bool_decide (blob = []) then CommandUsage
        else
          match sv_program v with
          | Err e => CommandFatal e
          | Ok scpExe =>
              Exec (ssh_options v scpExe blob portOrIPPort ++ (if recursive then [B "-r"] else []) ++
                    (if preserve then [B "-p"] else []) ++ scpArgs)
          end
    end.

(** src/cmd/tailcat/ls.go:52-62 [clientLSMode]: the destination and the path; [None] is a
    usage error *)
Definition ls_target (args : list gostring) : option (gostring * gostring) :=
  match args with
  | [arg] =>
      let '(host, path) := match splitRemoteArg arg with Some hp => hp | None => (arg, []) end in
      Some (host, if bool_decide (path = []) then B "." else path)
  | _ => None
  end.
End ssh.


(** * OpenSSH and its shell *)

(** What OpenSSH does with a ProxyCommand before the shell sees it, and the words that a
    POSIX shell makes of a simple command. *)
Class ShellOps : Type := {
  percent_expand : gostring -> option gostring;
  sh_words : gostring -> option (list gostring);
}.

(** A piece of a word: characters that no shell treats specially, or a string in double
    quotes in which nothing is expanded. *)
Inductive piece : Type := Plain (s : gostring) | Quoted (s : gostring).
Definition plain_byte (b : byte) : bool :=
  Strings.is_upper b || Strings.is_lower b || Strings.is_digit b || bool_decide (b ∈ B "+,-./:=@_").
Definition quoted_byte (b : byte) : bool :=
  (32 <=? b2z b) && (b2z b <? 127) && negb (bool_decide (b ∈ [dquote; backslash; "$"%byte; "`"%byte])).
Definition piece_ok (p : piece) : Prop :=
  match p with
  | Plain s => s <> [] /\ Forall (fun b => plain_byte b = true) s
  | Quoted s => Forall (fun b => quoted_byte b = true) s
  end.
Definition piece_text (p : piece) : gostring := match p with Plain s => s | Quoted s => dquote :: s ++ [dquote] end.
Definition piece_value (p : piece) : gostring := match p with Plain s | Quoted s => s end.
Definition word_text (w : list piece) : gostring := concat (piece_text <$> w).
Definition word_value (w : list piece) : gostring := concat (piece_value <$> w).
Definition word_ok (w : list piece) : Prop := w <> [] /\ Forall piece_ok w.

Class ShellLaws (S : ShellOps) : Prop := {
  (** Only percent signs are expanded. *)
  percent_plain s : "%"%byte ∉ s -> percent_expand s = Some s;
  (** Words are separated by blanks, quotes are removed, and nothing else is special. *)
  words_plain ws : Forall word_ok ws -> sh_words (Strings.join (B " ") (word_text <$> ws)) = Some (word_value <$> ws);
}.
Definition openssh_runs {S : ShellOps} (cmd : gostring) : option (list gostring) := percent_expand cmd ≫= sh_words.

(** The arguments that the inner process is to get. *)
Definition inner_args (v : ssh_env) (blob port : gostring) : list gostring :=
  [sv_exe v] ++ (if bool_decide (sv_flagKey v = []) then [] else [B "--key=" ++ sv_flagKey v]) ++
  (if bool_decide (sv_derpMapURL v = DefaultDERPMapURL) then [] else [B "--derpmap-url=" ++ sv_derpMapURL v]) ++
  (if sv_insecureSkipVerify v then [B "--insecure-skip-verify"] else []) ++ [blob; port].

(** * Properties *)

Section ssh_properties.
Context {S : ShellOps} {SL : ShellLaws S}.
Context (Sum256 : gostring -> list byte) (Sum256_length : forall s, length (Sum256 s) = 32%nat).
Context (ParseAddr : gostring -> option Addr) (AddrPort_String : Addr * Z -> gostring).

Lemma quoted_byte_same b : quoted_byte b = true -> quote_byte b = [b].
Proof.
  unfold quoted_byte, quote_byte. rewrite !andb_true_iff, negb_true_iff, bool_decide_eq_false, Z.leb_le, Z.ltb_lt.
  intros [[H1 H2] H3]. rewrite !(bool_decide_eq_false_2 (b = _)) by (intros ->; vm_compute in H1; (by destruct H1) || (apply H3; set_solver)).
  cbn [orb]. destruct (b2z b <? 32) eqn:E1; bool_to_prop; [lia|]. destruct (b2z b =? 127) eqn:E2; bool_to_prop; [lia|done].
Qed.
Lemma Quote_quoted s : Forall (fun b => quoted_byte b = true) s -> Quote s = piece_text (Quoted s).
Proof.
  intros H. unfold Quote, piece_text. do 2 f_equal. induction H as [|b s Hb _ IH]; [done|]. cbn. by rewrite quoted_byte_same, IH.
Qed.

(** Words that need no quotes, and values that survive Go's. *)
Definition plain_word (s : gostring) : Prop := s <> [] /\ Forall (fun b => plain_byte b = true) s.
Definition quotable (s : gostring) : Prop := Forall (fun b => quoted_byte b = true) s.

Definition inner_words (v : ssh_env) (blob port : gostring) : list (list piece) :=
  [[Plain (sv_exe v)]] ++ (if bool_decide (sv_flagKey v = []) then [] else [[Plain (B "--key="); Quoted (sv_flagKey v)]]) ++
  (if bool_decide (sv_derpMapURL v = DefaultDERPMapURL) then [] else [[Plain (B "--derpmap-url="); Quoted (sv_derpMapURL v)]]) ++
  (if sv_insecureSkipVerify v then [[Plain (B "--insecure-skip-verify")]] else []) ++ [[Plain blob]; [Plain port]].

Lemma inner_words_value v blob port : word_value <$> inner_words v blob port = inner_args v blob port.
Proof.
  unfold inner_words, inner_args. rewrite !fmap_app. unfold word_value.
  repeat match goal with |- context [if ?b then _ else _] => destruct b end; cbn; rewrite ?app_nil_r; done.
Qed.
Lemma inner_words_ok v blob port :
  plain_word (sv_exe v) -> plain_word blob -> plain_word port -> quotable (sv_flagKey v) -> quotable (sv_derpMapURL v) ->
  Forall word_ok (inner_words v blob port).
Proof.
  intros He Hb Hp Hk Hu. unfold inner_words.
  assert (forall s, plain_word s -> word_ok [Plain s]) as H1 by (intros s Hs; split; [done|by apply Forall_singleton]).
  assert (forall n s, plain_word n -> quotable s -> word_ok [Plain n; Quoted s]) as H2 by (intros n s Hn Hs; split; [done|by apply Forall_cons; split; [|apply Forall_singleton]]).
  assert (forall (b : bool) w, word_ok w -> Forall word_ok (if b then [] else [w])) as H3 by (intros [] w Hw; [constructor|by apply Forall_singleton]).
  rewrite !Forall_app, !Forall_cons, !Forall_nil.
  split_and!; try done; try (by apply H1); try (apply H3, H2; [split; [done|by_evaluation]|done]).
  destruct (sv_insecureSkipVerify v); [apply Forall_singleton, H1; split; [done|by_evaluation]|constructor].
Qed.
Lemma proxy_command_text v blob port :
  sv_windows v = false -> quotable (sv_flagKey v) -> quotable (sv_derpMapURL v) ->
  sshProxyCommand (sv_windows v) (sv_exe v) (sv_flagKey v) (sv_derpMapURL v) (sv_insecureSkipVerify v) blob port =
  Strings.join (B " ") (word_text <$> inner_words v blob port).
Proof.
  intros -> Hk Hu. unfold sshProxyCommand, inner_words. rewrite !Quote_quoted by done. unfold word_text.
  repeat match goal with |- context [if ?b then _ else _] => destruct b end; cbn; rewrite ?app_nil_r, <- ?app_assoc; cbn; rewrite ?app_nil_r, <- ?app_assoc; done.
Qed.

(** The label of a token's server: its length is fixed, and it has none of the characters
    that separate a user, a host and a path. *)
Definition label_byte (b : byte) : bool := Strings.is_lower b || Strings.is_digit b || bool_decide (b = "-"%byte).
Lemma sshDestHost_label blob :
  length (sshDestHost Sum256 blob) = 24%nat /\ Forall (fun b => label_byte b = true) (sshDestHost Sum256 blob).
Proof.
  unfold sshDestHost. split; [by rewrite length_app, length_hex_encode, length_take, Sum256_length|].
  apply Forall_app. split; [by_evaluation|]. eapply Forall_impl; [apply hex_encode_digits|].
  intros b. unfold is_hex_digit, label_byte, Strings.is_lower. rewrite !orb_true_iff, !andb_true_iff, !Z.leb_le.
  intros [H|H]; [by left; right|]. left. left. lia.
Qed.
Lemma label_without c blob : label_byte c = false -> c ∉ sshDestHost Sum256 blob.
Proof. intros Hc Hin. destruct (sshDestHost_label blob) as [_ H]. rewrite Forall_forall in H. specialize (H c Hin). congruence. Qed.

Lemma ssh_command_runs v blob port :
  sv_windows v = false -> quotable (sv_flagKey v) -> quotable (sv_derpMapURL v) ->
  Forall (fun s => plain_word s) [sv_exe v; blob; port] -> Forall (fun b => b <> "%"%byte) (sv_flagKey v ++ sv_derpMapURL v) ->
  openssh_runs (sshProxyCommand (sv_windows v) (sv_exe v) (sv_flagKey v) (sv_derpMapURL v) (sv_insecureSkipVerify v) blob port) =
  Some (inner_args v blob port).
Proof.
  intros Hw Hk Hu Hplain Hpct. pose proof Hplain as Hp. rewrite !Forall_cons in Hp. destruct Hp as (He & Hb & Hp & _).
  rewrite proxy_command_text by done. unfold openssh_runs. rewrite percent_plain.
  - cbn [mbind option_bind]. rewrite words_plain by (by apply inner_words_ok). by rewrite inner_words_value.
  - rewrite <- (proxy_command_text v blob port) by done. rewrite Hw. unfold sshProxyCommand. rewrite !Quote_quoted by done.
    assert (forall s, plain_word s -> "%"%byte ∉ s) as Hpl.
    { intros s [_ Hs] Hin. rewrite Forall_forall in Hs. by specialize (Hs _ Hin). }
    assert (forall s, s ⊆ sv_flagKey v ++ sv_derpMapURL v -> "%"%byte ∉ piece_text (Quoted s)) as Hq.
    { intros s Hs. cbn. intros [|[Hin|Hin%list_elem_of_singleton]%elem_of_app]%elem_of_cons; [done| |done].
      rewrite Forall_forall in Hpct. by apply (Hpct "%"%byte); [apply Hs|]. }
    assert (forall (b : bool) (s t : gostring), "%"%byte ∉ s -> "%"%byte ∉ t -> "%"%byte ∉ (if b then s else t)) as Hif by (by intros []).
    pose proof (Hpl _ He). pose proof (Hpl _ Hb). pose proof (Hpl _ Hp).
    pose proof (Hq (sv_flagKey v) ltac:(set_solver)). pose proof (Hq (sv_derpMapURL v) ltac:(set_solver)).
    assert (forall s t : gostring, "%"%byte ∉ s -> "%"%byte ∉ t -> "%"%byte ∉ s ++ t) as Happ by (intros s t Hs Ht Hin%elem_of_app; tauto).
    assert (("%"%byte ∉ B " ") /\ ("%"%byte ∉ B " --key=") /\ ("%"%byte ∉ B " --derpmap-url=") /\ ("%"%byte ∉ B " --insecure-skip-verify")) as (?&?&?&?)
      by by_evaluation.
    repeat (apply Happ || apply Hif); done.
Qed.

(** C39: ssh reaches the server that was named.  Where the process's path, the token and the
    port have no character that a shell treats specially, and the key and the URL none that
    survives Go's quotes, OpenSSH runs this program with exactly the token, the port, the
    key, the URL and the flag of this one; what OpenSSH sees as the host is the user's name
    with a label of 24 characters that depends on the token alone, and the remote command
    follows untouched. *)
Theorem ssh_reaches_the_server v portOrIPPort dst cmdArgs argv :
  clientSSHMode Sum256 ParseAddr AddrPort_String v portOrIPPort (dst :: cmdArgs) = Exec argv ->
  let '(sshUser, blob) := ssh_destination dst in
  let port := ssh_port ParseAddr AddrPort_String portOrIPPort in
  exists opts cmd host,
    argv = opts ++ [B "-o"; B "ProxyCommand=" ++ cmd; host] ++ cmdArgs /\
    host = (if bool_decide (sshUser = []) then [] else sshUser ++ B "@") ++ sshDestHost Sum256 blob /\
    length (sshDestHost Sum256 blob) = 24%nat /\ Forall (fun b => label_byte b = true) (sshDestHost Sum256 blob) /\
    (sv_windows v = false -> quotable (sv_flagKey v) -> quotable (sv_derpMapURL v) -> Forall (fun s => plain_word s) [sv_exe v; blob; port] ->
     Forall (fun b => b <> "%"%byte) (sv_flagKey v ++ sv_derpMapURL v) -> openssh_runs cmd = Some (inner_args v blob port)).
Proof.
  unfold clientSSHMode. destruct (ssh_destination dst) as [sshUser blob]. destruct (sv_program v) as [exe|e]; [|done].
  intros [= <-]. set (port := ssh_port _ _ _). exists (take 9 (ssh_options v exe blob port)),
    (sshProxyCommand (sv_windows v) (sv_exe v) (sv_flagKey v) (sv_derpMapURL v) (sv_insecureSkipVerify v) blob port),
    (if bool_decide (sshUser = []) then sshDestHost Sum256 blob else sshUser ++ B "@" ++ sshDestHost Sum256 blob). split; [done|]. destruct (sshDestHost_label blob) as [H1 H2].
  split_and!; [by destruct (bool_decide _); rewrite <- ?app_assoc|done|done|]. intros. by apply ssh_command_runs.
Qed.

(** What scp is to be told for an argument, and the servers that arguments name. *)
Definition cp_translate (arg : gostring) : gostring :=
  match splitRemoteArg arg with None => arg | Some (host, path) => sshDestHost Sum256 host ++ B ":" ++ path end.
Definition remote_hosts (args : list gostring) : list gostring := omap (fun arg => fst <$> splitRemoteArg arg) args.

Lemma remote_host_nonempty arg host path : splitRemoteArg arg = Some (host, path) -> host <> [].
Proof.
  unfold splitRemoteArg. destruct (Strings.IndexByte arg ":"%byte) as [i|] eqn:Ei; [|done]. destruct (i <=? 1)%nat eqn:E; [done|].
  destruct (Strings.ContainsAny _ _); [done|]. intros [= <- _] H. apply Nat.leb_gt in E. destruct arg, i; simpl in *; try done; lia.
Qed.

Lemma cp_args_spec blob args b l :
  cp_args Sum256 blob args = Some (b, l) <->
  l = cp_translate <$> args /\ (forall h, h ∈ remote_hosts args -> h = b) /\ (blob <> [] \/ remote_hosts args = [] -> b = blob).
Proof.
  revert blob b l. induction args as [|arg args IH]; intros blob b l; cbn [cp_args fmap list_fmap remote_hosts omap list_omap].
  { split; [intros [= <- <-]|intros (-> & _ & ->); [done|by right]]. split_and!; [done|set_solver|done]. }
  unfold cp_translate at 1. destruct (splitRemoteArg arg) as [[host path]|] eqn:Es; cbn [fmap option_fmap option_map fst].
  - pose proof (remote_host_nonempty _ _ _ Es) as Hne. destruct (negb (bool_decide (blob = [])) && negb (bool_decide (host = blob))) eqn:Ec.
    + split; [done|]. intros (_ & H & Hb). apply andb_true_iff in Ec as [E1 E2]. bool_to_prop.
      exfalso. apply E2. rewrite (H host) by apply list_elem_of_here. apply Hb. by left.
    + assert (blob = [] \/ blob = host) as Hbh.
      { apply andb_false_iff in Ec as [E|E]; bool_to_prop; auto. }
      destruct (cp_args Sum256 host args) as [[b' l']|] eqn:Ecp; cbn.
      * destruct (proj1 (IH host b' l') Ecp) as (Hl & Hh & Hb). specialize (Hb (or_introl Hne)). split.
        -- intros [= <- <-]. split_and!; [by rewrite Hl|intros h [->|Hin]%elem_of_cons; [done|by apply Hh]|].
           intros [Hx|Hx]; [|done]. destruct Hbh; congruence.
        -- intros (-> & Hall & _). rewrite Hl. repeat f_equal. subst b'. apply Hall, list_elem_of_here.
      * split; [done|]. intros (-> & Hall & Hb). enough (@None (gostring * list gostring) = Some (b, cp_translate <$> args)) by done.
        rewrite <- Ecp. apply IH. split_and!; [done|intros h Hin; apply Hall; by right|]. intros _. symmetry. apply Hall, list_elem_of_here.
  - destruct (cp_args Sum256 blob args) as [[b' l']|] eqn:Ecp; cbn.
    + destruct (proj1 (IH blob b' l') Ecp) as (Hl & Hh & Hb). split.
      * intros [= <- <-]. by rewrite Hl.
      * intros (-> & Hall & Hb'). assert (cp_args Sum256 blob args = Some (b, cp_translate <$> args)) as H by (by apply IH). congruence.
    + split; [done|]. intros (-> & Hall & Hb). enough (@None (gostring * list gostring) = Some (b, cp_translate <$> args)) by done.
      rewrite <- Ecp. by apply IH.
Qed.

(** cp names one server.  It runs scp exactly when there are two arguments at least, one of
    them remote, and all remote ones name the same server; scp is given that server's
    ProxyCommand, and every argument in its place: local ones as they are, remote ones with
    the server's label for its token, which scp splits off again. *)
Theorem cp_names_one_server v recursive preserve port args argv :
  clientCPMode Sum256 v recursive preserve port args = Exec argv <->
  exists exe blob, sv_program v = Ok exe /\ (2 <= length args)%nat /\ blob ∈ remote_hosts args /\ (forall h, h ∈ remote_hosts args -> h = blob) /\
    argv = ssh_options v exe blob port ++ (if recursive then [B "-r"] else []) ++ (if preserve then [B "-p"] else []) ++ (cp_translate <$> args).
Proof.
  unfold clientCPMode. destruct (length args <? 2)%nat eqn:El.
  { apply Nat.ltb_lt in El. split; [done|]. intros (? & ? & _ & ? & _). lia. }
  apply Nat.ltb_ge in El. destruct (cp_args Sum256 [] args) as [[b l]|] eqn:Ecp.
  - destruct (proj1 (cp_args_spec _ _ _ _) Ecp) as (-> & Hall & Hb). destruct (bool_decide_reflect (b = [])) as [->|Hne].
    + split; [done|]. intros (exe & blob & _ & _ & Hin & _). exfalso. specialize (Hall _ Hin).
      unfold remote_hosts in Hin. apply list_elem_of_omap in Hin as (arg & _ & Hs). destruct (splitRemoteArg arg) as [[h p]|] eqn:Es; [|done].
      injection Hs as ->. by apply (remote_host_nonempty _ _ _ Es).
    + assert (b ∈ remote_hosts args) as Hin.
      { destruct (remote_hosts args) as [|h hs] eqn:Eh; [by destruct Hne; apply Hb; right|]. rewrite (Hall h); apply list_elem_of_here. }
      destruct (sv_program v) as [exe|e]; [|split; [done|by intros (? & ? & ? & _)]]. split.
      * intros [= <-]. by exists exe, b.
      * intros (exe' & blob & [= <-] & _ & Hin' & _ & ->). by rewrite (Hall _ Hin').
  - split; [done|]. intros (exe & blob & _ & _ & Hin & Hall & _).
    enough (@None (gostring * list gostring) = Some (blob, cp_translate <$> args)) by done. rewrite <- Ecp.
    apply cp_args_spec. split_and!; [done|done|]. intros [?|Hx]; [done|]. rewrite Hx in Hin. by apply not_elem_of_nil in Hin.
Qed.
End ssh_properties.

Section ping_properties.
Context (rounds : nat -> ping_round) (rounds_ok : forall i, 0 <= pr_took (rounds i) /\ 0 <= pr_late (rounds i)).
Context (deadline : Z) (untilDirect : bool).

(** How a ping command may end: it never gives up a wait for a direct path more than half a
    second before its deadline, unless the transport's own failures end it, and it
    succeeds with the first direct pong, or with the first pong at all. *)
Definition ping_ok (retries : bool) (pongs : list bool) (r : ping_result) : Prop :=
  exists k, match pg_end r with
  | PingDone => if untilDirect then pg_pongs r = pongs ++ replicate k false ++ [true] else exists d, pg_pongs r = pongs ++ [d]
  | PingFailed e =>
      pg_pongs r = pongs ++ replicate k false /\ (untilDirect = true -> retries = true -> deadline - pg_at r < second / 2) /\
      (untilDirect = false -> k = 0%nat)
  end.

Lemma ping_ok_later retries pongs r : untilDirect = true -> ping_ok retries (pongs ++ [false]) r -> ping_ok retries pongs r.
Proof.
  intros Hu [k Hr]. exists (S k). rewrite Hu in *. destruct (pg_end r).
  - by rewrite Hr, <- app_assoc.
  - destruct Hr as (-> & H & _). by rewrite <- app_assoc.
Qed.

Lemma masque_ping_ends fuel i now pongs :
  deadline - now <= (Z.of_nat fuel - 1) * second -> (0 < fuel)%nat ->
  exists r, masque_ping untilDirect deadline rounds fuel i now pongs = Some r /\ ping_ok true pongs r.
Proof.
  revert i now pongs. induction fuel as [|fuel IH]; intros i now pongs Hd Hf; [lia|]. cbn [masque_ping].
  destruct (rounds_ok i) as [Ht Hl]. assert (second = 1000000000) as Hs by done. assert (second / 2 = 500000000) as Hs2 by done.
  destruct (pr_outcome (rounds i)) as [viaDirect|e].
  - destruct (negb untilDirect || viaDirect) eqn:E1; [eexists; split; [done|]|].
    { exists 0%nat. cbn. destruct untilDirect; [cbn in E1; subst; done|by eexists]. }
    apply orb_false_iff in E1 as [Hu%negb_false_iff ->].
    destruct (deadline - _ <? second / 2) eqn:E2; bool_to_prop.
    + eexists. split; [done|]. exists 1%nat. cbn. rewrite Hu. by split_and!.
    + destruct (IH (S i) (now + pr_took (rounds i) + Z.max 0 (second - pr_took (rounds i)) + pr_late (rounds i)) (pongs ++ [false])) as (r & -> & Hr);
        [lia..|]. eexists. split; [done|]. by apply ping_ok_later.
  - destruct untilDirect eqn:Hu; cbn [negb].
    2: { eexists. split; [done|]. exists 0%nat. cbn. rewrite app_nil_r. split_and!; [done|congruence|done]. }
    destruct (deadline - _ <=? 0) eqn:E2; bool_to_prop.
    + eexists. split; [done|]. exists 0%nat. cbn. rewrite app_nil_r. split_and!; [done|lia|done].
    + apply IH; lia.
Qed.

Lemma client_ping_ends deadlineExceeded fuel i now pongs :
  deadline - now <= (Z.of_nat fuel - 1) * second -> (0 < fuel)%nat ->
  exists r, client_ping deadlineExceeded untilDirect deadline rounds fuel i now pongs = Some r /\ ping_ok false pongs r.
Proof.
  revert i now pongs. induction fuel as [|fuel IH]; intros i now pongs Hd Hf; [lia|]. cbn [client_ping].
  destruct (rounds_ok i) as [Ht Hl]. assert (second = 1000000000) as Hs by done. assert (second / 2 = 500000000) as Hs2 by done.
  destruct (pr_outcome (rounds i)) as [viaDirect|e].
  - destruct (viaDirect || negb untilDirect) eqn:E1; [eexists; split; [done|]|].
    { exists 0%nat. cbn. destruct untilDirect; [by destruct viaDirect|by eexists]. }
    apply orb_false_iff in E1 as [-> Hu%negb_false_iff].
    destruct (deadline - _ <? second / 2) eqn:E2; bool_to_prop.
    + eexists. split; [done|]. exists 1%nat. cbn. rewrite Hu. by split_and!.
    + destruct (IH (S i) (now + pr_took (rounds i) + Z.max 0 (second - pr_took (rounds i)) + pr_late (rounds i)) (pongs ++ [false])) as (r & -> & Hr);
        [lia..|]. eexists. split; [done|]. by apply ping_ok_later.
  - eexists. split; [done|]. exists 0%nat. cbn. rewrite app_nil_r. by split_and!.
Qed.
End ping_properties.

(** ping ends.  Whatever the network does, both ping commands end within a round for each
    second of their timeout and one more; with --until-direct they succeed with the first
    direct pong and print every pong before it, and the MASQUE one, which tries again after
    a failure, gives up only when less than half a second is left; without it they end with
    the first round. *)
Theorem ping_until_direct rounds deadlineExceeded untilDirect timeout start :
  (forall i, 0 <= pr_took (rounds i) /\ 0 <= pr_late (rounds i)) ->
  let fuel := (Z.to_nat (timeout / second) + 2)%nat in
  (exists r, masque_ping untilDirect (start + timeout) rounds fuel 0 start [] = Some r /\ ping_ok (start + timeout) untilDirect true [] r) /\
  (exists r, client_ping deadlineExceeded untilDirect (start + timeout) rounds fuel 0 start [] = Some r /\
     ping_ok (start + timeout) untilDirect false [] r).
Proof.
  intros Hr fuel. assert (start + timeout - start <= (Z.of_nat fuel - 1) * second /\ (0 < fuel)%nat) as [H1 H2].
  { unfold fuel, second. pose proof (Z.div_mod timeout 1000000000). pose proof (Z.mod_pos_bound timeout 1000000000). lia. }
  split; [by apply masque_ping_ends|by apply client_ping_ends].
Qed.

Section destinations_properties.
Context (ParseAddrPort : gostring -> option (Addr * Z)) (LookupPort : gostring -> result Z).

(** Both transports' netcat commands dial the same destination where both accept it; the
    MASQUE one also takes names of services. *)
Lemma client_dest_agrees optDest d :
  (forall s port, Strconv.ParseUint16 s = Ok port -> LookupPort s = Ok port) ->
  client_dest ParseAddrPort optDest = Some d -> masque_client_dest ParseAddrPort LookupPort optDest = Some d.
Proof.
  intros Hl. unfold client_dest, masque_client_dest. destruct (bool_decide (optDest = [])); [done|]. destruct (negb _); [|done].
  destruct (Strconv.ParseUint16 optDest) as [port|e] eqn:Ep; [|done]. intros [= <-]. rewrite (Hl _ _ Ep).
  pose proof (parse_uint16_range _ _ Ep). destruct (port <? 0) eqn:E1; bool_to_prop; [lia|]. destruct (65535 <? port) eqn:E2; bool_to_prop; [lia|].
  cbn. unfold u16. by rewrite Z.mod_small by lia.
Qed.
End destinations_properties.

Lemma cut_suffix_other s p : has_prefix (rev p) (rev s) = false -> Strings.CutSuffix s p = (s, false).
Proof. unfold Strings.CutSuffix, Strings.HasSuffix. by intros ->. Qed.

(** The recv command only ever makes a drop box. *)
Lemma recv_is_a_drop_box abs isdir flagFiles args files d mode :
  recv_exec flagFiles args = RunServer [] files -> parseFilesFlag abs isdir files = Ok (d, mode) -> mode = FileServeWO.
Proof.
  intros Hx. assert (exists dir, files = dir ++ B ":wo") as [dir ->].
  { exists (default (B ".") (head args)). unfold recv_exec in Hx. destruct args as [|a [|]]; try done; destruct (negb _); congruence. }
  unfold parseFilesFlag. rewrite cut_suffix_app, !cut_suffix_other by (rewrite rev_app_distr; reflexivity).
  destruct (abs _) as [p|e]; [cbn|done]. by destruct (isdir p) as [[]|e]; intros [= <- <-].
Qed.

Section socks_properties.
Context `{K : KeyOps} {T : TokenOps K}.
Context (ParseConnBlobOk : gostring -> bool) (ParseAddr : gostring -> option Addr).

(** Every client was made for the token under which it is found, over the transport that
    the token's prefix names, and no two for one token. *)
Record socks_ok (s : socks_state) (cl : option nat) : Prop := {
  sk_clients : forall blob c, so_clients s !! blob = Some c <-> so_made s !! c = Some (blob, isMasqueBlob blob);
  sk_made : forall c m, so_made s !! c = Some m -> m.2 = isMasqueBlob m.1;
  sk_cl : forall c, cl = Some c -> c = 0%nat /\ (0 < length (so_made s))%nat;
}.

Lemma socks_start_ok blob s cl : socks_start blob = (s, cl) -> socks_ok s cl.
Proof.
  unfold socks_start. destruct (bool_decide (blob = [])); intros [= <- <-]; split; cbn; try done.
  - intros b c. rewrite lookup_singleton_Some. destruct c as [|[|c]]; cbn; naive_solver.
  - intros [|[|c]] m; [by intros [= <-]|done..].
  - intros c [= <-]. lia.
Qed.

Lemma clientForBlob_ok s cl blob s' c :
  socks_ok s cl -> clientForBlob s blob = (s', c) ->
  socks_ok s' cl /\ so_clients s' !! blob = Some c /\ so_made s' !! c = Some (blob, isMasqueBlob blob) /\ so_made s `prefix_of` so_made s'.
Proof.
  intros [Hc Hm Hcl]. unfold clientForBlob. destruct (so_clients s !! blob) as [c'|] eqn:Eb.
  { intros [= <- <-]. split_and!; [done|done|by apply Hc|done]. }
  cbn. intros [= <- <-]. split_and!; cbn; [|by rewrite lookup_insert_eq|by rewrite list_lookup_middle|by apply prefix_app_r].
  split; cbn.
  - intros b i. destruct (decide (b = blob)) as [->|Hne].
    + rewrite lookup_insert_eq. split; [intros [= <-]; by rewrite list_lookup_middle|].
      intros [Hi|[Hi Hk]]%lookup_app_Some; [apply Hc in Hi; congruence|]. destruct (i - length (so_made s))%nat eqn:Ei; [f_equal; lia|done].
    + rewrite lookup_insert_ne by done. rewrite Hc, lookup_app_Some. split; [by left|]. intros [?|[_ Hk]]; [done|].
      destruct (i - length (so_made s))%nat; [|done]. cbn in Hk. congruence.
  - intros i m [Hi|[_ Hk]]%lookup_app_Some; [by eapply Hm|]. destruct (i - length (so_made s))%nat; [by injection Hk as <-|done].
  - intros i Hi. destruct (Hcl i Hi). rewrite length_app. split; [done|cbn; lia].
Qed.

(** The proxy keeps one client for each server.  Whatever was dialled before, a destination
    that is a token is dialled by the client of that token, over the transport of its
    prefix; every other one by the client of the command line's token; and clients are
    never replaced. *)
Lemma socks_dial_ok cl lookup s addr s' c d :
  socks_ok s cl -> socks_dial ParseConnBlobOk ParseAddr cl lookup s addr = (s', Ok (c, d)) ->
  socks_ok s' cl /\ so_made s `prefix_of` so_made s' /\
  match classifySOCKSAddr ParseConnBlobOk ParseAddr lookup addr with
  | Ok (ToBlob blob port) => so_made s' !! c = Some (blob, isMasqueBlob blob) /\ d = DestPort port
  | _ => cl = Some c /\ s' = s
  end.
Proof.
  intros Hok. unfold socks_dial. destruct (classifySOCKSAddr _ _ lookup addr) as [[port|blob port|a port]|e]; [| | |done].
  - destruct cl as [c'|]; [|done]. by intros [= <- <- <-].
  - destruct (clientForBlob s blob) as [s1 c1] eqn:E. intros [= <- <- <-]. destruct (clientForBlob_ok _ _ _ _ _ Hok E) as (? & _ & ? & ?).
    by split_and!.
  - destruct cl as [c'|]; [|done]. by intros [= <- <- <-].
Qed.
End socks_properties.

(** * Witnesses *)

Section witnesses.

(** A small shell: blanks separate, double quotes group, nothing else is special. *)
Fixpoint toy_words (s : gostring) (inq : bool) (cur : option gostring) : option (list gostring) :=
  match s with
  | [] => if inq then None else Some (match cur with Some w => [w] | None => [] end)
  | b :: s =>
      if bool_decide (b = dquote) then toy_words s (negb inq) (Some (default [] cur))
      else if negb inq && bool_decide (b = " "%byte) then
        match cur with Some w => cons w <$> toy_words s false None | None => toy_words s false None end
      else toy_words s inq (Some (default [] cur ++ [b]))
  end.
#[local] Instance toy_shell : ShellOps :=
  {| percent_expand := fun s => if bool_decide ("%"%byte ∈ s) then None else Some s; sh_words := fun s => toy_words s false None |}.

Lemma toy_plain s t inq cur :
  s <> [] -> Forall (fun b => b <> dquote /\ (b = " "%byte -> inq = true)) s ->
  toy_words (s ++ t) inq cur = toy_words t inq (Some (default [] cur ++ s)).
Proof.
  intros Hne Hs. revert cur Hne. induction Hs as [|b s [Hq Hb] Hs IH]; intros cur Hne; [done|]. cbn [app toy_words].
  rewrite bool_decide_eq_false_2 by done. assert (negb inq && bool_decide (b = " "%byte) = false) as ->.
  { destruct inq; [done|]. cbn. apply bool_decide_eq_false. intros ->. by specialize (Hb eq_refl). }
  destruct s as [|b' s]; [done|]. rewrite IH by done. cbn [from_option id]. by rewrite <- app_assoc.
Qed.
Lemma toy_piece p t cur :
  piece_ok p -> toy_words (piece_text p ++ t) false cur = toy_words t false (Some (default [] cur ++ piece_value p)).
Proof.
  destruct p as [s|s]; cbn [piece_ok piece_text piece_value].
  - intros [Hne Hs]. apply toy_plain; [done|]. eapply Forall_impl; [exact Hs|]. intros b Hb. split; intros ->; discriminate Hb.
  - intros Hs. cbn [app toy_words]. rewrite bool_decide_eq_true_2 by done. cbn [negb from_option id].
    assert (forall cur, toy_words (s ++ [dquote] ++ t) true (Some cur) = toy_words t false (Some (cur ++ s))) as H.
    { intros c. destruct (decide (s = [])) as [->|Hne]; [by rewrite app_nil_r|]. rewrite toy_plain; [done|done|].
      eapply Forall_impl; [exact Hs|]. intros b Hb. split; [intros ->; discriminate Hb|done]. }
    rewrite <- app_assoc. apply H.
Qed.
Lemma toy_word w t cur :
  word_ok w -> toy_words (word_text w ++ t) false cur = toy_words t false (Some (default [] cur ++ word_value w)).
Proof.
  intros [Hne Hw]. unfold word_text, word_value. revert cur. induction Hw as [|p w Hp Hw IH]; intros cur; [done|].
  cbn [fmap list_fmap concat]. rewrite <- app_assoc, toy_piece by done. destruct w as [|p' w]; [cbn; by rewrite !app_nil_r|].
  rewrite IH by done. cbn [from_option id]. by rewrite <- app_assoc.
Qed.
#[local] Instance toy_shell_laws : ShellLaws toy_shell.
Proof.
  split; [intros s Hs; cbn; by rewrite bool_decide_eq_false_2|]. intros ws Hws. cbn.
  assert (forall ws cur, Forall word_ok ws ->
    toy_words (concat ((fun x => B " " ++ x) <$> (word_text <$> ws))) false (Some cur) = Some (cur :: (word_value <$> ws))) as H.
  { clear. intros ws. induction ws as [|w ws IH]; intros cur Hws; [done|]. apply Forall_cons in Hws as [Hw Hws].
    change (B " ") with [" "%byte] in *. cbn [fmap list_fmap concat app toy_words].
    rewrite bool_decide_eq_false_2, bool_decide_eq_true_2 by done. cbn [negb andb]. rewrite toy_word by done. cbn [from_option id app]. by rewrite IH. }
  destruct ws as [|w ws]; [done|]. apply Forall_cons in Hws as [Hw Hws]. cbn [fmap list_fmap Strings.join].
  rewrite toy_word by done. cbn [from_option id app]. by rewrite H.
Qed.

Definition ex_ssh_env : ssh_env :=
  SshEnv false (B "/usr/bin/tailcat") (Ok (B "/usr/bin/ssh")) (B "/dev/null") (B "my key") (B "https://derp.example.com/map?a=1&b=2") true.
Definition ex_sum (s : gostring) : list byte := replicate 32 x61.
Lemma ex_sum_length s : length (ex_sum s) = 32%nat.
Proof. reflexivity. Qed.
Definition ex_parse (s : gostring) : option Addr := if bool_decide (s = B "10.0.0.1") then Some (A4 [x0a; x00; x00; x01]) else None.
Definition ex_string (ap : Addr * Z) : gostring := B "10.0.0.1:22".

Lemma ssh_reaches_the_server_witness :
  exists argv cmd,
    clientSSHMode ex_sum ex_parse ex_string ex_ssh_env (B "10.0.0.1") [B "root@tcAbc_-9"; B "uptime"] = Exec argv /\
    argv !! 10%nat = Some (B "ProxyCommand=" ++ cmd) /\ argv !! 11%nat = Some (B "root@tailcat-6161616161616161") /\
    openssh_runs cmd = Some [B "/usr/bin/tailcat"; B "--key=my key"; B "--derpmap-url=https://derp.example.com/map?a=1&b=2";
                             B "--insecure-skip-verify"; B "tcAbc_-9"; B "10.0.0.1:22"].
Proof.
  destruct (clientSSHMode ex_sum ex_parse ex_string ex_ssh_env (B "10.0.0.1") [B "root@tcAbc_-9"; B "uptime"]) as [argv| |e] eqn:H;
    [|discriminate H|discriminate H].
  pose proof (ssh_reaches_the_server (SL := toy_shell_laws) ex_sum ex_sum_length ex_parse ex_string ex_ssh_env (B "10.0.0.1")
    (B "root@tcAbc_-9") [B "uptime"] argv H) as Hx.
  change (ssh_destination (B "root@tcAbc_-9")) with (B "root", B "tcAbc_-9") in Hx. cbv beta iota zeta in Hx.
  destruct Hx as (opts & cmd & host & Hargv & Hhost & _ & _ & Hrun). exists argv, cmd. split; [reflexivity|].
  assert (length opts = 9%nat) as Hl.
  { assert (length argv = 13%nat) as Hlen by (injection H as <-; reflexivity). rewrite Hargv, length_app in Hlen. simpl in Hlen. lia. }
  split; [rewrite Hargv, lookup_app_r by (rewrite Hl; lia); rewrite Hl; reflexivity|].
  split; [rewrite Hargv, lookup_app_r by (rewrite Hl; lia); rewrite Hl, Hhost; vm_compute; reflexivity|].
  rewrite Hrun; [vm_compute; reflexivity|reflexivity|by_evaluation..].
Defined.

Definition ex_round (i : nat) : ping_round :=
  match i with 0%nat => PingRound 1000 (Err (ErrNew "refused")) 0 | 1%nat => PingRound 5000 (Ok false) 7 | _ => PingRound 100 (Ok true) 0 end.
Lemma ping_until_direct_witness :
  exists r, masque_ping true (10 * second) ex_round 12 0 0 [] = Some r /\ pg_end r = PingDone /\ pg_pongs r = [false; true].
Proof.
  destruct (ping_until_direct ex_round (fun _ => false) true (10 * second) 0) as [(r & Hr & _) _].
  { intros [|[|i]]; cbn; lia. }
  exists r. split; [exact Hr|]. assert (Some r = Some (PingResult PingDone [false; true] 2000000107)) as [= ->]; [|done].
  rewrite <- Hr. vm_compute. reflexivity.
Defined.

(** A port that is a bare IPv6 address becomes a word that shells take for a pattern. *)
Lemma bare_ipv6_port_is_a_pattern ParseAddr AddrPort_String port ip s :
  ParseAddr port = Some ip -> AddrPort_String (ip, 22) = "["%byte :: s -> ~ plain_word (ssh_port ParseAddr AddrPort_String port).
Proof. unfold ssh_port. intros -> -> [_ H]. apply Forall_cons in H as [H _]. discriminate H. Qed.

(** A local path that begins with a dash reaches scp as an option. *)
Lemma local_path_as_option :
  clientCPMode ex_sum ex_ssh_env false false (B "22") [B "-oProxyCommand=x"; B "tc1:"] =
  Exec (ssh_options ex_ssh_env (B "/usr/bin/ssh") (B "tc1") (B "22") ++ [B "-oProxyCommand=x"; B "tailcat-6161616161616161:"]).
Proof. vm_reflexivity. Qed.
End witnesses.
