(* ===== verification/Command.v ===== *)
(** Command: the command line's frame.

    Models [main] of src/cmd/tailcat/tailcat.go with its exit status and what it prints, the
    parse and resolve commands of both transports, and how a server hands out its address.
    ff's parser and errors, the resolver, the disk and the network are arguments. *)

From S2P Require Import Prelude GoStd Keys Packet Fragment Token Bind Core Files Cli Derp Loco Process Remote.
From Stdlib Require Import Strings.Byte.

(** * Main *)

(** What is printed, and where the process ends. *)
Inductive shown : Type := ShownVersion | ShownHelp | ShownServeHelp | ShownError (e : gerror).
Record main_end : Type := MainEnd { me_exit : Z; me_stdout : list shown; me_stderr : list shown }.

Section main.
(** [errors.Is] of [ff.ErrHelp], whether it is a usage error or [ff.ErrUnknownFlag], and
    whether its text contains "missing value". *)
Context (is_help is_usage missing_value : gerror -> bool).

(** src/cmd/tailcat/tailcat.go:574-628 [main]: [args] are [os.Args[1:]], [parse] the result
    of parsing them and [run] of running what they select *)
Definition tailcat_main (program : gostring) (args : list gostring) (parse run : option gerror) : main_end :=
  if bool_decide (is_Some parse) && bool_decide (B "--version" ∈ args) then MainEnd 0 [ShownVersion] []
  else
    let err := match parse with Some e => Some e | None => run end in
    match err with
    | None => MainEnd 0 [] []
    | Some e =>
        if is_help e then MainEnd 0 [ShownHelp] []
        else if missing_value e && bool_decide (List.last (program :: args) [] = B "--serve") then MainEnd 0 [ShownServeHelp] []
        else MainEnd 1 [] ((if is_usage e then [ShownHelp] else []) ++ [ShownError e])
    end.

(** Whether the selected command is run. *)
Definition main_runs (parse : option gerror) : bool := negb (bool_decide (is_Some parse)).

(** The exit status tells whether there was an error that was not a request for help; an
    error is shown on standard error, and what was asked for on standard output, never
    both. *)
Lemma main_exit_status program args parse run :
  let r := tailcat_main program args parse run in
  (me_exit r = 0 \/ me_exit r = 1) /\
  (me_exit r = 0 <-> me_stderr r = []) /\ (me_exit r = 1 -> me_stdout r = []) /\
  (forall e, me_exit r = 1 /\ ShownError e ∈ me_stderr r <->
     match parse with Some x => x = e /\ B "--version" ∉ args | None => run = Some e end /\ is_help e = false /\
     ~ (missing_value e = true /\ List.last (program :: args) [] = B "--serve")).
Proof.
  unfold tailcat_main.
  assert (forall err : option gerror,
    let r := match err with
             | None => MainEnd 0 [] []
             | Some e => if is_help e then MainEnd 0 [ShownHelp] []
                         else if missing_value e && bool_decide (List.last (program :: args) [] = B "--serve") then MainEnd 0 [ShownServeHelp] []
                         else MainEnd 1 [] ((if is_usage e then [ShownHelp] else []) ++ [ShownError e])
             end in
    (me_exit r = 0 \/ me_exit r = 1) /\ (me_exit r = 0 <-> me_stderr r = []) /\ (me_exit r = 1 -> me_stdout r = []) /\
    (forall e, me_exit r = 1 /\ ShownError e ∈ me_stderr r <-> err = Some e /\ is_help e = false /\
       ~ (missing_value e = true /\ List.last (program :: args) [] = B "--serve"))) as Hr.
  { intros [x|]; [|cbn; split_and!; [by left|done|done|]; intros e; split; [by intros [? _]|by intros [? _]]].
    destruct (is_help x) eqn:Hh; [cbn; split_and!; [by left|done|done|]; intros e; split; [by intros [? _]|intros ([= ->] & ? & _); congruence]|].
    destruct (bool_decide_reflect (List.last (program :: args) [] = B "--serve")) as [Hl|Hl]; rewrite ?andb_true_r, ?andb_false_r.
    1: destruct (missing_value x) eqn:Hm; [cbn; split_and!; [by left|done|done|]; intros e; split; [by intros [? _]|intros ([= ->] & _ & Hn); by destruct Hn]|].
    all: cbn [me_exit me_stderr me_stdout]; split_and!; [by right|split; [done|by destruct (is_usage x)]|done|].
    all: intros e; split; [intros [_ [Hin|Hin]%elem_of_app]; [by destruct (is_usage x); [apply list_elem_of_singleton in Hin|apply elem_of_nil in Hin]|]|].
    all: try (apply list_elem_of_singleton in Hin; injection Hin as ->; split_and!; [done|done|]; by intros [??]; congruence).
    all: intros ([= ->] & _ & _); split; [done|]; apply elem_of_app; right; by apply list_elem_of_singleton. }
  destruct parse as [x|]; cbn [andb]; [|apply (Hr run)].
  rewrite (bool_decide_eq_true_2 (is_Some (Some x))) by done. cbn [andb].
  destruct (bool_decide_reflect (B "--version" ∈ args)) as [Hv|Hv].
  - cbn. split_and!; [by left|done|done|]. intros e. split; [by intros [? _]|by intros ([_ ?] & _)].
  - destruct (Hr (Some x)) as (H1 & H2 & H3 & H4). split_and!; [done..|]. intros e. rewrite (H4 e).
    split; [intros ([= ->] & ? & ?); by split_and!|intros ([-> _] & ? & ?); by split_and!].
Qed.
End main.

(** * Parse and resolve *)

Section addresses.
Context {K : KeyOps} {O : BlobOps K} {T : TokenOps K}.

(** What a command prints, or how it fails. *)
Inductive printed : Type :=
  | PrintMasque (ci : MasqueConnInfo)
  | PrintDerp (w : wireConnInfo)
  | PrintLine (s : gostring)
  | CommandUsage
  | CommandFails (e : gerror).

(** src/cmd/tailcat/masquecat_cli.go:175-183 [masqueClientParseMode] *)
Definition masqueClientParseMode (blob : gostring) : printed :=
  match ParseMasqueConnBlob blob with Ok ci => PrintMasque ci | Err e => CommandFails e end.

(** src/cmd/tailcat/tailcat.go:1033-1047 [clientParseMode] *)
Definition clientParseMode (args : list gostring) : printed :=
  match args with
  | [arg] => if isMasqueBlob arg then masqueClientParseMode arg
             else match parseWire arg with Ok w => PrintDerp w | Err e => CommandFails e end
  | _ => CommandUsage
  end.

(** src/cmd/tailcat/masquecat_cli.go:185-193 [masqueClientResolveMode] *)
Definition masqueClientResolveMode (blob : gostring) : printed :=
  match ParseMasqueConnBlob blob with Ok _ => PrintLine blob | Err e => CommandFails e end.

(** src/cmd/tailcat/tailcat.go:1049-1064 [clientResolveMode]; [None] is a panic *)
Definition clientResolveMode (LookupTXT : gostring -> result (list gostring)) (flagDERPMapURL : gostring) (xenv : expand_env)
    (args : list gostring) : option printed :=
  match args with
  | [arg] =>
      if isMasqueBlob arg then Some (masqueClientResolveMode arg)
      else
        match addrBlobArg LookupTXT arg with
        | Err e => Some (CommandFails e)
        | Ok blob =>
            match (Resolve xenv blob [OptDERPMapURL flagDERPMapURL; OptDERPMapCache]).1 with
            | Err e => Some (CommandFails e)
            | Ok None => None
            | Ok (Some rb) => Some (PrintLine rb)
            end
        end
  | _ => Some CommandUsage
  end.

(** A token or address that needs no DERP map resolves to itself, and what resolves to
    itself without one is a token or names its relays. *)
Lemma resolve_is_identity LookupTXT url xenv blob :
  Strings.ContainsByte blob "."%byte = false ->
  (forall url mode cache, exists e, ee_fetch xenv url mode cache = Err e) ->
  (exists s, clientResolveMode LookupTXT url xenv [blob] = Some (PrintLine s)) ->
  (is_ok (ParseMasqueConnBlob blob) = true /\ clientResolveMode LookupTXT url xenv [blob] = Some (PrintLine blob)) \/
  exists ci, ParseConnBlob blob = Ok ci /\ (ci_Region ci <> [] -> clientResolveMode LookupTXT url xenv [blob] = Some (PrintLine blob)) /\
    (ci_Region ci = [] -> ci_RegionID ci = 0).
Proof.
  intros Hdot Hoff [s Hs]. unfold clientResolveMode in *. destruct (isMasqueBlob blob) eqn:Hm.
  { left. unfold masqueClientResolveMode in *. destruct (ParseMasqueConnBlob blob); [by split|done]. }
  right. unfold addrBlobArg in *. rewrite Hdot in *. destruct (negb (Strings.HasPrefix blob (B "tc")) && _); [done|].
  unfold Resolve in *. destruct (ParseConnBlob blob) as [ci|e] eqn:Hp; [|done]. exists ci. split; [done|].
  destruct (bool_decide_reflect (ci_Region ci = [])) as [Hr|Hr]; cbn [negb] in *; [|by split].
  split; [done|]. intros _. unfold Expand in Hs. destruct (expand_options _) as [o|] eqn:Ho; [|done]. cbn in Ho. injection Ho as <-.
  rewrite Hr in Hs. cbn [fmap list_fmap with_region ci_Region ci_RegionID] in Hs. rewrite bool_decide_eq_true_2 in Hs by done. cbn [negb orb] in Hs. destruct (ci_RegionID ci =? 0) eqn:Ez; [by apply Z.eqb_eq|].
  cbn [eo_map eo_url eo_mode eo_cache] in Hs. destruct (Hoff url (B "client") true) as [e He]. by rewrite He in Hs.
Qed.

(** A DNS name that begins like a token is taken for one and never looked up, though every
    other command looks it up. *)
Lemma dns_name_taken_for_token LookupTXT url xenv arg e blob :
  isMasqueBlob arg = true -> ParseMasqueConnBlob arg = Err e -> addrBlobArg LookupTXT arg = Ok blob ->
  clientResolveMode LookupTXT url xenv [arg] = Some (CommandFails e) /\
  (arg <> B "help" -> root_exec LookupTXT [] [] [arg] = RunClient (isMasqueBlob blob) blob []).
Proof.
  intros Hm Hp Ha. unfold clientResolveMode, masqueClientResolveMode, root_exec. rewrite Hm, Hp, Ha. split; [done|].
  intros Hh. rewrite bool_decide_eq_false_2 by done. done.
Qed.
End addresses.

(** * Handing out the address *)

(** Where TAILCAT_ADDR_FILE sends an address: a TCP peer or a file. *)
Inductive destination : Type := ToPeer (addr : gostring) | ToFile (path : gostring).

Section publishing.
(** What dialling and writing return. *)
Context (dial : gostring -> option gerror) (write : gostring -> list byte -> option gerror).

(** src/cmd/tailcat/tailcat.go:1282-1295 [server]: what was sent where, and the error that
    ends the process *)
Definition legacy_publish (v connStr : gostring) : list (destination * list byte) * option gerror :=
  if bool_decide (v = []) then ([], None)
  else
    match Strings.CutPrefix v (B "tcp:") with
    | (tcpAddr, true) =>
        match dial tcpAddr with
        | Some e => ([], Some (ErrWrap "TAILCAT_ADDR_FILE tcp dial %q: %v" e))
        | None => ([(ToPeer tcpAddr, connStr ++ [x0a])], None)
        end
    | (_, false) =>
        match write v connStr with
        | Some e => ([], Some e)
        | None => ([(ToFile v, connStr)], None)
        end
    end.

(** src/cmd/tailcat/masquecat_cli.go:380-391 [masqueServer] *)
Definition masque_publish (v connStr : gostring) : list (destination * list byte) * option gerror :=
  if negb (bool_decide (v = [])) then
    match Strings.CutPrefix v (B "tcp:") with
    | (tcpAddr, true) =>
        match dial tcpAddr with
        | Some e => ([], Some (ErrWrap "TAILCAT_ADDR_FILE tcp dial %q: %w" e))
        | None => ([(ToPeer tcpAddr, connStr ++ [x0a])], None)
        end
    | (_, false) =>
        match write v connStr with Some e => ([], Some e) | None => ([(ToFile v, connStr)], None) end
    end
  else ([], None).

(** Both servers hand out their address alike, and only a server that handed it out where
    it was told to goes on. *)
Lemma servers_publish_alike v connStr :
  (legacy_publish v connStr).1 = (masque_publish v connStr).1 /\
  ((legacy_publish v connStr).2 = None <-> (masque_publish v connStr).2 = None) /\
  ((legacy_publish v connStr).2 = None -> v <> [] ->
     exists d b, (legacy_publish v connStr).1 = [(d, b)] /\ connStr `prefix_of` b).
Proof.
  unfold legacy_publish, masque_publish. destruct (bool_decide_reflect (v = [])) as [->|Hv]; cbn [negb]; [done|].
  destruct (Strings.CutPrefix v (B "tcp:")) as [a [|]].
  - destruct (dial a); cbn; (split_and!; [done|done|]); [done|]. intros _ _. do 2 eexists. split; [done|]. by eexists.
  - destruct (write v connStr); cbn; (split_and!; [done|done|]); [done|]. intros _ _. do 2 eexists. split; [done|done].
Qed.
End publishing.
