(* ===== verification/BrowserWire.v ===== *)
(** BrowserWire: the browser's packets, fragments, bind and TUN.

    Models the part of src/masquecat_browser_js.go below the WebTransport session: the
    js/wasm build has its own packet codec, its own fragmentation and reassembly and its
    own single-peer WireGuard bind, which must agree with the native ones of Packet,
    Fragment and Bind.  [native] maps a browser reassembler to a native one; the theorems
    relate the two implementations through it. *)

From S2P Require Import Prelude GoStd Keys Packet Fragment Bind.
From Stdlib Require Import Strings.Byte.

Definition browserMasquePacketVersion : byte := x01.
Definition browserNodePublicTextPrefix : gostring := B "nodekey:".
Definition browserFragmentHeaderLen : Z := 20.
Definition browserFragmentMaxSize : Z := Z.shiftl 64 10.
Definition browserFragmentChunkSize : Z := 1000.
Definition browserFragmentTTL : Z := 30 * Second.
Definition browserFragmentMaxIncompleteSets : Z := 256.
Definition browserFragmentMaxIncompletePerSource : Z := 32.
Definition browserMasqueQueueSize : Z := 512.
(** src/masquecat_browser_js.go:59-64 [browserFragmentMagic] *)
Definition browserFragmentMagic : list byte := B "MCF" ++ [x01].

(** * Packets *)

Section browser_packet.
Context `{K : KeyOps}.

(** src/masquecat_browser_js.go:66-70 [browserMasquePacket] *)
Record browserMasquePacket : Type := BrowserPacket {
  bp_src : NodePublic;
  bp_dst : NodePublic;
  bp_payload : list byte;
}.

(** src/masquecat_browser_js.go:72-79 [encodeBrowserMasquePacket] *)
Definition encodeBrowserMasquePacket (src dst : NodePublic) (payload : list byte) : list byte :=
  let b := [browserMasquePacketVersion] in
  let b := b ++ Raw src in
  let b := b ++ Raw dst in
  b ++ payload.

(** src/masquecat_browser_js.go:81-94 [decodeBrowserMasquePacket] *)
Definition decodeBrowserMasquePacket (b : list byte) : result browserMasquePacket :=
  let headerLen := 1 + 2 * NodePublicRawLen in
  guard! negb (zlen b <? headerLen) or ErrNew "short MasqueCat datagram: %d bytes" in
  guard! bool_decide (head b = Some browserMasquePacketVersion)
    or ErrNew "unsupported MasqueCat datagram version %d" in
  Ok (BrowserPacket (NodePublicFromRaw32 (slice 1 (1 + NodePublicRawLen) b))
        (NodePublicFromRaw32 (slice (1 + NodePublicRawLen) headerLen b))
        (drop (Z.to_nat headerLen) b)).
End browser_packet.

(** * Fragmentation *)

(** src/masquecat_browser_js.go:114-116 [nextBrowserFragmentID]: the identifier at
    wall-clock time [now] with counter [seq], and the new counter *)
Definition nextBrowserFragmentID (now seq : Z) : Z * Z :=
  let seq' := u64 (seq + 1) in (u64 (u64 now + seq'), seq').

(** src/masquecat_browser_js.go:131-144 [fragmentBrowserWireGuardPacket, loop] *)
Fixpoint browser_fragment_loop (fuel : nat) (payload : list byte) (id count i off : Z) : list (list byte) :=
  match fuel with
  | O => []
  | S fuel' =>
      if off <? zlen payload then
        let end_ := off + browserFragmentChunkSize in
        let end_ := if zlen payload <? end_ then zlen payload else end_ in
        let fragment := browserFragmentMagic ++ be_put 8 id ++ be_put 2 (u16 i) ++ be_put 2 (u16 count)
                          ++ be_put 4 (u32 (zlen payload)) ++ slice off end_ payload in
        fragment :: browser_fragment_loop fuel' payload id count (i + 1) (off + browserFragmentChunkSize)
      else []
  end.

(** src/masquecat_browser_js.go:118-146 [fragmentBrowserWireGuardPacket]; also the
    counter.  A round advances by a chunk, so [length payload] rounds suffice. *)
Definition fragmentBrowserWireGuardPacket (now seq : Z) (payload : list byte) : result (list (list byte)) * Z :=
  if zlen payload <=? browserFragmentChunkSize then (Ok [], seq)
  else if browserFragmentMaxSize <? zlen payload then
    (Err (ErrNew "masquecat: browser WireGuard packet too large to fragment: %d bytes"), seq)
  else
    let count := (zlen payload + browserFragmentChunkSize - 1) / browserFragmentChunkSize in
    if 65535 <? count then
      (Err (ErrNew "masquecat: browser WireGuard packet needs too many fragments: %d"), seq)
    else
      let '(id, seq') := nextBrowserFragmentID now seq in
      (Ok (browser_fragment_loop (length payload) payload id count 0 0), seq').

(** * Reassembly *)

Section browser_reassembler.
Context `{K : KeyOps}.

(** src/masquecat_browser_js.go:101-107 [browserFragmentSet] *)
Record browserFragmentSet : Type := FragmentSet {
  fs_count : Z;
  fs_total : Z;
  fs_parts : list (option (list byte));
  fs_received : Z;
  fs_updated : Z;
}.

(** src/masquecat_browser_js.go:96-99 [browserFragmentKey] *)
Abbreviation browserFragmentKey := (NodePublic * Z)%type.
Abbreviation browser_sets := (gmap (NodePublic * Z) browserFragmentSet).

(** src/masquecat_browser_js.go:109-112 [browserReassembler] *)
Record browserReassembler : Type := BrowserReassembler { br_sets : browser_sets }.

(** src/masquecat_browser_js.go:148-154 [browserReassembler.cleanupLocked] *)
Definition browser_cleanupLocked (now : Z) (m : browser_sets) : browser_sets :=
  filter (fun kv => ~ browserFragmentTTL <= now - fs_updated (snd kv)) m.

(** src/masquecat_browser_js.go:156-164 [browserReassembler.sourceAssemblyCountLocked] *)
Definition browser_sourceAssemblyCountLocked (m : browser_sets) (src : NodePublic) : Z :=
  Z.of_nat (count_map (fun kv : NodePublic * Z * browserFragmentSet => kv.1.1 = src) m).

(** src/masquecat_browser_js.go:230-236 [browserReassembler.Push], the loop that joins
    the parts *)
Fixpoint browser_join (parts : list (option (list byte))) (out : list byte) : option (list byte) :=
  match parts with
  | [] => Some out
  | None :: _ => None
  | Some part :: rest => browser_join rest (out ++ part)
  end.

(** src/masquecat_browser_js.go:217-241 [browserReassembler.Push], storing a chunk in the
    set found under [k] *)
Definition browser_store (m : browser_sets) (k : browserFragmentKey) (set : browserFragmentSet) (now index : Z)
    (chunk : list byte) : browser_sets * result (option (list byte)) :=
  match fs_parts set !! Z.to_nat index with
  | Some (Some old) =>
      if bool_decide (old = chunk) then (m, Ok None)
      else (delete k m, Err (ErrNew "masquecat: conflicting duplicate browser WireGuard fragment"))
  | _ =>
      let set := FragmentSet (fs_count set) (fs_total set) (<[Z.to_nat index := Some chunk]> (fs_parts set))
                   (fs_received set + 1) now in
      let m := <[k := set]> m in
      if negb (fs_received set =? fs_count set) then (m, Ok None)
      else
        match browser_join (fs_parts set) [] with
        | None => (m, Ok None)
        | Some out =>
            let m := delete k m in
            if negb (zlen out =? fs_total set) then
              (m, Err (ErrNew "masquecat: browser WireGuard reassembly size mismatch"))
            else (m, Ok (Some out))
        end
  end.

(** src/masquecat_browser_js.go:166-242 [browserReassembler.Push]; [Ok (Some out)] is
    [(out, true, nil)] and [Ok None] is [(nil, false, nil)] *)
Definition browser_Push (r : browserReassembler) (now : Z) (src : NodePublic) (payload : list byte)
    : browserReassembler * result (option (list byte)) :=
  if negb (has_prefix browserFragmentMagic payload) then (r, Ok (Some payload))
  else if zlen payload <? browserFragmentHeaderLen then
    (r, Err (ErrNew "masquecat: short browser WireGuard fragment"))
  else
    let id := be_get (slice 4 12 payload) in
    let index := be_get (slice 12 14 payload) in
    let count := be_get (slice 14 16 payload) in
    let total := be_get (slice 16 20 payload) in
    let chunk := drop (Z.to_nat browserFragmentHeaderLen) payload in
    if (count <? 2) || (count <=? index) || (browserFragmentMaxSize <? total) then
      (r, Err (ErrNew "masquecat: invalid browser WireGuard fragment"))
    else
      let expectedCount := (total + browserFragmentChunkSize - 1) / browserFragmentChunkSize in
      if negb (count =? expectedCount) then
        (r, Err (ErrNew "masquecat: inconsistent browser WireGuard fragment count"))
      else
        let m := browser_cleanupLocked now (br_sets r) in
        let k := (src, id) in
        let opened :=
          match m !! k with
          | Some set => Ok (m, set)
          | None =>
              if browserFragmentMaxIncompletePerSource <=? browser_sourceAssemblyCountLocked m src then
                Err (ErrNew "masquecat: too many incomplete browser WireGuard fragments for source")
              else if browserFragmentMaxIncompleteSets <=? Z.of_nat (size m) then
                Err (ErrNew "masquecat: too many incomplete browser WireGuard fragments")
              else
                let set := FragmentSet count total (replicate (Z.to_nat count) None) 0 now in
                Ok (<[k := set]> m, set)
          end in
        match opened with
        | Err e => (BrowserReassembler m, Err e)
        | Ok (m, set) =>
            if negb (fs_count set =? count) || negb (fs_total set =? total) then
              (BrowserReassembler (delete k m),
               Err (ErrNew "masquecat: inconsistent browser WireGuard fragment metadata"))
            else
              let expectedChunkLen :=
                if index =? expectedCount - 1 then total - (expectedCount - 1) * browserFragmentChunkSize
                else browserFragmentChunkSize in
              if negb (zlen chunk =? expectedChunkLen) then
                (BrowserReassembler (delete k m),
                 Err (ErrNew "masquecat: invalid browser WireGuard fragment length"))
              else
                let '(m, res) := browser_store m k set now index chunk in
                (BrowserReassembler m, res)
        end.
End browser_reassembler.

(** * The bind *)

Section browser_bind.
Context `{K : KeyOps}.

(** src/masquecat_browser_js.go:248-248 [browserEndpoint] *)
Record browserEndpoint : Type := BrowserEndpoint { be_peer : NodePublic }.

(** src/masquecat_browser_js.go:252-254 [browserEndpoint.DstToString] *)
Definition browser_DstToString (e : browserEndpoint) : gostring :=
  Strings.TrimPrefix (KeyString (be_peer e)) browserNodePublicTextPrefix.

(** src/masquecat_browser_js.go:255-255 [browserEndpoint.DstToBytes] *)
Definition browser_DstToBytes (e : browserEndpoint) : list byte := Raw (be_peer e).

(** A conn.Endpoint given to [Send]: one of ours (possibly a nil pointer) or not. *)
Inductive browserConnEndpoint : Type :=
  | BrowserEP (e : option browserEndpoint)
  | BrowserOtherEP.

(** src/masquecat_browser_js.go:259-262 [browserInboundPacket] *)
Record browserInboundPacket : Type := BrowserInbound { bi_src : NodePublic; bi_payload : list byte }.

(** The two channels of one [Open]: what [recv] buffers and whether [close] is closed. *)
Record browserChans : Type := BrowserChans {
  bc_queue : list browserInboundPacket;
  bc_closed : bool;
}.

(** src/masquecat_browser_js.go:264-273 [browserBind]; the two channels of one [Open] are
    an object of [bb_chans], a path is a number *)
Record browserBind : Type := MkBrowserBind {
  bb_local : NodePublic;
  bb_open : bool;
  bb_recv : option nat;
  bb_close : option nat;
  bb_path : option nat;
  bb_peer : NodePublic;
  bb_frag : browserReassembler;
  bb_chans : list browserChans;
}.

(** src/masquecat_browser_js.go:501-501 [newBrowserCore], [&browserBind{local: pub}] *)
Definition newBrowserBind (local : NodePublic) : browserBind :=
  MkBrowserBind local false None None None NodePublicZero (BrowserReassembler ∅) [].

Definition browser_with_chans (b : browserBind) (cs : list browserChans) : browserBind :=
  MkBrowserBind (bb_local b) (bb_open b) (bb_recv b) (bb_close b) (bb_path b) (bb_peer b) (bb_frag b) cs.
Definition browser_with_frag (b : browserBind) (f : browserReassembler) : browserBind :=
  MkBrowserBind (bb_local b) (bb_open b) (bb_recv b) (bb_close b) (bb_path b) (bb_peer b) f (bb_chans b).

(** src/masquecat_browser_js.go:275-299 [browserBind.Open] *)
Definition browser_Open (b : browserBind) : browserBind * result unit :=
  if bb_open b then (b, Err ConnErrBindAlreadyOpen)
  else
    let ch := length (bb_chans b) in
    (MkBrowserBind (bb_local b) true (Some ch) (Some ch) (bb_path b) (bb_peer b) (bb_frag b)
       (bb_chans b ++ [BrowserChans [] false]), Ok tt).

(** src/masquecat_browser_js.go:284-288 [browserBind.Open], the receive function: the
    channels it waits on are those of the bind when it is called *)
Definition browser_receive_begin (b : browserBind) : option nat := bb_recv b.

(** src/masquecat_browser_js.go:285-296 [browserBind.Open], the receive function on its
    channels; [buflens] are the lengths of [packets], [nsizes] and [neps] those of [sizes]
    and [eps].  [None] while it blocks. *)
Definition browser_receive (b : browserBind) (ch : nat) (choice : select_choice) (buflens : list Z)
    (nsizes neps : nat) : option (browserBind * result browserInboundPacket) :=
  match bb_chans b !! ch with
  | None => None
  | Some c =>
      let take_data :=
        match bc_queue c with
        | [] => None
        | p :: q =>
            Some (browser_with_chans b (<[ch := BrowserChans q (bc_closed c)]> (bb_chans b)),
              match buflens, nsizes, neps with
              | l0 :: _, S _, S _ =>
                  guard! negb (l0 <? zlen (bi_payload p))
                    or ErrNew "masquecat: invalid browser WireGuard receive buffer" in
                  Ok p
              | _, _, _ => Err (ErrNew "masquecat: invalid browser WireGuard receive buffer")
              end)
        end in
      if bc_closed c then
        match choice, take_data with
        | PreferData, Some r => Some r
        | _, _ => Some (b, Err NetErrClosed)
        end
      else take_data
  end.

(** src/masquecat_browser_js.go:301-309 [browserBind.Close]: the fields stay set *)
Definition browser_bind_Close (b : browserBind) : browserBind :=
  if bb_open b then
    let chans :=
      match bb_close b with
      | Some ch => match bb_chans b !! ch with
                   | Some c => <[ch := BrowserChans (bc_queue c) true]> (bb_chans b)
                   | None => bb_chans b
                   end
      | None => bb_chans b
      end in
    MkBrowserBind (bb_local b) false (bb_recv b) (bb_close b) (bb_path b) (bb_peer b) (bb_frag b) chans
  else b.

(** src/masquecat_browser_js.go:314-324 [browserBind.ParseEndpoint] *)
Definition browser_ParseEndpoint (s : gostring) : result browserEndpoint :=
  let s := Strings.TrimPrefix s browserNodePublicTextPrefix in
  guard! bool_decide (is_Some (Hex.DecodeString s)) && (zlen s =? NodePublicRawLen * 2)
    or ErrNew "masquecat: invalid browser peer endpoint" in
  let? k := UnmarshalText (browserNodePublicTextPrefix ++ s) in
  Ok (BrowserEndpoint k).

(** src/masquecat_browser_js.go:337-357 [browserBind.Send], the loop over the buffers; the
    payloads handed to [ForwardPacket], and the counter; [clock n] is the time after [n]
    payloads *)
Fixpoint browser_send_bufs (clock : nat -> Z) (forward : nat -> list byte -> option gerror) (offset seq : Z)
    (n : nat) (bufs : list (list byte)) : list (list byte) * Z * option gerror :=
  match bufs with
  | [] => ([], seq, None)
  | buf :: rest =>
      if (offset <? 0) || (zlen buf <? offset) then
        ([], seq, Some (ErrNew "masquecat: invalid browser WireGuard packet offset"))
      else
        let payload := drop (Z.to_nat offset) buf in
        match fragmentBrowserWireGuardPacket (clock n) seq payload with
        | (Err e, seq) => ([], seq, Some e)
        | (Ok fragments, seq) =>
            let out := match fragments with [] => [payload] | _ => fragments end in
            match forward_all forward n out with
            | (l, _, Some e) => (l, seq, Some e)
            | (l, n, None) =>
                let '(l', seq, e) := browser_send_bufs clock forward offset seq n rest in
                (l ++ l', seq, e)
            end
        end
  end.

(** src/masquecat_browser_js.go:326-359 [browserBind.Send]: the path, the peer and the
    payloads forwarded, the counter and the error *)
Definition browser_Send (b : browserBind) (clock : nat -> Z) (forward : nat -> nat -> list byte -> option gerror)
    (seq : Z) (bufs : list (list byte)) (ep : browserConnEndpoint) (offset : Z)
    : option (nat * NodePublic * list (list byte)) * Z * option gerror :=
  match ep with
  | BrowserEP (Some e) =>
      match bb_path b with
      | Some path =>
          if bool_decide (be_peer e = bb_peer b) then
            let '(l, seq, err) := browser_send_bufs clock (forward path) offset seq 0 bufs in
            (Some (path, bb_peer b, l), seq, err)
          else (None, seq, Some (ErrNew "masquecat: browser transport path unavailable"))
      | None => (None, seq, Some (ErrNew "masquecat: browser transport path unavailable"))
      end
  | _ => (None, seq, Some ConnErrWrongEndpointType)
  end.

(** src/masquecat_browser_js.go:361-365 [browserBind.SetPath] *)
Definition browser_SetPath (b : browserBind) (peer : NodePublic) (path : option nat) : browserBind :=
  MkBrowserBind (bb_local b) (bb_open b) (bb_recv b) (bb_close b) path peer (bb_frag b) (bb_chans b).

(** src/masquecat_browser_js.go:367-373 [browserBind.Inject], reassembly: the packet to
    hand over, if one is complete *)
Definition browser_inject_push (b : browserBind) (now : Z) (src : NodePublic) (payload : list byte)
    : browserBind * option (list byte) :=
  let '(f, res) := browser_Push (bb_frag b) now src payload in
  (browser_with_frag b f, match res with Ok (Some out) => Some out | _ => None end).

(** src/masquecat_browser_js.go:374-380 [browserBind.Inject], the channels of the bind *)
Definition browser_inject_snapshot (b : browserBind) : result nat :=
  if negb (bb_open b) then Err NetErrClosed
  else match bb_recv b, bb_close b with
       | Some ch, Some _ => Ok ch
       | _, _ => Err NetErrClosed
       end.

(** src/masquecat_browser_js.go:381-387 [browserBind.Inject], handing the packet over;
    [None] while it blocks *)
Definition browser_inject_deliver (b : browserBind) (ch : nat) (choice : select_choice)
    (pkt : browserInboundPacket) : option (browserBind * option gerror) :=
  match bb_chans b !! ch with
  | None => None
  | Some c =>
      let room := zlen (bc_queue c) <? browserMasqueQueueSize in
      let put := (browser_with_chans b (<[ch := BrowserChans (bc_queue c ++ [pkt]) (bc_closed c)]> (bb_chans b)), None) in
      if bc_closed c then
        match choice with
        | PreferData => if room then Some put else Some (b, Some NetErrClosed)
        | PreferClosed => Some (b, Some NetErrClosed)
        end
      else if room then Some put else None
  end.

(** src/masquecat_browser_js.go:367-388 [browserBind.Inject], run without interruption *)
Definition browser_Inject (b : browserBind) (now : Z) (choice : select_choice) (src : NodePublic)
    (payload : list byte) : option (browserBind * option gerror) :=
  match browser_inject_push b now src payload with
  | (b, None) => Some (b, None)
  | (b, Some out) =>
      match browser_inject_snapshot b with
      | Err e => Some (b, Some e)
      | Ok ch => browser_inject_deliver b ch choice (BrowserInbound src out)
      end
  end.
End browser_bind.

(** * The TUN *)

(** src/masquecat_browser_js.go:413-426 [browserTun.Read]: [pkt] is the next raw packet of
    the link, [None] once the context is done; the buffers after the copy and the size *)
Definition browser_tun_Read (pkt : option (list byte)) (bufs : list (list byte)) (nsizes : nat) (offset : Z)
    : result (list (list byte) * Z) :=
  match pkt with
  | None => Err OSErrClosed
  | Some raw =>
      match bufs, nsizes with
      | b0 :: bs, S _ =>
          guard! negb ((offset <? 0) || (zlen b0 <? offset + zlen raw))
            or ErrNew "masquecat: browser TUN receive buffer too small" in
          let o := Z.to_nat offset in
          Ok ((take o b0 ++ raw ++ drop (o + length raw) b0) :: bs, zlen raw)
      | _, _ => Err (ErrNew "masquecat: browser TUN receive buffer too small")
      end
  end.

(** src/masquecat_browser_js.go:428-454 [browserTun.Write]: the packets injected into the
    link with their protocols, the count and the error *)
Fixpoint browser_tun_Write (bufs : list (list byte)) (offset : Z) (written : Z)
    : list (ip_proto * list byte) * Z * option gerror :=
  match bufs with
  | [] => ([], written, None)
  | buf :: rest =>
      if (offset <? 0) || (zlen buf <=? offset) then
        ([], written, Some (ErrNew "masquecat: invalid browser TUN offset"))
      else
        match drop (Z.to_nat offset) buf with
        | [] => browser_tun_Write rest offset written
        | (b0 :: _) as raw =>
            let proto := match Z.shiftr (b2z b0) 4 with
                         | 4 => Some IPv4
                         | 6 => Some IPv6
                         | _ => None
                         end in
            match proto with
            | None => browser_tun_Write rest offset written
            | Some proto =>
                let '(l, w, e) := browser_tun_Write rest offset (written + 1) in ((proto, raw) :: l, w, e)
            end
        end
  end.

(** * Agreement with the native implementation *)

Section agreement.
Context `{K : KeyOps}.
Abbreviation browser_sets := (gmap (NodePublic * Z) browserFragmentSet).
Implicit Types (m : browser_sets) (r : browserReassembler).

Lemma browser_encode_native src dst payload :
  encodeBrowserMasquePacket src dst payload = encodeMasquePacket src dst payload.
Proof. done. Qed.

Lemma browser_decode_native b :
  decodeBrowserMasquePacket b =
  match decodeMasquePacket b with
  | Ok p => Ok (BrowserPacket (pkt_src p) (pkt_dst p) (pkt_payload p))
  | Err e => Err e
  end.
Proof.
  unfold decodeBrowserMasquePacket, decodeMasquePacket, packetHeaderLen.
  destruct (negb (zlen b <? _)); simpl; [|done]. by destruct (bool_decide _).
Qed.

Lemma browser_loop_native fuel payload id count i off :
  browser_fragment_loop fuel payload id count i off = fragment_loop fuel payload id count i off.
Proof. revert i off. induction fuel as [|fuel IH]; intros i off; simpl; [done|]. by rewrite IH. Qed.

(** The browser cuts packets exactly as the native peer does. *)
Lemma browser_fragment_native now seq payload :
  match fragmentBrowserWireGuardPacket now seq payload, fragmentMasqueWireGuardPacket now seq payload with
  | (Ok l, s), (Ok l', s') => l = l' /\ s = s'
  | (Err _, s), (Err _, s') => s = s'
  | _, _ => False
  end.
Proof.
  unfold fragmentBrowserWireGuardPacket, fragmentMasqueWireGuardPacket.
  change browserFragmentChunkSize with masqueWGFragmentChunkSize.
  change browserFragmentMaxSize with masqueWGFragmentMaxSize.
  destruct (zlen payload <=? _); [done|]. destruct (_ <? zlen payload); [done|].
  destruct (65535 <? _); [done|]. simpl. split; [|done]. apply browser_loop_native.
Qed.

(** The native reassembler that holds the same sets. *)
Definition native_set (s : browserFragmentSet) : masqueWGFragmentAssembly :=
  Assembly (fs_count s) (fs_total s) (fs_parts s) (fs_received s) (fs_updated s).
Definition native_sets m : gmap (NodePublic * Z) masqueWGFragmentAssembly := native_set <$> m.
Definition native (r : browserReassembler) : masqueWGReassembler := Reassembler (native_sets (br_sets r)).

(** Two results of a push that differ at most in the text of an error. *)
Definition same_outcome (x y : result (option (list byte))) : Prop :=
  match x, y with
  | Ok a, Ok b => a = b
  | Err _, Err _ => True
  | _, _ => False
  end.

(** A fragment whose header is right and whose chunk has the wrong length. *)
Definition wrong_length (payload : list byte) : Prop :=
  parseFragment payload = Err (ErrNew "masquecat: WireGuard fragment %d has %d bytes, want %d").

Lemma wrong_length_or payload : wrong_length payload \/ ~ wrong_length payload.
Proof.
  unfold wrong_length, parseFragment. cbv zeta.
  repeat (match goal with |- context [if ?b then _ else _] => destruct b end; try (by right; intros [=])).
  by left.
Qed.

Lemma native_cleanup now m : native_sets (browser_cleanupLocked now m) = cleanupLocked now (native_sets m).
Proof.
  unfold native_sets, browser_cleanupLocked, cleanupLocked. rewrite map_filter_fmap. f_equal.
Qed.

Lemma native_count m src : sourceAssemblyCountLocked (native_sets m) src = browser_sourceAssemblyCountLocked m src.
Proof.
  unfold sourceAssemblyCountLocked, browser_sourceAssemblyCountLocked, count_map, native_sets. f_equal.
  rewrite map_to_list_fmap. induction (map_to_list m) as [|[k s] l IH]; [done|].
  rewrite fmap_cons, !filter_cons. simpl. destruct (decide (k.1 = src)); simpl; congruence.
Qed.

Lemma native_lookup m k : native_sets m !! k = native_set <$> m !! k.
Proof. apply lookup_fmap. Qed.
Lemma native_size m : size (native_sets m) = size m.
Proof. apply map_size_fmap. Qed.
Lemma native_insert m k s : native_sets (<[k := s]> m) = <[k := native_set s]> (native_sets m).
Proof. apply fmap_insert. Qed.
Lemma native_delete m k : native_sets (delete k m) = delete k (native_sets m).
Proof. apply fmap_delete. Qed.

Lemma browser_join_native parts out : browser_join parts out = joinParts parts out.
Proof. revert out. induction parts as [|[p|] parts IH]; intros out; simpl; [done|apply IH|done]. Qed.

Lemma native_store (m m1 : browser_sets) (m2 : gmap (NodePublic * Z) masqueWGFragmentAssembly) k s now index chunk
    (res1 res2 : result (option (list byte))) :
  browser_store m k s now index chunk = (m1, res1) ->
  storePart (native_sets m) k (native_set s) now index chunk = (m2, res2) ->
  native_sets m1 = m2 /\ same_outcome res1 res2.
Proof.
  unfold browser_store, storePart. simpl. intros H1 H2.
  destruct (fs_parts s !! Z.to_nat index) as [[old|]|] eqn:Ep.
  { destruct (bool_decide _); simplify_eq; by rewrite ?native_delete. }
  all: rewrite browser_join_native in H1; destruct (negb (_ =? fs_count s));
    [simplify_eq; by rewrite native_insert|].
  all: destruct (joinParts _ _) as [out|]; [|simplify_eq; by rewrite native_insert].
  all: destruct (negb _); simplify_eq; by rewrite native_delete, native_insert.
Qed.

(** What the browser's header checks accept. *)
Lemma browser_header payload :
  match parseFragment payload with
  | Ok None => has_prefix masqueWGFragmentMagic payload = false
  | Ok (Some h) =>
      has_prefix masqueWGFragmentMagic payload = true /\ (zlen payload <? 20) = false /\
      h = FragmentHeader (be_get (slice 4 12 payload)) (be_get (slice 12 14 payload)) (be_get (slice 14 16 payload))
            (be_get (slice 16 20 payload)) (drop 20 payload) /\
      ((fh_count h <? 2) || (fh_count h <=? fh_index h) || (masqueWGFragmentMaxSize <? fh_total h)) = false /\
      (fh_count h =? chunk_count (fh_total h)) = true /\
      (zlen (fh_chunk h) =? expectedChunkLen (fh_total h) (fh_index h)) = true
  | Err _ =>
      (~ wrong_length payload -> forall r now src, exists e, browser_Push r now src payload = (r, Err e)) /\
      (wrong_length payload ->
        has_prefix masqueWGFragmentMagic payload = true /\ (zlen payload <? 20) = false /\
      let total := be_get (slice 16 20 payload) in let index := be_get (slice 12 14 payload) in
        ((be_get (slice 14 16 payload) <? 2) || (be_get (slice 14 16 payload) <=? index) || (masqueWGFragmentMaxSize <? total)) = false /\
      (be_get (slice 14 16 payload) =? chunk_count total) = true /\
      (zlen (drop 20 payload) =? expectedChunkLen total index) = false)
  end.
Proof.
  unfold wrong_length, parseFragment, browser_Push, masqueWGFragmentHeaderLen, browserFragmentHeaderLen.
  change browserFragmentMagic with masqueWGFragmentMagic.
  change browserFragmentMaxSize with masqueWGFragmentMaxSize.
  change browserFragmentChunkSize with masqueWGFragmentChunkSize.
  change (Z.to_nat 20) with 20%nat.
  destruct (has_prefix _ payload); [|done]. cbn [negb].
  destruct (zlen payload <? 20); [split; [eauto|done]|]. cbv zeta.
  set (index := be_get (slice 12 14 payload)). set (count := be_get (slice 14 16 payload)).
  set (total := be_get (slice 16 20 payload)). fold (chunk_count total).
  destruct ((count <? 2) || (count <=? index)) eqn:E1; [split; [eauto|done]|].
  destruct (masqueWGFragmentMaxSize <? total) eqn:E2.
  { rewrite orb_true_r. split; [eauto|done]. }
  rewrite orb_false_r. cbn [orb].
  destruct (count =? chunk_count total) eqn:E3; cbn [negb].
  2: { destruct (total <=? _); split; (eauto || done). }
  destruct (total <=? masqueWGFragmentChunkSize) eqn:E4.
  { exfalso. bool_to_prop. unfold chunk_count in E3. frag_consts.
    assert ((total + 1000 - 1) / 1000 < 2) by (apply Z.div_lt_upper_bound; lia). lia. }
  destruct (zlen _ =? expectedChunkLen total index) eqn:E5; cbn [negb fh_count fh_index fh_total fh_chunk].
  - by rewrite E1, E2.
  - split; [by intros []|]. done.
Qed.

(** The consts of the two implementations. *)
Ltac native_consts :=
  change browserFragmentMagic with masqueWGFragmentMagic;
  change browserFragmentMaxSize with masqueWGFragmentMaxSize;
  change browserFragmentChunkSize with masqueWGFragmentChunkSize;
  change browserFragmentHeaderLen with 20; change (Z.to_nat 20) with 20%nat;
  change browserFragmentMaxIncompletePerSource with masqueWGMaxAssembliesPerSource;
  change browserFragmentMaxIncompleteSets with masqueWGMaxAssemblies.

(** Anything but a fragment of a wrong length is treated as the native reassembler
    treats it. *)
Lemma browser_push_native r now src payload :
  ~ wrong_length payload ->
  native (browser_Push r now src payload).1 = (Push (native r) now src payload).1 /\
  same_outcome (browser_Push r now src payload).2 (Push (native r) now src payload).2.
Proof.
  intros Hw. pose proof (browser_header payload) as Hh. unfold Push.
  destruct (parseFragment payload) as [[h|]|e].
  - destruct Hh as (Hm & H20 & -> & Hg & Hc & Hl). cbn [fh_count fh_index fh_total fh_chunk fh_id] in *.
    unfold browser_Push. native_consts. rewrite Hm, H20. cbn [negb]. cbv zeta.
    fold (chunk_count (be_get (slice 16 20 payload))). rewrite Hg, Hc. cbn [negb].
    unfold expectedChunkLen in Hl. fold (chunk_count (be_get (slice 16 20 payload))) in Hl.
    set (count := be_get (slice 14 16 payload)) in *. set (total := be_get (slice 16 20 payload)) in *.
    set (index := be_get (slice 12 14 payload)) in *. set (k := (src, be_get (slice 4 12 payload))).
    rewrite Hl. cbn [native sets negb]. rewrite <- native_cleanup, native_count.
    set (m := browser_cleanupLocked now (br_sets r)). rewrite native_size, native_lookup.
    destruct (m !! k) as [s|] eqn:Hk; cbn [fmap option_fmap option_map].
    + cbn [native_set fa_count fa_total]. destruct (negb _ || negb _).
      { split; [|done]. unfold native. cbn [fst br_sets]. by rewrite native_delete. }
      destruct (browser_store m k s now index (drop 20 payload)) as [m1 res1] eqn:E1.
      destruct (storePart _ _ _ _ _ _) as [m2 res2] eqn:E2.
      by destruct (native_store _ _ _ _ _ _ _ _ _ _ E1 E2) as [<- ?].
    + destruct (_ <=? browser_sourceAssemblyCountLocked m src); [done|].
      destruct (_ <=? Z.of_nat (size m)); [done|]. cbn [fs_count fs_total]. rewrite !Z.eqb_refl. cbn [negb orb].
      destruct (browser_store _ k _ now index (drop 20 payload)) as [m1 res1] eqn:E1.
      destruct (storePart _ _ _ _ _ _) as [m2 res2] eqn:E2.
      change (Assembly count total _ 0 now)
        with (native_set (FragmentSet count total (replicate (Z.to_nat count) None) 0 now)) in E2.
      rewrite <- native_insert in E2.
      by destruct (native_store _ _ _ _ _ _ _ _ _ _ E1 E2) as [<- ?].
  - unfold browser_Push. native_consts. by rewrite Hh.
  - destruct Hh as [He _]. destruct (He Hw r now src) as [e' ->]. done.
Qed.

(** A fragment of a wrong length costs its sender the packet it belongs to. *)
Lemma browser_push_wrong_length r now src payload :
  wrong_length payload ->
  exists e, browser_Push r now src payload =
  (BrowserReassembler (delete (src, be_get (slice 4 12 payload)) (browser_cleanupLocked now (br_sets r))), Err e).
Proof.
  intros Hw. pose proof (browser_header payload) as Hh. pose proof Hw as Hp. unfold wrong_length in Hp.
  rewrite Hp in Hh. destruct Hh as [_ Hh]. destruct (Hh Hw) as (Hm & H20 & Hg & Hc & Hl).
  unfold browser_Push. native_consts. rewrite Hm, H20. cbn [negb]. cbv zeta.
  fold (chunk_count (be_get (slice 16 20 payload))). rewrite Hg, Hc. cbn [negb].
  unfold expectedChunkLen in Hl. fold (chunk_count (be_get (slice 16 20 payload))) in Hl. rewrite Hl. cbn [negb].
  set (m := browser_cleanupLocked now (br_sets r)). set (k := (src, be_get (slice 4 12 payload))).
  destruct (m !! k) as [s|] eqn:Hk.
  - destruct (negb _ || negb _); eauto.
  - destruct (_ <=? browser_sourceAssemblyCountLocked m src); [rewrite delete_id by done; eauto|].
    destruct (_ <=? Z.of_nat (size m)); [rewrite delete_id by done; eauto|].
    cbn [fs_count fs_total]. rewrite !Z.eqb_refl. cbn [negb orb]. rewrite delete_insert_eq. eauto.
Qed.
End agreement.

(** * Executions of the reassembler *)

Section reassembly.
Context `{K : KeyOps}.
Implicit Types (r : browserReassembler).

Fixpoint browser_push_all r (evs : list push_event) : list (push_event * result (option (list byte))) :=
  match evs with
  | [] => []
  | ev :: rest =>
      let '(r', res) := browser_Push r (ev_time ev) (ev_src ev) (ev_bytes ev) in
      (ev, res) :: browser_push_all r' rest
  end.

Definition well_sized (ev : push_event) : Prop := ~ wrong_length (ev_bytes ev).

Lemma push_all_simulation r evs :
  Forall well_sized evs ->
  Forall2 (fun x y => x.1 = y.1 /\ same_outcome x.2 y.2) (browser_push_all r evs) (push_all (native r) evs).
Proof.
  intros H. revert r. induction H as [|ev evs Hev _ IH]; intros r; simpl; [constructor|].
  pose proof (browser_push_native r (ev_time ev) (ev_src ev) (ev_bytes ev) Hev) as [Hn Ho].
  destruct (browser_Push _ _ _ _) as [r' res]. destruct (Push _ _ _ _) as [n' nres]. simpl in *. subst n'.
  constructor; [done|]. apply IH.
Qed.

(** Equal results on one assembly, when the native ones have no error. *)
Lemma results_simulation r evs key l :
  Forall well_sized evs -> Forall (fun x => exists a, x = Ok a) l ->
  results_for key (push_all (native r) evs) = l -> results_for key (browser_push_all r evs) = l.
Proof.
  intros Hw Hl <-. pose proof (push_all_simulation r evs Hw) as Hs. clear Hw. unfold results_for in *.
  induction Hs as [|[ev x] [ev' y] xs ys [He Ho] _ IH]; [done|]. simpl in He. subst ev'.
  rewrite !filter_cons in *. simpl in *. destruct (decide (key_of ev = Some key)); [|by apply IH].
  rewrite !fmap_cons in *. apply Forall_cons in Hl as [[a Ha] Hl]. simpl in *. subst y.
  destruct x; simpl in Ho; [subst|done]. f_equal. by apply IH.
Qed.

Lemma completed_simulation r evs :
  Forall well_sized evs -> completed (browser_push_all r evs) = completed (push_all (native r) evs).
Proof.
  intros Hw. pose proof (push_all_simulation r evs Hw) as Hs. clear Hw. rewrite !completed_outputs. unfold outputs.
  induction Hs as [|[ev x] [ev' y] xs ys [_ Ho] _ IH]; [done|]. simpl in *.
  destruct x as [[a|]|], y as [[a'|]|]; simpl in Ho; try done; simplify_eq; cbn; [f_equal|..]; exact IH.
Qed.

Lemma browser_push_wf r now src payload :
  wf_reassembler (native r) -> wf_reassembler (native (browser_Push r now src payload).1).
Proof.
  intros Hwf. destruct (wrong_length_or payload) as [Hw|Hw].
  - destruct (browser_push_wrong_length r now src payload Hw) as [e' ->]. unfold native. simpl.
    rewrite native_delete, native_cleanup. apply (wf_sub (native r)); [done|]. simpl.
    etrans; [apply delete_subseteq|apply cleanup_subseteq].
  - destruct (browser_push_native r now src payload Hw) as [-> _].
    pose proof (push_wf (native r) now src payload Hwf) as H. destruct (Push _ _ _ _). apply H.
Qed.
End reassembly.

(** * The bind *)

Section browser_bind_facts.
Context `{K : KeyOps}.

(** Arrivals of one source at a browser's bind. *)
Fixpoint browser_inject_all (b : browserBind) (src : NodePublic) (evs : list (Z * list byte)) : option browserBind :=
  match evs with
  | [] => Some b
  | (t, p) :: rest =>
      match browser_Inject b t PreferClosed src p with
      | Some (b, None) => browser_inject_all b src rest
      | _ => None
      end
  end.

Lemma browser_inject_step b t src p ch q f' res :
  browser_inject_snapshot b = Ok ch -> bb_chans b !! ch = Some (BrowserChans q false) ->
  browser_Push (bb_frag b) t src p = (f', res) ->
  let out := match res with Ok (Some out) => [BrowserInbound src out] | _ => [] end in
  zlen (q ++ out) <= browserMasqueQueueSize ->
  exists b', browser_Inject b t PreferClosed src p = Some (b', None) /\
    browser_inject_snapshot b' = Ok ch /\ bb_chans b' !! ch = Some (BrowserChans (q ++ out) false) /\
    bb_frag b' = f'.
Proof.
  intros Hsnap Hch Hp out Hlen. unfold browser_Inject, browser_inject_push. rewrite Hp.
  assert ((ch < length (bb_chans b))%nat) as Hlt by (by eapply lookup_lt_Some).
  assert (browser_inject_snapshot (browser_with_frag b f') = Ok ch) as Hsnap' by done.
  destruct res as [[o|]|e].
  - rewrite Hsnap'. unfold browser_inject_deliver. simpl. rewrite Hch. simpl.
    unfold out in Hlen. autorewrite with zlen in Hlen.
    rewrite (proj2 (Z.ltb_lt _ _)) by lia. eexists. split_and!; [done|done| |done]. simpl.
    by rewrite list_lookup_insert_eq.
  - eexists. split_and!; [done|done| |done]. unfold out. by rewrite app_nil_r.
  - eexists. split_and!; [done|done| |done]. unfold out. by rewrite app_nil_r.
Qed.

Lemma browser_inject_all_spec src evs b ch q :
  browser_inject_snapshot b = Ok ch -> bb_chans b !! ch = Some (BrowserChans q false) ->
  let out := BrowserInbound src <$> completed (browser_push_all (bb_frag b) (arrivals src evs)) in
  zlen (q ++ out) <= browserMasqueQueueSize ->
  exists b', browser_inject_all b src evs = Some b' /\ browser_inject_snapshot b' = Ok ch /\
    bb_chans b' !! ch = Some (BrowserChans (q ++ out) false).
Proof.
  revert b q. induction evs as [|[t p] evs IH]; intros b q Hsnap Hch out Hlen.
  { exists b. unfold out. simpl. rewrite app_nil_r. by split_and!. }
  unfold out in *. clear out. simpl in *. destruct (browser_Push (bb_frag b) t src p) as [f' res] eqn:Hp.
  unfold completed in *. simpl in *.
  destruct (browser_inject_step b t src p ch q f' res Hsnap Hch Hp) as (b' & Hi & Hs' & Hc' & Hf').
  { etrans; [|exact Hlen]. unfold zlen. destruct res as [[o|]|e]; rewrite !length_app; simpl; lia. }
  rewrite Hi. specialize (IH b' _ Hs' Hc'). rewrite Hf' in IH.
  destruct res as [[o|]|e]; simpl in *; rewrite ?app_nil_r, <- ?app_assoc in IH; by apply IH.
Qed.

(** One packet leaves as its datagrams. *)
Lemma browser_send_one b path peer clock sq buf offset :
  bb_path b = Some path -> bb_peer b = peer -> 0 <= offset <= zlen buf ->
  zlen (drop (Z.to_nat offset) buf) <= browserFragmentMaxSize ->
  exists sq', browser_Send b clock (fun _ _ _ => None) sq [buf] (BrowserEP (Some (BrowserEndpoint peer))) offset =
  (Some (path, peer, datagrams_of (nextMasqueWGFragmentID (clock 0%nat) sq).1 (drop (Z.to_nat offset) buf)), sq', None).
Proof.
  intros Hpath <- Hoff Hmax. unfold browser_Send. rewrite Hpath. simpl.
  rewrite bool_decide_eq_true_2, (proj2 (Z.ltb_ge _ _)), (proj2 (Z.ltb_ge _ _)) by (done || lia). simpl.
  set (payload := drop (Z.to_nat offset) buf) in *.
  pose proof (browser_fragment_native (clock 0%nat) sq payload) as Hf. unfold datagrams_of.
  destruct (zlen payload <=? masqueWGFragmentChunkSize) eqn:E; bool_to_prop.
  - unfold fragmentBrowserWireGuardPacket. change browserFragmentChunkSize with masqueWGFragmentChunkSize.
    rewrite (proj2 (Z.leb_le _ _)) by done. simpl. eauto.
  - change browserFragmentMaxSize with masqueWGFragmentMaxSize in Hmax.
    rewrite fragment_ok in Hf by lia. destruct (fragmentBrowserWireGuardPacket _ _ _) as [[l|] s]; [|done].
    destruct Hf as [-> ->]. set (fs := fragments_of _ _) in *. assert (fs <> []) as Hne.
    { intros Hnil. apply (f_equal length) in Hnil. unfold fs, fragments_of in Hnil.
      rewrite length_fmap, length_seq in Hnil. pose proof (chunk_count_bounds (zlen payload)).
      frag_consts. simpl in Hnil. lia. }
    destruct fs as [|f0 fs'] eqn:Hfs; [done|]. rewrite forward_all_ok, app_nil_r. eauto.
Qed.

Lemma datagrams_well_sized id payload src times l' :
  0 <= id < 2 ^ 64 -> zlen payload <= masqueWGFragmentMaxSize ->
  has_prefix masqueWGFragmentMagic payload = false -> l' ≡ₚ datagrams_of id payload ->
  Forall well_sized (arrivals src (zip times l')).
Proof.
  intros Hid Hmax Hmagic Hperm. apply Forall_fmap, Forall_forall. intros [t p] Hin%elem_of_zip_r.
  rewrite Hperm in Hin. unfold well_sized, wrong_length. simpl. unfold datagrams_of in Hin.
  destruct (zlen payload <=? masqueWGFragmentChunkSize) eqn:E; bool_to_prop.
  - apply list_elem_of_singleton in Hin as ->. unfold parseFragment. rewrite Hmagic. by intros [=].
  - apply list_elem_of_fmap in Hin as (i & -> & Hi%elem_of_seq). rewrite parse_fragment by lia. by intros [=].
Qed.

(** An open bind with room for one more packet, at which the packet [id] of [src] can be
    reassembled. *)
Definition native_ready (b : masqueBind) (ch : nat) (q : list masqueInboundPacket) (src : NodePublic) (id : Z) : Prop :=
  inject_snapshot b = Ok ch /\ b_chans b !! ch = Some (ChanPair q false) /\ zlen q < masqueCoreQueueSize /\
  sets (b_fragments b) !! (src, id) = None /\
  sourceAssemblyCountLocked (sets (b_fragments b)) src < masqueWGMaxAssembliesPerSource /\
  Z.of_nat (size (sets (b_fragments b))) < masqueWGMaxAssemblies.
Definition browser_ready (b : browserBind) (ch : nat) (q : list browserInboundPacket) (src : NodePublic) (id : Z) : Prop :=
  browser_inject_snapshot b = Ok ch /\ bb_chans b !! ch = Some (BrowserChans q false) /\
  zlen q < browserMasqueQueueSize /\ br_sets (bb_frag b) !! (src, id) = None /\
  browser_sourceAssemblyCountLocked (br_sets (bb_frag b)) src < browserFragmentMaxIncompletePerSource /\
  Z.of_nat (size (br_sets (bb_frag b))) < browserFragmentMaxIncompleteSets.

(** C17: a packet sent on the browser's bind leaves as the same datagrams a native peer
    would send; when they arrive, in any order and within 30 seconds, the queue of a
    native bind that is open gets exactly the packet; so does that of a browser's bind
    for the datagrams of either kind of peer. *)
Theorem browser_interoperates b path peer clock sq buf offset t0 times l' :
  bb_path b = Some path -> bb_peer b = peer -> 0 <= offset <= zlen buf ->
  let payload := drop (Z.to_nat offset) buf in
  zlen payload <= browserFragmentMaxSize -> has_prefix browserFragmentMagic payload = false ->
  let id := (nextMasqueWGFragmentID (clock 0%nat) sq).1 in
  l' ≡ₚ datagrams_of id payload -> length times = length l' ->
  Forall (fun t => t < t0 + masqueWGFragmentTTL /\ t0 <= t) times ->
  (exists sq', browser_Send b clock (fun _ _ _ => None) sq [buf] (BrowserEP (Some (BrowserEndpoint peer))) offset
     = (Some (path, peer, datagrams_of id payload), sq', None)) /\
  (forall b' ch q src, native_ready b' ch q src id ->
     exists b'', inject_all b' src (zip times l') = Some b'' /\
       b_chans b'' !! ch = Some (ChanPair (q ++ [Inbound src payload]) false)) /\
  (forall b' ch q src, browser_ready b' ch q src id ->
     exists b'', browser_inject_all b' src (zip times l') = Some b'' /\
       bb_chans b'' !! ch = Some (BrowserChans (q ++ [BrowserInbound src payload]) false)).
Proof.
  intros Hpath Hpeer Hoff payload Hmax Hmagic id Hperm Hlen Htimes.
  assert (0 <= id < 2 ^ 64) as Hid by (apply Z.mod_pos_bound; lia).
  change browserFragmentMaxSize with masqueWGFragmentMaxSize in Hmax.
  change browserFragmentMagic with masqueWGFragmentMagic in Hmagic.
  split; [by apply browser_send_one|]. split.
  - intros b' ch q src (Hs & Hch & Hq & Hnone & Hsrc & Hsize).
    pose proof (datagrams_completed (b_fragments b') id src payload t0 times l' Hid Hmax Hmagic Hperm Hlen
      Htimes Hnone Hsrc Hsize) as Hc.
    destruct (inject_all_spec src (zip times l') b' ch q Hs Hch) as (b'' & Hi & _ & Hq').
    { rewrite Hc. cbn. rewrite zlen_app. change (zlen [_]) with 1. lia. }
    rewrite Hc in Hq'. eauto.
  - intros b' ch q src (Hs & Hch & Hq & Hnone & Hsrc & Hsize).
    assert (completed (browser_push_all (bb_frag b') (arrivals src (zip times l'))) = [payload]) as Hc.
    { rewrite completed_simulation by (by eapply datagrams_well_sized).
      apply (datagrams_completed (native (bb_frag b')) id src payload t0 times l'); try done; simpl.
      - by rewrite native_lookup, Hnone.
      - by rewrite native_count.
      - by rewrite native_size. }
    destruct (browser_inject_all_spec src (zip times l') b' ch q Hs Hch) as (b'' & Hi & _ & Hq').
    { rewrite Hc. cbn. rewrite zlen_app. change (zlen [_]) with 1. lia. }
    rewrite Hc in Hq'. eauto.
Qed.
End browser_bind_facts.

(** * Executions of the bind *)

Section browser_executions.
Context `{K : KeyOps}.

(** One atomic step of a goroutine on the bind; the receive function and [Inject] read
    the channels in one step and use them in another. *)
Inductive browser_bind_step : browserBind -> browserBind -> Prop :=
  | bbs_open b b' : browser_Open b = (b', Ok tt) -> browser_bind_step b b'
  | bbs_close b : browser_bind_step b (browser_bind_Close b)
  | bbs_set b peer path : browser_bind_step b (browser_SetPath b peer path)
  | bbs_push b now src p : browser_bind_step b (browser_inject_push b now src p).1
  | bbs_deliver b ch choice pkt b' e :
      browser_inject_deliver b ch choice pkt = Some (b', e) -> browser_bind_step b b'
  | bbs_receive b ch choice lens ns ne b' r :
      browser_receive b ch choice lens ns ne = Some (b', r) -> browser_bind_step b b'.

Record wf_browser_bind (b : browserBind) : Prop := {
  wbb_same : bb_recv b = bb_close b;
  wbb_open : bb_open b = true -> exists ch q, bb_recv b = Some ch /\ bb_chans b !! ch = Some (BrowserChans q false);
  (** at most the current pair is open *)
  wbb_old ch c : bb_chans b !! ch = Some c -> bb_open b = false \/ bb_recv b <> Some ch -> bc_closed c = true;
  wbb_queue : Forall (fun c => zlen (bc_queue c) <= browserMasqueQueueSize) (bb_chans b);
  wbb_frag : wf_reassembler (native (bb_frag b));
}.

Lemma wf_newBrowserBind local : wf_browser_bind (newBrowserBind local).
Proof.
  split; simpl; try done; apply wf_empty.
Qed.

Lemma wf_browser_queue b ch c q :
  wf_browser_bind b -> bb_chans b !! ch = Some c -> zlen q <= browserMasqueQueueSize ->
  wf_browser_bind (browser_with_chans b (<[ch := BrowserChans q (bc_closed c)]> (bb_chans b))).
Proof.
  intros [Hs Ho Hold Hq Hf] Hch Hlen. split; simpl; try done.
  - intros Hopen. destruct (Ho Hopen) as (ch' & q' & Hr & Hc). exists ch'.
    destruct (decide (ch' = ch)) as [->|Hne].
    + exists q. rewrite list_lookup_insert_eq by (by eapply lookup_lt_Some). split; [done|].
      rewrite Hch in Hc. by injection Hc as ->.
    + exists q'. by rewrite list_lookup_insert_ne by done.
  - intros ch' c' Hc' Hne. apply list_lookup_insert_Some in Hc' as [(<- & <- & _)|[? ?]]; simpl; eauto.
  - by apply Forall_insert.
Qed.

Lemma browser_bind_step_wf b b' : wf_browser_bind b -> browser_bind_step b b' -> wf_browser_bind b'.
Proof.
  intros Hwf Hst. destruct Hst as [b b' H|b|b peer path|b now src p|b ch choice pkt b' e H|b ch choice lens ns ne b' r H].
  - unfold browser_Open in H. destruct (bb_open b) eqn:Hopen; [done|]. injection H as <-.
    destruct Hwf as [Hs Ho Hold Hq Hf]. split; simpl; try done.
    + intros _. eexists _, []. split; [done|]. by rewrite lookup_app_r, Nat.sub_diag.
    + intros ch c Hc [?|Hne]; [done|]. apply lookup_app_Some in Hc as [Hc|[Hle Hc]]; [eauto|].
      apply list_lookup_singleton_Some in Hc as [Hz _]. destruct Hne. f_equal. lia.
    + apply Forall_app. split; [done|]. by repeat constructor.
  - unfold browser_bind_Close. destruct (bb_open b) eqn:Hopen; [|done].
    destruct Hwf as [Hs Ho Hold Hq Hf]. destruct (Ho Hopen) as (ch & q & Hr & Hc). rewrite <- Hs, Hr, Hc.
    split; simpl; try done.
    + intros ch' c' Hc' _. apply list_lookup_insert_Some in Hc' as [(<- & <- & _)|[Hne Hc']]; [done|].
      apply (Hold ch' c' Hc'). right. congruence.
    + apply Forall_insert; [done|]. exact (Forall_lookup_1 _ _ _ _ Hq Hc).
  - by destruct Hwf; split.
  - unfold browser_inject_push. destruct (browser_Push _ _ _ _) as [f res] eqn:Hp. simpl.
    destruct Hwf as [Hs Ho Hold Hq Hf]. split; simpl; try done.
    pose proof (browser_push_wf (bb_frag b) now src p Hf) as Hf'. by rewrite Hp in Hf'.
  - unfold browser_inject_deliver in H. destruct (bb_chans b !! ch) as [c|] eqn:Hc; [|done].
    destruct (zlen (bc_queue c) <? browserMasqueQueueSize) eqn:E; bool_to_prop;
      destruct (bc_closed c) eqn:Ecl, choice; simplify_eq; try done; rewrite <- Ecl;
      apply wf_browser_queue; try done; rewrite zlen_app; change (zlen [pkt]) with 1; lia.
  - unfold browser_receive in H. destruct (bb_chans b !! ch) as [c|] eqn:Hc; [|done].
    destruct (bc_queue c) as [|p q] eqn:Eq; [destruct (bc_closed c); [destruct choice|]; by simplify_eq|].
    assert (wf_browser_bind (browser_with_chans b (<[ch := BrowserChans q (bc_closed c)]> (bb_chans b)))) as Hw.
    { apply wf_browser_queue; [done..|]. pose proof (wbb_queue _ Hwf) as Hq.
      eapply Forall_lookup_1 in Hq; [|exact Hc]. rewrite Eq, zlen_cons in Hq. lia. }
    destruct (bc_closed c) eqn:Ecl; [destruct choice|]; by simplify_eq.
Qed.

Lemma reachable_wf_browser_bind local b : rtc browser_bind_step (newBrowserBind local) b -> wf_browser_bind b.
Proof.
  intros H. pose proof (wf_newBrowserBind local) as Hwf. revert Hwf.
  induction H; [done|]. eauto using browser_bind_step_wf.
Qed.

(** However openings, closings, path changes, injections and receives interleave: while
    the bind is open its channels are open, all others are closed, a queue holds at most
    512 packets, and the reassembler keeps to the limits and the consistency of the
    native one, malformed fragments included. *)
Theorem browser_bind_invariant local b :
  rtc browser_bind_step (newBrowserBind local) b ->
  (bb_open b = true -> exists ch q, bb_recv b = Some ch /\ bb_chans b !! ch = Some (BrowserChans q false)) /\
  (forall ch c, bb_chans b !! ch = Some c -> bb_open b = false \/ bb_recv b <> Some ch -> bc_closed c = true) /\
  Forall (fun c => zlen (bc_queue c) <= 512) (bb_chans b) /\
  Z.of_nat (size (br_sets (bb_frag b))) <= 256 /\
  (forall src, browser_sourceAssemblyCountLocked (br_sets (bb_frag b)) src <= 32) /\
  map_Forall (fun _ s => wf_assembly (native_set s)) (br_sets (bb_frag b)).
Proof.
  intros [Hs Ho Hold Hq [Ha Hn Hsrc]]%reachable_wf_browser_bind. simpl in *. rewrite native_size in Hn.
  split_and!; try done.
  - intros src. specialize (Hsrc src). by rewrite native_count in Hsrc.
  - intros k s Hk. apply (Ha k). by rewrite native_lookup, Hk.
Qed.

(** The receive function looks the channels up when it is called: after [Close] it reports
    the bind closed, and once the bind is open again the function of an earlier [Open]
    reads from the new channel. *)
Theorem old_receive_function_reads_new_channel b b' :
  wf_browser_bind b -> bb_open b = true -> browser_Open (browser_bind_Close b) = (b', Ok tt) ->
  (exists ch, browser_receive_begin (browser_bind_Close b) = Some ch /\
     forall lens ns ne, browser_receive (browser_bind_Close b) ch PreferClosed lens ns ne
       = Some (browser_bind_Close b, Err NetErrClosed)) /\
  browser_receive_begin b' = bb_recv b' /\ bb_recv b' = Some (length (bb_chans b)).
Proof.
  intros Hwf Hopen Ho. destruct (wbb_open _ Hwf Hopen) as (ch & q & Hr & Hc).
  pose proof (wbb_same _ Hwf) as Hs. unfold browser_bind_Close in *. rewrite Hopen, <- Hs, Hr, Hc in *.
  unfold browser_Open in Ho. simpl in Ho. injection Ho as <-. split_and!; [|done|].
  - exists ch. split; [done|]. intros lens ns ne. unfold browser_receive. simpl.
    by rewrite list_lookup_insert_eq by (by eapply lookup_lt_Some).
  - simpl. by rewrite length_insert.
Qed.

(** A wrong-length fragment is where the two reassemblers differ: the native one refuses
    it and keeps the packet it claims to belong to, the browser's drops that packet. *)
Theorem wrong_length_costs_the_packet r now src payload s :
  wrong_length payload -> br_sets r !! (src, be_get (slice 4 12 payload)) = Some s ->
  br_sets (browser_Push r now src payload).1 !! (src, be_get (slice 4 12 payload)) = None /\
  sets (Push (native r) now src payload).1 !! (src, be_get (slice 4 12 payload)) = Some (native_set s).
Proof.
  intros Hw Hs. destruct (browser_push_wrong_length r now src payload Hw) as [e ->].
  unfold wrong_length in Hw. unfold Push. rewrite Hw. simpl. by rewrite lookup_delete_eq, native_lookup, Hs.
Qed.
End browser_executions.

(** The browser parses endpoints as the native bind does. *)
Theorem browser_parse_endpoint `{K : KeyOps} s :
  match browser_ParseEndpoint s, ParseEndpoint s with
  | Ok e, Ok e' => be_peer e = ep_peer e'
  | Err _, Err _ => True
  | _, _ => False
  end.
Proof.
  unfold browser_ParseEndpoint, ParseEndpoint. change browserNodePublicTextPrefix with nodePublicTextPrefix.
  set (t := Strings.TrimPrefix s nodePublicTextPrefix). rewrite andb_comm.
  destruct (zlen t =? _); [|done]. cbn [andb].
  destruct (Hex.DecodeString t) as [x|]; [|done]. rewrite bool_decide_eq_true_2 by eauto. simpl.
  by destruct (UnmarshalText _).
Qed.

(** The browser's TUN hands the stack the packets the native one does. *)
Theorem browser_tun_native bufs offset written :
  match browser_tun_Write bufs offset written, tun_Write bufs offset written with
  | (l, w, e), (l', w', e') => l = l' /\ w = w' /\ (is_Some e <-> is_Some e')
  end.
Proof.
  revert written. induction bufs as [|buf bufs IH]; intros written; simpl; [done|].
  destruct ((offset <? 0) || _); [by split_and!|].
  destruct (drop (Z.to_nat offset) buf) as [|b0 raw]; [apply IH|].
  destruct (Z.shiftr (b2z b0) 4 =? 4) eqn:E4; bool_to_prop.
  { rewrite E4. specialize (IH (written + 1)). destruct (browser_tun_Write _ _ _) as [[l w] e].
    destruct (tun_Write _ _ _) as [[l' w'] e']. by destruct IH as (-> & -> & ?). }
  destruct (Z.shiftr (b2z b0) 4 =? 6) eqn:E6; bool_to_prop.
  { rewrite E6. specialize (IH (written + 1)). destruct (browser_tun_Write _ _ _) as [[l w] e].
    destruct (tun_Write _ _ _) as [[l' w'] e']. by destruct IH as (-> & -> & ?). }
  specialize (IH written).
  assert (match Z.shiftr (b2z b0) 4 with 4 => Some IPv4 | 6 => Some IPv6 | _ => None end = None) as ->; [|done].
  repeat case_match; congruence.
Qed.

(** * Witnesses *)

Import ToyKeys.

Definition sample_browser : browserBind (K := toy) :=
  (browser_Open (browser_SetPath (newBrowserBind (K := toy) (nkey 1)) (nkey 2) (Some 7%nat))).1.

Lemma browser_interoperates_witness :
  (exists sq', browser_Send sample_browser (fun _ => 100) (fun _ _ _ => None) 7 [sample_packet]
     (BrowserEP (Some (BrowserEndpoint (K := toy) (nkey 2)))) 0
     = (Some (7%nat, nkey 2, datagrams_of 108 sample_packet), sq', None)) /\
  (exists b'', inject_all sample_receiver (nkey 1) (zip [5; 6; 7] sample_arrivals) = Some b'' /\
     b_chans b'' !! 0%nat = Some (ChanPair ([] ++ [Inbound (K := toy) (nkey 1) sample_packet]) false)) /\
  (exists b'', browser_inject_all sample_browser (nkey 2) (zip [5; 6; 7] sample_arrivals) = Some b'' /\
     bb_chans b'' !! 0%nat = Some (BrowserChans ([] ++ [BrowserInbound (K := toy) (nkey 2) sample_packet]) false)).
Proof.
  destruct (browser_interoperates (K := toy) sample_browser 7 (nkey 2) (fun _ => 100) 7 sample_packet 0 5
    [5; 6; 7] sample_arrivals) as (Hs & Hn & Hb); [by_evaluation || vm_reflexivity..|].
  split; [exact Hs|]. split.
  - apply (Hn sample_receiver 0%nat [] (nkey 1)). by_evaluation || (split_and!; by_evaluation || vm_reflexivity).
  - apply (Hb sample_browser 0%nat [] (nkey 2)). by_evaluation || (split_and!; by_evaluation || vm_reflexivity).
Defined.

Lemma sample_browser_reachable : rtc browser_bind_step (newBrowserBind (K := toy) (nkey 1)) sample_browser.
Proof.
  eapply rtc_l; [apply (bbs_set _ (nkey 2 : NodePublic (KeyOps := toy)) (Some 7%nat))|].
  eapply rtc_l; [by apply bbs_open|]. apply rtc_refl.
Qed.

Lemma browser_bind_invariant_witness :
  bb_open sample_browser = true -> exists ch q, bb_recv sample_browser = Some ch /\
    bb_chans sample_browser !! ch = Some (BrowserChans q false).
Proof. apply (browser_bind_invariant (nkey 1 : NodePublic (KeyOps := toy))), sample_browser_reachable. Defined.

Lemma old_receive_function_reads_new_channel_witness :
  browser_receive_begin (browser_Open (browser_bind_Close sample_browser)).1 = Some 1%nat.
Proof.
  destruct (old_receive_function_reads_new_channel (K := toy) sample_browser
    (browser_Open (browser_bind_Close sample_browser)).1) as (_ & -> & ->); try done.
  apply (reachable_wf_browser_bind (nkey 1 : NodePublic (KeyOps := toy))), sample_browser_reachable.
Defined.

(** The first fragment of the sample packet, one byte short. *)
Definition sample_short : list byte := take 1019 (sample_fragment 0).

Lemma wrong_length_costs_the_packet_witness :
  let r := (browser_Push (K := toy) (BrowserReassembler ∅) 5 (nkey 1) (sample_fragment 1)).1 in
  br_sets (browser_Push r 6 (nkey 1) sample_short).1 !! (nkey 1, 108) = None.
Proof.
  intros r. apply (wrong_length_costs_the_packet (K := toy) r 6 (nkey 1) sample_short
    (FragmentSet 3 2500 [None; Some (chunk_at sample_packet 1); None] 1 5)); vm_reflexivity.
Defined.
