(* ===== verification/Browser.v ===== *)
(** Browser: the browser's client.

    Models the part of src/masquecat_browser_js.go above BrowserWire: the WebTransport
    session with its control dialogue, the datagrams of the session, and
    [BrowserMasqueClient] with its start, its receive loop and [Close].  A JavaScript
    promise is its outcome: what a read of the control stream yields is a [js_read], an
    awaited call its error.  encoding/json at [browserControl] is the parameter
    [BrowserCodec]; [JSONLaws] relates it to the relay's ControlCodec, whose struct has
    the same fields under the same names. *)

From S2P Require Import Prelude GoStd Keys Packet Fragment Auth Url Token Endpoint Relay Bind Core H2Server Lifecycle BrowserWire.
From Stdlib Require Import Strings.Byte.

Definition browserWebTransportRoute : gostring := B "/.well-known/masquecat/webtransport".
Definition browserControlMax : Z := Z.shiftl 8 10.
Definition browserProtocolVersion : Z := 1.

(** * The URL of the session *)

(** [u.String()] of net/url, for a URL with a scheme and a host and without a fragment. *)
Definition url_String (u : Url.URL) : gostring :=
  let user :=
    match Url.User u with
    | None => []
    | Some ui =>
        Url.escape (Url.ui_username ui) Url.encodeUserPassword ++
        match Url.ui_password ui with
        | Some p => B ":" ++ Url.escape p Url.encodeUserPassword
        | None => []
        end ++ B "@"
    end in
  let path := Url.EscapedPath u in
  let path := if bool_decide (path = []) || Strings.HasPrefix path (B "/") then path else B "/" ++ path in
  Url.Scheme u ++ B "://" ++ user ++ Url.escape (Url.Host u) Url.encodeHost ++ path ++
  (if Url.ForceQuery u || negb (bool_decide (Url.RawQuery u = [])) then B "?" ++ Url.RawQuery u else []).

(** src/masquecat_browser_js.go:687-696 [browserWebTransportURL], the URL *)
Definition browserWebTransportTarget (relayURL : gostring) : result Url.URL :=
  let? u := Url.Parse relayURL in
  guard! bool_decide (Url.Scheme u = B "https") && negb (bool_decide (Url.Host u = []))
    or ErrNew "MasqueCat browser relay must be an https URL" in
  Ok (Url.MkURL (Url.Scheme u) (Url.Opaque u) (Url.User u) (Url.Host u)
        (Strings.TrimSuffix (Url.Path u) (B "/") ++ browserWebTransportRoute)
        (Url.RawPath u) (Url.OmitHost u) (Url.ForceQuery u) [] [] (Url.RawFragment u)).

(** src/masquecat_browser_js.go:687-698 [browserWebTransportURL] *)
Definition browserWebTransportURL (relayURL : gostring) : result gostring :=
  let? u := browserWebTransportTarget relayURL in Ok (url_String u).

(** * The control stream *)

(** src/masquecat_browser_js.go:571-579 [browserControl] *)
Record browserControl : Type := MkControl {
  bcm_type : gostring;
  bcm_version : Z;
  bcm_source : gostring;
  bcm_challenge : gostring;
  bcm_verifier : gostring;
  bcm_proof : gostring;
  bcm_error : gostring;
}.

(** The relay's struct with the same fields. *)
Definition to_relay (m : browserControl) : masqueBrowserControl :=
  BrowserControl (bcm_type m) (bcm_version m) (bcm_source m) (bcm_challenge m) (bcm_verifier m) (bcm_proof m)
    (bcm_error m).
Definition of_relay (m : masqueBrowserControl) : browserControl :=
  MkControl (bc_type m) (bc_version m) (bc_source m) (bc_challenge m) (bc_verifier m) (bc_proof m) (bc_error m).

(** encoding/json at [browserControl]. *)
Class BrowserCodec : Type := {
  MarshalBrowser : browserControl -> result (list byte);
  UnmarshalBrowser : list byte -> result browserControl;
}.

(** Messages that encoding/json keeps: it replaces bytes that are not valid UTF-8 and
    refuses numbers that do not fit the field. *)
Definition representable (m : browserControl) : bool :=
  ascii (bcm_type m) && (- 2 ^ 63 <=? bcm_version m) && (bcm_version m <? 2 ^ 63) && ascii (bcm_source m) &&
  ascii (bcm_challenge m) && ascii (bcm_verifier m) && ascii (bcm_proof m) && ascii (bcm_error m).

(** JSON has no raw line break, white space around a value does not matter, and each side
    reads what the other wrote, if the message is representable. *)
Class JSONLaws (CC : ControlCodec) (BC : BrowserCodec) : Prop := {
  browser_no_newline m b : MarshalBrowser m = Ok b -> x0a ∉ b;
  relay_no_newline m b : MarshalControl m = Ok b -> x0a ∉ b;
  relay_reads m b :
    representable m = true -> MarshalBrowser m = Ok b ->
    UnmarshalControl (Strings.TrimSpace (b ++ [x0a])) = Ok (to_relay m);
  browser_reads m b :
    representable (of_relay m) = true -> MarshalControl m = Ok b -> UnmarshalBrowser b = Ok (of_relay m);
}.

(** What one [read] of a stream's reader yields; a rejected promise and the end of the
    context are both an error. *)
Inductive js_read : Type :=
  | JsChunk (b : list byte)
  | JsDone
  | JsReject (e : gerror).

(** src/masquecat_browser_js.go:649-652 [jsLineReader]; the reader is what it still
    delivers *)
Record jsLineReader : Type := LineReader { lr_pending : list byte; lr_reader : list js_read }.

(** src/masquecat_browser_js.go:654-676 [jsLineReader.readLine]; [None] while it waits *)
Fixpoint readLine (pending : list byte) (reader : list js_read) : option (result (list byte) * jsLineReader) :=
  match Strings.IndexByte pending x0a with
  | Some i => Some (Ok (take i pending), LineReader (drop (S i) pending) reader)
  | None =>
      if browserControlMax <? zlen pending then
        Some (Err (ErrNew "masquecat: browser control message too large"), LineReader pending reader)
      else
        match reader with
        | [] => None
        | JsReject e :: rest => Some (Err e, LineReader pending rest)
        | JsDone :: rest => Some (Err IOEOF, LineReader pending rest)
        | JsChunk chunk :: rest => readLine (pending ++ chunk) rest
        end
  end.

Section session.
Context `{K : KeyOps} `{BC : BrowserCodec}.

(** src/masquecat_browser_js.go:721-728 [newBrowserWebTransportPath, sendControl]: what
    is written, and the error; [write] is the outcome of the write *)
Definition sendControl (msg : browserControl) (write : option gerror) : list (list byte) * option gerror :=
  match MarshalBrowser msg with
  | Err e => ([], Some e)
  | Ok b => ([b ++ [x0a]], write)
  end.

(** src/masquecat_browser_js.go:729-742 [newBrowserWebTransportPath, readControl] *)
Definition readControl (r : jsLineReader) : option (result browserControl * jsLineReader) :=
  match readLine (lr_pending r) (lr_reader r) with
  | None => None
  | Some (Err e, r) => Some (Err e, r)
  | Some (Ok b, r) =>
      Some (let? msg := UnmarshalBrowser b in
            guard! negb (bool_decide (bcm_type msg = B "error"))
              or ErrNew (String.string_of_list_byte (bcm_error msg)) in
            Ok msg, r)
  end.

(** The outside of one session: whether the browser has WebTransport, how the promises
    settle, the nonce of the seal and what the control stream delivers.  When [ready]
    fails, [we_abandoned] tells that the caller stopped waiting for it. *)
Record wt_env : Type := WtEnv {
  we_supported : bool;
  we_ready : option gerror;
  we_abandoned : bool;
  we_stream : option gerror;
  we_write_hello : option gerror;
  we_write_proof : option gerror;
  we_nonce : list byte;
  we_reads : list js_read;
}.

(** src/masquecat_browser_js.go:744-776 [newBrowserWebTransportPath], the dialogue: what
    is written on the control stream, and how it ends; [None] while it waits *)
Definition browserDialogue (env : wt_env) (local : NodePrivate) : list (list byte) * option (option gerror) :=
  let hello := MkControl (B "hello") browserProtocolVersion (KeyString (Public local)) [] [] [] [] in
  match sendControl hello (we_write_hello env) with
  | (sent, Some e) => (sent, Some (Some e))
  | (sent, None) =>
      match readControl (LineReader [] (we_reads env)) with
      | None => (sent, None)
      | Some (Err e, _) => (sent, Some (Some e))
      | Some (Ok challenge, reader) =>
          if negb (bool_decide (bcm_type challenge = B "challenge")) || bool_decide (bcm_challenge challenge = []) ||
             bool_decide (bcm_verifier challenge = []) then
            (sent, Some (Some (ErrNew "invalid MasqueCat browser challenge")))
          else
            let invalid := (sent, Some (Some (ErrNew "invalid MasqueCat browser verifier"))) in
            match UnmarshalText (bcm_verifier challenge) with
            | Err _ => invalid
            | Ok verifier =>
                if IsZero verifier then invalid
                else
                  let sealed := SealTo (we_nonce env) local verifier (bcm_challenge challenge) in
                  let proof := Base64.EncodeToString sealed in
                  match sendControl (MkControl (B "proof") 0 [] [] [] proof []) (we_write_proof env) with
                  | (sent', Some e) => (sent ++ sent', Some (Some e))
                  | (sent', None) =>
                      match readControl reader with
                      | None => (sent ++ sent', None)
                      | Some (Err e, _) => (sent ++ sent', Some (Some e))
                      | Some (Ok ready, _) =>
                          if negb (bool_decide (bcm_type ready = B "ready")) ||
                             negb (bcm_version ready =? browserProtocolVersion) then
                            (sent ++ sent', Some (Some (ErrNew "MasqueCat browser relay did not become ready")))
                          else (sent ++ sent', Some None)
                      end
                  end
            end
      end
  end.

(** src/masquecat_browser_js.go:678-685 [browserWebTransportPath]; the session is a
    resource *)
Record browserWebTransportPath : Type := MkBrowserPath { bwp_local : NodePublic; bwp_wt : nat }.

(** src/masquecat_browser_js.go:700-785 [newBrowserWebTransportPath], with the session it
    opens, and the session it leaves behind; [None] while it waits.  When the wait for
    [ready] fails, the session is not closed: a rejected promise means that it is over,
    the end of the context does not. *)
Definition newBrowserWebTransportPath (env : wt_env) (relayURL : gostring) (local : NodePrivate) (w : world)
    : option (result browserWebTransportPath * world * option nat) :=
  if negb (we_supported env) then Some (Err (ErrNew "this browser does not support WebTransport"), w, None)
  else
    match browserWebTransportURL relayURL with
    | Err e => Some (Err e, w, None)
    | Ok _ =>
        let '(wt, w) := acquire w in
        match we_ready env with
        | Some e =>
            let e := ErrWrap "WebTransport ready: %w" e in
            if we_abandoned env then Some (Err e, w, Some wt) else Some (Err e, release wt w, None)
        | None =>
            match we_stream env with
            | Some e => Some (Err (ErrWrap "WebTransport control stream: %w" e), release wt w, None)
            | None =>
                match (browserDialogue env local).2 with
                | None => None
                | Some (Some e) => Some (Err e, release wt w, None)
                | Some None => Some (Ok (MkBrowserPath (Public local) wt), w, None)
                end
            end
        end
    end.

(** src/masquecat_browser_js.go:820-833 [browserWebTransportPath.Close] *)
Definition browser_path_Close (p : browserWebTransportPath) (w : world) : world := release (bwp_wt p) w.

(** src/masquecat_browser_js.go:787-796 [browserWebTransportPath.ForwardPacket]: the
    datagram written, if one is *)
Definition browser_ForwardPacket (src dst : NodePublic) (payload : list byte) : option (list byte) :=
  if is_disco payload then None else Some (encodeBrowserMasquePacket src dst payload).

(** src/masquecat_browser_js.go:798-818 [browserWebTransportPath.run], over what the
    session delivers: the packets handed on, up to the first error; [on_packet n] is what
    the handler returns for the [n]-th of them *)
Fixpoint browser_run (local : NodePublic) (on_packet : nat -> NodePublic -> list byte -> option gerror) (n : nat)
    (reads : list js_read) : list (NodePublic * list byte) * option gerror :=
  match reads with
  | [] => ([], None)
  | JsReject e :: _ => ([], Some e)
  | JsDone :: _ => ([], Some IOEOF)
  | JsChunk b :: rest =>
      match decodeBrowserMasquePacket b with
      | Err _ => browser_run local on_packet n rest
      | Ok pkt =>
          if negb (bool_decide (bp_dst pkt = local)) || is_disco (bp_payload pkt)
          then browser_run local on_packet n rest
          else
            match on_packet n (bp_src pkt) (bp_payload pkt) with
            | Some e => ([(bp_src pkt, bp_payload pkt)], Some e)
            | None =>
                let '(l, e) := browser_run local on_packet (S n) rest in
                ((bp_src pkt, bp_payload pkt) :: l, e)
            end
      end
  end.
End session.

(** * The dialogue *)

Lemma not_in_prefix (x y z w : list byte) c : c ∉ x -> x ++ c :: y = z ++ w -> c ∉ z -> exists z', x = z ++ z'.
Proof.
  intros Hx Heq Hz. revert x Hx Heq. induction z as [|b z IH]; intros x Hx Heq; [by exists x|].
  destruct x as [|b' x].
  - injection Heq as -> _. set_solver.
  - injection Heq as -> Heq. destruct (IH ltac:(set_solver) x ltac:(set_solver) Heq) as [z' ->]. by exists z'.
Qed.

Lemma first_byte_split (x y x' y' : list byte) c :
  c ∉ x -> c ∉ x' -> x ++ c :: y = x' ++ c :: y' -> x = x' /\ y = y'.
Proof.
  intros Hx Hx' Heq. pose proof (index_byte_app x c y Hx) as Hi. rewrite Heq, index_byte_app in Hi by done.
  injection Hi as Hi. apply app_inj_1 in Heq as [-> Heq]; [|done]. by injection Heq as ->.
Qed.

(** The line does not depend on how the stream was cut into chunks. *)
Lemma readLine_chunks chunks pending line rest :
  pending ++ concat chunks = line ++ x0a :: rest -> x0a ∉ line -> zlen line <= browserControlMax ->
  exists pending' chunks', readLine pending (JsChunk <$> chunks) = Some (Ok line, LineReader pending' (JsChunk <$> chunks')) /\
    pending' ++ concat chunks' = rest.
Proof.
  intros Heq Hline Hmax. revert pending Heq. induction chunks as [|c chunks IH]; intros pending Heq.
  - simpl in *. rewrite app_nil_r in Heq. subst pending. rewrite index_byte_app by done.
    exists rest, []. simpl. rewrite take_app_length, app_nil_r. split; [|done]. do 3 f_equal.
    rewrite (drop_app_ge line) by lia. by replace (S (length line) - length line)%nat with 1%nat by lia.
  - destruct (decide (x0a ∈ pending)) as [Hin|Hin].
    + apply list_elem_of_split_l in Hin as (p1 & p2 & -> & Hp1). rewrite <- app_assoc in Heq. simpl in Heq.
      destruct (first_byte_split _ _ _ _ _ Hp1 Hline Heq) as [-> <-]. exists p2, (c :: chunks).
      split; [|done]. simpl. rewrite index_byte_app, take_app_length by done. do 3 f_equal.
      rewrite (drop_app_ge line) by lia. by replace (S (length line) - length line)%nat with 1%nat by lia.
    + simpl. rewrite index_byte_none by done.
      symmetry in Heq. destruct (not_in_prefix _ _ _ _ _ Hline Heq Hin) as [z' Hz].
      assert (zlen pending <= zlen line) by (rewrite Hz, zlen_app; pose proof (zlen_nonneg z'); lia).
      rewrite (proj2 (Z.ltb_ge _ _)) by lia. apply IH. by rewrite <- app_assoc.
Qed.

Section dialogue.
Context `{K : KeyOps} {KL : KeyLaws K} {CC : ControlCodec} {BC : BrowserCodec} {JL : JSONLaws CC BC}.

(** The relay writes a message; the browser, somewhere in the stream, reads it. *)
Lemma readControl_relay msg cb chunks pending rest :
  representable (of_relay msg) = true ->
  writeMasqueBrowserControl msg = Ok cb -> pending ++ concat chunks = cb ++ rest -> bc_type msg <> B "error" ->
  exists pending' chunks', readControl (LineReader pending (JsChunk <$> chunks)) =
    Some (Ok (of_relay msg), LineReader pending' (JsChunk <$> chunks')) /\ pending' ++ concat chunks' = rest.
Proof.
  unfold writeMasqueBrowserControl. intros Hrep Hw Heq Hty. destruct (MarshalControl msg) as [b|] eqn:Hb; [|done]. simpl in Hw.
  destruct (negb _) eqn:Hlen; [|done]. injection Hw as <-. rewrite <- app_assoc in Heq. bool_to_prop.
  destruct (readLine_chunks chunks pending b rest) as (p' & c' & Hr & Hrest); [done|by eapply relay_no_newline| |].
  { change browserControlMax with masqueBrowserControlMax. lia. }
  exists p', c'. split; [|done]. unfold readControl. simpl. rewrite Hr, (browser_reads msg b) by done. simpl.
  by rewrite bool_decide_eq_false_2.
Qed.

(** The browser writes a message that fits; the relay reads it. *)
Lemma relay_reads_control m b end_ :
  representable m = true -> MarshalBrowser m = Ok b -> zlen b < masqueBrowserControlMax ->
  readMasqueBrowserControl (b ++ [x0a]) end_ = (Ok (to_relay m), []).
Proof.
  intros Hrep Hb Hlen. unfold readMasqueBrowserControl. rewrite index_byte_app by (by eapply browser_no_newline).
  rewrite take_ge by (rewrite length_app; simpl; lia). rewrite zlen_app. change (zlen [x0a]) with 1.
  rewrite (proj2 (Z.ltb_ge _ _)) by lia. rewrite (relay_reads m b) by done.
  by rewrite drop_ge by (rewrite length_app; simpl; lia).
Qed.

(** What the dialogue says is representable: key texts, base64 and constants. *)
Lemma key_text_ascii k : ascii (KeyString k) = true.
Proof. by rewrite key_string, ascii_app, hex_ascii. Qed.

Lemma hello_representable k :
  representable (MkControl (B "hello") browserProtocolVersion (KeyString k) [] [] [] []) = true.
Proof. unfold representable. cbn -[ascii KeyString Z.pow]. by rewrite key_text_ascii. Qed.

Lemma challenge_representable t k :
  ascii t = true -> representable (of_relay (BrowserControl (B "challenge") 0 [] t (KeyString k) [] [])) = true.
Proof. intros Ht. unfold representable. cbn -[ascii KeyString Z.pow]. by rewrite Ht, key_text_ascii. Qed.

Lemma proof_representable raw :
  representable (MkControl (B "proof") 0 [] [] [] (Base64.EncodeToString raw) []) = true.
Proof. unfold representable. cbn -[ascii Base64.EncodeToString Z.pow]. by rewrite base64_ascii. Qed.

Lemma ready_representable :
  representable (of_relay (BrowserControl (B "ready") masqueBrowserProtocolVersion [] [] [] [] [])) = true.
Proof. vm_reflexivity. Qed.

(** C9: a browser gets in.  Let the relay answer the browser's hello with a challenge,
    let the browser run on a stream that delivers the challenge and the relay's [ready],
    cut into chunks in any way.  Then its session comes up, what it wrote is the hello
    and one proof, and the relay accepts that proof for the browser's key, whatever
    traffic it handled before and meanwhile, if the challenge is still alive. *)
Theorem browser_is_admitted fresh priv evs0 a now order rand remote local a1 msg src hb cb rb pb env chunks evs a2 now2 c :
  auth_trace (newMasqueAuthenticator fresh priv) evs0 a -> order ≡ₚ map_to_list (pending a) ->
  Public local <> NodePublicZero -> Public (auth_priv a) <> NodePublicZero ->
  MarshalBrowser (MkControl (B "hello") browserProtocolVersion (KeyString (Public local)) [] [] [] []) = Ok hb ->
  zlen hb < masqueBrowserControlMax ->
  browserHello a now order rand remote (readMasqueBrowserControl (hb ++ [x0a]) IOEOF).1 = (a1, msg, Some src) ->
  bc_challenge msg <> [] ->
  writeMasqueBrowserControl msg = Ok cb ->
  writeMasqueBrowserControl (BrowserControl (B "ready") masqueBrowserProtocolVersion [] [] [] [] []) = Ok rb ->
  we_write_hello env = None -> we_write_proof env = None ->
  we_reads env = JsChunk <$> chunks -> concat chunks = cb ++ rb ->
  let proof := Base64.EncodeToString (SealTo (we_nonce env) local (Public (auth_priv a)) (bc_challenge msg)) in
  MarshalBrowser (MkControl (B "proof") 0 [] [] [] proof []) = Ok pb -> zlen pb < masqueBrowserControlMax ->
  pending a1 !! bc_challenge msg = Some c -> auth_trace a1 evs a2 ->
  Forall (fun ev => consumes (auth_priv a) ev <> Some (bc_challenge msg) /\
    match ev with
    | EvIssue now _ _ _ _ _ => now < ch_expires c
    | EvVerify _ _ _ _ _ _ => True
    end) evs ->
  now2 < ch_expires c ->
  src = Public local /\
  browserDialogue env local = ([hb ++ [x0a]; pb ++ [x0a]], Some None) /\
  exists a3, browserProof a2 now2 src (readMasqueBrowserControl (pb ++ [x0a]) IOEOF).1 = (a3, None).
Proof.
  intros Htr0 Hord Hz Hva Hhb Hhl Hhello Hch Hcb Hrb Hw1 Hw2 Hreads Hcat proof Hpb Hpl Hc Htr Hf Hnow.
  rewrite (relay_reads_control _ _ _ (hello_representable _) Hhb Hhl) in Hhello. unfold browserHello in Hhello. simpl in Hhello.
  rewrite unmarshal_string in Hhello. unfold IsZero in Hhello. rewrite bool_decide_eq_false_2 in Hhello by done.
  destruct (issue a now order rand (Public local) (Public local) masqueModeRelay remote) as [a' r] eqn:Hi.
  destruct r as [t|e]; [|done]. injection Hhello as <- <- <-. simpl in *.
  destruct (issue_pending _ _ _ _ _ _ _ _ _ _ Hi) as [Hpriv _].
  destruct (issue_ok _ _ _ _ _ _ _ _ _ _ Hord Hi) as (c' & Hc' & _ & Hcs & Hct & Hcm).
  assert (c' = c) as -> by congruence.
  pose proof (issued_token_ascii _ _ _ _ _ _ _ _ _ _ _ _ _ _ Htr0 Hi Hc) as Hta.
  split; [done|]. split.
  - unfold browserDialogue, sendControl. rewrite Hhb, Hw1, Hreads.
    destruct (readControl_relay _ cb chunks [] rb (challenge_representable _ _ Hta) Hcb Hcat) as (p1 & c1 & Hr1 & Hrest1); [done|].
    rewrite Hr1. simpl. rewrite bool_decide_eq_false_2 by done.
    rewrite bool_decide_eq_false_2 by (rewrite key_string; done). simpl.
    rewrite unmarshal_string. unfold IsZero. rewrite bool_decide_eq_false_2 by congruence.
    rewrite Hpriv. fold proof. rewrite Hpb, Hw2. rewrite <- (app_nil_r rb) in Hrest1.
    destruct (readControl_relay _ rb c1 p1 [] ready_representable Hrb Hrest1) as (p2 & c2 & Hr2 & _); [done|].
    rewrite Hr2. done.
  - rewrite (relay_reads_control _ _ _ (proof_representable _) Hpb Hpl). unfold browserProof. simpl.
    rewrite <- Hpriv in Hf, Hva. pose proof (trace_keeps_live _ _ _ _ _ Htr Hc Hf) as Hlive.
    assert (auth_priv a2 = auth_priv a') as Hp2 by (by eapply trace_priv).
    rewrite <- Hp2 in Hva. unfold proof. rewrite <- Hpriv, <- Hp2.
    destruct (verify_sealed a2 now2 (we_nonce env) local (Public local) masqueModeRelay t c) as [a3 ->]; eauto.
Qed.

End dialogue.

(** The path the browser dials is one the relay serves WebTransport on. *)
Theorem browser_route_is_served relayURL u :
  browserWebTransportTarget relayURL = Ok u ->
  isMasqueBrowserWebTransportPath (Url.Path u) = true /\ Url.Scheme u = B "https" /\ Url.Host u <> [].
Proof.
  unfold browserWebTransportTarget. intros H. destruct (Url.Parse relayURL) as [u0|]; [|done]. simpl in H.
  destruct (bool_decide (Url.Scheme u0 = _) && _) eqn:E; [|done]. injection H as <-. simpl. bool_to_prop.
  split; [|done]. unfold isMasqueBrowserWebTransportPath.
  set (p := Strings.TrimSuffix (Url.Path u0) (B "/")).
  assert (Strings.TrimSuffix (p ++ browserWebTransportRoute) (B "/") = p ++ browserWebTransportRoute) as ->.
  { unfold Strings.TrimSuffix, Strings.CutSuffix, Strings.HasSuffix. rewrite rev_app_distr. done. }
  unfold Strings.HasSuffix. rewrite rev_app_distr. apply has_prefix_app.
Qed.

(** * The datagrams of the session *)

Section datagrams.
Context `{K : KeyOps} {KL : KeyLaws K} `{V : VarintOps} {VL : VarintLaws V}.

(** The packets of a list of datagrams that are meant for [local]. *)
Definition packets_for (local : NodePublic) (bs : list (list byte)) : list (NodePublic * list byte) :=
  omap (fun b =>
    match decodeMasquePacket b with
    | Ok p => if bool_decide (pkt_dst p = local) && negb (is_disco (pkt_payload p)) then Some (pkt_src p, pkt_payload p) else None
    | Err _ => None
    end) bs.

Lemma browser_run_packets local n bs :
  browser_run local (fun _ _ _ => None) n (JsChunk <$> bs) = (packets_for local bs, None).
Proof.
  revert n. unfold packets_for. induction bs as [|b bs IH]; intros n; [done|]. rewrite fmap_cons. simpl.
  rewrite browser_decode_native. destruct (decodeMasquePacket b) as [p|]; [|apply IH]. simpl.
  destruct (bool_decide (pkt_dst p = local)); simpl; [|apply IH].
  destruct (is_disco (pkt_payload p)); simpl; [apply IH|]. by rewrite IH.
Qed.

(** between two peers of the relay, of which either may be a browser, a packet
    arrives as it was sent: what the browser's session writes, the relay forwards to the
    carrier of the registered destination; what the relay writes to a browser's session,
    its receive loop hands on with the sender's key; and what is not for this browser, or
    is no packet, changes nothing. *)
Theorem browser_datagrams_arrive priv ls w sid sid' c' k k' p p' payload noise1 noise2 :
  relay_trace (world0 priv) ls w ->
  w_sessions w !! sid = Some (SActive Browser k p) -> w_sessions w !! sid' = Some (SActive c' k' p') ->
  is_disco payload = false ->
  Forall (fun b => packets_for k' [b] = []) (noise1 ++ noise2) ->
  exists b wire, browser_ForwardPacket k k' payload = Some b /\
    relay_step w (LReceive sid b (Some (session_fwd c' sid', wire))) w /\
    match c' with
    | Native => receiveStreamDatagram [Ok wire] = Some (Ok b, []) /\ decodeMasquePacket b = Ok (MasquePacket k k' payload)
    | Browser => browser_run k' (fun _ _ _ => None) 0 (JsChunk <$> noise1 ++ wire :: noise2) = ([(k, payload)], None)
    end.
Proof.
  intros Hwf%trace_wf_world Hs Hs' Hd Hnoise.
  exists (encodeMasquePacket k k' payload).
  set (b := encodeMasquePacket k k' payload).
  assert (decodeMasquePacket b = Ok (MasquePacket k k' payload)) as Hb by apply decode_encode.
  exists (match c' with Native => contextIDZero ++ b | Browser => b end).
  split_and!.
  - unfold browser_ForwardPacket. by rewrite Hd, browser_encode_native.
  - apply relay_step_forwards with (k := k) (p := p) (k' := k') (p' := p') (payload := payload) (c := Browser); done.
  - destruct c'.
    + split; [|done]. unfold contextIDZero. simpl. rewrite varint_parse_encode by lia. simpl.
      unfold zlen. by rewrite Nat2Z.id, drop_app_length.
    + rewrite browser_run_packets. f_equal. unfold packets_for in *.
      rewrite Forall_app in Hnoise. destruct Hnoise as [H1 H2]. rewrite omap_app. simpl. rewrite Hb. simpl.
      rewrite bool_decide_eq_true_2, Hd by done. simpl.
      assert (forall l, Forall (fun b => omap (fun b =>
        match decodeMasquePacket b with
        | Ok p => if bool_decide (pkt_dst p = k') && negb (is_disco (pkt_payload p)) then Some (pkt_src p, pkt_payload p) else None
        | Err _ => None
        end) [b] = []) l -> packets_for k' l = []) as Hl.
      { unfold packets_for. induction 1 as [|x l Hx _ IH]; [done|]. simpl in *. by destruct (match decodeMasquePacket x with Ok _ => _ | Err _ => _ end). }
      unfold packets_for in Hl. by rewrite !Hl.
Qed.
End datagrams.

(** * The core *)

Section browser_core.
Context `{K : KeyOps}.

(** The results of the calls that set a core up. *)
Record browser_core_env : Type := BrowserCoreEnv {
  bce_CreateNIC : option gerror;
  bce_SetPromiscuousMode : option gerror;
  bce_SetSpoofing : option gerror;
  bce_AddAddress : option gerror;
  bce_IpcSet_key : option gerror;
  bce_IpcSet_peer : option gerror;
  bce_Up : option gerror;
}.

(** src/masquecat_browser_js.go:456-463 [browserCore]; its stack and device are resources *)
Record browserCore : Type := MkBrowserCore {
  bco_pub : NodePublic;
  bco_bind : browserBind;
  bco_res : core_res;
}.

(** src/masquecat_browser_js.go:514-517 [newBrowserCore], the configuration of the one
    peer *)
Definition browser_peer_config (server : NodePublic) : gostring :=
  let serverRaw := Hex.EncodeToString (Raw server) in
  B "public_key=" ++ serverRaw ++ [x0a] ++ B "endpoint=" ++ serverRaw ++ [x0a] ++
  B "replace_allowed_ips=true" ++ [x0a] ++ B "allowed_ip=::/0" ++ [x0a; x0a].

(** src/masquecat_browser_js.go:471-498 [newBrowserCore], the gVisor stack: an error, or
    nothing *)
Definition browser_setup_stack (env : browser_core_env) : option gerror :=
  match bce_CreateNIC env, bce_SetPromiscuousMode env, bce_SetSpoofing env, bce_AddAddress env with
  | Some _, _, _, _ => Some (ErrNew "masquecat: create browser NIC: %v")
  | None, Some _, _, _ => Some (ErrNew "masquecat: browser promiscuous mode: %v")
  | None, None, Some _, _ => Some (ErrNew "masquecat: browser spoofing mode: %v")
  | None, None, None, Some _ => Some (ErrNew "masquecat: add browser address: %v")
  | None, None, None, None => None
  end.

(** src/masquecat_browser_js.go:508-527 [newBrowserCore], the WireGuard device: an error,
    or nothing *)
Definition browser_setup_device (env : browser_core_env) : option gerror :=
  match bce_IpcSet_key env, bce_IpcSet_peer env, bce_Up env with
  | Some e, _, _ => Some e
  | None, Some e, _ => Some e
  | None, None, o => o
  end.

(** src/masquecat_browser_js.go:465-529 [newBrowserCore], with what it opens *)
Definition newBrowserCore (priv : NodePrivate) (server : NodePublic) (path : nat) (env : browser_core_env) (w : world)
    : result browserCore * world :=
  let '(st, w) := acquire w in
  match browser_setup_stack env with
  | Some e => (Err e, release st w)
  | None =>
      let pub := Public priv in
      let bind := browser_SetPath (newBrowserBind pub) server (Some path) in
      let '(wg, w) := acquire w in
      match browser_setup_device env with
      | Some e => (Err e, release st (release wg w))
      | None => (Ok (MkBrowserCore pub (browser_Open bind).1 (CoreRes st wg)), w)
      end
  end.

(** src/masquecat_browser_js.go:535-545 [browserCore.DialTCP] and [DialTCPPort]: the
    address dialled for a port of the server *)
Definition browser_DialTCPPort (server : NodePublic) (port : Z) : Netip.Addr * Z := (tcAddrForKey server, port).

(** src/masquecat_browser_js.go:557-569 [browserCore.Close] *)
Definition browser_core_Close (c : browserCore) (w : world) : world :=
  release (cr_stack (bco_res c)) (release (cr_wg (bco_res c)) w).
End browser_core.

(** * The client *)

#[global] Instance core_res_eq_dec : EqDecision core_res.
Proof. solve_decision. Defined.

Section browser_client.
Context `{K : KeyOps} `{BC : BrowserCodec} {T : TokenOps K}.

(** src/masquecat_browser_js.go:839-851 [BrowserMasqueClient]; a context is the resource
    of its cancel function *)
Record BrowserMasqueClient : Type := MkBrowserClient {
  bm_Server : gostring;
  bm_Key : NodePrivate;
  bm_started : bool;
  bm_serverPublic : NodePublic;
  bm_core : option browserCore;
  bm_path : option browserWebTransportPath;
  bm_ctx : option nat;
  bm_cancel : option nat;
}.

(** src/masquecat_browser_js.go:853-855 [NewBrowserMasqueClient] *)
Definition NewBrowserMasqueClient (server : gostring) (priv : NodePrivate) : BrowserMasqueClient :=
  MkBrowserClient server priv false NodePublicZero None None None None.

(** What the receive goroutine of a start holds. *)
Record browser_start : Type := BrowserStart {
  bs_path : browserWebTransportPath;
  bs_core : browserCore;
  bs_cancel : nat;
  bs_server : NodePublic;
}.

(** The outside of one start. *)
Record browser_env : Type := BrowserEnv {
  be_newKey : NodePrivate;
  be_wt : wt_env;
  be_core : browser_core_env;
}.

(** src/masquecat_browser_js.go:857-916 [BrowserMasqueClient.ensureStarted]: the client,
    the error, the goroutine it starts, and the session it leaves behind; [None] while it
    waits for the relay *)
Definition browser_ensureStarted (c : BrowserMasqueClient) (env : browser_env) (w : world)
    : option (BrowserMasqueClient * option gerror * option browser_start * world * option nat) :=
  if bm_started c then Some (c, None, None, w, None)
  else
    match ParseMasqueConnBlob (bm_Server c) with
    | Err e => Some (c, Some e, None, w, None)
    | Ok ci =>
        if bool_decide (ci_RelayURL ci = []) then
          Some (c, Some (ErrNew "MasqueCat browser client currently requires an mc... token with a relay URL"), None, w, None)
        else
          let key := if PrivIsZero (bm_Key c) then be_newKey env else bm_Key c in
          let c := MkBrowserClient (bm_Server c) key (bm_started c) (bm_serverPublic c) (bm_core c) (bm_path c)
                     (bm_ctx c) (bm_cancel c) in
          match newBrowserWebTransportPath (be_wt env) (ci_RelayURL ci) key w with
          | None => None
          | Some (Err e, w, behind) => Some (c, Some e, None, w, behind)
          | Some (Ok path, w, behind) =>
              match newBrowserCore key (ci_ServerPublic ci) (bwp_wt path) (be_core env) w with
              | (Err e, w) => Some (c, Some e, None, browser_path_Close path w, behind)
              | (Ok core, w) =>
                  let '(cancel, w) := acquire w in
                  Some (MkBrowserClient (bm_Server c) key true (ci_ServerPublic ci) (Some core) (Some path)
                          (Some cancel) (Some cancel), None,
                        Some (BrowserStart path core cancel (ci_ServerPublic ci)), w, behind)
              end
          end
    end.

(** src/masquecat_browser_js.go:890-895 [BrowserMasqueClient.ensureStarted], a received
    packet: only the server's go into the core *)
Definition browser_on_packet (s : browser_start) (b : browserBind) (now : Z) (choice : select_choice)
    (src : NodePublic) (payload : list byte) : option (browserBind * option gerror) :=
  if negb (bool_decide (src = bs_server s)) then Some (b, None) else browser_Inject b now choice src payload.

(** The fields [Close] and the receive goroutine reset. *)
Definition browser_reset (c : BrowserMasqueClient) : BrowserMasqueClient :=
  MkBrowserClient (bm_Server c) (bm_Key c) false NodePublicZero None None None None.

(** What is closed outside the mutex. *)
Record browser_closing : Type := BrowserClosing {
  bcl_cancel : option nat;
  bcl_path : option browserWebTransportPath;
  bcl_core : option browserCore;
}.

(** src/masquecat_browser_js.go:899-910 [BrowserMasqueClient.ensureStarted], the end of
    the receive goroutine: what it closes, if the client still runs on its start *)
Definition browser_loop_end (c : BrowserMasqueClient) (s : browser_start) : BrowserMasqueClient * option browser_closing :=
  match bm_path c, bm_core c with
  | Some path, Some core =>
      if bool_decide (bwp_wt path = bwp_wt (bs_path s)) && bool_decide (bco_res core = bco_res (bs_core s))
      then (browser_reset c, Some (BrowserClosing (Some (bs_cancel s)) (Some (bs_path s)) (Some (bs_core s))))
      else (c, None)
  | _, _ => (c, None)
  end.

(** src/masquecat_browser_js.go:938-947 [BrowserMasqueClient.Close], under the mutex *)
Definition browser_Close_take (c : BrowserMasqueClient) : BrowserMasqueClient * browser_closing :=
  (browser_reset c, BrowserClosing (bm_cancel c) (bm_path c) (bm_core c)).

(** src/masquecat_browser_js.go:948-957 [BrowserMasqueClient.Close], behind the mutex;
    likewise 911-913 *)
Definition browser_Close_rest (x : browser_closing) (w : world) : world :=
  let w := release_option (bcl_cancel x) w in
  let w := match bcl_path x with Some p => browser_path_Close p w | None => w end in
  match bcl_core x with Some c => browser_core_Close c w | None => w end.
End browser_client.

(** * Operations, the receive goroutine and [Close], interleaved *)


Section browser_steps.
Context `{K : KeyOps} `{BC : BrowserCodec} {T : TokenOps K}.

Record browser_world : Type := BrowserWorld {
  bw_client : BrowserMasqueClient;
  bw_world : world;
  bw_loops : gmap nat browser_start;      (* the receive goroutines *)
  bw_closing : list browser_closing;      (* taken under the mutex, not closed yet *)
  bw_ops : gmap nat (option (option browserCore));  (* [None] before the second critical section *)
  bw_behind : gset nat;                   (* sessions a start left behind *)
}.

Definition browser_world0 (server : gostring) (priv : NodePrivate) (w : world) : browser_world :=
  BrowserWorld (NewBrowserMasqueClient server priv) w ∅ [] ∅ ∅.

(** src/masquecat_browser_js.go:918-958 [BrowserMasqueClient.Ping], [DialTCPPort] and [Close],
    interleaved with starts and receive goroutines, one critical section each *)
Inductive browser_step : browser_world -> browser_world -> Prop :=
  | bst_ensure s op env c err st w behind i :
      bw_ops s !! op = None -> bw_loops s !! i = None ->
      browser_ensureStarted (bw_client s) env (bw_world s) = Some (c, err, st, w, behind) ->
      browser_step s (BrowserWorld c w
        (match st with Some x => <[i := x]> (bw_loops s) | None => bw_loops s end) (bw_closing s)
        (match err with None => <[op := None]> (bw_ops s) | Some _ => bw_ops s end)
        (option_set behind ∪ bw_behind s))
  | bst_core s op :
      (* [Ping] and [DialTCPPort] read the core under the mutex *)
      bw_ops s !! op = Some None ->
      browser_step s (BrowserWorld (bw_client s) (bw_world s) (bw_loops s) (bw_closing s)
        (<[op := Some (bm_core (bw_client s))]> (bw_ops s)) (bw_behind s))
  | bst_op_end s op core :
      bw_ops s !! op = Some (Some (Some core)) ->
      browser_step s (BrowserWorld (bw_client s) (bw_world s) (bw_loops s) (bw_closing s)
        (delete op (bw_ops s)) (bw_behind s))
  | bst_loop_end s i x c o :
      bw_loops s !! i = Some x -> browser_loop_end (bw_client s) x = (c, o) ->
      browser_step s (BrowserWorld c (bw_world s) (delete i (bw_loops s)) (option_list o ++ bw_closing s)
        (bw_ops s) (bw_behind s))
  | bst_close s c x :
      browser_Close_take (bw_client s) = (c, x) ->
      browser_step s (BrowserWorld c (bw_world s) (bw_loops s) (x :: bw_closing s) (bw_ops s) (bw_behind s))
  | bst_rest s l1 x l2 :
      bw_closing s = l1 ++ x :: l2 ->
      browser_step s (BrowserWorld (bw_client s) (browser_Close_rest x (bw_world s)) (bw_loops s) (l1 ++ l2)
        (bw_ops s) (bw_behind s)).

(** * What a client holds *)

Definition path_set (o : option browserWebTransportPath) : gset nat :=
  match o with Some p => {[bwp_wt p]} | None => ∅ end.
Definition bcore_set (o : option browserCore) : gset nat :=
  match o with Some c => held_core (bco_res c) | None => ∅ end.
Definition closing_set (x : browser_closing) : gset nat :=
  option_set (bcl_cancel x) ∪ path_set (bcl_path x) ∪ bcore_set (bcl_core x).
Definition client_set (c : BrowserMasqueClient) : gset nat := closing_set (browser_Close_take c).2.
Definition start_set (s : browser_start) : gset nat :=
  closing_set (BrowserClosing (Some (bs_cancel s)) (Some (bs_path s)) (Some (bs_core s))).

Lemma owns_newBrowserPath w0 w l env relayURL local r w' behind :
  owns w0 w l -> newBrowserWebTransportPath env relayURL local w = Some (r, w', behind) ->
  (w_next w <= w_next w')%nat /\
  match r with
  | Ok p => behind = None /\ owns w0 w' ({[bwp_wt p]} ∪ l) /\ (bwp_wt p ∉ l) /\ bwp_wt p = w_next w /\ w_next w' = S (w_next w)
  | Err _ => owns w0 w' (option_set behind ∪ l) /\ option_set behind ## l
  end.
Proof.
  intros H Hn. unfold newBrowserWebTransportPath in Hn. destruct (negb _).
  { injection Hn as <- <- <-. split; [done|]. split; [by (eapply owns_eq; [done|set_solver])|set_solver]. }
  destruct (browserWebTransportURL relayURL).
  2: { injection Hn as <- <- <-. split; [done|]. split; [by (eapply owns_eq; [done|set_solver])|set_solver]. }
  destruct (acquire w) as [wt w1] eqn:Ha. pose proof (owns_new _ _ _ _ _ H Ha) as Hnew.
  pose proof (owns_acquire _ _ _ _ _ H Ha) as H1.
  assert (wt = w_next w /\ w_next w1 = S (w_next w)) as [Hwt Hw1] by (by injection Ha as <- <-).
  assert (owns w0 (release wt w1) l) as Hrel.
  { pose proof (ow_fresh _ _ _ H1). eapply owns_eq; [apply owns_release; [done|set_solver]|set_solver]. }
  assert (forall e, Some (Err e : result browserWebTransportPath, release wt w1, None) = Some (r, w', behind) ->
    (w_next w <= w_next w')%nat /\ match r with
      | Ok p => behind = None /\ owns w0 w' ({[bwp_wt p]} ∪ l) /\ (bwp_wt p ∉ l) /\ bwp_wt p = w_next w /\ w_next w' = S (w_next w)
      | Err _ => owns w0 w' (option_set behind ∪ l) /\ option_set behind ## l end) as Hfail.
  { intros e [= <- <- <-]. split; [simpl; lia|]. split; [by (eapply owns_eq; [done|set_solver])|set_solver]. }
  destruct (we_ready env) as [e|].
  { destruct (we_abandoned env); [|by eapply Hfail]. injection Hn as <- <- <-. split; [lia|]. simpl.
    split; [done|set_solver]. }
  destruct (we_stream env); [by eapply Hfail|].
  destruct (browserDialogue env local).2 as [[e|]|]; [by eapply Hfail| |done].
  injection Hn as <- <- <-. simpl. split_and!; (done || lia).
Qed.

Lemma owns_newBrowserCore w0 w l priv server path env r w' :
  owns w0 w l -> newBrowserCore priv server path env w = (r, w') ->
  (w_next w <= w_next w')%nat /\
  match r with
  | Ok c => owns w0 w' (held_core (bco_res c) ∪ l) /\ held_core (bco_res c) ## l
  | Err _ => owns w0 w' l
  end.
Proof.
  intros H Hn. unfold newBrowserCore in Hn.
  destruct (acquire w) as [st w1] eqn:Ha. pose proof (owns_new _ _ _ _ _ H Ha) as Hst.
  pose proof (owns_acquire _ _ _ _ _ H Ha) as H1. pose proof (ow_fresh _ _ _ H1).
  assert (w_next w1 = S (w_next w)) as Hw1 by (by injection Ha as <- <-).
  destruct (browser_setup_stack env).
  { injection Hn as <- <-. split; [simpl; lia|]. eapply owns_eq; [apply owns_release; [done|set_solver]|set_solver]. }
  destruct (acquire w1) as [wg w2] eqn:Hb. pose proof (owns_new _ _ _ _ _ H1 Hb) as Hwg.
  pose proof (owns_acquire _ _ _ _ _ H1 Hb) as H2. pose proof (ow_fresh _ _ _ H2).
  assert (w_next w2 = S (w_next w1)) as Hw2 by (by injection Hb as <- <-).
  destruct (browser_setup_device env).
  { injection Hn as <- <-. split; [simpl; lia|].
    eapply owns_eq; [eapply owns_release; [eapply owns_release; [done|set_solver]|set_solver]|set_solver]. }
  injection Hn as <- <-. split; [lia|]. unfold held_core. simpl.
  split; [by (eapply owns_eq; [done|set_solver])|set_solver].
Qed.

Lemma owns_Close_rest w0 w l x :
  owns w0 w l -> closing_set x ## w_open w0 -> owns w0 (browser_Close_rest x w) (l ∖ closing_set x).
Proof.
  intros H Hx. unfold closing_set, browser_Close_rest in *.
  pose proof (owns_release_option w0 w l (bcl_cancel x) H ltac:(set_solver)) as H1.
  assert (owns w0 (match bcl_path x with Some p => browser_path_Close p (release_option (bcl_cancel x) w)
                   | None => release_option (bcl_cancel x) w end)
            (l ∖ option_set (bcl_cancel x) ∖ path_set (bcl_path x))) as H2.
  { destruct (bcl_path x) as [p|]; simpl in *; [apply owns_release; [done|set_solver]|].
    eapply owns_eq; [done|set_solver]. }
  destruct (bcl_core x) as [c|]; simpl in *; [|eapply owns_eq; [done|set_solver]].
  unfold browser_core_Close, held_core in *.
  eapply owns_eq; [eapply owns_release; [eapply owns_release; [done|set_solver]|set_solver]|set_solver].
Qed.
End browser_steps.

(** Pairwise disjoint: nothing is held twice. *)
Fixpoint held_apart (Xs : list (gset nat)) : Prop :=
  match Xs with
  | [] => True
  | X :: Xs => X ## ⋃ Xs /\ held_apart Xs
  end.

Lemma held_apart_app Xs Ys : held_apart (Xs ++ Ys) <-> held_apart Xs /\ held_apart Ys /\ ⋃ Xs ## ⋃ Ys.
Proof.
  induction Xs as [|X Xs IH]; simpl; [set_solver|]. rewrite IH, union_list_app_L. set_solver.
Qed.

Section browser_invariant.
Context `{K : KeyOps} `{BC : BrowserCodec} {T : TokenOps K}.

Definition browser_held (s : browser_world) : list (gset nat) :=
  bw_behind s :: client_set (bw_client s) :: (closing_set <$> bw_closing s).

(** A running client has all four fields and a goroutine; a stopped one has none. *)
Definition runs (c : BrowserMasqueClient) (x : browser_start) : Prop :=
  bm_path c = Some (bs_path x) /\ bm_core c = Some (bs_core x) /\ bm_cancel c = Some (bs_cancel x) /\
  bm_ctx c = Some (bs_cancel x) /\ bm_serverPublic c = bs_server x.
Definition idle (c : BrowserMasqueClient) : Prop :=
  bm_path c = None /\ bm_core c = None /\ bm_cancel c = None /\ bm_ctx c = None.

Record wf_browser (w0 : world) (s : browser_world) : Prop := {
  wbr_owns : owns w0 (bw_world s) (⋃ browser_held s);
  wbr_apart : held_apart (browser_held s);
  wbr_started : bm_started (bw_client s) = true -> exists i x, bw_loops s !! i = Some x /\ runs (bw_client s) x;
  wbr_stopped : bm_started (bw_client s) = false -> idle (bw_client s);
  wbr_fresh i x : bw_loops s !! i = Some x -> (bwp_wt (bs_path x) < w_next (bw_world s))%nat;
  wbr_loops i j x y : bw_loops s !! i = Some x -> bw_loops s !! j = Some y ->
    bwp_wt (bs_path x) = bwp_wt (bs_path y) -> i = j;
}.

Lemma client_set_idle c : idle c -> client_set c = ∅.
Proof. intros (Hp & Hc & Hx & _). unfold client_set, closing_set. simpl. rewrite Hp, Hc, Hx. set_solver. Qed.
Lemma client_set_runs c x : runs c x -> client_set c = start_set x.
Proof. intros (Hp & Hc & Hx & _). unfold client_set, start_set, closing_set. simpl. by rewrite Hp, Hc, Hx. Qed.
Lemma reset_idle c : idle (browser_reset c).
Proof. by split_and!. Qed.

(** What a start does to the client and the world. *)
Lemma ensureStarted_spec w0 w l c env c' err st w' behind :
  owns w0 w l -> browser_ensureStarted c env w = Some (c', err, st, w', behind) ->
  (w_next w <= w_next w')%nat /\
  match st with
  | Some x => bm_started c = false /\ behind = None /\ bm_started c' = true /\ runs c' x /\
      owns w0 w' (start_set x ∪ l) /\ start_set x ## l /\ (w_next w <= bwp_wt (bs_path x) < w_next w')%nat
  | None => bm_started c' = bm_started c /\ (forall x, runs c x -> runs c' x) /\ (idle c -> idle c') /\
      client_set c' = client_set c /\ owns w0 w' (option_set behind ∪ l) /\ option_set behind ## l
  end.
Proof.
  intros H He. unfold browser_ensureStarted in He.
  assert (owns w0 w (option_set (None : option nat) ∪ l)) as Hnone by (eapply owns_eq; [done|set_solver]).
  destruct (bm_started c) eqn:Hs; [injection He as <- <- <- <- <-; split_and!; (done || set_solver)|].
  destruct (ParseMasqueConnBlob _) as [ci|]; [|injection He as <- <- <- <- <-; split_and!; (done || set_solver)].
  case_bool_decide; [injection He as <- <- <- <- <-; split_and!; (done || set_solver)|].
  destruct (newBrowserWebTransportPath _ _ _ _) as [[[[path|e] w1] bh]|] eqn:Hp; [..|done].
  - destruct (owns_newBrowserPath _ _ _ _ _ _ _ _ _ H Hp) as (Hn1 & -> & Ho1 & Hfr & Hwt & Hw1).
    destruct (newBrowserCore _ _ _ _ _) as [[core|e] w2] eqn:Hc.
    + destruct (owns_newBrowserCore _ _ _ _ _ _ _ _ _ Ho1 Hc) as (Hn2 & Ho2 & Hfr2).
      destruct (acquire w2) as [cancel w3] eqn:Ha. injection He as <- <- <- <- <-.
      pose proof (owns_new _ _ _ _ _ Ho2 Ha) as Hnew. pose proof (owns_acquire _ _ _ _ _ Ho2 Ha) as Ho3.
      assert (w_next w3 = S (w_next w2)) as Hw3 by (by injection Ha as <- <-).
      unfold start_set, closing_set. simpl. split_and!; try done; try lia.
      * eapply owns_eq; [done|set_solver].
      * set_solver.
    + destruct (owns_newBrowserCore _ _ _ _ _ _ _ _ _ Ho1 Hc) as (Hn2 & Ho2). injection He as <- <- <- <- <-.
      pose proof (ow_fresh _ _ _ Ho1). split; [unfold browser_path_Close; simpl; lia|]. simpl. split_and!; try done.
      eapply owns_eq; [apply owns_release; [done|set_solver]|set_solver].
  - destruct (owns_newBrowserPath _ _ _ _ _ _ _ _ _ H Hp) as (Hn1 & Ho1 & Hd). injection He as <- <- <- <- <-.
    by split_and!.
Qed.

Lemma browser_step_wf w0 s s' : wf_browser w0 s -> browser_step s s' -> wf_browser w0 s'.
Proof.
  intros Hwf Hst. destruct Hst as [s op env c err st w behind i Hop Hi He|s op Hop|s op core Hop|s i x c o Hi He|s c x He|s l1 x l2 He].
  - destruct Hwf as [Ho Ha Hrun Hidle Hfr Hl]. destruct (ensureStarted_spec _ _ _ _ _ _ _ _ _ _ Ho He) as [Hn Hx].
    unfold browser_held in *. cbn [union_list fmap list_fmap foldr] in *. destruct st as [x|].
    + destruct Hx as (Hs & -> & Hs' & Hr & Ho' & Hd & Hwt). rewrite (client_set_idle _ (Hidle Hs)) in *.
      split; simpl; unfold browser_held; simpl.
      * rewrite (client_set_runs _ _ Hr). eapply owns_eq; [done|]. set_solver.
      * rewrite (client_set_runs _ _ Hr). simpl in Ha. set_solver.
      * intros _. exists i, x. by rewrite lookup_insert_eq.
      * congruence.
      * intros j y [[<- <-]|[_ Hy]]%lookup_insert_Some; [lia|]. apply Hfr in Hy. lia.
      * intros j1 j2 y1 y2 [[<- <-]|[Hn1 Hy1]]%lookup_insert_Some [[<- <-]|[Hn2 Hy2]]%lookup_insert_Some Heq; try done.
        -- apply Hfr in Hy2. lia.
        -- apply Hfr in Hy1. lia.
        -- by eapply Hl.
    + destruct Hx as (Hs & Hr & Hid & Hcs & Ho' & Hd). split; simpl; unfold browser_held; simpl.
      * rewrite Hcs. eapply owns_eq; [done|]. set_solver.
      * rewrite Hcs. simpl in Ha. set_solver.
      * rewrite Hs. intros (j & y & Hj & Hy)%Hrun. eauto.
      * rewrite Hs. auto.
      * intros j y Hy%Hfr. lia.
      * done.
  - by destruct Hwf; split.
  - by destruct Hwf; split.
  - destruct Hwf as [Ho Ha Hrun Hidle Hfr Hl]. unfold browser_loop_end in He.
    assert (forall j y, delete i (bw_loops s) !! j = Some y -> bw_loops s !! j = Some y) as Hdel
      by (intros j y [_ Hy]%lookup_delete_Some; done).
    assert ((c, o) = (bw_client s, None) /\ (forall j y, bw_loops s !! j = Some y -> runs (bw_client s) y -> bm_started (bw_client s) = true -> j <> i) \/
      runs (bw_client s) x /\ (c, o) = (browser_reset (bw_client s),
        Some (BrowserClosing (Some (bs_cancel x)) (Some (bs_path x)) (Some (bs_core x))))) as [[[= -> ->] Hj]|[Hr [= -> ->]]].
    { destruct (bm_started (bw_client s)) eqn:Hs.
      - destruct (Hrun eq_refl) as (j & y & Hy & Hry). pose proof Hry as (Hp & Hc & _). rewrite Hp, Hc in He.
        destruct (decide (j = i)) as [->|Hne].
        + right. assert (y = x) as -> by congruence. split; [done|]. rewrite !bool_decide_eq_true_2 in He by done. done.
        + left. assert (bwp_wt (bs_path y) <> bwp_wt (bs_path x)) as Hneq by (intros ?; by destruct Hne; eapply Hl).
          rewrite bool_decide_eq_false_2 in He by done. split; [done|].
          intros j' y' Hy' Hry' _ ->. assert (y' = x) as -> by congruence.
          destruct Hry' as (Hp' & _). congruence.
      - left. destruct (Hidle eq_refl) as (Hp & _). rewrite Hp in He. split; [done|]. done. }
    + split; simpl; try done.
      * intros Hs. destruct (Hrun Hs) as (j & y & Hy & Hry). exists j, y. split; [|done].
        rewrite lookup_delete_ne; [done|]. intros <-. by eapply Hj.
      * intros j y Hy%Hdel. eauto.
      * intros j1 j2 y1 y2 H1%Hdel H2%Hdel. eauto.
    + unfold browser_held in *. simpl in *. rewrite (client_set_runs _ _ Hr) in *.
      split; simpl; unfold browser_held; simpl; rewrite ?(client_set_idle _ (reset_idle _)); try done.
      * eapply owns_eq; [done|]. unfold start_set. set_solver.
      * unfold start_set in *. set_solver.
      * intros j y Hy%Hdel. eauto.
      * intros j1 j2 y1 y2 H1%Hdel H2%Hdel. eauto.
  - destruct Hwf as [Ho Ha Hrun Hidle Hfr Hl]. unfold browser_Close_take in He. injection He as <- <-.
    unfold browser_held in *. simpl in *.
    split; simpl; unfold browser_held; simpl; rewrite ?(client_set_idle _ (reset_idle _)); try done.
    + eapply owns_eq; [done|]. unfold client_set. simpl. set_solver.
    + unfold client_set in *. simpl in *. set_solver.
  - destruct Hwf as [Ho Ha Hrun Hidle Hfr Hl]. unfold browser_held in *. rewrite He in Ho, Ha.
    rewrite fmap_app, fmap_cons in Ho, Ha. simpl in Ho, Ha. rewrite union_list_app_L in Ho, Ha.
    destruct Ha as (Hd1 & Hd2 & (Ha1 & (Hd3 & Ha2) & Hd4)%held_apart_app). simpl in *.
    pose proof (ow_fresh _ _ _ Ho). split; simpl; try done; unfold browser_held; simpl.
    + rewrite fmap_app, union_list_app_L. eapply owns_eq; [apply owns_Close_rest; [done|set_solver]|]. set_solver.
    + rewrite fmap_app, held_apart_app, union_list_app_L. set_solver.
    + intros j y Hy%Hfr. revert Hy. unfold browser_Close_rest. destruct (bcl_cancel x), (bcl_path x), (bcl_core x); done.
Qed.
End browser_invariant.

(** * Properties of the client *)

Section browser_client_properties.
Context `{K : KeyOps} `{BC : BrowserCodec} {T : TokenOps K}.

Definition fresh_world (w : world) : Prop := forall i, i ∈ w_open w -> (i < w_next w)%nat.

Lemma wf_browser_world0 server priv w : fresh_world w -> wf_browser w (browser_world0 server priv w).
Proof.
  intros Hw. split; simpl; try done.
  - eapply owns_eq; [by apply owns_refl|]. unfold browser_held, client_set, closing_set. set_solver.
Qed.

Lemma browser_reachable_wf w0 s s' : wf_browser w0 s -> rtc browser_step s s' -> wf_browser w0 s'.
Proof. intros Hwf Hr. induction Hr; [done|]. eauto using browser_step_wf. Qed.

(** however starts, operations, ends of receive goroutines and [Close] interleave,
    what is open is what was open before, what the client holds, what somebody took from
    it and has not closed yet, and the sessions of abandoned starts, each held once: a
    goroutine of an old start never closes what a newer start runs on, and a start is
    never closed twice.  A running client has all its parts and a goroutine that will
    notice the end of its session; a stopped client holds nothing. *)
Theorem browser_client_accounts server priv w0 s :
  fresh_world w0 -> rtc browser_step (browser_world0 server priv w0) s ->
  w_open (bw_world s) = w_open w0 ∪ ⋃ browser_held s /\ ⋃ browser_held s ## w_open w0 /\ held_apart (browser_held s) /\
  (if bm_started (bw_client s) then exists i x, bw_loops s !! i = Some x /\ runs (bw_client s) x
   else idle (bw_client s) /\ (bw_closing s = [] -> w_open (bw_world s) = w_open w0 ∪ bw_behind s)).
Proof.
  intros Hw Hr. destruct (browser_reachable_wf _ _ _ (wf_browser_world0 server priv w0 Hw) Hr) as [Ho Ha Hrun Hidle _ _].
  pose proof (ow_open _ _ _ Ho) as Hopen. pose proof (ow_fresh _ _ _ Ho). split_and!; try done.
  destruct (bm_started (bw_client s)); [by apply Hrun|]. split; [by apply Hidle|]. intros Hc.
  rewrite Hopen. unfold browser_held. rewrite Hc, (client_set_idle _ (Hidle eq_refl)). set_solver.
Qed.

(** The goroutine of an old start leaves the client alone. *)
Theorem stale_goroutine_is_harmless server priv w0 s i j x y :
  fresh_world w0 -> rtc browser_step (browser_world0 server priv w0) s ->
  bw_loops s !! i = Some x -> bw_loops s !! j = Some y -> i <> j -> runs (bw_client s) y ->
  browser_loop_end (bw_client s) x = (bw_client s, None).
Proof.
  intros Hw Hr Hx Hy Hne (Hp & Hc & _).
  destruct (browser_reachable_wf _ _ _ (wf_browser_world0 server priv w0 Hw) Hr) as [_ _ _ _ _ Hl].
  unfold browser_loop_end. rewrite Hp, Hc, bool_decide_eq_false_2; [done|].
  intros Heq. destruct Hne. by eapply Hl.
Qed.

(** A session left behind by a start whose context ended stays open for good. *)
Theorem abandoned_session_stays_open server priv w0 s s' i :
  fresh_world w0 -> rtc browser_step (browser_world0 server priv w0) s -> rtc browser_step s s' ->
  i ∈ bw_behind s -> i ∈ w_open (bw_world s').
Proof.
  intros Hw Hr Hr' Hi.
  assert (i ∈ bw_behind s') as Hi'.
  { clear Hr. induction Hr' as [|s1 s2 s3 Hst _ IH]; [done|]. apply IH. destruct Hst; simpl; set_solver. }
  assert (rtc browser_step (browser_world0 server priv w0) s') as H by (by etrans).
  destruct (browser_reachable_wf _ _ _ (wf_browser_world0 server priv w0 Hw) H) as [Ho _ _ _ _ _].
  rewrite (ow_open _ _ _ Ho). unfold browser_held. simpl. set_solver.
Qed.

(** An operation that has started the client finds no core when a [Close] comes between
    its two critical sections; it does not look and calls the method of a nil core. *)
Theorem operation_may_find_no_core s op :
  bw_ops s !! op = Some None -> exists s', rtc browser_step s s' /\ bw_ops s' !! op = Some (Some None).
Proof.
  intros Hop. eexists. split.
  - eapply rtc_l; [by apply bst_close|]. eapply rtc_l; [by apply (bst_core _ op)|]. apply rtc_refl.
  - simpl. by rewrite lookup_insert_eq.
Qed.
End browser_client_properties.

(** The client's endpoint text names the server, and its bind sends there. *)
Theorem browser_config_reaches_server `{K : KeyOps} {KL : KeyLaws K} priv server path env w core w' clock sq bufs offset :
  newBrowserCore priv server path env w = (Ok core, w') ->
  browser_ParseEndpoint (Hex.EncodeToString (Raw server)) = Ok (BrowserEndpoint server) /\
  exists l sq' err, browser_Send (bco_bind core) clock (fun _ _ _ => None) sq bufs (BrowserEP (Some (BrowserEndpoint server))) offset
    = (Some (path, server, l), sq', err).
Proof.
  unfold newBrowserCore. intros H. destruct (acquire w) as [st w1]. destruct (browser_setup_stack env); [done|].
  destruct (acquire w1) as [wg w2]. destruct (browser_setup_device env); [done|]. injection H as <- _. split.
  - pose proof (browser_parse_endpoint (Hex.EncodeToString (Raw server))) as Hp.
    assert (DstToString (Endpoint server) = Hex.EncodeToString (Raw server)) as Hd by apply key_text.
    rewrite <- Hd in Hp |- *. rewrite (parse_endpoint_dst (Endpoint server)) in Hp.
    destruct (browser_ParseEndpoint _) as [[k]|]; [|done]. simpl in Hp. by subst.
  - simpl. rewrite bool_decide_eq_true_2 by done. destruct (browser_send_bufs _ _ _ _ _ _) as [[l sq'] err]. eauto.
Qed.

(** * A concrete encoding of the control messages *)

Module ToyControl.
(** A message as the bits of its fields, written with two digits. *)
Fixpoint digits (p : positive) : list byte :=
  match p with
  | xI p => x31 :: digits p
  | xO p => x30 :: digits p
  | xH => []
  end.
Fixpoint undigits (l : list byte) : positive :=
  match l with
  | [] => xH
  | b :: l => if bool_decide (b = x31) then xI (undigits l) else xO (undigits l)
  end.

Definition fields : Type := list gostring.
Definition of_fields (f : fields) : option masqueBrowserControl :=
  match f with
  | [t; v; s; c; k; p; e] => (fun v => BrowserControl t v s c k p e) <$> decode (undigits v)
  | _ => None
  end.
Definition to_fields (m : masqueBrowserControl) : fields :=
  [bc_type m; digits (encode (bc_version m)); bc_source m; bc_challenge m; bc_verifier m; bc_proof m; bc_error m].

Lemma undigits_digits p : undigits (digits p) = p.
Proof. induction p as [p IH|p IH|]; simpl; [by rewrite IH|by rewrite IH|done]. Qed.
Lemma of_to_fields m : of_fields (to_fields m) = Some m.
Proof. unfold of_fields, to_fields. rewrite undigits_digits, countable.decode_encode. by destruct m. Qed.
Lemma digits_not_space p : Forall (fun b => Strings.is_space b = false /\ b <> x0a) (digits p).
Proof. induction p; simpl; constructor; done. Qed.

Lemma trim_line l : Forall (fun b => Strings.is_space b = false /\ b <> x0a) l -> Strings.TrimSpace (l ++ [x0a]) = l.
Proof.
  intros H. unfold Strings.TrimSpace. destruct l as [|b l]; [done|].
  assert (Strings.trim_left ((b :: l) ++ [x0a]) = (b :: l) ++ [x0a]) as ->.
  { apply Forall_cons in H as [[Hb _] _]. simpl. by rewrite Hb. }
  rewrite rev_app_distr. simpl app at 1.
  destruct (rev (b :: l)) as [|c r] eqn:Hr; [by apply (f_equal (@length byte)) in Hr; rewrite length_rev in Hr|].
  assert (Strings.is_space c = false) as Hc.
  { apply (Forall_forall (fun b => Strings.is_space b = false /\ b <> x0a) (b :: l)); [done|].
    apply list_elem_of_In, in_rev. rewrite Hr. by left. }
  change (rev l ++ [b]) with (rev (b :: l)). rewrite Hr.
  transitivity (rev (Strings.trim_left (c :: r))); [done|]. cbn [Strings.trim_left].
  rewrite Hc, <- Hr. apply rev_involutive.
Qed.

Definition toy_control : ControlCodec := {|
  MarshalControl m := Ok (digits (encode (to_fields m)));
  UnmarshalControl b :=
    match decode (undigits b) ≫= of_fields with Some m => Ok m | None => Err (ErrNew "invalid character") end;
|}.
Definition toy_browser : BrowserCodec := {|
  MarshalBrowser m := MarshalControl (ControlCodec := toy_control) (to_relay m);
  UnmarshalBrowser b := let? m := UnmarshalControl (ControlCodec := toy_control) b in Ok (of_relay m);
|}.

#[global] Instance toy_json : JSONLaws toy_control toy_browser.
Proof.
  assert (forall m, x0a ∉ digits (encode (to_fields m))) as Hnl.
  { intros m Hin. pose proof (digits_not_space (encode (to_fields m))) as H. rewrite Forall_forall in H.
    by apply H in Hin as [_ ?]. }
  assert (forall m, UnmarshalControl (ControlCodec := toy_control) (digits (encode (to_fields m))) = Ok m) as Hrt.
  { intros m. unfold UnmarshalControl, toy_control. rewrite undigits_digits, countable.decode_encode.
    cbn [mbind option_bind]. by rewrite of_to_fields. }
  split.
  - intros m b [= <-]. apply Hnl.
  - intros m b [= <-]. apply Hnl.
  - intros m b _ [= <-]. rewrite trim_line by apply digits_not_space. apply Hrt.
  - intros m b _ [= <-]. unfold UnmarshalBrowser, toy_browser. by rewrite Hrt.
Qed.
End ToyControl.

(** * Witnesses *)

Import ToyKeys ToyToken ToyControl.

Definition bmarshal (m : browserControl) : list byte :=
  match MarshalBrowser (BrowserCodec := toy_browser) m with Ok b => b | Err _ => [] end.
Definition rwrite (m : masqueBrowserControl) : list byte :=
  match writeMasqueBrowserControl (CC := toy_control) m with Ok b => b | Err _ => [] end.

Definition sample_hello : list byte :=
  bmarshal (MkControl (B "hello") 1 (KeyString (KeyOps := toy) (nkey 1)) [] [] [] []).
Definition sample_answer : masqueBrowserControl :=
  BrowserControl (B "challenge") 0 [] sample_token (KeyString (KeyOps := toy) (nkey 9)) [] [].
Definition sample_ready : masqueBrowserControl := BrowserControl (B "ready") 1 [] [] [] [] [].
Definition sample_stream : list byte := rwrite sample_answer ++ rwrite sample_ready.
Definition sample_chunks : list (list byte) := [take 100 sample_stream; drop 100 sample_stream].
Definition sample_wt : wt_env :=
  WtEnv true None false None None None [] (JsChunk <$> sample_chunks).
Definition sample_issued : masqueAuthenticator (K := toy) :=
  Authenticator (K := toy) (nkey 9)
    {[ sample_token := Challenge (K := toy) (nkey 1) (nkey 1) masqueModeRelay (B "b") (5 + masqueChallengeTTL) ]}.
Definition sample_bproof : gostring :=
  Base64.EncodeToString (SealTo (KeyOps := toy) [] (nkey 1) (nkey 9) sample_token).
Definition sample_proof_line : list byte := bmarshal (MkControl (B "proof") 0 [] [] [] sample_bproof []).

Lemma browser_is_admitted_witness :
  browserDialogue (K := toy) (BC := toy_browser) sample_wt (nkey 1)
    = ([sample_hello ++ [x0a]; sample_proof_line ++ [x0a]], Some None) /\
  exists a3, browserProof (K := toy) sample_issued 9 (nkey 1)
    (readMasqueBrowserControl (CC := toy_control) (sample_proof_line ++ [x0a]) IOEOF).1 = (a3, None).
Proof.
  destruct (browser_is_admitted (K := toy) (KL := toy_laws) (CC := toy_control) (BC := toy_browser) (JL := toy_json)
    (nkey 9) (nkey 9) [] sample_auth 5 [] (Ok sample_nonce) (B "b") (nkey 1) sample_issued sample_answer (nkey 1) sample_hello
    (rwrite sample_answer) (rwrite sample_ready) sample_proof_line sample_wt sample_chunks [] sample_issued 9
    (Challenge (K := toy) (nkey 1) (nkey 1) masqueModeRelay (B "b") (5 + masqueChallengeTTL)))
    as (_ & Hd & Hp); [..|split; [exact Hd|exact Hp]].
  all: lazymatch goal with |- _ = _ => vm_reflexivity | _ => idtac end.
  all: lazymatch goal with
       | |- auth_trace _ _ _ => constructor
       | |- Forall _ _ => constructor
       | |- _ < _ => apply Z.ltb_lt; vm_reflexivity
       | _ => by_evaluation
       end.
Defined.

Definition sample_relay_info : MasqueConnInfo (K := toy) :=
  ConnInfo (K := toy) 0 (nkey 1) (nkey 2) [] (B "https://relay.example/x") false.
Definition sample_relay_blob : gostring :=
  match ConnBlob (O := toy_token) sample_relay_info with Ok b => b | Err _ => [] end.
Definition sample_browser_env : browser_env :=
  BrowserEnv (K := toy) (nkey 1) sample_wt (BrowserCoreEnv None None None None None None None).
Definition sample_browser_start :=
  browser_ensureStarted (K := toy) (BC := toy_browser) (T := toy_token)
    (NewBrowserMasqueClient (K := toy) sample_relay_blob (nkey 1)) sample_browser_env world3.

Lemma sample_browser_started : exists c x w, sample_browser_start = Some (c, None, Some x, w, None).
Proof.
  assert (match sample_browser_start with Some (c, None, Some x, w, None) => true | _ => false end = true)
    as H by vm_reflexivity.
  destruct sample_browser_start as [[[[[c [e|]] [x|]] w] [i|]]|]; try done. eauto.
Qed.

(** A client that has started, with an operation between its critical sections. *)
Lemma sample_browser_world :
  exists s, rtc (browser_step (K := toy) (BC := toy_browser) (T := toy_token))
      (browser_world0 (K := toy) sample_relay_blob (nkey 1) world3) s /\
    bw_ops s !! 0%nat = Some None /\ bm_started (bw_client s) = true.
Proof.
  destruct sample_browser_started as (c & x & w & Hs). eexists. split.
  - eapply rtc_l; [eapply (bst_ensure _ 0 sample_browser_env); [done|exact (lookup_empty 0%nat)|exact Hs]|]. apply rtc_refl.
  - simpl. split; [apply lookup_insert_eq|].
    destruct (ensureStarted_spec (K := toy) (BC := toy_browser) (T := toy_token) world3 world3 ∅ _ _ _ _ _ _ _
      (owns_refl _ world3_fresh) Hs) as (_ & _ & _ & H & _). exact H.
Qed.

Lemma browser_client_accounts_witness :
  exists s, bm_started (bw_client s) = true /\ held_apart (browser_held (K := toy) s) /\
    exists i x, bw_loops s !! i = Some x /\ runs (bw_client s) x.
Proof.
  destruct sample_browser_world as (s & Hr & _ & Hs). exists s.
  destruct (browser_client_accounts (K := toy) (BC := toy_browser) (T := toy_token) sample_relay_blob (nkey 1)
    world3 s world3_fresh Hr) as (_ & _ & Ha & Hrun). rewrite Hs in Hrun. by split_and!.
Defined.

Lemma operation_may_find_no_core_witness :
  exists s, rtc (browser_step (K := toy) (BC := toy_browser) (T := toy_token))
      (browser_world0 (K := toy) sample_relay_blob (nkey 1) world3) s /\ bw_ops s !! 0%nat = Some (Some None).
Proof.
  destruct sample_browser_world as (s & Hr & Hop & _).
  destruct (operation_may_find_no_core (K := toy) (BC := toy_browser) (T := toy_token) s 0 Hop) as (s' & Hr' & Hop').
  exists s'. split; [by etrans|done].
Defined.

(** The caller gives up before the session is ready. *)
Definition sample_abandoned_env : browser_env :=
  BrowserEnv (K := toy) (nkey 1) (WtEnv true (Some CtxDeadlineExceeded) true None None None [] [])
    (BrowserCoreEnv None None None None None None None).

Definition sample_abandoned_start :=
  browser_ensureStarted (K := toy) (BC := toy_browser) (T := toy_token)
    (NewBrowserMasqueClient (K := toy) sample_relay_blob (nkey 1)) sample_abandoned_env world3.

Lemma sample_abandoned : exists c e w i, sample_abandoned_start = Some (c, Some e, None, w, Some i) /\ bm_started c = false.
Proof.
  assert (match sample_abandoned_start with Some (c, Some _, None, _, Some _) => negb (bm_started c) | _ => false end = true)
    as H by vm_reflexivity.
  destruct sample_abandoned_start as [[[[[c [e|]] [x|]] w] [i|]]|]; try done. exists c, e, w, i.
  split; [done|]. by apply negb_true_iff.
Qed.

Lemma abandoned_session_stays_open_witness :
  exists s i, rtc (browser_step (K := toy) (BC := toy_browser) (T := toy_token))
      (browser_world0 (K := toy) sample_relay_blob (nkey 1) world3) s /\
    bm_started (bw_client s) = false /\ i ∈ w_open (bw_world s).
Proof.
  set (s0 := browser_world0 (K := toy) sample_relay_blob (nkey 1) world3).
  destruct sample_abandoned as (c & e & w & i & He & Hc).
  assert (exists s, browser_step (BC := toy_browser) (T := toy_token) s0 s /\ bm_started (bw_client s) = false /\ i ∈ bw_behind s)
    as (s & Hst & Hs & Hi).
  { eexists. split; [eapply (bst_ensure s0 0 sample_abandoned_env c (Some e) None w (Some i) 0); [done|done|exact He]|].
    split; [exact Hc|]. change (i ∈ ({[ i ]} : gset nat) ∪ bw_behind s0).
    apply elem_of_union. left. by apply elem_of_singleton. }
  exists s, i. split; [by apply rtc_once|]. split; [done|].
  apply (abandoned_session_stays_open (K := toy) (BC := toy_browser) (T := toy_token) sample_relay_blob (nkey 1)
    world3 s s i world3_fresh); [by apply rtc_once|apply rtc_refl|done].
Defined.
