(* ===== verification/Web.v ===== *)
(** Web: the page's glue, as the js/wasm build exposes it.

    Models src/web/main_js.go: [tailcatListen] and [tailcatDial], the ping loop, and the
    connection object a page gets.  A JavaScript value is what the code reads of it, a
    promise its outcome; JSON, the clients' pings and dials and the connections are
    parameters or results. *)

From S2P Require Import Prelude GoStd Keys Packet Core Lifecycle Derp Loco Reach Keystore.
From Stdlib Require Import Strings.Byte.
Import Netip.

Section web.
Context {K : KeyOps} {D : DiscoKeyOps K} {O : BlobOps K} {F : KeyFileOps K}.
Context (first_region : DERPMap -> option Z).
(** [json.Marshal] at [PrivateKey]. *)
Context (Marshal : PrivateKey -> result (list byte)).

(** * Listening *)

(** What the page passes to [tailcatListen]: whether there is a function [onConnection], and
    the texts of its options. *)
Record listen_options : Type := ListenOptions {
  lo_onConnection : bool;
  lo_derpMapURL : gostring;
  lo_privateKey : gostring;
}.
(** What a listening page gets; every port's connections go to [onConnection]. *)
Record listening : Type := Listening {
  li_addr : gostring;
  li_privateKeyJSON : gostring;
  li_server : Server Z;
}.

(** src/web/main_js.go:55-63 [tailcatListen], the key *)
Definition listen_key (fresh : NodePrivate) (keyJSON : gostring) : result PrivateKey :=
  if negb (bool_decide (keyJSON = [])) then
    match UnmarshalPrivateKey keyJSON with
    | Err e => Err (ErrWrap "parsing privateKey: %w" e)
    | Ok pk => Ok pk
    end
  else
    let pk := NewPrivateKey fresh in
    Ok (MkPrivateKey (pk_Private pk) (with_region (pk_Public pk) (ci_Region (pk_Public pk)) (-1))).

(** src/web/main_js.go:39-98 [tailcatListen], of one object: the outcome of the promise and
    the server's ledger; [None] is a panic *)
Definition tailcatListen (fresh : NodePrivate) (env : start_env) (xenv : expand_env) (opts : listen_options) (l : ledger)
    : option (result listening * ledger) :=
  if negb (lo_onConnection opts) then Some (Err (ErrNew "onConnection function is required"), l)
  else if bool_decide (lo_derpMapURL opts = []) then
    Some (Err (ErrNew "derpMapURL is required for legacy browser listener mode"), l)
  else
    match listen_key fresh (lo_privateKey opts) with
    | Err e => Some (Err e, l)
    | Ok pk =>
        match Expand xenv (pk_Public pk) [OptExpandForServer; OptDERPMapURL (lo_derpMapURL opts)] with
        | (_, _, Err e) => Some (Err (ErrWrap "Expand: %w" e), l)
        | (ci, _, Ok _) =>
            reg ← head (ci_Region ci);
            (* [ci] is a copy that shares its regions with the key *)
            let regions := expand_region <$> ci_Region (pk_Public pk) in
            let pk := MkPrivateKey (pk_Private pk) (with_region (pk_Public pk) regions
                        (if bool_decide (lo_privateKey opts = []) then r_RegionID reg else ci_RegionID (pk_Public pk))) in
            blob ← ConnBlob (pk_Public pk);
            match Marshal pk with
            | Err e => Some (Err e, l)
            | Ok keyOut =>
                let srv := MkServer (pk_Private pk) (Some reg) 0 [] false [] None (Some Some) None None in
                match server_Start_opens first_region srv env xenv l with
                | None => None
                | Some (srv, Some e, l) => Some (Err (ErrWrap "Server.Start: %w" e), Server_Close srv l)
                | Some (srv, None, l) => Some (Ok (Listening blob keyOut srv), l)
                end
            end
        end
    end.

(** src/web/main_js.go:92-95 [tailcatListen], the page's [close] *)
Definition listening_close (li : listening) (l : ledger) : ledger := Server_Close (li_server li) l.

(** * Dialling *)

(** src/web/main_js.go:165-178 [pingUntil]: over each ping's error and whether the context
    has ended after it; [None] while it still pings *)
Fixpoint pingUntil (rounds : list (option gerror * bool)) : option (option gerror) :=
  match rounds with
  | [] => None
  | (None, _) :: _ => Some None
  | (Some e, true) :: _ => Some (Some (ErrWrap "ping: %w" e))
  | (Some _, false) :: rounds => pingUntil rounds
  end.

(** The client of an address. *)
Inductive web_client : Type :=
  | MasqueDial (addr : gostring) (priv : NodePrivate)
  | DerpDial (addr : gostring) (priv : NodePrivate) (derpMapURL : gostring).

Record dial_options : Type := DialOptions {
  do_addr : gostring;
  do_derpMapURL : gostring;
  do_privateKey : gostring;
  do_port : option Z;
}.

(** src/web/main_js.go:113-116 [tailcatDial], the port *)
Definition dial_port (p : option Z) : Z := match p with Some p => u16 p | None => 1 end.

(** What a page's dial comes to: an error, or a connection and the client it keeps, as
    resources. *)
Record web_conn : Type := WebConn { wcn_client : nat; wcn_conn : nat; wcn_port : Z }.

(** src/web/main_js.go:104-163 [tailcatDial], of one object, for the key it draws, its pings
    and the result of its dial: the client it made, the outcome, and the world; [None] while
    it still pings *)
Definition tailcatDial (fresh : NodePrivate) (opts : dial_options) (rounds : list (option gerror * bool))
    (dial : web_client -> Z -> option gerror) (w : world) : option (option web_client * result web_conn * world) :=
  let port := dial_port (do_port opts) in
  if bool_decide (do_addr opts = []) then Some (None, Err (ErrNew "addr is required"), w)
  else
    let run cl (msg : string) :=
      let '(c, w) := acquire w in
      perr ← pingUntil rounds;
      match perr with
      | Some e => Some (Some cl, Err e, release c w)
      | None =>
          match dial cl port with
          | Some e => Some (Some cl, Err (ErrWrap msg e), release c w)
          | None => let '(conn, w) := acquire w in Some (Some cl, Ok (WebConn c conn port), w)
          end
      end in
    match (if bool_decide (do_privateKey opts = []) then Ok fresh else let? pk := UnmarshalPrivateKey (do_privateKey opts) in Ok (pk_Private pk)) with
    | Err e => Some (None, Err (ErrWrap "parsing privateKey: %w" e), w)
    | Ok priv =>
        if has_prefix (B "mc") (do_addr opts) then run (MasqueDial (do_addr opts) priv) "MasqueCat DialTCPPort: %w"
        else run (DerpDial (do_addr opts) priv (do_derpMapURL opts)) "DialTCPPort: %w"
    end.

(** src/web/main_js.go:223-229 [makeJSConn], the page's [close] of a dialled connection *)
Definition conn_close (c : web_conn) (w : world) : world := release (wcn_client c) (release (wcn_conn c) w).

(** * Reading *)

(** What the promise of a read comes to: bytes, null, or a rejection. *)
Inductive js_read : Type := JSData (b : list byte) | JSNull | JSReject (e : gerror).
(** src/web/main_js.go:186-195 [makeJSConn], a read, for what [Read] returned *)
Definition conn_read (r : list byte * option gerror) : js_read :=
  match r with
  | ((_ :: _) as b, _) => JSData b
  | ([], None) => JSNull
  | ([], Some e) => if errors_is is_eof e then JSNull else JSReject e
  end.
End web.

(** * Properties *)

Section web_properties.
Context {K : KeyOps} {D : DiscoKeyOps K} {O : BlobOps K} {F : KeyFileOps K}.
Context (first_region : DERPMap -> option Z).
Context (Marshal : PrivateKey -> result (list byte)).

(** What a page that listens got: a server with the key of its saved key file, in a region
    of the same number if that was chosen now. *)
Lemma listen_inv fresh env xenv opts l li l' :
  tailcatListen first_region Marshal fresh env xenv opts l = Some (Ok li, l') ->
  exists pk ci dm shared reg pk',
    listen_key fresh (lo_privateKey opts) = Ok pk /\
    Expand xenv (pk_Public pk) [OptExpandForServer; OptDERPMapURL (lo_derpMapURL opts)] = (ci, dm, Ok shared) /\
    head (ci_Region ci) = Some reg /\ r_RegionID reg <> 0 /\
    pk' = MkPrivateKey (pk_Private pk) (with_region (pk_Public pk) (expand_region <$> ci_Region (pk_Public pk))
            (if bool_decide (lo_privateKey opts = []) then r_RegionID reg else ci_RegionID (pk_Public pk))) /\
    ConnBlob (pk_Public pk') = Some (li_addr li) /\ Marshal pk' = Ok (li_privateKeyJSON li) /\
    s_Key (li_server li) = pk_Private pk /\ s_Region (li_server li) = Some reg.
Proof.
  unfold tailcatListen. destruct (lo_onConnection opts); cbn [negb]; [|done]. case_bool_decide; [done|].
  destruct (listen_key fresh (lo_privateKey opts)) as [pk|] eqn:Hk; [|done].
  destruct (Expand _ _ _) as [[ci dm] [shared|]] eqn:He; [|done]. destruct (head (ci_Region ci)) as [reg|] eqn:Hr; cbn [mbind option_bind]; [|done].
  destruct (ConnBlob _) as [blob|] eqn:Hb; cbn [mbind option_bind]; [|done]. destruct (Marshal _) as [keyOut|] eqn:Hm; [|done].
  destruct (server_Start_opens _ _ _ _ _) as [[[srv [e|]] l1]|] eqn:Hs; [done| |done]. intros [= <- <-].
  exists pk, ci, dm, shared, reg. eexists. cbn [li_addr li_privateKeyJSON li_server].
  unfold server_Start_opens in Hs. destruct (server_Start _ _ _ _) as [[s1 err]|] eqn:Hst; [|done].
  assert (r_RegionID reg <> 0 /\ (err = None -> s_Key s1 = pk_Private pk /\ s_Region s1 = Some reg)) as [Hz Hfields].
  { unfold server_Start, server_region in Hst. cbn [s_lb s_Region s_Key] in Hst. destruct (r_RegionID reg =? 0) eqn:Ez.
    - injection Hst as <- <-. unfold server_opens, server_region in Hs. cbn [s_lb s_Region] in Hs. by rewrite Ez in Hs.
    - apply Z.eqb_neq in Ez. split; [done|]. intros ->. destruct (setup_error env); [done|].
      destruct (lb_Start _ _ _ _) as [[[lb addrs] [e|]]|]; [done| |done]. by injection Hst as <-. }
  assert (err = None /\ srv = s1) as [-> ->].
  { destruct (server_opens _ _); [|by injection Hs as <- <- <-]. destruct (open_subsystems _ _) as [[ss [x|]] w]; [by injection Hs as <- <- <-|].
    destruct err; [|by simplify_eq]. by destruct (lb_Close ss w). }
  destruct (Hfields eq_refl) as [? ?]. by split_and!.
Qed.

(** a browser listener keeps its address.  A page that listens with a new key and later, or
    on another day's DERP map, listens with the key file it got has the same address, key
    file and key. *)
Theorem web_listener_keeps_address fresh env xenv opts l li l' fresh2 env2 xenv2 opts2 l2 li2 l2' :
  (forall pk b, storable pk = true -> Marshal pk = Ok b -> UnmarshalPrivateKey b = Ok pk /\ b <> []) ->
  lo_privateKey opts = [] -> tailcatListen first_region Marshal fresh env xenv opts l = Some (Ok li, l') ->
  lo_privateKey opts2 = li_privateKeyJSON li -> tailcatListen first_region Marshal fresh2 env2 xenv2 opts2 l2 = Some (Ok li2, l2') ->
  li_addr li2 = li_addr li /\ li_privateKeyJSON li2 = li_privateKeyJSON li /\ s_Key (li_server li) = fresh /\ s_Key (li_server li2) = fresh.
Proof.
  intros Hlaw Hnew H1 Hold H2.
  destruct (listen_inv _ _ _ _ _ _ _ H1) as (pk & ci & dm & sh & reg & pk1 & Hk & _ & _ & _ & Hpk1 & Hb1 & Hm1 & Hs1 & _).
  unfold listen_key in Hk. rewrite Hnew in Hk. cbn in Hk. injection Hk as <-. rewrite Hnew in Hpk1. cbn in Hpk1.
  destruct (Hlaw pk1 (li_privateKeyJSON li)) as [Hu Hne]; [by rewrite Hpk1|done|].
  destruct (listen_inv _ _ _ _ _ _ _ H2) as (pk2 & ci2 & dm2 & sh2 & reg2 & pk2' & Hk2 & _ & _ & _ & Hpk2 & Hb2 & Hm2 & Hs2 & _).
  unfold listen_key in Hk2. rewrite Hold, bool_decide_eq_false_2, Hu in Hk2 by done. cbn [negb] in Hk2. injection Hk2 as <-.
  rewrite Hold, bool_decide_eq_false_2 in Hpk2 by done. assert (pk2' = pk1) as -> by (by rewrite Hpk2, Hpk1).
  split_and!; [congruence|congruence|done|]. by rewrite Hs2, Hpk1.
Qed.

(** A key file that leaves the region to be chosen, which genkey writes, gives a page an
    address that leaves it to be chosen again, by each client for itself, whatever region
    the server is in. *)
Lemma automatic_region_is_not_fixed {BL : BlobLaws O} fresh env xenv opts l li l' pk :
  tailcatListen first_region Marshal fresh env xenv opts l = Some (Ok li, l') ->
  lo_privateKey opts <> [] -> UnmarshalPrivateKey (lo_privateKey opts) = Ok pk ->
  ci_Region (pk_Public pk) = [] -> ci_RegionID (pk_Public pk) = -1 ->
  is_Some (s_Region (li_server li)) /\ exists ci, ParseConnBlob (li_addr li) = Ok ci /\ ci_Region ci = [] /\ ci_RegionID ci = -1.
Proof.
  intros H Hj Hu Hr Hid. destruct (listen_inv _ _ _ _ _ _ _ H) as (pk1 & ci & dm & sh & reg & pk2 & Hk & _ & _ & _ & Hpk & Hb & _ & _ & Hs).
  unfold listen_key in Hk. rewrite bool_decide_eq_false_2, Hu in Hk by done. cbn [negb] in Hk. injection Hk as <-.
  split; [by rewrite Hs|]. rewrite bool_decide_eq_false_2, Hr, Hid in Hpk by done.
  assert (encodable (wireOf (pk_Public pk2)) = true) as He by (by rewrite Hpk).
  eexists. split; [exact (parse_conn_blob _ _ He Hb)|]. by rewrite Hpk.
Qed.

(** Whatever becomes of a dial, nothing stays open but a connection and its client, which
    the page's close gives back. *)
Lemma web_dial_accounts fresh opts rounds dial w cl r w' :
  (forall i, i ∈ w_open w -> (i < w_next w)%nat) -> tailcatDial fresh opts rounds dial w = Some (cl, r, w') ->
  match r with
  | Err _ => w_open w' = w_open w
  | Ok c => w_open (conn_close c w') = w_open w /\ pingUntil rounds = Some None /\ wcn_port c = dial_port (do_port opts) /\
            exists x, cl = Some x /\ dial x (wcn_port c) = None
  end.
Proof.
  intros Hf. unfold tailcatDial. case_bool_decide; [by intros [= _ <- <-]|].
  destruct (if bool_decide (do_privateKey opts = []) then Ok fresh else _) as [priv|e]; [|by intros [= _ <- <-]].
  assert (forall x msg,
    (let '(c, w1) := acquire w in
     perr ← pingUntil rounds;
     match perr with
     | Some e => Some (Some x, Err e, release c w1)
     | None => match dial x (dial_port (do_port opts)) with
               | Some e => Some (Some x, Err (ErrWrap msg e), release c w1)
               | None => let '(conn, w1) := acquire w1 in Some (Some x, Ok (WebConn c conn (dial_port (do_port opts))), w1)
               end
     end) = Some (cl, r, w') ->
    match r with
    | Err _ => w_open w' = w_open w
    | Ok c => w_open (conn_close c w') = w_open w /\ pingUntil rounds = Some None /\ wcn_port c = dial_port (do_port opts) /\
              exists x, cl = Some x /\ dial x (wcn_port c) = None
    end) as Hrun.
  { intros x msg. destruct (acquire w) as [c w1] eqn:Ea. pose proof (socket_closed _ _ _ Hf Ea) as Hc.
    destruct (pingUntil rounds) as [[e|]|]; cbn [mbind option_bind]; [by intros [= _ <- <-]| |done].
    destruct (dial x _) as [e|] eqn:Ed; [by intros [= _ <- <-]|]. destruct (acquire w1) as [conn w2] eqn:Ea2. intros [= <- <- <-].
    split_and!; [|done|done|by exists x]. unfold conn_close. cbn [wcn_client wcn_conn].
    assert (forall i, i ∈ w_open w1 -> (i < w_next w1)%nat) as Hf1.
    { injection Ea as <- <-. cbn. intros i [->%elem_of_singleton|Hi]%elem_of_union; [lia|]. specialize (Hf _ Hi). lia. }
    pose proof (socket_closed _ _ _ Hf1 Ea2) as Hc2. cbn [release w_open] in *. rewrite Hc2. exact Hc. }
  destruct (has_prefix _ _); apply Hrun.
Qed.

(** The loop ends with the first ping that succeeds, or with the first that fails after the
    context has ended. *)
Lemma ping_until_spec rounds :
  pingUntil rounds = Some None <->
  exists i late, rounds !! i = Some (None, late) /\ forall j, (j < i)%nat -> exists e, rounds !! j = Some (Some e, false).
Proof.
  induction rounds as [|[[e|] late] rounds IH]; cbn [pingUntil]; [split; [done|]; by intros (i & ? & Hi & _)| |].
  - destruct late.
    + split; [done|]. intros (i & late & Hi & Hp). destruct i as [|i]; [done|]. by destruct (Hp 0%nat ltac:(lia)) as [? [= ]].
    + rewrite IH. split; intros (i & late & Hi & Hp).
      * exists (S i), late. split; [done|]. intros [|j] Hj; [by exists e|]. apply Hp. lia.
      * destruct i as [|i]; [done|]. exists i, late. split; [done|]. intros j Hj. apply (Hp (S j)). lia.
  - split; [|done]. intros _. exists 0%nat, late. split; [done|lia].
Qed.
End web_properties.

(** What a page collects that reads until it gets null. *)
Fixpoint collect (reads : list js_read) : option (list byte) :=
  match reads with
  | JSData b :: reads => app b <$> collect reads
  | JSNull :: _ => Some []
  | _ => None
  end.

(** It collects exactly the stream's bytes. *)
Lemma page_reads_all chunks :
  Forall (fun b => b <> []) chunks -> collect (conn_read <$> ((fun b => (b, None)) <$> chunks) ++ [([], Some IOEOF)]) = Some (concat chunks).
Proof.
  induction 1 as [|b chunks Hb _ IH]; [done|]. destruct b as [|x b]; [done|]. cbn [fmap list_fmap app conn_read collect concat] in *.
  by rewrite IH.
Qed.

(** A port that does not fit into 16 bits is dialled as another one. *)
Lemma dial_port_wraps p : 0 <= p < 65536 -> dial_port (Some p) = p /\ dial_port (Some (p + 65536)) = p.
Proof. intros Hp. cbn. unfold u16. change (2 ^ 16) with 65536. split; [by apply Z.mod_small|]. rewrite <- (Z.mod_small p 65536 Hp) at 2. by rewrite <- (Z.mod_add p 1 65536). Qed.
